(* ===== verification/_CoqProject ===== *)
-Q . S2P
Prelude.v
Float32.v
RateSpec.v
Split.v
Json.v
Assert.v
DataGen.v
Template.v
TestsData.v
HttpTypes.v
Pool.v
PoolSpec.v
UrlParams.v
Providers.v
Jobs.v
Primary.v
Cycle.v
Metrics.v
RequestFuture.v
Secondary.v
Sessions.v
Job.v
Health.v
Starvation.v
Upload.v
FileNames.v
Api.v
Serde.v
Codec.v
Accepted.v
TestsRequests.v
TestsProviders.v
TestsRun.v
Warp.v
Routes.v
Service.v
Forward.v
EndToEnd.v
TestsRoutes.v
Startup.v
