(* ===== verification/Prelude.v ===== *)
(** * Overload: a verified model of the load generator

    Overload is a distributed HTTP load generator.  A client posts a test (a target, a
    rate of requests and of connections per second, a source of requests, assertions on
    the responses); the test runs as a job, on one process (standalone) or on a cluster, in
    which the primary divides the work and the secondaries send the requests.

    ** How the parts interact

    The handlers of the HTTP interface check a test, give it an id and start the executor
    of the primary.  Once per second the executor takes a pair (requests, connections) from
    the rate generator, divides it, and sends the shares to the secondaries; the protocol
    of a session is metadata, request, then rates and resets, then the end.  A secondary
    takes the rates in its message loop, and spends each second in a sending cycle: it
    resizes its connection pool, takes connections, asks the request provider for as many
    requests, and sends them as futures that count the request, observe the response and
    check the assertions.  Pools outlive a session, so that a new session of the job can
    go on with the pool of one that was cut off.

    ** Files

    Each file has one component; the paths are those of the crates under [src/].

    - [Prelude]: results, panics ([outcome]), wrap-around of machine integers, sorting by
      key; the shared tactics, hints and lemmas.
    - [Float32]: the [f32] operations of the program, as IEEE binary32 ([SpecFloat]).
    - [RateSpec]: [overload-http/src/rate_spec.rs], [cluster-executor/src/rate_spec.rs] and
      [RequestGenerator]; the trait [RateScheme] is a class with one instance per scheme.
    - [Split]: [split_ranges] and [calculate_req_per_secondary].
    - [Json]: the documents of JSON texts and [serde_json::Value] ([normalise]), the
      textual form of integers, strings.
    - [Assert]: [response-assert/src/lib.rs], and [lua-helper/src/lib.rs] around Lua.
    - [DataGen]: [datagen/src/lib.rs], schemas and the data made from them.
    - [Template]: [datagen/src/template.rs].
    - [HttpTypes]: the types of [overload-http] and what deserialising does with them.
    - [Pool]: [QueuePool] of [cluster-executor/src/connection.rs], its spawned tasks and
      its metrics, as a transition system ([pool_step]).
    - [PoolSpec]: an abstract pool of leases, which [Pool] refines.
    - [UrlParams]: parameters in URLs, with the [BinaryHeap] they are kept in.
    - [Providers]: [cluster-executor/src/request_providers.rs]; [RequestProvider] is the
      interface the sending cycle uses, [ProviderTotal] what it promises.
    - [Jobs]: the job table, and the checks and handlers of [overload/src/overload/] that
      a standalone process uses.
    - [Primary]: [primary.rs], [standalone.rs] and [split_request.rs] of [cluster-executor].
    - [Cycle]: one second of load in [cluster-executor/src/secondary.rs].
    - [Metrics]: [overload-metrics/src/lib.rs]; the prometheus registry is an interface
      with laws ([PromRegistry], [PromRegistryLaws]).
    - [RequestFuture]: [HttpRequestFuture] of [cluster-executor/src/lib.rs].
    - [Secondary]: the sessions of [cluster-executor/src/secondary.rs].
    - [Sessions]: the interleaving of several sessions of one job on a secondary.
    - [Job]: a job from end to end: generator, primary and the sessions of the
      secondaries together.
    - [Health]: a second, a session and a whole job for which nothing goes wrong, in both
      generation modes.
    - [Starvation]: what a batch task that panics does to the rest of its session.
    - [Upload]: request files: upload, names, download.
    - [FileNames]: the paths of request files.
    - [Api]: the handlers of a node of a cluster ([overload/src/overload/cluster/]), which
      answer themselves or pass a request on to the primary, and the JSON of the replies.
    - [Serde]: the code that serde derives, over the documents of [Json]: structs (a
      repeated field is an error), enums, defaults, containers ([codec]).
    - [Codec]: one codec per type of a test.
    - [Accepted]: what is true of a test that was accepted.
    - [Warp]: the filters of warp as an interface with laws ([Warp], [WarpLaws]), and an
      instance that meets them.
    - [Routes]: [overload/src/filters.rs], [filters_cluster.rs] and [filters_common.rs]: the
      routes, and the handlers behind them with their replies.
    - [Service]: nodes that talk to each other through [Routes] and [Api].
    - [Forward]: a test that is passed on to the primary, with the JSON of [Codec].
    - [EndToEnd]: from the body of a posted test to the requests that are sent for it, on a
      standalone process and on a cluster.
    - [TestsData], [TestsRequests], [TestsProviders], [TestsRun]: the unit tests of the
      crates, run on the model.
    - [TestsRoutes]: the tests of [overload/src/filters.rs], run on the whole process.
    - [Startup]: [overload/src/main.rs].

    ** Conventions

    A struct is a record, an enum an inductive type; [Result] is [result], a panic is
    [Panic].  Arithmetic on machine integers is written with its width ([+u32],
    [-usize]) and wraps, as in a release build.  Instants are integers of a monotonic
    clock.  What a library or another task decides (the network, hyper, SQLite, Lua,
    rhai, random numbers, the scheduling of tasks) is an argument, so that a theorem holds
    for every choice; where the code relies on something, a hypothesis or a class says so
    and a concrete instance shows that it can be met.  Log output is left out.

    ** What is shown

    - From end to end ([EndToEnd]): a test that is posted to a standalone process, or to a
      node of a cluster that passes it on to the primary, is answered with the id of its
      job, which is started under that id.  When nothing disturbs the job (what that
      means is spelled out by [session_healthy] of [Health]), a standalone process sends
      in every second of the duration exactly the requests of its rate, and the secondaries
      of a cluster together send exactly the sum of the rates, in immediate and in batch
      mode.
    - The whole service ([Service], [Forward]): for stop and status requests a cluster
      whose nodes agree on the primary refines one standalone process; a printable test that
      is passed on arrives as the same test, keeps its id and is started once; a file that
      was uploaded is what a secondary downloads, byte for byte, when it prepares a session.
    - Tests ([Codec], [Accepted]): every test that is accepted is well formed, and a
      printable one is written as JSON and read again as the same test; an example shows an
      accepted test that is not printable.
    - A whole job ([Job]): whatever fails, all secondaries together never send more than the
      generator's rates add up to; a constant test at most duration times rate.  When
      nothing goes wrong they send exactly that many, and every session returns ([Health]);
      a batch task that panics with all connections of a pool silences its session
      ([Starvation]).
    - The HTTP interface ([Routes], [Startup]): exactly which requests the routes accept,
      for every implementation that meets [WarpLaws]; which statuses the replies have and
      when a handler panics; the bounds of the configuration.
    - The pool ([Pool]): in every interleaving, lock by lock, of the pool's operations and
      tasks no connection carries more requests than its keep-alive allows, and the busy
      count is exact; a request enforces the size of the pool.  [PoolSpec] states the pool's
      contract as a machine that lends connections, and a simulation shows that the pool
      does nothing that this machine cannot do.
    - The primary ([Primary]): whatever fails on the network, every secondary gets the
      messages of the protocol in order; the shares of a rate add up to it, the shares of
      the senders that are reported as failed included; a job that was stopped goes quiet
      within four turns.
    - The secondary ([Secondary]): it understands every primary that keeps to the
      protocol, every session leaves sound pools, a new session gets the pool of one that
      was cut off, and the end of a job cleans up.  The pool's theorem carries over a
      session because a cycle only takes steps of the pool ([pool_steps]).  [Sessions]:
      in every interleaving of the sessions of a job, one initialising at a time, the job
      has one pool, and a session that was notified finds it; the functions of [Secondary]
      are runs of these steps.
    - The sending cycle ([Cycle]): it ends, never sends more than the rate, and once it has
      entered its loop gives up only when the second is over, in both modes and for every
      provider that meets [ProviderTotal]; all five sources of requests do, once they are ready.
    - One request ([RequestFuture]): counted exactly once under one status, and it
      completes.  [Metrics]: the registry is in step with the jobs, also under the race
      between the two locks of creating metrics (removing them has a race of its own).
    - Rates ([RateSpec], [Split]): the exact set of accepted steps, the staircase they
      give, the length of the generator's stream, and ranges that partition the file.
    - Data ([DataGen], [Template], [UrlParams], [Providers], [Upload], [HttpTypes],
      [Assert]): schemas and status queries read back as they were printed, data generated
      from a supported schema conforms to it, patterns included, templates are recorded
      exactly and their results put exactly in their place, a split file is handed out in a
      circle, an uploaded file is read back row by row, and the assertion loop agrees with judging each assertion on its own.
    - Jobs ([Jobs]): every operation of the job table is the operation of the same name on a
      finite map; paging, stopping, cleaning up and job ids.
    - Tests ([TestsData], [TestsRequests], [TestsProviders], [TestsRun], [TestsRoutes]): the
      model passes the tests of the repository, for all random numbers, ids and orders of
      iteration that the tests leave open, but for one test that may fail and one that
      cannot pass.
    - Defects: theorems that show where the code does not do what it means to are kept
      beside the component, with a concrete instance.

    ** Fuel and bounds

    A cycle runs over a list of turns, one per iteration.  In immediate mode 1002 turns are
    enough, as every iteration but the last sleeps at least a millisecond of the second; in
    batch mode the rate and 1002 more, as an iteration sends a request or sleeps.  The
    loop that repeats requests needs 2 n + 1 steps for n connections, the loop over a split
    file n steps for n rows; the executor's loop is structural on the generator's stream,
    the request future on the list of polls, the message loop on the messages received.
    Theorems about termination state that these amounts are enough.

    ** What is not modelled

    Election and membership are the external crate [cluster-mode], of which the handlers
    only ask questions ([ClusterView]); warp is an interface; the text of JSON, hyper,
    SQLite, Lua, rhai, the regex generator and the JSON path engine are arguments.  The
    adaptors between the stream types of warp, hyper and tokio pass their items on and are
    left out, as is what only prints or logs.  Of the tests those
    that need SQLite files, Lua, a cluster in one process or the wall clock are left out. *)
From Stdlib Require Import ZArith Lia Sorted.
From stdpp Require Import base list gmap strings numbers.

Local Open Scope Z_scope.

(** ** Rust control flow *)

(** [Result<A, E>]. *)
Inductive result (E A : Type) : Type :=
| Ok (a : A)
| Err (e : E).
Arguments Ok {E A} a.
Arguments Err {E A} e.

#[export] Instance result_ret {E} : MRet (result E) := λ A a, Ok a.
#[export] Instance result_bind {E} : MBind (result E) :=
  λ A B f r, match r with Ok a => f a | Err e => Err e end.
#[export] Instance result_fmap {E} : FMap (result E) :=
  λ A B f r, match r with Ok a => Ok (f a) | Err e => Err e end.

#[export] Instance result_eq_dec {E A} `{EqDecision E, EqDecision A} : EqDecision (result E A).
Proof. solve_decision. Defined.

Definition is_ok {E A} (r : result E A) : bool :=
  match r with Ok _ => true | Err _ => false end.

(** [opt.ok_or(e)]. *)
Definition ok_or {E A} (e : E) (o : option A) : result E A :=
  match o with Some a => Ok a | None => Err e end.

(** A computation that may panic (an [unwrap] of [None], a division by zero,
    an explicit [panic!]). *)
Inductive outcome (A : Type) : Type :=
| Val (a : A)
| Panic.
Arguments Val {A} a.
Arguments Panic {A}.

#[export] Instance outcome_ret : MRet outcome := λ A a, Val a.
#[export] Instance outcome_bind : MBind outcome :=
  λ A B f r, match r with Val a => f a | Panic => Panic end.
#[export] Instance outcome_fmap : FMap outcome :=
  λ A B f r, match r with Val a => Val (f a) | Panic => Panic end.

#[export] Instance outcome_eq_dec {A} `{EqDecision A} : EqDecision (outcome A).
Proof. solve_decision. Defined.

(** [opt.unwrap()]. *)
Definition unwrap {A} (o : option A) : outcome A :=
  match o with Some a => Val a | None => Panic end.

(** [result.unwrap()]. *)
Definition unwrap_ok {E A} (r : result E A) : outcome A :=
  match r with Ok a => Val a | Err _ => Panic end.

(** [assert!(b)]. *)
Definition assert_that (b : bool) : outcome unit := if b then Val tt else Panic.

(** ** Machine integers

    Integers are kept in [Z].  The program is built in the release profile, so
    an overflowing [+], [-], [*] wraps around: [wrap w] for an unsigned
    [w]-bit type, [swrap w] for a signed one. *)
Declare Scope rust_scope.
Delimit Scope rust_scope with rust.

Abbreviation u8_MAX := 255%Z.
Abbreviation u16_MAX := 65535%Z.
Abbreviation u32_MAX := 4294967295%Z.
Abbreviation u64_MAX := 18446744073709551615%Z.
Abbreviation usize_MAX := 18446744073709551615%Z.
Abbreviation i32_MAX := 2147483647%Z.
Abbreviation i64_MAX := 9223372036854775807%Z.
Abbreviation i64_MIN := (-9223372036854775808)%Z.

Definition wrap (w x : Z) : Z := x mod 2 ^ w.
Definition swrap (w x : Z) : Z :=
  let y := x mod 2 ^ w in if y <? 2 ^ (w - 1) then y else y - 2 ^ w.

Notation "x +u32 y" := (wrap 32 (x + y)) (at level 50, left associativity) : rust_scope.
Notation "x *u32 y" := (wrap 32 (x * y)) (at level 40, left associativity) : rust_scope.
Notation "x -u32 y" := (wrap 32 (x - y)) (at level 50, left associativity) : rust_scope.
Notation "x +usize y" := (wrap 64 (x + y)) (at level 50, left associativity) : rust_scope.
Notation "x -usize y" := (wrap 64 (x - y)) (at level 50, left associativity) : rust_scope.
Notation "x -i32 y" := (swrap 32 (x - y)) (at level 50, left associativity) : rust_scope.

Lemma wrap_id w x : 0 <= x < 2 ^ w → wrap w x = x.
Proof. apply Z.mod_small. Qed.

Lemma wrap_range w x : 0 <= w → 0 <= wrap w x < 2 ^ w.
Proof. intros Hw. apply Z.mod_pos_bound. lia. Qed.

Lemma swrap_id w x : 1 <= w → - 2 ^ (w - 1) <= x < 2 ^ (w - 1) → swrap w x = x.
Proof.
  intros Hw Hx. unfold swrap.
  assert (H2 : 2 ^ w = 2 * 2 ^ (w - 1)).
  { replace w with (Z.succ (w - 1)) at 1 by lia. apply Z.pow_succ_r. lia. }
  destruct (decide (0 <= x)).
  - rewrite Z.mod_small by lia. destruct (Z.ltb_spec x (2 ^ (w - 1))); lia.
  - replace (x mod 2 ^ w) with (x + 2 ^ w).
    + destruct (Z.ltb_spec (x + 2 ^ w) (2 ^ (w - 1))); lia.
    + apply (Z.mod_unique_pos _ _ (-1)); lia.
Qed.

(** ** Lists *)

(** [v.len()] *)
Definition len {A} (l : list A) : Z := Z.of_nat (length l).

Lemma len_nonneg {A} (l : list A) : 0 <= len l.
Proof. unfold len. lia. Qed.

Lemma len_nil_inv {A} (l : list A) : len l = 0 → l = [].
Proof. destruct l; unfold len; simpl; [done|lia]. Qed.

Lemma len_cons {A} (x : A) l : len (x :: l) = 1 + len l.
Proof. unfold len. simpl. lia. Qed.

Lemma len_app {A} (l1 l2 : list A) : len (l1 ++ l2) = len l1 + len l2.
Proof. unfold len. rewrite length_app. lia. Qed.

Lemma len_fmap {A B} (f : A → B) (l : list A) : len (f <$> l) = len l.
Proof. unfold len. by rewrite length_fmap. Qed.

Lemma len_take {A} (l : list A) (n : Z) :
  len (take (Z.to_nat n) l) = Z.min (Z.max 0 n) (len l).
Proof. unfold len. rewrite length_take. lia. Qed.

Lemma len_drop {A} (l : list A) (n : Z) :
  len (drop (Z.to_nat n) l) = Z.max 0 (len l - Z.max 0 n).
Proof. unfold len. rewrite length_drop. lia. Qed.

Definition sumZ (l : list Z) : Z := foldr Z.add 0 l.

Lemma sumZ_cons x l : sumZ (x :: l) = x + sumZ l.
Proof. done. Qed.

Lemma sumZ_nonneg l : Forall (λ x, 0 <= x) l → 0 <= sumZ l.
Proof. induction 1 as [|x l Hx Hl IH]; [done|]. rewrite sumZ_cons. lia. Qed.

(** The sum of a function over a list is bounded by that of a larger function. *)
Lemma sumZ_map_le {A} (f g : A → Z) l : (∀ x, x ∈ l → f x <= g x) → sumZ (map f l) <= sumZ (map g l).
Proof.
  induction l as [|x l IH]; intros H; [done|]. cbn [map]. rewrite !sumZ_cons.
  specialize (IH (λ y Hy, H y (list_elem_of_further y x l Hy))). specialize (H x (list_elem_of_here x l)). lia.
Qed.

Lemma sumZ_app l1 l2 : sumZ (l1 ++ l2) = sumZ l1 + sumZ l2.
Proof. induction l1 as [|x l1 IH]; simpl; [done|]. rewrite IH. lia. Qed.

Lemma sumZ_replicate n x : sumZ (replicate n x) = Z.of_nat n * x.
Proof. induction n as [|n IH]; simpl; [done|]. rewrite IH. lia. Qed.

(** [sort_by_key]: Rust's sort is stable, and a stable sort by a key is the
    only list with its elements, its order of keys and its order inside equal
    keys, so insertion sort computes the same list. *)
Fixpoint insert_by_key {A} (key : A → Z) (x : A) (l : list A) : list A :=
  match l with
  | [] => [x]
  | y :: l' => if key x <=? key y then x :: l else y :: insert_by_key key x l'
  end.

Definition sort_by_key {A} (key : A → Z) (l : list A) : list A :=
  foldr (insert_by_key key) [] l.

Lemma insert_by_key_perm {A} (key : A → Z) x l : insert_by_key key x l ≡ₚ x :: l.
Proof.
  induction l as [|y l IH]; simpl; [done|].
  case_match; [done|]. rewrite IH. apply Permutation_swap.
Qed.

Lemma sort_by_key_perm {A} (key : A → Z) l : sort_by_key key l ≡ₚ l.
Proof. induction l as [|x l IH]; simpl; [done|]. by rewrite insert_by_key_perm, IH. Qed.

Lemma length_sort_by_key {A} (key : A → Z) l : length (sort_by_key key l) = length l.
Proof. apply Permutation_length, sort_by_key_perm. Qed.

Lemma insert_by_key_sorted {A} (key : A → Z) x l :
  StronglySorted (λ a b, key a <= key b) l →
  StronglySorted (λ a b, key a <= key b) (insert_by_key key x l).
Proof.
  induction 1 as [|y l Hl IH Hy]; simpl; [repeat constructor|].
  destruct (Z.leb_spec (key x) (key y)) as [Hxy|Hxy].
  - constructor; [by constructor|]. constructor; [done|].
    eapply Forall_impl; [|exact Hy]. simpl. lia.
  - constructor; [done|]. rewrite insert_by_key_perm. constructor; [lia|done].
Qed.

Lemma sort_by_key_sorted {A} (key : A → Z) l :
  StronglySorted (λ a b, key a <= key b) (sort_by_key key l).
Proof. induction l; simpl; [constructor|]. by apply insert_by_key_sorted. Qed.

(** Sorting a list that is sorted leaves it as it is. *)
Lemma sort_by_key_id {A} (key : A → Z) l :
  StronglySorted (λ a b, key a <= key b) l → sort_by_key key l = l.
Proof.
  induction 1 as [|x l Hl IH Hx]; [done|]. cbn [sort_by_key foldr] in *. fold (sort_by_key key l). rewrite IH.
  destruct Hx as [|y l Hy]; [done|]. simpl. by rewrite (proj2 (Z.leb_le _ _) Hy).
Qed.

(** [vec.truncate(n)] *)
Definition truncate {A} (n : Z) (l : list A) : list A := take (Z.to_nat n) l.

Lemma omap_fmap {A B C} (f : B → option C) (g : A → B) (l : list A) :
  omap f (g <$> l) = omap (λ x, f (g x)) l.
Proof. induction l as [|x l IH]; [done|]. simpl. destruct (f (g x)); [f_equal|]; exact IH. Qed.

Lemma filter_ext_in {A} (P Q : A → Prop) `{∀ x, Decision (P x), ∀ x, Decision (Q x)} (l : list A) :
  (∀ x, x ∈ l → P x ↔ Q x) → filter P l = filter Q l.
Proof.
  induction l as [|x l IH]; intros HPQ; [done|]. rewrite !filter_cons.
  rewrite IH by (intros y Hy; apply HPQ; by right). specialize (HPQ x ltac:(left)).
  repeat case_decide; naive_solver.
Qed.

Lemma omap_ext_in {A B} (f g : A → option B) (l : list A) :
  (∀ x, x ∈ l → f x = g x) → omap f l = omap g l.
Proof.
  induction l as [|x l IH]; intros H; [done|].
  assert (E : omap f l = omap g l) by (apply IH; intros y Hy; apply H; by right).
  simpl. rewrite (H x) by left. destruct (g x); [f_equal|]; exact E.
Qed.

Lemma forallb_Forall {A} (f : A → bool) l : forallb f l = true ↔ Forall (λ x, f x = true) l.
Proof.
  induction l as [|x l IH]; simpl; [done|].
  by rewrite andb_true_iff, IH, List.Forall_cons_iff.
Qed.

(** ** Automation *)
Create HintDb overload.
Create Rewrite HintDb overload.

#[export] Hint Rewrite @len_cons @len_app @len_fmap @len_take @len_drop : overload.
#[export] Hint Resolve len_nonneg : overload.

(** Turn the boolean tests of the code into the propositions they decide. *)
Ltac bool_simp :=
  repeat match goal with
  | H : (_ && _)%bool = true |- _ => apply andb_true_iff in H as [??]
  | H : (_ || _)%bool = false |- _ => apply orb_false_iff in H as [??]
  | H : negb _ = true |- _ => apply negb_true_iff in H
  | H : negb _ = false |- _ => apply negb_false_iff in H
  | H : (_ <? _) = true |- _ => apply Z.ltb_lt in H
  | H : (_ <? _) = false |- _ => apply Z.ltb_ge in H
  | H : (_ <=? _) = true |- _ => apply Z.leb_le in H
  | H : (_ <=? _) = false |- _ => apply Z.leb_gt in H
  | H : (_ =? _) = true |- _ => apply Z.eqb_eq in H
  | H : (_ =? _) = false |- _ => apply Z.eqb_neq in H
  end.

(** Weaken a [Forall] hypothesis; the pointwise implication is left to [lia]. *)
Ltac forall_weaken H := eapply Forall_impl; try exact H; simpl; intros; try lia.

(** Case on every [match] and [if] in sight, and keep what the tests say. *)
Ltac cases :=
  repeat (first [case_match | case_decide]; simplify_eq/=; bool_simp; try done).
