(* ===== verification/Float32.v ===== *)
(** * [f32]

    The rate arithmetic of the program is done in [f32].  The Standard Library's
    [SpecFloat] gives IEEE 754 arithmetic with round-to-nearest-even at any
    precision; [f32] is precision 24, maximal exponent 128.  Only what the
    program uses is here: integer conversions, [*], [/], [-], [ceil], [floor] and
    the saturating casts [as u32] / [as u64]. *)
From Stdlib Require Import ZArith Lia.
From Corelib Require Import SpecFloat.
From stdpp Require Import base list numbers.
From S2P Require Import Prelude.

Local Open Scope Z_scope.

Abbreviation f32 := spec_float.

#[export] Instance spec_float_eq_dec : EqDecision spec_float.
Proof. solve_decision. Defined.

(** [n as f32] for an integer [n]: the nearest [f32]. *)
Definition f32_of_Z (n : Z) : f32 := binary_normalize 24 128 n 0 false.

Definition f32_mul (x y : f32) : f32 := SFmul 24 128 x y.
Definition f32_div (x y : f32) : f32 := SFdiv 24 128 x y.
Definition f32_sub (x y : f32) : f32 := SFsub 24 128 x y.

(** The literal [0.1_f32]: 13421773 * 2^-27. *)
Definition f32_0_1 : f32 := S754_finite false 13421773 (-27).

(** Rounding a finite float to an integer float, upwards or downwards.  The
    sign of a zero result is the operand's. *)
Definition f32_round_int (up : bool) (x : f32) : f32 :=
  match x with
  | S754_finite s m e =>
      if 0 <=? e then x
      else
        let d := 2 ^ (- e) in
        let q := Z.pos m / d in
        let exact := Z.pos m mod d =? 0 in
        (* magnitudes grow when rounding away from zero *)
        let away := if s then negb up else up in
        let n := if exact then q else if away then q + 1 else q in
        binary_normalize 24 128 (if s then - n else n) 0 s
  | _ => x
  end.

Definition f32_ceil (x : f32) : f32 := f32_round_int true x.
Definition f32_floor (x : f32) : f32 := f32_round_int false x.

(** [x as uN], saturating at [max]: truncation towards zero, NaN and negative
    values give 0. *)
Definition f32_as_unsigned (max : Z) (x : f32) : Z :=
  match x with
  | S754_finite true _ _ | S754_zero _ | S754_nan | S754_infinity true => 0
  | S754_infinity false => max
  | S754_finite false m e =>
      Z.min max (if 0 <=? e then Z.pos m * 2 ^ e else Z.pos m / 2 ^ (- e))
  end.

Definition f32_as_u32 (x : f32) : Z := f32_as_unsigned u32_MAX x.
Definition f32_as_u64 (x : f32) : Z := f32_as_unsigned u64_MAX x.

Lemma f32_as_unsigned_range max x : 0 <= max → 0 <= f32_as_unsigned max x <= max.
Proof.
  intros Hm. unfold f32_as_unsigned.
  destruct x as [[]|[]| |[] m e]; try lia.
  assert (0 <= if 0 <=? e then Z.pos m * 2 ^ e else Z.pos m / 2 ^ (- e)); [|lia].
  case_match; bool_simp; [lia|]. apply Z.div_pos; [lia|]. apply Z.pow_pos_nonneg; lia.
Qed.

Lemma f32_as_u32_range x : 0 <= f32_as_u32 x <= u32_MAX.
Proof. by apply f32_as_unsigned_range. Qed.

(** A finite float. *)
Definition f32_finite (x : f32) : bool :=
  match x with S754_zero _ | S754_finite _ _ _ => true | _ => false end.

(** [x * 0.0] rounds to a zero for finite [x]. *)
Lemma f32_mul_0_r x : f32_finite x = true → f32_as_u32 (f32_ceil (f32_mul x (f32_of_Z 0))) = 0.
Proof. by destruct x as [[]|[]| |[] m e]. Qed.

#[export] Hint Resolve f32_as_u32_range : overload.

Example f32_ceil_1_5 : f32_as_u32 (f32_ceil (f32_mul (S754_finite false 12582912 (-23)) (f32_of_Z 3))) = 5.
Proof. reflexivity. Qed.
Example f32_third : f32_div (f32_of_Z 1) (f32_of_Z 3) = S754_finite false 11184811 (-25).
Proof. reflexivity. Qed.

(** ** Conversions between [f32] and [f64] *)

Definition f64_of_Z (n : Z) : spec_float := binary_normalize 53 1024 n 0 false.

(** [x as f64] for an [f32], which is exact, and [x as f32] for an [f64], which rounds. *)
Definition convert (prec emax : Z) (x : spec_float) : spec_float :=
  match x with S754_finite s m e => binary_round prec emax s m e | _ => x end.

Definition f64_of_f32 : f32 → spec_float := convert 53 1024.
Definition f32_of_f64 : spec_float → f32 := convert 24 128.

Lemma digits2_shift m k : Z.pos (digits2_pos (Pos.iter xO m k)) = Z.pos (digits2_pos m) + Z.pos k.
Proof.
  induction k as [|k IH] using Pos.peano_ind; [simpl; lia|].
  rewrite Pos.iter_succ. simpl. lia.
Qed.

Lemma iter_pos_iter {A} (f : A → A) n x : SpecFloat.iter_pos f n x = Pos.iter f x n.
Proof.
  revert x. induction n as [n IH|n IH|]; intros x; simpl; [|by rewrite !IH|done]. rewrite !IH.
  by rewrite !Pos.iter_swap.
Qed.

(** Shifting right what was shifted left loses nothing. *)
Lemma shr_shift m k :
  Pos.iter shr_1 (Build_shr_record (Z.pos (Pos.iter xO m k)) false false) k = Build_shr_record (Z.pos m) false false.
Proof.
  induction k as [|k IH] using Pos.peano_ind; [done|].
  rewrite !Pos.iter_succ, <- Pos.iter_swap. exact IH.
Qed.

(** A mantissa that fits is kept as it is, also when it comes shifted by [k] bits. *)
Definition shifted (m : positive) (k : Z) : positive :=
  match k with Z.pos k => Pos.iter xO m k | _ => m end.

Lemma shifted_digits m k :
  0 <= k → Z.pos (digits2_pos (shifted m k)) = Z.pos (digits2_pos m) + k.
Proof. intros Hk. destruct k as [|k|k]; simpl; [lia|apply digits2_shift|lia]. Qed.

Lemma round_aux_exact prec emax s m e k :
  0 <= k → bounded prec emax m e = true →
  binary_round_aux prec emax s (Z.pos (shifted m k)) (e - k) loc_Exact = S754_finite s m e.
Proof.
  intros Hk [Hc He]%andb_true_iff. unfold canonical_mantissa in Hc. apply Z.eqb_eq in Hc.
  assert (Hs : shr_fexp prec emax (Z.pos (shifted m k)) (e - k) loc_Exact =
               (Build_shr_record (Z.pos m) false false, e)).
  { unfold shr_fexp. cbn [Zdigits2 shr_record_of_loc]. rewrite shifted_digits by done.
    replace (Z.pos (digits2_pos m) + k + (e - k)) with (Z.pos (digits2_pos m) + e) by lia.
    rewrite Hc. replace (e - (e - k)) with k by lia. destruct k as [|k|k]; cbn [shr shifted]; [|..].
    - f_equal. lia.
    - rewrite iter_pos_iter, shr_shift. f_equal. lia.
    - lia. }
  unfold binary_round_aux. rewrite Hs. cbn [shr_m loc_of_shr_record round_nearest_even].
  unfold shr_fexp. cbn [Zdigits2 shr_record_of_loc]. rewrite Hc, Z.sub_diag. cbn [shr shr_m]. by rewrite He.
Qed.

(** An [f32] is an [f64]. *)
Lemma f32_f64_round_trip x : valid_binary 24 128 x = true → f32_of_f64 (f64_of_f32 x) = x.
Proof.
  destruct x as [s|s| |s m e]; try done. cbn [valid_binary]. intros Hb.
  pose proof Hb as [Hc He]%andb_true_iff. unfold canonical_mantissa, fexp, emin in Hc.
  apply Z.eqb_eq in Hc. apply Z.leb_le in He. set (d := Z.pos (digits2_pos m)) in *.
  assert (Hd : 1 <= d) by (unfold d; lia).
  set (k := e - fexp 53 1024 (d + e)).
  assert (Hk : 0 < k) by (unfold k, fexp, emin; lia).
  assert (Hr : binary_round 53 1024 s m e = S754_finite s (shifted m k) (e - k)).
  { unfold binary_round, shl_align. fold d. replace (fexp 53 1024 (d + e) - e) with (- k) by (unfold k; lia).
    destruct k as [|k'|k'] eqn:Ek; [lia| |lia]. cbn [Z.opp].
    replace (fexp 53 1024 (d + e)) with (e - k) by lia.
    pose proof (round_aux_exact 53 1024 s (shifted m k) (e - k) 0) as H.
    rewrite Z.sub_0_r in H. cbn [shifted] in H. rewrite Ek in H |- *. cbn [shifted] in H |- *. apply H; [lia|].
    unfold bounded, canonical_mantissa. rewrite digits2_shift. fold d. rewrite andb_true_iff, Z.eqb_eq, Z.leb_le.
    replace (d + Z.pos k' + (e - Z.pos k')) with (d + e) by lia. rewrite <- Ek. unfold k, fexp, emin in *. lia. }
  unfold f64_of_f32, f32_of_f64. cbn [convert]. rewrite Hr. cbn [convert]. unfold binary_round, shl_align.
  rewrite shifted_digits by lia. fold d.
  replace (fexp 24 128 (d + k + (e - k)) - (e - k)) with k by (unfold fexp, emin in *; lia).
  destruct k as [|k'|k'] eqn:Ek; [lia| |lia]. rewrite <- Ek. by apply round_aux_exact; [lia|].
Qed.
