(* ===== verification/RateSpec.v ===== *)
(** * Rate specifications and the rate generator

    [overload-http/src/rate_spec.rs] (the specifications and their validation),
    [cluster-executor/src/rate_spec.rs] (the rate at the n-th second) and
    [RequestGenerator] of [cluster-executor/src/lib.rs] (the stream of
    (QPS, connection count) pairs). *)
From Stdlib Require Import ZArith Lia Sorted.
From Corelib Require Import SpecFloat.
From stdpp Require Import base list numbers strings.
From S2P Require Import Prelude Float32.

Local Open Scope Z_scope.
Local Open Scope rust_scope.

(** ** The specifications *)

Record ConstantRate := { cr_count_per_sec : Z }.
Record ArraySpec := { as_count_per_sec : list Z }.
Record Bounded := { bounded_max : Z }.
Record Elastic := { elastic_max : Z }.
Record Linear := { linear_a : f32; linear_b : Z; linear_max : Z }.
Record Step := { step_start : Z; step_end : Z; step_rate : Z }.
Record Steps := { current_step : nat; steps : list Step }.

Definition bounded_default : Bounded := {| bounded_max := 500 |}.
Definition elastic_default : Elastic := {| elastic_max := u16_MAX |}.

#[export] Instance Step_eq_dec : EqDecision Step.
Proof. solve_decision. Defined.

(** ** Validation ([TryFrom] of the serde shadow types) *)

Inductive rate_error :=
| StartGeEnd (start end_ : Z)
| NoSteps
| SingleStep
| StepsNotFromZero (start : Z)
| StepsNotContinuous (prev next start : Z).

(** [StepShadowType] has the fields of [Step], unchecked. *)
Definition step_try_from (value : Step) : result rate_error Step :=
  if step_end value <=? step_start value
  then Err (StartGeEnd (step_start value) (step_end value))
  else Ok {| step_start := step_start value;
             step_end := step_end value;
             step_rate := step_rate value |}.

(** The loop that checks that each step starts right after the previous one;
    [prev + 1] is a [u32] addition. *)
Fixpoint check_continuity (prev : Z) (iter : list Step) : result rate_error unit :=
  match iter with
  | [] => Ok tt
  | current :: iter' =>
      if negb (prev +u32 1 =? step_start current)
      then Err (StepsNotContinuous prev (prev +u32 1) (step_start current))
      else check_continuity (step_end current) iter'
  end.

Definition steps_try_from (value : list Step) : result rate_error Steps :=
  match value with
  | [] => Err NoSteps
  | _ =>
      if len value =? 1 then Err SingleStep
      else
        let sorted := sort_by_key step_start value in
        match sorted with
        | [] => Err NoSteps
        | first :: iter =>
            if negb (step_start first =? 0) then Err (StepsNotFromZero (step_start first))
            else
              _ ← check_continuity (step_end first) iter;
              Ok {| current_step := 0; steps := sorted |}
        end
  end.

(** ** The rate at the n-th second *)

(** [trait RateScheme]: the rate for second [nth], and the updated scheme. *)
Class RateScheme (T : Type) := rate_next : T → Z → option Z → Z * T.

#[export] Instance constant_next : RateScheme ConstantRate := λ self _nth _last_qps,
  (cr_count_per_sec self, self).

#[export] Instance array_next : RateScheme ArraySpec := λ self nth _last_qps,
  let n := len (as_count_per_sec self) in
  (if negb (n =? 0)
   then default 0 (as_count_per_sec self !! Z.to_nat (nth mod n))
   else 0, self).

#[export] Instance bounded_next : RateScheme Bounded := λ self _nth _last_value,
  (bounded_max self, self).

#[export] Instance linear_next : RateScheme Linear := λ self nth _last_qps,
  (Z.min (f32_as_u32 (f32_ceil (f32_mul (linear_a self) (f32_of_Z nth))) +u32 linear_b self)
         (linear_max self), self).

#[export] Instance steps_next : RateScheme Steps := λ self nth _last_qps,
  let x :=
    match steps self !! current_step self with
    | Some step =>
        if (step_start step <=? nth) && (nth <=? step_end step)
        then (step_rate step, false)
        else
          match steps self !! S (current_step self) with
          | None => (match last (steps self) with Some s => step_rate s | None => 0 end, false)
          | Some s => (step_rate s, true)
          end
    | None => (0, false)
    end in
  (fst x,
   if snd x
   then {| current_step := S (current_step self); steps := steps self |}
   else self).

#[export] Instance elastic_next : RateScheme Elastic := λ self _nth _last_qps, (0, self).

(** [Box<dyn RateScheme>] *)
Record BoxRateScheme := box_rate {
  box_type : Type;
  box_impl : RateScheme box_type;
  box_value : box_type
}.
Arguments box_rate {_ _} _.

#[export] Instance box_next : RateScheme BoxRateScheme := λ self nth last_qps,
  let '(v, t) := @rate_next _ (box_impl self) (box_value self) nth last_qps in
  (v, @box_rate _ (box_impl self) t).

(** ** [RequestGenerator] *)

Inductive RateSpecEnum :=
| RateConstant (qps : ConstantRate)
| RateLinear (qps : Linear)
| RateArray (qps : ArraySpec)
| RateSteps (qps : Steps).

Inductive ConcurrentConnectionRateSpec :=
| ConnConstant (spec : ConstantRate)
| ConnLinear (spec : Linear)
| ConnArray (spec : ArraySpec)
| ConnSteps (spec : Steps)
| ConnElastic (spec : Elastic).

Definition box_qps (qps : RateSpecEnum) : BoxRateScheme :=
  match qps with
  | RateConstant q => box_rate q
  | RateLinear q => box_rate q
  | RateArray q => box_rate q
  | RateSteps q => box_rate q
  end.

Definition box_connections (spec : ConcurrentConnectionRateSpec) : BoxRateScheme :=
  match spec with
  | ConnArray s => box_rate s
  | ConnConstant s => box_rate s
  | ConnLinear s => box_rate s
  | ConnElastic s => box_rate s
  | ConnSteps s => box_rate s
  end.

(** The fields the stream reads; the target and the assertions ride along
    unchanged. *)
Record RequestGenerator := {
  rg_duration : Z;
  rg_time_scale : Z;
  rg_total : Z;
  rg_current_count : Z;
  rg_current_qps : Z;
  rg_shared_provider : bool;
  rg_qps_scheme : BoxRateScheme;
  rg_concurrent_connection : BoxRateScheme
}.

Definition request_generator_new (duration : Z) (shared : bool)
    (qps_scheme concurrent_connection : BoxRateScheme) : RequestGenerator :=
  let time_scale := 1 in
  {| rg_duration := duration;
     rg_time_scale := time_scale;
     rg_total := duration *u32 time_scale;
     rg_current_count := 0;
     rg_current_qps := 0;
     rg_shared_provider := shared;
     rg_qps_scheme := qps_scheme;
     rg_concurrent_connection := concurrent_connection |}.

(** [Stream::poll_next]; it is always ready. *)
Definition poll_next (self : RequestGenerator) : option (Z * Z) * RequestGenerator :=
  if rg_total self <=? rg_current_count self then (None, self)
  else
    let current_count := rg_current_count self in
    let '(qps, qps_scheme) := rate_next (rg_qps_scheme self) current_count None in
    let '(conn, conn_scheme) := rate_next (rg_concurrent_connection self) current_count None in
    (Some (qps, conn),
     {| rg_duration := rg_duration self;
        rg_time_scale := rg_time_scale self;
        rg_total := rg_total self;
        rg_current_count := rg_current_count self +u32 1;
        rg_current_qps := rg_current_qps self;
        rg_shared_provider := rg_shared_provider self;
        rg_qps_scheme := qps_scheme;
        rg_concurrent_connection := conn_scheme |}).

(** The items [n] polls deliver, up to the end of the stream. *)
Fixpoint poll_n (n : nat) (self : RequestGenerator) : list (Z * Z) * RequestGenerator :=
  match n with
  | O => ([], self)
  | S n' =>
      match poll_next self with
      | (None, self') => ([], self')
      | (Some item, self') => let '(items, g) := poll_n n' self' in (item :: items, g)
      end
  end.

(** ** Reference semantics *)

(** The rates a scheme gives when it is asked for the seconds [n], [n+1], ... in
    order, which is how the generator asks. *)
Fixpoint rates_from {T} `{RateScheme T} (s : T) (n : Z) (k : nat) : list Z :=
  match k with
  | O => []
  | S k' => let '(v, s') := rate_next s n None in v :: rates_from s' (n + 1) k'
  end.

(** A step covers its seconds, both ends included. *)
Definition step_covers (t : Z) (s : Step) : bool :=
  (step_start s <=? t) && (t <=? step_end s).

(** The documented staircase: the rate of the step that covers second [t]; after
    the last step, the last step's rate. *)
Definition staircase (l : list Step) (t : Z) : Z :=
  match list_find (λ s, step_covers t s = true) l with
  | Some (_, s) => step_rate s
  | None => match last l with Some s => step_rate s | None => 0 end
  end.

(** Steps that follow each other without gap or overlap, from [from] on. *)
Fixpoint contiguous (from : Z) (l : list Step) : Prop :=
  match l with
  | [] => True
  | s :: l' => step_start s = from ∧ step_start s < step_end s ∧ contiguous (step_end s + 1) l'
  end.

(** ** Lemmas *)

Lemma contiguous_app from l1 s l2 :
  contiguous from (l1 ++ s :: l2) →
  contiguous from l1 ∧ contiguous (step_start s) (s :: l2) ∧
  Forall (λ x, step_end x < step_start s) l1 ∧ from <= step_start s.
Proof.
  revert from. induction l1 as [|x l1 IH]; intros from; simpl.
  - intros (Hs & Hlt & Hc). subst from. split_and!; done || lia.
  - intros (Hs & Hlt & Hc). destruct (IH _ Hc) as (? & ? & ? & ?).
    split; [done|]. split; [done|]. split; [|lia]. constructor; [lia|done].
Qed.

Lemma contiguous_sorted from l :
  contiguous from l → StronglySorted (λ a b, step_start a < step_start b) l ∧
  Forall (λ s, from <= step_start s) l.
Proof.
  revert from. induction l as [|x l IH]; intros from; simpl; [by repeat constructor|].
  intros (<- & Hlt & Hc). destruct (IH _ Hc) as [Hs Hf].
  split; constructor; try done; forall_weaken Hf.
Qed.

(** A list sorted by distinct keys is what sorting any permutation of it gives. *)
Lemma sort_by_key_unique {A} (key : A → Z) (l l' : list A) :
  StronglySorted (λ a b, key a < key b) l → l ≡ₚ l' → sort_by_key key l' = l.
Proof.
  intros Hl Hp. pose proof (sort_by_key_sorted key l') as Hs.
  rewrite <- (sort_by_key_perm key l') in Hp.
  generalize dependent (sort_by_key key l'). clear l'.
  induction Hl as [|x l Hl IH Hx]; intros l' Hp Hs.
  - by apply Permutation_nil in Hp.
  - destruct l' as [|y l']; [by symmetry in Hp; apply Permutation_nil_cons in Hp|].
    apply StronglySorted_inv in Hs as [Hs Hy].
    assert (x = y) as ->.
    { assert (Hyin : y ∈ x :: l) by (rewrite Hp; left).
      assert (Hxin : x ∈ y :: l') by (rewrite <- Hp; left).
      apply elem_of_cons in Hyin as [->|Hyin]; [done|].
      apply elem_of_cons in Hxin as [->|Hxin]; [done|].
      rewrite Forall_forall in Hx, Hy.
      specialize (Hx _ Hyin). specialize (Hy _ Hxin). lia. }
    f_equal. apply IH; [|done]. by apply Permutation_cons_inv in Hp.
Qed.

Lemma check_continuity_contiguous prev l :
  0 <= prev < u32_MAX →
  Forall (λ s, step_start s < step_end s ∧ 0 <= step_end s < u32_MAX) l →
  check_continuity prev l = Ok tt ↔ contiguous (prev + 1) l.
Proof.
  intros Hp Hl. revert prev Hp. induction Hl as [|s l [Hse Hb] Hl IH]; intros prev Hp; simpl; [done|].
  rewrite wrap_id by lia.
  destruct (Z.eqb_spec (prev + 1) (step_start s)) as [Heq|Hne]; simpl.
  - rewrite IH by lia. split; [done|]. by intros (_ & _ & ?).
  - split; [done|]. intros (? & _). lia.
Qed.

Lemma list_find_skip t (l1 l2 : list Step) :
  Forall (λ x, step_end x < t) l1 →
  snd <$> list_find (λ s, step_covers t s = true) (l1 ++ l2) =
  snd <$> list_find (λ s, step_covers t s = true) l2.
Proof.
  induction 1 as [|x l1 Hx Hl1 IH]; [done|]. simpl.
  rewrite decide_False by (unfold step_covers; intros ?; bool_simp; lia).
  rewrite <- IH. by destruct (list_find _ (l1 ++ l2)) as [[]|].
Qed.

Lemma staircase_skip t l1 s l2 :
  Forall (λ x, step_end x < t) l1 → staircase (l1 ++ s :: l2) t = staircase (s :: l2) t.
Proof.
  intros Hl1. pose proof (list_find_skip t l1 (s :: l2) Hl1) as Hf. unfold staircase.
  rewrite last_app_cons.
  destruct (list_find _ (l1 ++ _)) as [[? a]|], (list_find _ (s :: l2)) as [[? b]|];
    simpl in Hf; by simplify_eq.
Qed.

Lemma staircase_head t s l :
  step_start s <= t <= step_end s → staircase (s :: l) t = step_rate s.
Proof.
  intros Ht. unfold staircase. simpl. rewrite decide_True; [done|].
  unfold step_covers. apply andb_true_iff. split; apply Z.leb_le; lia.
Qed.

Lemma staircase_after t s : step_end s < t → staircase [s] t = step_rate s.
Proof.
  intros Ht. unfold staircase. simpl.
  rewrite decide_False; [done|]. unfold step_covers. intros ?; bool_simp; lia.
Qed.

(** The cursor of the scheme: it stands on the step of the previous second, and
    the next second is in that step, or is the first one of the next step, or
    there is no next step. *)
Definition steps_cursor (self : Steps) (t : Z) : Prop :=
  ∃ pre cur post,
    steps self = pre ++ cur :: post ∧ current_step self = length pre ∧
    contiguous 0 (steps self) ∧ step_start cur <= t ∧ (t <= step_end cur + 1 ∨ post = []).

Lemma steps_next_staircase self t last_qps :
  steps_cursor self t →
  ∃ self', rate_next self t last_qps = (staircase (steps self) t, self') ∧
           steps self' = steps self ∧ steps_cursor self' (t + 1).
Proof.
  intros (pre & cur & post & Hl & Hc & Hcont & Hst & Hen).
  pose proof Hcont as Hcont'. rewrite Hl in Hcont'.
  apply contiguous_app in Hcont' as (_ & Hcur & Hpre & _). simpl in Hcur.
  assert (Hskip : Forall (λ x, step_end x < t) pre) by (forall_weaken Hpre).
  unfold rate_next, steps_next. rewrite Hl, Hc, list_lookup_middle, staircase_skip by done.
  destruct ((step_start cur <=? t) && (t <=? step_end cur)) eqn:Hin; bool_simp.
  { rewrite staircase_head by lia. exists self. split_and!; [done..|].
    exists pre, cur, post. split_and!; try done; lia. }
  assert (Hgt : step_end cur < t).
  { apply andb_false_iff in Hin as [?|?]; bool_simp; lia. }
  rewrite lookup_app_r by lia. replace (S (length pre) - length pre)%nat with 1%nat by lia.
  destruct post as [|s post]; simpl.
  - rewrite last_snoc, staircase_after by lia. exists self. split_and!; [done..|].
    exists pre, cur, []. split_and!; try done; [lia|by right].
  - destruct Hen as [Hen|?]; [|done]. destruct Hcur as (_ & Hlt & Hs & Hlt' & Hrest).
    change (cur :: s :: post) with ([cur] ++ s :: post).
    rewrite staircase_skip, staircase_head by (lia || by repeat constructor).
    eexists; split_and!; [done..|]. exists (pre ++ [cur]), s, post. simpl.
    rewrite <- app_assoc. split_and!; try done; [|by rewrite <- Hl|lia|left; lia].
    rewrite length_app. simpl. lia.
Qed.

Lemma steps_rates_cursor k self t :
  steps_cursor self t →
  rates_from self t k = map (λ i, staircase (steps self) (t + Z.of_nat i)) (seq 0 k).
Proof.
  revert self t. induction k as [|k IH]; intros self t Hc; [done|].
  destruct (steps_next_staircase self t None Hc) as (self' & Hn & Hl & Hc').
  cbn [rates_from seq map]. rewrite Hn, (IH _ _ Hc'), Hl, Z.add_0_r, <- seq_shift, map_map.
  f_equal. apply map_ext. intros i. f_equal. lia.
Qed.

(** A [u32] step that passed [step_try_from], ending before the largest second. *)
Definition step_in_range (s : Step) : Prop :=
  0 <= step_start s ∧ step_try_from s = Ok s ∧ step_end s < u32_MAX.

Lemma step_in_range_valid s :
  step_in_range s → step_start s < step_end s ∧ 0 <= step_end s < u32_MAX.
Proof. unfold step_in_range, step_try_from. intros (? & ? & ?). cases. lia. Qed.

Lemma steps_try_from_contiguous value s :
  Forall step_in_range value → steps_try_from value = Ok s →
  current_step s = 0%nat ∧ steps s ≡ₚ value ∧ contiguous 0 (steps s) ∧ 2 <= len (steps s).
Proof.
  intros Hv. unfold steps_try_from.
  destruct value as [|v0 value]; [done|]. set (value' := v0 :: value) in *.
  destruct (Z.eqb_spec (len value') 1) as [|Hlen]; [done|].
  pose proof (sort_by_key_perm step_start value') as Hp.
  assert (2 <= len (sort_by_key step_start value')).
  { unfold len in *. rewrite length_sort_by_key. unfold value' in *. simpl in *. lia. }
  destruct (sort_by_key step_start value') as [|first iter] eqn:Hsort; [done|].
  rewrite <- Hp in Hv. apply Forall_cons in Hv as [Hf Hi].
  apply step_in_range_valid in Hf as Hf'.
  destruct (Z.eqb_spec (step_start first) 0) as [H0|]; simpl; [|done].
  destruct (check_continuity _ _) as [[]|] eqn:Hc; [|done]. intros [= <-]. simpl.
  apply check_continuity_contiguous in Hc;
    [|lia|eapply Forall_impl; [exact Hi|apply step_in_range_valid]].
  split_and!; try done; lia.
Qed.

(** ** Properties *)

(** C17: validation accepts a list of steps exactly when some order of them is a
    gapless staircase from second 0 with at least two steps, and then it returns
    the steps in that order with the cursor on the first one.  (Stated for steps
    that end before the largest [u32] second, where [prev + 1] does not wrap.) *)
Theorem steps_validation_exact (value : list Step) (s : Steps) :
  Forall step_in_range value →
  steps_try_from value = Ok s ↔
  current_step s = 0%nat ∧ steps s ≡ₚ value ∧ contiguous 0 (steps s) ∧ 2 <= len (steps s).
Proof.
  intros Hv. split; [by apply steps_try_from_contiguous|].
  destruct s as [c l]; simpl. intros (-> & Hp & Hc & Hlen).
  pose proof (Permutation_length Hp) as Hpl. unfold steps_try_from.
  destruct value as [|v0 value]; [by unfold len in Hlen; rewrite Hpl in Hlen|].
  destruct (Z.eqb_spec (len (v0 :: value)) 1) as [H1|_]; [unfold len in *; lia|].
  rewrite (sort_by_key_unique step_start l) by (done || by eapply contiguous_sorted).
  destruct l as [|first iter]; [by unfold len in Hlen|].
  destruct Hc as (H0 & Hlt & Hc). rewrite H0. simpl.
  rewrite <- Hp in Hv. apply Forall_cons in Hv as [Hf Hi]. apply step_in_range_valid in Hf.
  replace (check_continuity _ _) with (@Ok rate_error unit tt); [done|].
  symmetry. apply check_continuity_contiguous; [lia| |done].
  eapply Forall_impl; [exact Hi|apply step_in_range_valid].
Qed.

(** C20: a validated staircase asked for the seconds 0, 1, 2, ... in order, which
    is how the generator asks, gives at every second the rate of the step that
    covers it, and the last step's rate after the end: the lazily advanced
    cursor implements the documented staircase. *)
Theorem steps_rates_staircase (value : list Step) (s : Steps) (k : nat) :
  Forall step_in_range value → steps_try_from value = Ok s →
  rates_from s 0 k = map (λ i, staircase (steps s) (Z.of_nat i)) (seq 0 k).
Proof.
  intros Hv Hs. apply steps_try_from_contiguous in Hs as (Hc & _ & Hcont & Hlen); [|done].
  rewrite (steps_rates_cursor k s 0); [by apply map_ext|].
  destruct (steps s) as [|cur post] eqn:Hl; [by unfold len in Hlen|].
  exists [], cur, post. rewrite Hl. simpl in *. destruct Hcont as (-> & Hlt & ?).
  split_and!; try done; lia.
Qed.

Definition doc_steps : list Step :=
  [{| step_start := 0; step_end := 5; step_rate := 1 |};
   {| step_start := 9; step_end := 10; step_rate := 3 |};
   {| step_start := 6; step_end := 8; step_rate := 2 |}].

Lemma doc_steps_in_range : Forall step_in_range doc_steps.
Proof.
  repeat (apply Forall_cons; split; [by split_and!|]). constructor.
Qed.

Lemma steps_validation_exact_witness :
  let s := {| current_step := 0; steps := sort_by_key step_start doc_steps |} in
  Forall step_in_range doc_steps ∧ (steps_try_from doc_steps = Ok s ↔
    current_step s = 0%nat ∧ steps s ≡ₚ doc_steps ∧ contiguous 0 (steps s) ∧ 2 <= len (steps s)).
Proof.
  split; [exact doc_steps_in_range|]. apply (steps_validation_exact doc_steps).
  exact doc_steps_in_range.
Defined.

Lemma steps_rates_staircase_witness :
  rates_from {| current_step := 0; steps := sort_by_key step_start doc_steps |} 0 13 =
  [1; 1; 1; 1; 1; 1; 2; 2; 2; 3; 3; 3; 3].
Proof.
  rewrite (steps_rates_staircase doc_steps); [reflexivity|exact doc_steps_in_range|reflexivity].
Defined.

(** In the release profile [prev + 1] wraps, so an overlapping pair of steps
    is accepted when the first one ends at [u32::MAX], although the check means
    to refuse steps that are not continuous. *)
Theorem steps_validation_wraps_at_max :
  ∃ s, steps_try_from [{| step_start := 0; step_end := u32_MAX; step_rate := 1 |};
                       {| step_start := 0; step_end := 5; step_rate := 2 |}] = Ok s ∧
       ~ contiguous 0 (steps s).
Proof. eexists. split; [reflexivity|]. simpl. lia. Qed.

(** A linear rate never exceeds its cap, starts at the intercept (capped), and
    is the documented [min (ceil (a*n) + b) max] whenever the sum fits in [u32]. *)
Theorem linear_next_spec (l : Linear) (nth : Z) :
  0 <= linear_b l <= u32_MAX → 0 <= linear_max l <= u32_MAX →
  let r := fst (rate_next l nth None) in
  let y := f32_as_u32 (f32_ceil (f32_mul (linear_a l) (f32_of_Z nth))) + linear_b l in
  0 <= r <= linear_max l ∧
  (f32_finite (linear_a l) = true → nth = 0 → r = Z.min (linear_b l) (linear_max l)) ∧
  (y <= u32_MAX → r = Z.min y (linear_max l)).
Proof.
  intros Hb Hm r y. unfold r, rate_next, linear_next. simpl. fold y.
  pose proof (wrap_range 32 y ltac:(lia)).
  pose proof (f32_as_u32_range (f32_ceil (f32_mul (linear_a l) (f32_of_Z nth)))).
  split_and!; [lia|lia| |].
  - intros Ha ->. unfold y. rewrite f32_mul_0_r by done. rewrite wrap_id by lia. done.
  - intros Hy. rewrite wrap_id by lia. done.
Qed.

Lemma linear_next_spec_witness :
  let l := {| linear_a := f32_of_Z 2; linear_b := 1; linear_max := 12 |} in
  0 <= linear_b l <= u32_MAX ∧ 0 <= linear_max l <= u32_MAX ∧
  fst (rate_next l 3 None) = 7.
Proof.
  intros l. split; [simpl; lia|]. split; [simpl; lia|].
  destruct (linear_next_spec l 3 ltac:(simpl; lia) ltac:(simpl; lia)) as (_ & _ & H).
  rewrite H; [reflexivity|]. vm_compute. congruence.
Defined.

(** The documented example ([a = 2], [b = 1], [max = 12], ten seconds) gives
    1, 3, 5, 7, 9, 11, 12, 12, 12, 12; and with a steep slope the [u32] sum
    wraps: a rate that should sit at its cap of 1000000 drops to 9. *)
Theorem linear_example_and_overflow :
  rates_from {| linear_a := f32_of_Z 2; linear_b := 1; linear_max := 12 |} 0 10 =
    [1; 3; 5; 7; 9; 11; 12; 12; 12; 12] ∧
  rates_from {| linear_a := f32_of_Z 2000000000; linear_b := 10; linear_max := 1000000 |} 0 5 =
    [10; 1000000; 1000000; 9; 9].
Proof. split; reflexivity. Qed.

Lemma rates_from_length (b : BoxRateScheme) t n : length (rates_from b t n) = n.
Proof.
  revert b t. induction n as [|n IH]; intros b t; [done|]. cbn [rates_from]. destruct (rate_next _ _ _).
  simpl. by rewrite IH.
Qed.

Lemma poll_n_zip n g :
  0 <= rg_current_count g <= rg_total g → rg_total g <= u32_MAX →
  let m := Nat.min n (Z.to_nat (rg_total g - rg_current_count g)) in
  fst (poll_n n g) = zip (rates_from (rg_qps_scheme g) (rg_current_count g) m)
                         (rates_from (rg_concurrent_connection g) (rg_current_count g) m) ∧
  (rg_total g - rg_current_count g <= Z.of_nat n → fst (poll_next (snd (poll_n n g))) = None).
Proof.
  revert g. induction n as [|n IH]; intros g Hc Ht; simpl.
  { split; [done|]. intros Hn. unfold poll_next. destruct (Z.leb_spec (rg_total g) (rg_current_count g)); [done|lia]. }
  unfold poll_next at 1 3. destruct (Z.leb_spec (rg_total g) (rg_current_count g)) as [Hle|Hlt].
  { replace (Z.to_nat (rg_total g - rg_current_count g)) with O by lia. simpl. split; [done|].
    intros _. unfold poll_next. destruct (Z.leb_spec (rg_total g) (rg_current_count g)); [done|lia]. }
  replace (Z.to_nat (rg_total g - rg_current_count g))
    with (S (Z.to_nat (rg_total g - (rg_current_count g + 1)))) by lia. simpl.
  destruct (rate_next (rg_qps_scheme g) _ _) as [q qs].
  destruct (rate_next (rg_concurrent_connection g) _ _) as [c cs].
  rewrite wrap_id by lia.
  match goal with |- context [poll_n n ?g'] => specialize (IH g') end.
  simpl in IH. destruct (poll_n n _) as [items g']. simpl in *.
  destruct IH as [Hi He]; [lia..|]. rewrite Hi. split; [done|]. intros. apply He. lia.
Qed.

(** C35: a fresh generator delivers exactly [duration] items, one per second, and
    then ends; the n-th item pairs what the QPS scheme and the connection scheme
    give when asked for the seconds 0, 1, 2, ... in order. *)
Theorem generator_stream (duration : Z) (shared : bool) (qps conn : BoxRateScheme) (n : nat) :
  0 <= duration <= u32_MAX → Z.of_nat n >= duration →
  let d := Z.to_nat duration in
  let '(items, g) := poll_n n (request_generator_new duration shared qps conn) in
  items = zip (rates_from qps 0 d) (rates_from conn 0 d) ∧ length items = d ∧
  fst (poll_next g) = None.
Proof.
  intros Hd Hn. set (g0 := request_generator_new duration shared qps conn).
  assert (Ht : rg_total g0 = duration).
  { unfold g0; simpl. rewrite Z.mul_1_r. apply wrap_id. lia. }
  pose proof (poll_n_zip n g0) as H. rewrite Ht in H. simpl in H.
  destruct H as [Hi He]; [lia..|]. destruct (poll_n n g0) as [items g]. simpl in *.
  rewrite Z.sub_0_r in *. replace (n `min` Z.to_nat duration)%nat with (Z.to_nat duration) in Hi by lia.
  split_and!; [done| |by apply He; lia]. rewrite Hi, length_zip.
  rewrite !rates_from_length. lia.
Qed.

Lemma generator_stream_witness :
  let qps := box_qps (RateSteps {| current_step := 0; steps := sort_by_key step_start doc_steps |}) in
  let conn := box_connections (ConnElastic elastic_default) in
  0 <= 8 <= u32_MAX ∧ Z.of_nat 9 >= 8 ∧
  fst (poll_n 9 (request_generator_new 8 false qps conn)) =
    [(1, 0); (1, 0); (1, 0); (1, 0); (1, 0); (1, 0); (2, 0); (2, 0)].
Proof.
  intros qps conn. split; [lia|]. split; [lia|].
  pose proof (generator_stream 8 false qps conn 9 ltac:(lia) ltac:(lia)) as H.
  destruct (poll_n 9 _) as [items g]. destruct H as [-> _]. reflexivity.
Defined.
