(* ===== verification/Split.v ===== *)
(** * Dividing the work among secondaries

    [split_ranges] ([cluster-executor/src/split_request.rs]) gives each secondary a
    range of rows of the request file; [calculate_req_per_secondary]
    ([cluster-executor/src/primary.rs]) gives each its share of the rate. *)
From Stdlib Require Import ZArith Lia.
From stdpp Require Import base list numbers.
From S2P Require Import Prelude.

Local Open Scope Z_scope.
Local Open Scope rust_scope.

(** ** Row ranges *)

(** [n] turns of a loop that appends the next range of [step] rows, clipped to
    the file; returns the ranges and the new [last_end]. *)
Fixpoint split_loop (n : nat) (size step last_end : Z) : list (Z * Z) * Z :=
  match n with
  | O => ([], last_end)
  | S n' =>
      let new_end := Z.min size (last_end +usize step) in
      let '(splits, e) := split_loop n' size step new_end in
      ((Z.min (last_end +usize 1) size, new_end) :: splits, e)
  end.

Definition split_ranges (size split_size : Z) : outcome (list (Z * Z)) :=
  if split_size =? 0 then Panic (* division by zero *)
  else
    let block_size := size / split_size in
    let remainder := size mod split_size in
    let '(splits1, last_end) := split_loop (Z.to_nat remainder) size (block_size +usize 1) 0 in
    let '(splits2, _) := split_loop (Z.to_nat (split_size - remainder)) size block_size last_end in
    Val (splits1 ++ splits2).

(** ** Rate shares *)

(** [vec![per; n]] with 1 added at the positions below [remainder]. *)
Definition add_remainder (per remainder : Z) (n : nat) : list Z :=
  imap (λ pos v, if Z.of_nat pos <? remainder then v +u32 1 else v) (replicate n per).

Definition calculate_req_per_secondary (qps connection_count n_secondary : Z) :
    outcome (list Z * list Z) :=
  let n_u32 := wrap 32 n_secondary in
  if (n_u32 =? 0) || (n_secondary =? 0) then Panic (* division by zero *)
  else
    let qps_per_secondary := qps / n_u32 in
    let qps_remainder := qps mod n_secondary in
    let connection_count_per_secondary := connection_count / n_u32 in
    let connection_count_remainder := connection_count mod n_secondary in
    let n := Z.to_nat n_secondary in
    Val (add_remainder qps_per_secondary qps_remainder n,
         add_remainder connection_count_per_secondary connection_count_remainder n).

(** ** Lemmas *)

(** The rows of a range, both ends included. *)
Definition range_rows (r : Z * Z) : list Z := seqZ (fst r) (snd r - fst r + 1).

(** While the file lasts, the loop cuts consecutive blocks of [step] rows. *)
Lemma split_loop_blocks n size step last_end :
  0 < step → 0 <= last_end → last_end + Z.of_nat n * step <= size → size < usize_MAX →
  let '(l, e) := split_loop n size step last_end in
  e = last_end + Z.of_nat n * step ∧ length l = n ∧
  concat (range_rows <$> l) = seqZ (last_end + 1) (Z.of_nat n * step) ∧
  Forall (λ r, snd r - fst r + 1 = step) l.
Proof.
  intros Hs. revert last_end. induction n as [|n IH]; intros le H0 Hle Hsz; simpl split_loop.
  { split_and!; try done; lia. }
  assert (step <= Z.of_nat (S n) * step) by nia.
  rewrite !wrap_id, !Z.min_r, Z.min_l by lia.
  specialize (IH (le + step)). destruct (split_loop n size step (le + step)) as [l e].
  destruct IH as (-> & Hl & Hc & Hf); [lia..|]. split_and!; [lia|simpl; lia| |constructor; [simpl; lia|done]].
  rewrite fmap_cons. cbn [concat]. rewrite Hc. unfold range_rows at 1; simpl.
  replace (le + step - (le + 1) + 1) with step by lia.
  replace (Z.of_nat (S n) * step) with (step + Z.of_nat n * step) by lia.
  rewrite seqZ_app by lia. f_equal. f_equal; lia.
Qed.

(** With empty blocks at the end of the file, only the last row is repeated. *)
Lemma split_loop_exhausted n size :
  0 <= size < usize_MAX →
  split_loop n size 0 size = (replicate n (size, size), size).
Proof.
  intros Hs. induction n as [|n IH]; [done|]. simpl.
  rewrite Z.add_0_r, !wrap_id, Z.min_id, IH by lia. do 3 f_equal. lia.
Qed.

Lemma imap_replicate_const {A B} (f : nat → A → B) n x y :
  (∀ i, (i < n)%nat → f i x = y) → imap f (replicate n x) = replicate n y.
Proof.
  revert f. induction n as [|n IH]; intros f Hf; [done|].
  simpl. rewrite Hf by lia. f_equal. apply IH. intros i Hi. apply Hf. lia.
Qed.

Lemma add_remainder_shape per remainder n :
  0 <= per < u32_MAX → 0 <= remainder <= Z.of_nat n →
  add_remainder per remainder n =
    replicate (Z.to_nat remainder) (per + 1) ++ replicate (n - Z.to_nat remainder) per.
Proof.
  intros Hp Hr. unfold add_remainder.
  replace n with (Z.to_nat remainder + (n - Z.to_nat remainder))%nat at 1 by lia.
  rewrite replicate_add, imap_app, length_replicate.
  f_equal; apply imap_replicate_const; intros i Hi; simpl.
  - destruct (Z.ltb_spec (Z.of_nat i) remainder); [|lia]. apply wrap_id. lia.
  - unfold compose. case_match; bool_simp; [lia|done].
Qed.

Lemma add_remainder_shares total n :
  0 <= total <= u32_MAX → 0 < n <= u32_MAX →
  let shares := add_remainder (total / n) (total mod n) (Z.to_nat n) in
  len shares = n ∧ sumZ shares = total ∧
  Forall (λ x, x = total / n ∨ x = total / n + 1) shares.
Proof.
  intros Ht Hn shares.
  pose proof (Z.mod_pos_bound total n ltac:(lia)) as Hm.
  pose proof (Z.div_mod total n ltac:(lia)) as Hdm.
  assert (0 <= total / n) by (apply Z.div_pos; lia).
  destruct (decide (total = u32_MAX ∧ n = 1)) as [[-> ->]|Hcase]; [vm_compute; naive_solver|].
  assert (total / n < u32_MAX).
  { destruct (decide (n = 1)) as [->|]; [rewrite Z.div_1_r; lia|].
    apply Z.div_lt_upper_bound; lia. }
  unfold shares. rewrite add_remainder_shape by lia. split_and!.
  - unfold len. rewrite length_app, !length_replicate. lia.
  - rewrite sumZ_app, !sumZ_replicate. rewrite Nat2Z.inj_sub, !Z2Nat.id by lia. lia.
  - apply Forall_app. split; apply Forall_replicate; auto.
Qed.

Lemma calculate_req_shares (qps conns n : Z) :
  0 <= qps <= u32_MAX → 0 <= conns <= u32_MAX → 0 < n <= u32_MAX →
  ∃ qs cs, calculate_req_per_secondary qps conns n = Val (qs, cs) ∧
    len qs = n ∧ len cs = n ∧ sumZ qs = qps ∧ sumZ cs = conns ∧
    Forall (λ x, x = qps / n ∨ x = qps / n + 1) qs ∧
    Forall (λ x, x = conns / n ∨ x = conns / n + 1) cs.
Proof.
  intros Hq Hc Hn. unfold calculate_req_per_secondary. rewrite wrap_id by lia.
  destruct (Z.eqb_spec n 0); [lia|]. simpl. eexists _, _. split; [done|].
  pose proof (add_remainder_shares qps n Hq Hn) as (? & ? & ?).
  pose proof (add_remainder_shares conns n Hc Hn) as (? & ? & ?). done.
Qed.

Lemma split_loop_len n size step last_end :
  length (fst (split_loop n size step last_end)) = n.
Proof.
  revert last_end. induction n as [|n IH]; intros e; simpl; [done|].
  specialize (IH (Z.min size (e +usize step))). destruct (split_loop n size step _).
  simpl in *. by rewrite IH.
Qed.

Lemma split_ranges_total size n : 0 < n → ∃ l, split_ranges size n = Val l ∧ len l = n.
Proof.
  intros Hn. unfold split_ranges. destruct (Z.eqb_spec n 0); [lia|].
  pose proof (Z.mod_pos_bound size n ltac:(lia)).
  pose proof (split_loop_len (Z.to_nat (size mod n)) size (size / n +usize 1) 0) as H1.
  destruct (split_loop (Z.to_nat (size mod n)) _ _ _) as [l1 e1].
  pose proof (split_loop_len (Z.to_nat (n - size mod n)) size (size / n) e1) as H2.
  destruct (split_loop (Z.to_nat (n - size mod n)) _ _ _) as [l2 e2].
  exists (l1 ++ l2). split; [done|]. unfold len. rewrite length_app. simpl in *. lia.
Qed.

(** ** Properties *)

(** C13: every secondary gets one range; the first [min size n] ranges are a
    partition of the rows [1..size] of the file, in order, into blocks whose
    sizes differ by at most one; any further secondary gets the last row. *)
Theorem split_ranges_partition (size n : Z) :
  0 <= size < usize_MAX → 0 < n <= usize_MAX →
  ∃ l, split_ranges size n = Val l ∧ len l = n ∧
    let k := Z.to_nat (Z.min size n) in
    concat (range_rows <$> take k l) = seqZ 1 size ∧
    Forall (λ r, size / n <= snd r - fst r + 1 <= size / n + 1) (take k l) ∧
    Forall (eq (size, size)) (drop k l).
Proof.
  intros Hs Hn. unfold split_ranges. destruct (Z.eqb_spec n 0); [lia|].
  pose proof (Z.mod_pos_bound size n ltac:(lia)) as Hm.
  pose proof (Z.div_mod size n ltac:(lia)) as Hdm.
  assert (0 <= size / n) by (apply Z.div_pos; lia).
  set (b := size / n) in *. set (r := size mod n) in *.
  assert (Hr : r * (b + 1) <= size) by nia.
  rewrite (wrap_id 64 (b + 1)) by nia.
  pose proof (split_loop_blocks (Z.to_nat r) size (b + 1) 0 ltac:(lia) ltac:(lia)) as H1.
  destruct (split_loop (Z.to_nat r) size (b + 1) 0) as [l1 e1].
  destruct H1 as (-> & Hl1 & Hc1 & Hf1); [lia..|]. rewrite Z2Nat.id in Hc1 |- * by lia.
  destruct (decide (b = 0)) as [Hb|Hb].
  - rewrite Hb in *. replace (0 + r * (0 + 1)) with size by lia.
    rewrite split_loop_exhausted by lia. eexists; split; [done|].
    assert (r = size) as Hrs by lia. rewrite Hrs in *.
    replace (Z.min size n) with size by lia. rewrite take_app_length', drop_app_length' by lia.
    split_and!; [unfold len; rewrite length_app, length_replicate; lia| | |].
    + rewrite Hc1. f_equal; lia.
    + forall_weaken Hf1.
    + by apply Forall_replicate.
  - pose proof (split_loop_blocks (Z.to_nat (n - r)) size b (0 + r * (b + 1))
      ltac:(lia) ltac:(nia)) as H2.
    destruct (split_loop (Z.to_nat (n - r)) size b _) as [l2 e2].
    destruct H2 as (_ & Hl2 & Hc2 & Hf2); [nia..|]. eexists; split; [done|].
    assert (n <= size) by nia. replace (Z.min size n) with n by lia.
    rewrite take_ge, drop_ge by (rewrite length_app; lia).
    split_and!; [unfold len; rewrite length_app; lia| | |done].
    + rewrite fmap_app, concat_app, Hc1, Hc2, Z2Nat.id by lia.
      replace size with (r * (b + 1) + (n - r) * b) by lia.
      rewrite seqZ_app by nia. f_equal. f_equal; lia.
    + apply Forall_app. split; [forall_weaken Hf1|forall_weaken Hf2].
Qed.

Lemma split_ranges_partition_witness :
  split_ranges 11 4 = Val [(1, 3); (4, 6); (7, 9); (10, 11)] ∧
  concat (range_rows <$> [(1, 3); (4, 6); (7, 9); (10, 11)]) = seqZ 1 11.
Proof.
  split; [reflexivity|].
  destruct (split_ranges_partition 11 4 ltac:(lia) ltac:(lia)) as (l & Hl & _ & H & _).
  vm_compute in Hl. injection Hl as <-. exact H.
Defined.

(** The per-second rate is conserved: with [n] secondaries there are [n]
    shares of the QPS and [n] shares of the connections, they add up to what the
    generator asked for, and any two shares differ by at most one request. *)
Theorem rate_shares_conserve (qps conns n : Z) :
  0 <= qps <= u32_MAX → 0 <= conns <= u32_MAX → 0 < n <= u32_MAX →
  ∃ qs cs, calculate_req_per_secondary qps conns n = Val (qs, cs) ∧
    len qs = n ∧ len cs = n ∧ sumZ qs = qps ∧ sumZ cs = conns ∧
    Forall (λ x, x = qps / n ∨ x = qps / n + 1) qs ∧
    Forall (λ x, x = conns / n ∨ x = conns / n + 1) cs.
Proof.
  apply calculate_req_shares.
Qed.

Lemma rate_shares_conserve_witness :
  calculate_req_per_secondary 15 17 2 = Val ([8; 7], [9; 8]) ∧ sumZ [8; 7] = 15.
Proof.
  split; [reflexivity|].
  destruct (rate_shares_conserve 15 17 2 ltac:(lia) ltac:(lia) ltac:(lia))
    as (qs & cs & H & _ & _ & Hs & _).
  vm_compute in H. injection H as <- <-. exact Hs.
Defined.
