(* ===== verification/Json.v ===== *)
(** * JSON values and strings

    What the program uses of [serde_json::Value], of [str] and of the textual form
    of integers.  A JSON object is a [BTreeMap], kept as an association list sorted
    by key; a floating point number is kept as its IEEE value. *)
From Stdlib Require Import ZArith Lia SpecFloat Ascii.
From stdpp Require Import base list gmap strings numbers sets.
From S2P Require Import Prelude.

Local Open Scope Z_scope.

(** ** [serde_json::Value] *)

Inductive Number :=
| PosInt (n : Z)
| NegInt (n : Z)
| Float (f : spec_float).

Inductive Value :=
| Null
| Bool (b : bool)
| Num (n : Number)
| Str (s : string)
| Arr (l : list Value)
| Obj (m : list (string * Value)).

(** Induction that reaches the values inside arrays and objects. *)
Section ValueInd.
  Context (P : Value → Prop).
  Context (HN : P Null) (HB : ∀ b, P (Bool b)) (HNum : ∀ n, P (Num n)) (HS : ∀ s, P (Str s)).
  Context (HA : ∀ l, Forall P l → P (Arr l)) (HO : ∀ m, Forall (λ p, P p.2) m → P (Obj m)).

Fixpoint value_ind' (v : Value) : P v :=
  match v with
  | Null => HN
  | Bool b => HB b
  | Num n => HNum n
  | Str s => HS s
  | Arr l => HA l ((fix all (l : list Value) : Forall P l :=
      match l with
      | [] => @List.Forall_nil _ P
      | x :: l' => @List.Forall_cons _ P x l' (value_ind' x) (all l')
      end) l)
  | Obj m => HO m ((fix all (m : list (string * Value)) : Forall (λ p, P p.2) m :=
      match m with
      | [] => @List.Forall_nil _ _
      | p :: m' => @List.Forall_cons _ (λ p, P p.2) p m' (value_ind' p.2) (all m')
      end) m)
  end.

End ValueInd.

Definition number_eqb (a b : Number) : bool :=
  match a, b with
  | PosInt x, PosInt y => x =? y
  | NegInt x, NegInt y => x =? y
  | Float x, Float y => SFeqb x y
  | _, _ => false
  end.

Fixpoint list_eqb {A} (eqb : A → A → bool) (l k : list A) : bool :=
  match l, k with
  | [], [] => true
  | x :: l', y :: k' => eqb x y && list_eqb eqb l' k'
  | _, _ => false
  end.

Fixpoint value_eqb (a b : Value) : bool :=
  match a, b with
  | Null, Null => true
  | Bool x, Bool y => Bool.eqb x y
  | Num x, Num y => number_eqb x y
  | Str x, Str y => String.eqb x y
  | Arr l, Arr k =>
      (fix go l k := match l, k with
       | [], [] => true
       | x :: l', y :: k' => value_eqb x y && go l' k'
       | _, _ => false
       end) l k
  | Obj l, Obj k =>
      (fix go (l k : list (string * Value)) := match l, k with
       | [], [] => true
       | (i, x) :: l', (j, y) :: k' => String.eqb i j && value_eqb x y && go l' k'
       | _, _ => false
       end) l k
  | _, _ => false
  end.

(** [value.as_i64()]: [PosInt] holds a [u64], [NegInt] a negative [i64]. *)
Definition as_i64 (v : Value) : option Z :=
  match v with
  | Num (PosInt n) => if n <=? i64_MAX then Some n else None
  | Num (NegInt n) => Some n
  | _ => None
  end.

Definition as_str (v : Value) : option string :=
  match v with Str s => Some s | _ => None end.

Fixpoint assoc {A} (k : string) (l : list (string * A)) : option A :=
  match l with
  | [] => None
  | (i, x) :: l' => if String.eqb i k then Some x else assoc k l'
  end.

(** [value.get(key)] with a string key. *)
Definition value_get (k : string) (v : Value) : option Value :=
  match v with Obj m => assoc k m | _ => None end.

(** ** [str] *)

(** [s.split(c)]: always at least one piece. *)
Fixpoint split_char (c : ascii) (s : string) : list string :=
  match s with
  | EmptyString => [EmptyString]
  | String a s' =>
      if Ascii.eqb a c then EmptyString :: split_char c s'
      else match split_char c s' with
           | [] => [String a EmptyString]
           | p :: ps => String a p :: ps
           end
  end.

(** [s.find(c)] and the two sides of [s] without [c]. *)
Fixpoint split_once (c : ascii) (s : string) : option (string * string) :=
  match s with
  | EmptyString => None
  | String a s' =>
      if Ascii.eqb a c then Some (EmptyString, s')
      else match split_once c s' with
           | Some (l, r) => Some (String a l, r)
           | None => None
           end
  end.

(** [s.starts_with(c)] *)
Definition starts_with_char (c : ascii) (s : string) : bool :=
  match s with String a _ => Ascii.eqb a c | EmptyString => false end.

Definition digit (a : ascii) : option Z :=
  let n := Z.of_nat (nat_of_ascii a) in
  if (48 <=? n) && (n <=? 57) then Some (n - 48) else None.

(** The digits of [s], most significant first, added to [acc]; [None] if a
    character is not a digit or the value exceeds [max]. *)
Fixpoint parse_digits (max : Z) (s : string) (acc : Z) : option Z :=
  match s with
  | EmptyString => Some acc
  | String a s' =>
      match digit a with
      | Some d => let acc' := acc * 10 + d in
                  if acc' <=? max then parse_digits max s' acc' else None
      | None => None
      end
  end.

(** [s.parse::<uN>()]: an optional [+], then at least one digit, no overflow. *)
Definition parse_unsigned (max : Z) (s : string) : option Z :=
  match s with
  | EmptyString => None
  | String a s' =>
      if Ascii.eqb a "+" then
        match s' with EmptyString => None | _ => parse_digits max s' 0 end
      else parse_digits max s 0
  end.

(** A parsed number is in range. *)
Lemma parse_digits_range max s acc n :
  0 <= acc <= max → parse_digits max s acc = Some n → 0 <= n <= max.
Proof.
  revert acc. induction s as [|a s IH]; intros acc Hacc; simpl; [intros [= <-]; lia|].
  destruct (digit a) as [d|] eqn:Ed; [|done].
  assert (0 <= d) by (unfold digit in Ed; repeat case_match; simplify_eq; bool_simp; lia).
  destruct (Z.leb_spec (acc * 10 + d) max); [|done]. apply IH. lia.
Qed.

Lemma parse_unsigned_range max s n : 0 <= max → parse_unsigned max s = Some n → 0 <= n <= max.
Proof.
  intros Hm. unfold parse_unsigned. destruct s as [|a s]; [done|]. intros H.
  repeat case_match; try done; eapply parse_digits_range; try eassumption; lia.
Qed.

(** [s.parse::<i64>()] *)
Definition parse_i64 (s : string) : option Z :=
  match s with
  | EmptyString => None
  | String a s' =>
      if Ascii.eqb a "-" then
        match s' with
        | EmptyString => None
        | _ => Z.opp <$> parse_digits (- i64_MIN) s' 0
        end
      else parse_unsigned i64_MAX s
  end.

Definition digit_char (d : Z) : ascii := ascii_of_nat (Z.to_nat (48 + d)).

Fixpoint show_digits (fuel : nat) (n : Z) (acc : string) : string :=
  match fuel with
  | O => acc
  | S fuel' =>
      let acc' := String (digit_char (n mod 10)) acc in
      if n <? 10 then acc' else show_digits fuel' (n / 10) acc'
  end.

(** [n.to_string()] for an unsigned integer of at most 64 bits: 20 digits. *)
Definition show_unsigned (n : Z) : string := show_digits 20 n EmptyString.

(** [n.to_string()] for a signed integer of at most 64 bits. *)
Definition show_signed (n : Z) : string :=
  if n <? 0 then String "-" (show_unsigned (- n)) else show_unsigned n.

(** [s.to_ascii_lowercase()] *)
Definition ascii_lower (a : ascii) : ascii :=
  let n := nat_of_ascii a in
  if ((65 <=? n) && (n <=? 90))%nat then ascii_of_nat (n + 32) else a.

Fixpoint to_lower (s : string) : string :=
  match s with
  | EmptyString => EmptyString
  | String a s' => String (ascii_lower a) (to_lower s')
  end.

(** ** Lemmas *)

Ltac digit_cases d :=
  assert (d = 0 ∨ d = 1 ∨ d = 2 ∨ d = 3 ∨ d = 4 ∨ d = 5 ∨ d = 6 ∨ d = 7 ∨ d = 8 ∨ d = 9)
    as Hdc by lia; destruct_or! Hdc; subst d.

Lemma digit_digit_char d : 0 <= d < 10 → digit (digit_char d) = Some d.
Proof.
  intros Hd. by digit_cases d.
Qed.

(** What was printed in front of [s] is read back, then [s] is read. *)
Lemma parse_show_digits max fuel n s :
  0 <= n < 10 ^ Z.of_nat fuel → n <= max →
  parse_digits max (show_digits fuel n s) 0 = parse_digits max s n.
Proof.
  revert n s. induction fuel as [|fuel IH]; intros n s Hn Hm.
  { simpl in *. replace n with 0 by lia. done. }
  simpl. destruct (Z.ltb_spec n 10) as [Hlt|Hge].
  - cbn [parse_digits]. rewrite digit_digit_char by (apply Z.mod_pos_bound; lia).
    rewrite Z.mod_small by lia. by rewrite Z.add_0_l, (proj2 (Z.leb_le n max)).
  - pose proof (Z.div_mod n 10 ltac:(lia)). pose proof (Z.mod_pos_bound n 10 ltac:(lia)).
    assert (0 <= n / 10 < 10 ^ Z.of_nat fuel).
    { split; [apply Z.div_pos; lia|]. apply Z.div_lt_upper_bound; [lia|].
      replace (10 * 10 ^ Z.of_nat fuel) with (10 ^ Z.of_nat (S fuel)); [lia|].
      rewrite Nat2Z.inj_succ, Z.pow_succ_r; lia. }
    rewrite IH by lia. cbn [parse_digits]. rewrite digit_digit_char by lia.
    replace (n / 10 * 10 + n mod 10) with n by lia. by rewrite (proj2 (Z.leb_le n max)).
Qed.

Lemma show_digits_head fuel n s :
  ∃ d s', 0 <= d < 10 ∧ show_digits (S fuel) n s = String (digit_char d) s'.
Proof.
  revert n s. induction fuel as [|fuel IH]; intros n s; simpl.
  { pose proof (Z.mod_pos_bound n 10 ltac:(lia)). destruct (n <? 10); eauto. }
  destruct (n <? 10).
  - pose proof (Z.mod_pos_bound n 10 ltac:(lia)). eauto.
  - apply (IH (n / 10)).
Qed.

Lemma digit_char_not_plus d : 0 <= d < 10 → Ascii.eqb (digit_char d) "+" = false.
Proof.
  intros Hd. by digit_cases d.
Qed.

(** Printing an unsigned integer and parsing it gives it back. *)
Lemma parse_show_unsigned max n :
  0 <= n <= max → n < 10 ^ 20 → parse_unsigned max (show_unsigned n) = Some n.
Proof.
  intros Hn H20. unfold show_unsigned, parse_unsigned.
  destruct (show_digits_head 19 n EmptyString) as (d & s' & Hd & Heq).
  rewrite Heq, digit_char_not_plus by done. rewrite <- Heq.
  rewrite parse_show_digits; [done|..]; simpl; lia.
Qed.

Lemma parse_show_signed n : i64_MIN <= n <= i64_MAX → parse_i64 (show_signed n) = Some n.
Proof.
  intros Hn. unfold show_signed. destruct (Z.ltb_spec n 0).
  - unfold parse_i64. rewrite Ascii.eqb_refl. unfold show_unsigned.
    destruct (show_digits_head 19 (- n) EmptyString) as (d & s' & _ & E). rewrite E, <- E.
    rewrite parse_show_digits by (simpl; lia). simpl. f_equal. lia.
  - pose proof (parse_show_unsigned i64_MAX n ltac:(lia) ltac:(simpl; lia)) as Hp. revert Hp. unfold show_unsigned.
    destruct (show_digits_head 19 n EmptyString) as (d & s' & Hd & ->). unfold parse_i64.
    assert (Ascii.eqb (digit_char d) "-" = false) as -> by (digit_cases d; done). done.
Qed.

(** ** Objects as sorted association lists *)

(** [BTreeMap::insert] *)
Fixpoint obj_insert {A} (k : string) (v : A) (l : list (string * A)) : list (string * A) :=
  match l with
  | [] => [(k, v)]
  | (i, x) :: l' =>
      match String.compare k i with
      | Lt => (k, v) :: l
      | Eq => (k, v) :: l'
      | Gt => (i, x) :: obj_insert k v l'
      end
  end.

(** Strictly ascending keys. *)
Fixpoint keys_sorted {A} (l : list (string * A)) : Prop :=
  match l with
  | [] => True
  | (k, _) :: l' => Forall (λ p, String.compare k p.1 = Lt) l' ∧ keys_sorted l'
  end.

(** The JSON integer of an [i64]. *)
Definition int_value (x : Z) : Value := if x <? 0 then Num (NegInt x) else Num (PosInt x).

Lemma as_i64_int_value x : i64_MIN <= x <= i64_MAX → as_i64 (int_value x) = Some x.
Proof.
  intros Hx. unfold int_value. destruct (Z.ltb_spec x 0); simpl; [done|].
  by rewrite (proj2 (Z.leb_le x i64_MAX)) by lia.
Qed.

Lemma string_compare_refl s : String.compare s s = Eq.
Proof. pose proof (String.compare_antisym s s). by destruct (String.compare s s). Qed.

Lemma string_compare_gt k i : String.compare k i = Gt → String.compare i k = Lt.
Proof. intros H. by rewrite (String.compare_antisym i k), H. Qed.

Lemma string_compare_lt_trans a b c : String.compare a b = Lt → String.compare b c = Lt → String.compare a c = Lt.
Proof.
  revert b c. induction a as [|x a IH]; intros [|y b] [|z c]; simpl; try done.
  unfold Ascii.compare. destruct (N.compare_spec (N_of_ascii x) (N_of_ascii y)) as [Exy|Hxy|]; [| |done];
    destruct (N.compare_spec (N_of_ascii y) (N_of_ascii z)) as [Eyz|Hyz|]; try done; intros H1 H2.
  - rewrite Exy, Eyz, N.compare_refl. by eapply IH.
  - by rewrite Exy, (proj2 (N.compare_lt_iff _ _) Hyz).
  - by rewrite <- Eyz, (proj2 (N.compare_lt_iff _ _) Hxy).
  - by rewrite (proj2 (N.compare_lt_iff _ _) (N.lt_trans _ _ _ Hxy Hyz)).
Qed.

Lemma assoc_obj_insert_eq {A} k (v : A) l : assoc k (obj_insert k v l) = Some v.
Proof.
  induction l as [|[i x] l IH]; simpl; [by rewrite String.eqb_refl|].
  destruct (String.compare k i) eqn:E; simpl; rewrite ?String.eqb_refl; try done.
  destruct (String.eqb_spec i k) as [->|]; [|done]. by rewrite string_compare_refl in E.
Qed.

Lemma assoc_obj_insert_ne {A} j k (v : A) l : j ≠ k → assoc j (obj_insert k v l) = assoc j l.
Proof.
  intros Hne. induction l as [|[i x] l IH]; simpl.
  { by rewrite (proj2 (String.eqb_neq k j)). }
  destruct (String.compare k i) eqn:E; simpl.
  - apply String.compare_eq_iff in E as ->. by rewrite (proj2 (String.eqb_neq i j)).
  - by rewrite (proj2 (String.eqb_neq k j)).
  - by rewrite IH.
Qed.

(** Inserting keys in ascending order appends them. *)
Lemma obj_insert_last {A} k (v : A) l :
  Forall (λ p, String.compare p.1 k = Lt) l → obj_insert k v l = l ++ [(k, v)].
Proof.
  induction 1 as [|[i x] l Hi Hl IH]; simpl in *; [done|].
  rewrite (String.compare_antisym k i), Hi. simpl. by rewrite IH.
Qed.

Lemma keys_sorted_app {A} (l1 l2 : list (string * A)) :
  keys_sorted (l1 ++ l2) →
  ∀ p q, p ∈ l1 → q ∈ l2 → String.compare p.1 q.1 = Lt.
Proof.
  induction l1 as [|[k x] l1 IH]; simpl; [set_solver|]. intros [Hk Hs] p q Hp Hq.
  apply elem_of_cons in Hp as [->|Hp]; [|by apply IH].
  rewrite Forall_forall in Hk. apply (Hk q). apply elem_of_app. by right.
Qed.

Lemma foldl_obj_insert_sorted {A} (l acc : list (string * A)) :
  keys_sorted (acc ++ l) → foldl (λ m p, obj_insert p.1 p.2 m) acc l = acc ++ l.
Proof.
  revert acc. induction l as [|[k v] l IH]; intros acc Hs; simpl; [by rewrite app_nil_r|].
  rewrite obj_insert_last.
  - rewrite IH; rewrite <- app_assoc; done.
  - apply Forall_forall. intros p Hp. by eapply (keys_sorted_app acc _ Hs p (k, v)); [|left].
Qed.

Lemma keys_sorted_fst {A B} (l : list (string * A)) (k : list (string * B)) :
  map fst l = map fst k → keys_sorted l → keys_sorted k.
Proof.
  revert k. induction l as [|[i x] l IH]; intros [|[j y] k]; simpl; try done.
  intros [= <- Hlk] [Hi Hs]. split; [|by apply IH].
  apply Forall_forall. rewrite Forall_forall in Hi. intros p Hp.
  assert (p.1 ∈ map fst l) as Hin by (rewrite Hlk; by apply list_elem_of_fmap_2).
  apply list_elem_of_fmap_1 in Hin as (q & -> & Hq). by apply Hi.
Qed.

Lemma assoc_elem {A} k (x : A) l : assoc k l = Some x → (k, x) ∈ l.
Proof.
  induction l as [|[i y] l IH]; simpl; [done|].
  destruct (String.eqb_spec i k) as [->|]; [intros [= ->]; left|]. intros. right. auto.
Qed.

(** A value as [serde_json] builds it: objects have ascending keys, integers are in
    the range of their representation. *)
Inductive wf_value : Value → Prop :=
| wf_null : wf_value Null
| wf_bool b : wf_value (Bool b)
| wf_pos n : 0 <= n <= u64_MAX → wf_value (Num (PosInt n))
| wf_neg n : i64_MIN <= n < 0 → wf_value (Num (NegInt n))
| wf_float f : wf_value (Num (Float f))
| wf_str s : wf_value (Str s)
| wf_arr l : Forall wf_value l → wf_value (Arr l)
| wf_obj m : keys_sorted m → Forall (λ p, wf_value p.2) m → wf_value (Obj m).

Lemma wf_as_i64 v x : wf_value v → as_i64 v = Some x → i64_MIN <= x <= i64_MAX.
Proof. intros Hv Hx. destruct Hv; simpl in Hx; simplify_eq; cases; lia. Qed.

Lemma wf_obj_inv m : wf_value (Obj m) → keys_sorted m ∧ Forall (λ p, wf_value p.2) m.
Proof. by inversion 1. Qed.

Lemma wf_value_get k v x : wf_value v → value_get k v = Some x → wf_value x.
Proof.
  intros Hv. destruct v; try done. intros Hx%assoc_elem. apply wf_obj_inv in Hv as [_ Hv].
  rewrite Forall_forall in Hv. by apply (Hv _ Hx).
Qed.

(** An object whose members are known to be values. *)
Ltac wf_members :=
  apply wf_obj; [cbn; repeat first [exact I | split | apply Forall_nil_2 | apply Forall_cons_2]; reflexivity|];
  repeat first [done | apply Forall_nil_2 | apply Forall_cons_2 | apply wf_str].

(** *** Documents

    The tree of a JSON text: the members of an object in the order of the text, with keys
    that may occur more than once.  The derived code of a struct reads the text, and sees
    such a tree; a [Value] that is read from it is [normalise]d: a map of its members, of
    which the last one with a key stays. *)
Inductive wf_doc : Value → Prop :=
| wd_null : wf_doc Null
| wd_bool b : wf_doc (Bool b)
| wd_pos n : 0 <= n <= u64_MAX → wf_doc (Num (PosInt n))
| wd_neg n : i64_MIN <= n < 0 → wf_doc (Num (NegInt n))
| wd_float f : wf_doc (Num (Float f))
| wd_str s : wf_doc (Str s)
| wd_arr l : Forall wf_doc l → wf_doc (Arr l)
| wd_obj m : Forall (λ p, wf_doc p.2) m → wf_doc (Obj m).

Fixpoint normalise (v : Value) : Value :=
  match v with
  | Arr l => Arr (map normalise l)
  | Obj m => Obj (foldl (λ m p, obj_insert p.1 p.2 m) [] (map (λ p, (p.1, normalise p.2)) m))
  | v => v
  end.

Lemma obj_insert_Forall {A} (P : string * A → Prop) k v l : P (k, v) → Forall P l → Forall P (obj_insert k v l).
Proof.
  intros Hk Hl. induction Hl as [|[i x] l Hi Hl IH]; simpl; [by repeat constructor|].
  destruct (String.compare k i); by repeat constructor.
Qed.

Lemma obj_insert_keys {A} k (v : A) l : keys_sorted l → keys_sorted (obj_insert k v l).
Proof.
  induction l as [|[i x] l IH]; simpl; [done|]. intros [Hi Hs].
  destruct (String.compare k i) eqn:E; simpl.
  - apply String.compare_eq_iff in E as ->. done.
  - split_and!; [|done|done]. constructor; [done|]. eapply Forall_impl; [exact Hi|]. intros [j y] Hj. simpl in *.
    by eapply string_compare_lt_trans.
  - split; [|by apply IH]. apply obj_insert_Forall; [by apply string_compare_gt|done].
Qed.

Lemma keys_sorted_nodup {A} (l : list (string * A)) : keys_sorted l → NoDup (map fst l).
Proof.
  induction l as [|[k v] l IH]; simpl; [intros _; constructor|]. intros [Hk Hs].
  constructor; [|auto]. intros Hin. apply list_elem_of_fmap_1 in Hin as (p & -> & Hp).
  rewrite Forall_forall in Hk. specialize (Hk p Hp). by rewrite string_compare_refl in Hk.
Qed.

Lemma foldl_obj_insert_wf (P : string * Value → Prop) l acc :
  Forall P l → keys_sorted acc → Forall P acc →
  keys_sorted (foldl (λ m p, obj_insert p.1 p.2 m) acc l) ∧ Forall P (foldl (λ m p, obj_insert p.1 p.2 m) acc l).
Proof.
  intros Hl. revert acc. induction Hl as [|[k v] l Hk Hl IH]; intros acc Hs Ha; [done|]. simpl.
  apply IH; [by apply obj_insert_keys|by apply obj_insert_Forall].
Qed.

Lemma int_value_wf x : i64_MIN <= x <= i64_MAX → wf_value (int_value x).
Proof. intros Hx. unfold int_value. destruct (Z.ltb_spec x 0); constructor; lia. Qed.

Lemma wf_obj_insert k v m : wf_value v → wf_value (Obj m) → wf_value (Obj (obj_insert k v m)).
Proof.
  intros Hv [Hs Hm]%wf_obj_inv. constructor; [by apply obj_insert_keys|by apply obj_insert_Forall].
Qed.

Lemma wf_value_doc v : wf_value v → wf_doc v.
Proof.
  induction v as [| | | |l IH|m IH] using value_ind'; intros Hv.
  1-4: inversion Hv; by constructor.
  - inversion Hv as [| | | | | |l' Hl|]; subst. constructor. rewrite Forall_forall in *. auto.
  - apply wf_obj_inv in Hv as [_ Hv]. constructor. rewrite Forall_forall in *. auto.
Qed.

Lemma normalise_wf v : wf_doc v → wf_value (normalise v).
Proof.
  induction v as [| | | |l IH|m IH] using value_ind'; intros Hv; simpl.
  1-4: inversion Hv; by constructor.
  - inversion Hv as [| | | | | |l' Hl|]; subst. constructor. apply Forall_fmap. rewrite Forall_forall in *. simpl. auto.
  - inversion Hv as [| | | | | | |m' Hm]; subst.
    destruct (foldl_obj_insert_wf (λ p, wf_value p.2) (map (λ p, (p.1, normalise p.2)) m) []) as [H1 H2];
      [|done|done|by constructor].
    apply Forall_fmap. rewrite Forall_forall in *. simpl. auto.
Qed.

(** A value is its own document. *)
Lemma normalise_id v : wf_value v → normalise v = v.
Proof.
  induction v as [| | | |l IH|m IH] using value_ind'; intros Hv; simpl; try done.
  - f_equal. inversion Hv as [| | | | | |l' Hl|]; subst. clear Hv.
    induction IH as [|x l Hx IH IH2]; [done|]. apply Forall_cons in Hl as [??]. simpl. f_equal; auto.
  - f_equal. apply wf_obj_inv in Hv as [Hs Hm].
    assert (map (λ p, (p.1, normalise p.2)) m = m) as ->.
    { clear Hs. induction IH as [|[k x] m Hx IH IH2]; [done|]. apply Forall_cons in Hm as [??]. simpl in *. f_equal; auto.
      f_equal. auto. }
    by rewrite foldl_obj_insert_sorted.
Qed.

(** ** Characters of a string *)

Fixpoint str_forall (f : ascii → bool) (s : string) : bool :=
  match s with EmptyString => true | String a s' => f a && str_forall f s' end.

Lemma split_char_none c s : str_forall (λ a, negb (Ascii.eqb a c)) s = true → split_char c s = [s].
Proof.
  induction s as [|a s IH]; simpl; [done|]. intros [Ha Hs]%andb_true_iff.
  apply negb_true_iff in Ha. by rewrite Ha, IH.
Qed.

Lemma split_char_app c s t :
  str_forall (λ a, negb (Ascii.eqb a c)) s = true →
  split_char c (s +:+ String c t) = s :: split_char c t.
Proof.
  induction s as [|a s IH]; simpl; [by rewrite Ascii.eqb_refl|]. intros [Ha Hs]%andb_true_iff.
  apply negb_true_iff in Ha. by rewrite Ha, IH.
Qed.

Definition is_digit (a : ascii) : bool := match digit a with Some _ => true | None => false end.

Lemma show_digits_forall fuel n s :
  str_forall is_digit s = true → str_forall is_digit (show_digits fuel n s) = true.
Proof.
  revert n s. induction fuel as [|fuel IH]; intros n s Hs; simpl; [done|].
  pose proof (Z.mod_pos_bound n 10 ltac:(lia)).
  assert (str_forall is_digit (String (digit_char (n mod 10)) s) = true).
  { simpl. unfold is_digit at 1. by rewrite digit_digit_char. }
  destruct (n <? 10); [done|by apply IH].
Qed.

Lemma substring_prefix s t : String.substring 0 (String.length s) (s +:+ t) = s.
Proof.
  induction s as [|a s IH]; simpl; [by destruct t|].
  change (String a (String.substring 0 (String.length s) (s +:+ t)) = String a s). by rewrite IH.
Qed.

Lemma substring_all t : String.substring 0 (String.length t) t = t.
Proof. induction t as [|a t IH]; simpl; [done|]. by rewrite IH. Qed.

Lemma prefix_append b t : String.prefix b (b +:+ t) = true.
Proof. induction b as [|a b IH]; [by destruct t|]. simpl. destruct (ascii_dec a a); [exact IH|done]. Qed.

Lemma length_append s t : String.length (s +:+ t) = (String.length s + String.length t)%nat.
Proof. induction s as [|a s IH]; [done|]. simpl. by rewrite IH. Qed.

Lemma str_forall_impl (f g : ascii → bool) s :
  (∀ a, f a = true → g a = true) → str_forall f s = true → str_forall g s = true.
Proof.
  intros H. induction s as [|a s IH]; simpl; [done|]. intros [Ha Hs]%andb_true_iff.
  by rewrite (H a Ha), IH.
Qed.

(** Numbers from 1 on do not start with the digit zero. *)
Lemma show_digits_nonzero fuel n s :
  1 <= n < 10 ^ Z.of_nat fuel →
  ∃ d s', 1 <= d < 10 ∧ show_digits fuel n s = String (digit_char d) s'.
Proof.
  revert n s. induction fuel as [|fuel IH]; intros n s Hn; simpl in *; [lia|].
  destruct (Z.ltb_spec n 10).
  - rewrite Z.mod_small by lia. exists n, s. split; [lia|done].
  - apply IH. pose proof (Z.div_mod n 10 ltac:(lia)). pose proof (Z.mod_pos_bound n 10 ltac:(lia)).
    split; [lia|]. apply Z.div_lt_upper_bound; [lia|].
    replace (10 * 10 ^ Z.of_nat fuel) with (10 ^ Z.of_nat (S fuel)); [lia|].
    rewrite Nat2Z.inj_succ, Z.pow_succ_r; lia.
Qed.
