(* ===== verification/Assert.v ===== *)
(** * Response assertions

    [response-assert/src/lib.rs] and the Rust side of [lua-helper/src/lib.rs].

    [jsonpath_lib] and [mlua] are parameters: [compile] and [select] are the two
    calls into the former; a Lua function, the registry and the loader are given by
    the results the calls return.  An error message is kept as the data that
    [format!] prints. *)
From Stdlib Require Import ZArith Lia Ascii.
From stdpp Require Import base list gmap strings numbers sets.
From S2P Require Import Prelude Json.

Local Open Scope Z_scope.

(** ** Data *)

Record JsonPath (Compiled : Type) := mk_path { path : string; inner : Compiled }.
Arguments mk_path {_} _ _.
Arguments path {_} _.
Arguments inner {_} _.

(** [RequestPath] holds a [NonZeroU8]. *)
Inductive Expectation (Compiled : Type) :=
| RequestPath (segment : Z)
| RequestQueryParam (param_name : string)
| RequestBody (p : JsonPath Compiled)
| ExpectConstant (v : Value).
Arguments RequestPath {_} _.
Arguments RequestQueryParam {_} _.
Arguments RequestBody {_} _.
Arguments ExpectConstant {_} _.

Inductive Actual (Compiled : Type) :=
| FromJsonResponse (p : JsonPath Compiled)
| ActualConstant (v : Value).
Arguments FromJsonResponse {_} _.
Arguments ActualConstant {_} _.

Record Assertion (Compiled : Type) := mk_assertion {
  assertion_id : Z;
  expectation : Expectation Compiled;
  actual : Actual Compiled
}.
Arguments mk_assertion {_} _ _ _.
Arguments assertion_id {_} _.
Arguments expectation {_} _.
Arguments actual {_} _.

Record ResponseAssertion (Compiled : Type) := mk_response_assertion {
  simple_assertions : option (list (Assertion Compiled));
  lua_assertion : option (list string)
}.
Arguments mk_response_assertion {_} _ _.
Arguments simple_assertions {_} _.
Arguments lua_assertion {_} _.

(** What the message of an error says. *)
Inductive message :=
| SegmentNumberTooBig
| QueryParamNotFound
| FailedToExtract (e : string)
| NoRequestBody
| ExpectationEmpty
| Mismatch (expected actual : list Value)
| ActualSelectError (e : string)
| LuaMessage (e : string).

Inductive AssertionError :=
| InvalidExpectation (id : Z) (m : message)
| FailedAssert (id : Z) (m : message)
| InvalidActual (id : Z) (m : message)
| LuaAssertionFailure (id : Z) (m : message).

Definition get_id (e : AssertionError) : Z :=
  match e with
  | InvalidExpectation id _ | FailedAssert id _ | InvalidActual id _ | LuaAssertionFailure id _ => id
  end.

(** The parts of [http::Uri] that are read. *)
Record Uri := { uri_path : string; uri_query : option string }.

(** [JsonPath::try_from(&str)] *)
Definition json_path_try_from {Compiled} (compile : string → result string Compiled)
    (value : string) : result string (JsonPath Compiled) :=
  match compile value with
  | Ok c => Ok (mk_path value c)
  | Err e => Err ("Error creating json path: " +:+ e)
  end.

(** ** Simple assertions *)

(** Split one [name=value] part; [query.find('=').unwrap()] panics without [=]. *)
Definition split_param (query : string) : outcome (string * string) :=
  unwrap (split_once "=" query).

(** The map the query is collected into: a later part overwrites an earlier one. *)
Definition query_map (queries : string) : outcome (gmap string string) :=
  ps ← mapM split_param (split_char "&" queries);
  mret (foldl (λ m p, <[p.1 := p.2]> m) ∅ ps).

Definition url_params (u : Uri) : outcome (gmap string string) :=
  match uri_query u with
  | None => Val ∅
  | Some queries => query_map queries
  end.

(** The local variables of [simple_assert]; [paths] and [params] are computed by the
    first assertion that needs them. *)
Record AssertState := {
  errors : list AssertionError;
  paths : option (list string);
  params : option (gmap string string);
  all_matched : bool
}.

Section SimpleAssert.
  Context {Compiled : Type} (select : Compiled → Value → result string (list Value)).
  Context (request_url : Uri) (request_body : option Value) (response : Value).

(** The [match &assertion.expectation] block: the expected values, or the error that
    was pushed, with the updated caches. *)
Definition eval_expectation (a : Assertion Compiled) (st : AssertState) :
    outcome (result AssertionError (list Value) * AssertState) :=
  let id := assertion_id a in
  match expectation a with
  | RequestPath segment =>
      let split := match paths st with
                   | None => split_char "/" (uri_path request_url)
                   | Some split => split
                   end in
      let st := {| errors := errors st; paths := Some split; params := params st;
                   all_matched := all_matched st |} in
      if len split <? segment + 1
      then Val (Err (InvalidExpectation id SegmentNumberTooBig), st)
      else v ← unwrap (split !! Z.to_nat segment);
           Val (Ok [Str v], st)
  | RequestQueryParam param_name =>
      ps ← match params st with
           | None => url_params request_url
           | Some ps => Val ps
           end;
      let st := {| errors := errors st; paths := paths st; params := Some ps;
                   all_matched := all_matched st |} in
      Val (match ps !! param_name with
           | Some t => Ok [Str t]
           | None => Err (InvalidExpectation id QueryParamNotFound)
           end, st)
  | ExpectConstant v => Val (Ok [v], st)
  | RequestBody p =>
      Val (match request_body with
           | Some body => match select (inner p) body with
                          | Ok vs => Ok vs
                          | Err e => Err (InvalidExpectation id (FailedToExtract e))
                          end
           | None => Err (InvalidExpectation id NoRequestBody)
           end, st)
  end.

(** The comparison block: [None] when it matched, otherwise the error it pushes. *)
Definition compare_actual (a : Assertion Compiled) (expect : list Value) : option AssertionError :=
  let id := assertion_id a in
  match expect with
  | [] => Some (InvalidExpectation id ExpectationEmpty)
  | _ =>
      match actual a with
      | FromJsonResponse p =>
          match select (inner p) response with
          | Ok act => if list_eqb value_eqb act expect then None
                      else Some (FailedAssert id (Mismatch expect act))
          | Err e => Some (InvalidActual id (ActualSelectError e))
          end
      | ActualConstant v =>
          if list_eqb value_eqb expect [v] then None
          else Some (FailedAssert id (Mismatch expect [v]))
      end
  end.

(** One iteration of the loop. *)
Definition assert_one (a : Assertion Compiled) (st : AssertState) : outcome AssertState :=
  '(e, st) ← eval_expectation a st;
  let pushed := match e with
                | Err err => Some err
                | Ok expect => compare_actual a expect
                end in
  Val match pushed with
      | None => st
      | Some err => {| errors := errors st ++ [err]; paths := paths st; params := params st;
                       all_matched := false |}
      end.

Fixpoint assert_loop (l : list (Assertion Compiled)) (st : AssertState) : outcome AssertState :=
  match l with
  | [] => Val st
  | a :: l' => st ← assert_one a st; assert_loop l' st
  end.

Definition simple_assert (assertions : ResponseAssertion Compiled) :
    outcome (result (list AssertionError) unit) :=
  st ← assert_loop (default [] (simple_assertions assertions))
         {| errors := []; paths := None; params := None; all_matched := true |};
  Val (if all_matched st then Ok tt else Err (errors st)).

(** ** Reference: each assertion on its own, without the caches *)

Definition expected (a : Assertion Compiled) : outcome (result AssertionError (list Value)) :=
  let id := assertion_id a in
  match expectation a with
  | RequestPath segment =>
      Val (ok_or (InvalidExpectation id SegmentNumberTooBig)
                 ((λ v, [Str v]) <$> (split_char "/" (uri_path request_url) !! Z.to_nat segment)))
  | RequestQueryParam param_name =>
      ps ← url_params request_url;
      Val (ok_or (InvalidExpectation id QueryParamNotFound) ((λ t, [Str t]) <$> (ps !! param_name)))
  | ExpectConstant v => Val (Ok [v])
  | RequestBody p =>
      Val match request_body with
          | Some body => match select (inner p) body with
                         | Ok vs => Ok vs
                         | Err e => Err (InvalidExpectation id (FailedToExtract e))
                         end
          | None => Err (InvalidExpectation id NoRequestBody)
          end
  end.

(** [None]: the assertion holds. *)
Definition verdict (a : Assertion Compiled) : outcome (option AssertionError) :=
  e ← expected a;
  Val match e with Err err => Some err | Ok expect => compare_actual a expect end.

(** The caches hold what they would be recomputed to. *)
Definition caches_ok (st : AssertState) : Prop :=
  (∀ ps, paths st = Some ps → ps = split_char "/" (uri_path request_url)) ∧
  (∀ ps, params st = Some ps → url_params request_url = Val ps).

(** The state is the initial one with [errs] pushed. *)
Definition pushes (st st' : AssertState) (errs : list AssertionError) : Prop :=
  errors st' = errors st ++ errs ∧
  all_matched st' = (match errs with [] => true | _ => false end && all_matched st)%bool ∧
  caches_ok st'.

Definition segment_ok (a : Assertion Compiled) : Prop :=
  match expectation a with RequestPath n => 1 <= n | _ => True end.

Lemma eval_expectation_expected a st :
  segment_ok a → caches_ok st →
  match expected a with
  | Val e => ∃ st', eval_expectation a st = Val (e, st') ∧ pushes st st' []
  | Panic => eval_expectation a st = Panic
  end.
Proof.
  unfold segment_ok, expected, eval_expectation, pushes. intros Hseg [Hp Hq].
  destruct (expectation a) as [n|name|p|v]; simpl; try (eexists; split; [done|];
    rewrite app_nil_r; done).
  - assert (Hs : match paths st with None => split_char "/" (uri_path request_url) | Some s => s end =
            split_char "/" (uri_path request_url)) by (by destruct (paths st); auto).
    rewrite Hs. clear Hs. set (s := split_char "/" (uri_path request_url)).
    destruct (Z.ltb_spec (len s) (n + 1)) as [Hlt|Hge]; unfold len in *.
    + rewrite (lookup_ge_None_2 s) by lia. simpl.
      eexists; split; [done|]. rewrite app_nil_r. repeat split; simpl; try done; by intros ps [= <-].
    + destruct (lookup_lt_is_Some_2 s (Z.to_nat n)) as [v Hv]; [lia|]. rewrite Hv. simpl.
      eexists; split; [done|]. rewrite app_nil_r. repeat split; simpl; try done; by intros ps [= <-].
  - destruct (params st) as [ps|] eqn:Eq; simpl.
    + rewrite (Hq ps) by done. simpl. eexists. split; [by destruct (ps !! name)|].
      rewrite app_nil_r. repeat split; simpl; try done; intros ps' [= <-]; auto.
    + destruct (url_params request_url) as [ps|] eqn:Eu; simpl; [|done].
      eexists. split; [by destruct (ps !! name)|].
      rewrite app_nil_r. repeat split; simpl; try done; by intros ps' [= <-].
Qed.

Lemma assert_one_verdict a st :
  segment_ok a → caches_ok st →
  match verdict a with
  | Val v => ∃ st', assert_one a st = Val st' ∧
                    pushes st st' (match v with Some e => [e] | None => [] end)
  | Panic => assert_one a st = Panic
  end.
Proof.
  intros Hs Hc. pose proof (eval_expectation_expected a st Hs Hc) as He.
  unfold verdict, assert_one. destruct (expected a) as [e|]; simpl; [|by rewrite He].
  destruct He as (st' & -> & H1 & H2 & H3). simpl.
  set (pushed := match e with Err err => Some err | Ok expect => compare_actual a expect end).
  replace (match e with Ok expect => compare_actual a expect | Err err => Some err end)
    with pushed by (by destruct e).
  destruct pushed as [err|]; eexists; (split; [done|]); [|by split_and!].
  rewrite app_nil_r in H1. unfold pushes. simpl. by rewrite H1.
Qed.

Lemma assert_loop_verdicts l st :
  Forall segment_ok l → caches_ok st →
  match mapM verdict l with
  | Val vs => ∃ st', assert_loop l st = Val st' ∧ pushes st st' (omap id vs)
  | Panic => assert_loop l st = Panic
  end.
Proof.
  revert st. induction l as [|a l IH]; intros st Hs Hc; simpl.
  { eexists. split; [done|]. unfold pushes. by rewrite app_nil_r. }
  apply Forall_cons_1 in Hs as [Ha Hs]. pose proof (assert_one_verdict a st Ha Hc) as Hone.
  destruct (verdict a) as [v|]; simpl; [|by rewrite Hone].
  destruct Hone as (st1 & -> & H1 & H2 & H3). simpl. specialize (IH st1 Hs H3).
  destruct (mapM verdict l) as [vs|]; simpl; [|done].
  destruct IH as (st2 & -> & H4 & H5 & H6). exists st2. split; [done|]. unfold pushes.
  rewrite H4, H5, H1, H2. destruct v as [e|]; simpl; rewrite <- ?app_assoc; simpl; [|done].
  by rewrite andb_false_r.
Qed.

End SimpleAssert.

(** ** Lua assertions *)

Record LuaAssertionResult := {
  lua_assertion_id : Z;
  assertion_result : result string unit
}.

Definition lua_error (error : string) : LuaAssertionResult :=
  {| lua_assertion_id := i32_MAX; assertion_result := Err error |}.

(** What the three [raw_get] calls on a Lua table give. *)
Record LuaTable := {
  raw_get_id : result string Z;
  raw_get_success : result string bool;
  raw_get_error : result string string
}.

Inductive LuaValue :=
| LuaTableValue (t : LuaTable)
| LuaOtherValue (type_name : string).

(** [FromLua for LuaAssertionResult] *)
Definition from_lua (lua_value : LuaValue) : result string LuaAssertionResult :=
  match lua_value with
  | LuaTableValue table =>
      id ← raw_get_id table;
      success ← raw_get_success table;
      res ← (if negb success then e ← raw_get_error table; mret (Err e) else mret (Ok tt));
      mret {| lua_assertion_id := id; assertion_result := res |}
  | LuaOtherValue _ => Err "expected table"
  end.

(** [AssertionError::try_from(LuaAssertionResult)]; [None] for a success. *)
Definition lua_result_try_from (value : LuaAssertionResult) : option AssertionError :=
  match assertion_result value with
  | Err e => Some (LuaAssertionFailure (wrap 32 (lua_assertion_id value)) (LuaMessage e))
  | Ok _ => None
  end.

Section Lua.
  Context {LuaFunction RegistryKey : Type}.
  (** [lua.load(chunk).eval::<Function>()] and [create_registry_value] *)
  Context (eval_function : string → result string LuaFunction).
  Context (create_registry_value : LuaFunction → result string RegistryKey).
  (** [registry_value] and [func.call] *)
  Context (registry_value : RegistryKey → result string LuaFunction).
  Context (lua_call : LuaFunction → string → string → option string → string →
                      result string (list LuaValue)).

Definition load_lua_func_with_registry (lua_chunk : string) : option RegistryKey :=
  match eval_function lua_chunk with
  | Ok func => match create_registry_value func with Ok key => Some key | Err _ => None end
  | Err _ => None
  end.

Definition verify_lua_chunk (chunk : string) : result string unit :=
  match eval_function chunk with Ok _ => Ok tt | Err e => Err e end.

Definition call_lua_func_from_registry (func_key : RegistryKey) (method url : string)
    (req_body : option string) (resp_body : string) : result (list LuaAssertionResult) unit :=
  match registry_value func_key with
  | Ok func =>
      match (vs ← lua_call func method url req_body resp_body; mapM from_lua vs) with
      | Ok [] => Ok tt
      | Ok r => Err r
      | Err e => Err [lua_error e]
      end
  | Err e => Err [lua_error e]
  end.

(** A message to the Lua task: response body, method, url, request body and headers. *)
Definition LuaMessageIn : Type := string * string * string * option string * gmap string string.

(** What the task sends back for one message. *)
Definition lua_executor_reply (func_key : RegistryKey) (msg : LuaMessageIn) :
    result (list AssertionError) unit :=
  let '(resp_body, method, url, req_body, _) := msg in
  match call_lua_func_from_registry func_key method url req_body resp_body with
  | Ok _ => Ok tt
  | Err errs => Err (omap lua_result_try_from errs)
  end.

(** [init_lua_executor]: the key of the loaded function, when a task is started. *)
Definition init_lua_executor {Compiled} (response_assert : ResponseAssertion Compiled) :
    option RegistryKey :=
  chunks ← lua_assertion response_assert;
  match chunks with
  | [] => None
  | _ => load_lua_func_with_registry (String.concat (String "010" EmptyString) chunks)
  end.

(** The table a Lua assertion that succeeded returns. *)
Definition lua_success (id : Z) : LuaValue :=
  LuaTableValue {| raw_get_id := Ok id; raw_get_success := Ok true; raw_get_error := Err "nil" |}.

Lemma from_lua_successes ids :
  mapM from_lua (lua_success <$> ids) =
  Ok ((λ id, {| lua_assertion_id := id; assertion_result := Ok tt |}) <$> ids).
Proof.
  induction ids as [|i ids IH]; [done|]. rewrite !fmap_cons. cbn [mapM]. by rewrite IH.
Qed.

Lemma successes_no_error (ids : list Z) :
  omap lua_result_try_from
    ((λ id, {| lua_assertion_id := id; assertion_result := Ok tt |}) <$> ids) = [].
Proof. by induction ids. Qed.

End Lua.

(** ** Properties *)

(** C29: The loop of [simple_assert], with its lazily filled caches, gives what judging
    each assertion on its own gives: success exactly when every assertion holds, and
    otherwise one error per failing assertion, in order. *)
Theorem simple_assert_verdicts {Compiled} select url body response
    (ra : ResponseAssertion Compiled) :
  Forall segment_ok (default [] (simple_assertions ra)) →
  simple_assert select url body response ra =
  vs ← mapM (verdict select url body response) (default [] (simple_assertions ra));
  Val (match omap id vs with [] => Ok tt | es => Err es end).
Proof.
  intros Hs. unfold simple_assert. set (st0 := Build_AssertState [] None None true).
  assert (Hc : caches_ok url st0) by (split; intros ps [=]).
  pose proof (assert_loop_verdicts select url body response _ st0 Hs Hc) as H.
  destruct (mapM _ _) as [vs|]; [|by rewrite H].
  destruct H as (st' & -> & H1 & H2 & _). simpl. rewrite H1, H2. simpl.
  by destruct (omap id vs).
Qed.

Lemma mapM_outcome_panic {A B} (f : A → outcome B) l :
  mapM f l = Panic ↔ ∃ x, x ∈ l ∧ f x = Panic.
Proof.
  induction l as [|x l IH]; simpl; [split; [done|intros (x & Hx & _); set_solver]|].
  destruct (f x) as [b|] eqn:E; simpl.
  - destruct (mapM f l); simpl.
    + split; [done|]. intros (y & Hy & Hf). apply elem_of_cons in Hy as [->|Hy]; [congruence|].
      assert (Val a = Panic) as [=]. apply IH. eauto.
    + split; [|done]. intros _. destruct IH as [IH _]. destruct (IH eq_refl) as (y & Hy & Hf).
      exists y. split; [by right|done].
  - split; [|done]. intros _. exists x. split; [by left|done].
Qed.

Lemma url_params_panic u :
  url_params u = Panic ↔
  ∃ q part, uri_query u = Some q ∧ part ∈ split_char "&" q ∧ split_once "=" part = None.
Proof.
  unfold url_params, query_map. destruct (uri_query u) as [q|]; [|naive_solver].
  assert (Hm : mapM split_param (split_char "&" q) = Panic ↔
               ∃ part, part ∈ split_char "&" q ∧ split_once "=" part = None).
  { rewrite mapM_outcome_panic. unfold split_param, unwrap.
    split; intros (p & Hp & Hs); exists p; (split; [done|]); [by destruct (split_once "=" p)|by rewrite Hs]. }
  destruct (mapM split_param _); simpl; naive_solver.
Qed.

(** [simple_assert] panics exactly when some assertion expects a query parameter and
    the query of the request has a part without [=]; no other input makes it panic. *)
Theorem simple_assert_panics_iff {Compiled} select url body response
    (ra : ResponseAssertion Compiled) :
  Forall segment_ok (default [] (simple_assertions ra)) →
  simple_assert select url body response ra = Panic ↔
  (∃ a name, a ∈ default [] (simple_assertions ra) ∧ expectation a = RequestQueryParam name) ∧
  (∃ q part, uri_query url = Some q ∧ part ∈ split_char "&" q ∧ split_once "=" part = None).
Proof.
  intros Hs. rewrite <- url_params_panic. unfold simple_assert.
  set (st0 := Build_AssertState [] None None true).
  assert (Hc : caches_ok url st0) by (split; intros ps [=]).
  pose proof (assert_loop_verdicts select url body response _ st0 Hs Hc) as H.
  assert (Hv : mapM (verdict select url body response) (default [] (simple_assertions ra)) = Panic ↔
    (∃ a name, a ∈ default [] (simple_assertions ra) ∧ expectation a = RequestQueryParam name) ∧
    url_params url = Panic).
  { rewrite mapM_outcome_panic. unfold verdict, expected. split.
    - intros (a & Ha & Hp). destruct (expectation a) as [|name| |] eqn:E; try done.
      destruct (url_params url) eqn:Eu; [done|]. eauto.
    - intros ((a & name & Ha & E) & Hu). exists a. split; [done|]. by rewrite E, Hu. }
  destruct (mapM _ _) as [vs|].
  - destruct H as (st' & -> & _). simpl. split; [done|]. intros HP. apply Hv in HP. done.
  - rewrite H. split; [intros _; by apply Hv|done].
Qed.

(** A Lua function whose assertions all succeed is reported as [Err] with no error in
    it: the executor turns every non-empty result into a failure and then drops the
    successes. *)
Theorem lua_successes_reported_as_empty_error {F K} (registry_value : K → result string F)
    lua_call key func resp method url body headers id ids :
  registry_value key = Ok func →
  lua_call func method url body resp = Ok (lua_success <$> (id :: ids)) →
  lua_executor_reply registry_value lua_call key (resp, method, url, body, headers) = Err [].
Proof.
  intros Hk Hcall. unfold lua_executor_reply, call_lua_func_from_registry. rewrite Hk, Hcall.
  change (Ok ?x ≫= ?f) with (f x). cbv beta. rewrite from_lua_successes.
  by rewrite <- (successes_no_error (id :: ids)).
Qed.

(** ** Concrete inputs *)

Definition demo_select (c : nat) (v : Value) : result string (list Value) :=
  match value_get "city" v with Some x => Ok [x] | None => Err "no match" end.

Definition demo_response : Value := Obj [("city", Str "Nara")].

Definition demo_assertions : ResponseAssertion nat :=
  mk_response_assertion (Some [
    mk_assertion 1 (RequestPath 2) (ActualConstant (Str "iPhone"));
    mk_assertion 2 (ExpectConstant (Str "Nara")) (FromJsonResponse (mk_path "$.city" 0%nat));
    mk_assertion 3 (RequestQueryParam "age") (ActualConstant (Str "17"))]) None.

Definition demo_uri (q : string) : Uri := {| uri_path := "/hello/iPhone"; uri_query := Some q |}.

Lemma demo_segments : Forall segment_ok (default [] (simple_assertions demo_assertions)).
Proof. by repeat apply Forall_cons_2. Qed.

Lemma simple_assert_verdicts_witness :
  simple_assert demo_select (demo_uri "x=1&age=16") None demo_response demo_assertions =
  Val (Err [FailedAssert 3 (Mismatch [Str "16"] [Str "17"])]).
Proof.
  rewrite (simple_assert_verdicts demo_select (demo_uri "x=1&age=16") None demo_response
    demo_assertions demo_segments). vm_compute. reflexivity.
Defined.

Lemma simple_assert_panics_iff_witness :
  simple_assert demo_select (demo_uri "age") None demo_response demo_assertions = Panic.
Proof.
  apply (simple_assert_panics_iff demo_select (demo_uri "age") None demo_response
    demo_assertions demo_segments). split.
  - exists (mk_assertion 3 (RequestQueryParam "age") (ActualConstant (Str "17"))), "age"%string.
    split; [simpl; set_solver|reflexivity].
  - exists "age"%string, "age"%string. split_and!; [done|simpl; set_solver|done].
Defined.

Lemma lua_successes_reported_as_empty_error_witness :
  lua_executor_reply (λ _ : unit, Ok tt) (λ _ _ _ _ _, Ok (lua_success <$> [4])) tt
    ("{}"%string, "GET"%string, "/"%string, None, ∅) = Err [].
Proof. by apply (lua_successes_reported_as_empty_error _ _ tt tt _ _ _ _ _ 4 []). Defined.
