(* ===== verification/DataGen.v ===== *)
(** * Data generation from JSON schemas

    [datagen/src/lib.rs]: parsing a schema, printing it back, and generating data.

    The regex parser and generator ([regex_syntax], [regex_generate]) and the random
    numbers ([fastrand], [rand]) are parameters: [RandomSource] says what is relied
    on.  [HashMap<Keywords, Constraints>] has six possible keys, so it is a record of
    six optional entries. *)
From Stdlib Require Import ZArith Lia Ascii.
From stdpp Require Import base list gmap strings numbers sets.
From S2P Require Import Prelude Json.

Local Open Scope Z_scope.

(** ** Data *)

Inductive Keywords := KMinLength | KMaxLength | KMinimum | KMaximum | KConstant | KPattern.

Definition keyword_str (k : Keywords) : string :=
  match k with
  | KMinLength => "minLength"
  | KMaxLength => "maxLength"
  | KMinimum => "minimum"
  | KMaximum => "maximum"
  | KConstant => "constant"
  | KPattern => "pattern"
  end.

Section DataGen.
  Context {Hir : Type}.

Inductive Constraints :=
| CMinLength (x : Z)
| CMaxLength (x : Z)
| CMinimum (x : Z)
| CMaximum (x : Z)
| CConstantInt (x : Z)
| CConstantStr (s : string)
| CConstantValue (v : Value)
| CPattern (p : string) (hir : option Hir).

Definition constraint_as_i64 (c : Constraints) : option Z :=
  match c with
  | CMinLength x | CMaxLength x | CMinimum x | CMaximum x | CConstantInt x => Some x
  | _ => None
  end.

Definition constraint_as_str (c : Constraints) : option string :=
  match c with CConstantStr x => Some x | _ => None end.

Definition constraint_as_pattern (c : Constraints) : option (string * option Hir) :=
  match c with CPattern pattern hir => Some (pattern, hir) | _ => None end.

Definition constraint_as_serde_value (c : Constraints) : option Value :=
  match c with CConstantValue x => Some x | _ => None end.

(** [HashMap<Keywords, Constraints>] *)
Record ConstraintMap := {
  e_constant : option Constraints;
  e_max_length : option Constraints;
  e_maximum : option Constraints;
  e_min_length : option Constraints;
  e_minimum : option Constraints;
  e_pattern : option Constraints
}.

Definition no_constraints : ConstraintMap := Build_ConstraintMap None None None None None None.

Definition cget (k : Keywords) (c : ConstraintMap) : option Constraints :=
  match k with
  | KMinLength => e_min_length c
  | KMaxLength => e_max_length c
  | KMinimum => e_minimum c
  | KMaximum => e_maximum c
  | KConstant => e_constant c
  | KPattern => e_pattern c
  end.

Definition cinsert (k : Keywords) (x : Constraints) (c : ConstraintMap) : ConstraintMap :=
  let (a, b, d, e, f, g) := c in
  match k with
  | KConstant => Build_ConstraintMap (Some x) b d e f g
  | KMaxLength => Build_ConstraintMap a (Some x) d e f g
  | KMaximum => Build_ConstraintMap a b (Some x) e f g
  | KMinLength => Build_ConstraintMap a b d (Some x) f g
  | KMinimum => Build_ConstraintMap a b d e (Some x) g
  | KPattern => Build_ConstraintMap a b d e f (Some x)
  end.

Inductive DataSchema :=
| SEmpty
| SString (name : string) (c : ConstraintMap)
| SInteger (name : string) (c : ConstraintMap)
| SObject (name : option string) (data : list DataSchema)
| SConstantObject (name : option string) (c : ConstraintMap)
| SArray (name : option string) (data : list DataSchema) (c : ConstraintMap).

(** Induction that reaches the schemas inside objects and arrays. *)
Section DataSchemaInd.
  Context (P : DataSchema → Prop).
  Context (HE : P SEmpty) (HS : ∀ n c, P (SString n c)) (HI : ∀ n c, P (SInteger n c)).
  Context (HO : ∀ n d, Forall P d → P (SObject n d)) (HC : ∀ n c, P (SConstantObject n c)).
  Context (HA : ∀ n d c, Forall P d → P (SArray n d c)).

Fixpoint schema_ind (s : DataSchema) : P s :=
  let all := fix all (l : list DataSchema) : Forall P l :=
    match l with
    | [] => @List.Forall_nil _ P
    | x :: l' => @List.Forall_cons _ P x l' (schema_ind x) (all l')
    end in
  match s with
  | SEmpty => HE
  | SString n c => HS n c
  | SInteger n c => HI n c
  | SObject n d => HO n d (all d)
  | SConstantObject n c => HC n c
  | SArray n d c => HA n d c (all d)
  end.

End DataSchemaInd.

(** ** Printing a schema *)

(** Serialisation of an (untagged) constraint. *)
Definition constraint_to_value (c : Constraints) : Value :=
  match c with
  | CMinLength x | CMaxLength x | CMinimum x | CMaximum x | CConstantInt x => int_value x
  | CConstantStr s => Str s
  | CConstantValue v => v
  | CPattern p _ => Str p
  end.

Definition entry (k : Keywords) (c : ConstraintMap) : list (string * Value) :=
  match cget k c with
  | Some x => [(keyword_str k, constraint_to_value x)]
  | None => []
  end.

(** [serde_json::to_value(constraints)]: the entries in the order of their names. *)
Definition constraints_to_map (c : ConstraintMap) : list (string * Value) :=
  entry KConstant c ++ entry KMaxLength c ++ entry KMaximum c ++
  entry KMinLength c ++ entry KMinimum c ++ entry KPattern c.

(** One schema of [convert_data_schema_to_map]: its name and its value.  In the array
    case the keywords differ from [type] and [items], so it does not matter that they
    are inserted here before those two. *)
Fixpoint convert_schema (s : DataSchema) : outcome (option (string * Value)) :=
  match s with
  | SEmpty => Val None
  | SString name constraints =>
      Val (Some (name, Obj (obj_insert "type" (Str "string") (constraints_to_map constraints))))
  | SInteger name constraints =>
      Val (Some (name, Obj (obj_insert "type" (Str "integer") (constraints_to_map constraints))))
  | SObject name schema =>
      ms ← mapM convert_schema schema;
      let m := foldl (λ m p, obj_insert p.1 p.2 m) [] (omap id ms) in
      name ← unwrap name;
      Val (Some (name, Obj [("properties", Obj m); ("type", Str "object")]))
  | SArray name schema constraints =>
      ms ← mapM convert_schema schema;
      let m := foldl (λ m p, obj_insert p.1 p.2 m) [] (omap id ms) in
      let items := default (Str "{}") (assoc "__" m) in
      name ← unwrap name;
      Val (Some (name, Obj (obj_insert "type" (Str "array")
                             (obj_insert "items" items (constraints_to_map constraints)))))
  | SConstantObject k constraints =>
      k ← unwrap k;
      Val (Some (k, Obj (obj_insert "type" (Str "object") (constraints_to_map constraints))))
  end.

Definition convert_data_schema_to_map (schemas : list DataSchema) : outcome (list (string * Value)) :=
  ms ← mapM convert_schema schemas;
  Val (foldl (λ m p, obj_insert p.1 p.2 m) [] (omap id ms)).

Definition data_value_from_schema (schema : DataSchema) : outcome Value :=
  match schema with
  | SObject _ schemas =>
      m ← convert_data_schema_to_map schemas;
      Val (Obj [("properties", Obj m)])
  | _ => Val (Str "{}")
  end.

(** ** Parsing a schema *)

Inductive schema_error :=
| PropertiesNotFound
| TypeNotFound (k : string)
| ObjectPropertiesNotFound (k : string)
| ObjectWithoutPropertiesOrConstant
| ArrayItemsNotFound (k : string)
| InvalidConstraints
| RequiresMinimumAndMaximum
| MinimumGreaterThanMaximum
| RequiresMinLengthAndMaxLength
| MinLengthGreaterThanMaxLength.

Context (parse_regex : string → option Hir).

(** One iteration of [parse_constraints]. *)
Definition parse_constraint (k : string) (v : Value) (constraints : ConstraintMap) :
    option ConstraintMap :=
  if String.eqb k "minimum" then x ← as_i64 v; Some (cinsert KMinimum (CMinimum x) constraints)
  else if String.eqb k "maximum" then x ← as_i64 v; Some (cinsert KMaximum (CMaximum x) constraints)
  else if String.eqb k "minLength" then x ← as_i64 v; Some (cinsert KMinLength (CMinLength x) constraints)
  else if String.eqb k "maxLength" then x ← as_i64 v; Some (cinsert KMaxLength (CMaxLength x) constraints)
  else if String.eqb k "constant" then
    Some (cinsert KConstant (match as_i64 v with
                             | Some val => CConstantInt val
                             | None => match as_str v with
                                       | Some s => CConstantStr s
                                       | None => CConstantValue v
                                       end
                             end) constraints)
  else if String.eqb k "pattern" then
    pattern ← as_str v;
    hir ← parse_regex pattern;
    Some (cinsert KPattern (CPattern pattern (Some hir)) constraints)
  else Some constraints.

Fixpoint parse_constraint_list (l : list (string * Value)) (constraints : ConstraintMap) :
    option ConstraintMap :=
  match l with
  | [] => Some constraints
  | (k, v) :: l' => c ← parse_constraint k v constraints; parse_constraint_list l' c
  end.

Definition parse_constraints (property : Value) (constraints : ConstraintMap) : option ConstraintMap :=
  match property with
  | Obj m => parse_constraint_list m constraints
  | _ => None
  end.

(** [max.as_i64() < min.as_i64()] on [Option<i64>]: [None] is the least. *)
Definition opt_lt (a b : option Z) : bool :=
  match a, b with
  | Some x, Some y => x <? y
  | None, Some _ => true
  | _, None => false
  end.

(** A bound without the other one, or the two in the wrong order. *)
Definition check_pair (both order : schema_error) (min max : option Constraints) : result schema_error unit :=
  match min, max with
  | Some min, Some max =>
      if opt_lt (constraint_as_i64 max) (constraint_as_i64 min) then Err order else Ok tt
  | None, None => Ok tt
  | _, _ => Err both
  end.

Definition validate_constraints (constraints : ConstraintMap) : result schema_error unit :=
  _ ← check_pair RequiresMinimumAndMaximum MinimumGreaterThanMaximum
        (cget KMinimum constraints) (cget KMaximum constraints);
  check_pair RequiresMinLengthAndMaxLength MinLengthGreaterThanMaxLength
    (cget KMinLength constraints) (cget KMaxLength constraints).

Definition get_constraints (property : Value) : result schema_error ConstraintMap :=
  constraints ← ok_or InvalidConstraints (parse_constraints property no_constraints);
  _ ← validate_constraints constraints;
  Ok constraints.

(** [map.get(key).map(f)], as a fixpoint so that [f] may recurse into the values. *)
Definition assoc_map {A B} (f : A → B) (k : string) : list (string * A) → option B :=
  fix go l := match l with
  | [] => None
  | (i, x) :: l' => if String.eqb i k then Some (f x) else go l'
  end.

(** One iteration of [parse_properties]: what is pushed for key [k], [None] for an
    unsupported type. *)
Fixpoint parse_property (k : string) (v : Value) : result schema_error (option DataSchema) :=
  type_ ← ok_or (TypeNotFound k) (value_get "type" v ≫= as_str);
  if String.eqb type_ "object" then
    match v with
    | Obj m =>
        match assoc_map (λ p, match p with
                         | Obj ps => ds ← mapM (λ kv, parse_property kv.1 kv.2) ps;
                                     Ok (omap id ds)
                         | _ => Err (ObjectPropertiesNotFound k)
                         end) "properties" m with
        | Some r => d ← r; Ok (Some (SObject (Some k) d))
        | None => match assoc "constant" m with
                  | Some c => Ok (Some (SConstantObject (Some k)
                                         (cinsert KConstant (CConstantValue c) no_constraints)))
                  | None => Err ObjectWithoutPropertiesOrConstant
                  end
        end
    | _ => Err ObjectWithoutPropertiesOrConstant
    end
  else if String.eqb type_ "string" then c ← get_constraints v; Ok (Some (SString k c))
  else if String.eqb type_ "integer" then c ← get_constraints v; Ok (Some (SInteger k c))
  else if String.eqb type_ "array" then
    match v with
    | Obj m =>
        match assoc_map (λ x, parse_property "__" x) "items" m with
        | Some r => d ← r;
                    c ← get_constraints v;
                    Ok (Some (SArray (Some k) (match d with Some s => [s] | None => [] end) c))
        | None => Err (ArrayItemsNotFound k)
        end
    | _ => Err (ArrayItemsNotFound k)
    end
  else Ok None.

Definition parse_properties (properties : list (string * Value)) : result schema_error (list DataSchema) :=
  ds ← mapM (λ kv, parse_property kv.1 kv.2) properties;
  Ok (omap id ds).

Definition data_schema_from_value (schema : Value) : result schema_error DataSchema :=
  match value_get "properties" schema with
  | Some (Obj ps) => d ← parse_properties ps; Ok (SObject None d)
  | _ => Err PropertiesNotFound
  end.

(** ** Generating data *)

End DataGen.

Arguments Constraints : clear implicits.
Arguments ConstraintMap : clear implicits.
Arguments DataSchema : clear implicits.

(** What is used of [fastrand] and [regex_generate]: a draw from a non-empty range, a
    letter, and a string matching a pattern ([None] if it fails or is not UTF-8). *)
Class RandomSource (Hir Rng : Type) := {
  rng_i64 : Z → Z → Rng → Z * Rng;
  rng_alphabetic : Rng → ascii * Rng;
  rng_from_hir : Hir → Rng → option string * Rng
}.

(** [fastrand]'s contract: the number drawn is in the range. *)
Class RandomSourceLaws (Hir Rng : Type) `{!RandomSource Hir Rng} : Prop :=
  rng_i64_range : ∀ min max (g : Rng), min <= max → min <= fst (rng_i64 (Hir := Hir) min max g) <= max.

Section Generate.
  Context {Hir Rng : Type} `{!RandomSource Hir Rng}.
  Context (parse_regex : string → option Hir).

(** [fastrand::i64(min..=max)] panics on an empty range. *)
Definition fastrand_i64 (min max : Z) (g : Rng) : outcome (Z * Rng) :=
  if max <? min then Panic else Val (rng_i64 (Hir := Hir) min max g).

(** The two [match hir.as_ref()] blocks: a string for the pattern, or the error text. *)
Definition generate_from_pattern (pattern : string) (hir : option Hir) (g : Rng) : string * Rng :=
  let failed := ("Couldn't generate string for: " +:+ pattern)%string in
  match (match hir with Some h => Some h | None => parse_regex pattern end) with
  | Some h => let '(s, g) := rng_from_hir h g in (default failed s, g)
  | None => (failed, g)
  end.

Definition bound (k : Keywords) (d : Z) (c : ConstraintMap Hir) : Z :=
  default d (cget k c ≫= constraint_as_i64).

Definition generate_integer_data (constraints : ConstraintMap Hir) (g : Rng) : outcome (Z * Rng) :=
  match cget KConstant constraints with
  | Some constraint => Val (default i64_MIN (constraint_as_i64 constraint), g)
  | None =>
      match cget KPattern constraints with
      | Some constraint =>
          match constraint_as_pattern constraint with
          | Some (pattern, hir) =>
              let '(rand_int, g) := generate_from_pattern pattern hir g in
              Val (default 0 (parse_i64 rand_int), g)
          | None => Val (default i64_MIN (constraint_as_i64 constraint), g)
          end
      | None => fastrand_i64 (bound KMinimum 0 constraints) (bound KMaximum 100 constraints) g
      end
  end.

Fixpoint alphabetic_string (n : nat) (g : Rng) : string * Rng :=
  match n with
  | O => (EmptyString, g)
  | S n' => let '(a, g) := rng_alphabetic (Hir := Hir) g in
            let '(s, g) := alphabetic_string n' g in (String a s, g)
  end.

(** A negative size becomes a [usize] above [isize::MAX], for which collecting into a
    [String] panics with a capacity overflow. *)
Definition random_string (min max : Z) (g : Rng) : outcome (string * Rng) :=
  '(size, g) ← fastrand_i64 min max g;
  if i64_MAX <? wrap 64 size then Panic
  else Val (alphabetic_string (Z.to_nat (wrap 64 size)) g).

Definition generate_string_data (constraints : ConstraintMap Hir) (g : Rng) : outcome (string * Rng) :=
  match cget KConstant constraints with
  | Some constraint =>
      Val (default "Error: invalid constant constraint"%string (constraint_as_str constraint), g)
  | None =>
      match cget KPattern constraints ≫= constraint_as_pattern with
      | Some (pattern, hir) => Val (generate_from_pattern pattern hir g)
      | None => random_string (bound KMinLength 1 constraints) (bound KMaxLength 20 constraints) g
      end
  end.

(** A loop that threads the generator, and its repetition. *)
Definition gen_list {A B} (f : A → Rng → outcome (B * Rng)) : list A → Rng → outcome (list B * Rng) :=
  fix go l g := match l with
  | [] => Val ([], g)
  | x :: l' => '(y, g) ← f x g; '(ys, g) ← go l' g; Val (y :: ys, g)
  end.

Fixpoint gen_repeat {B} (n : nat) (f : Rng → outcome (B * Rng)) (g : Rng) : outcome (list B * Rng) :=
  match n with
  | O => Val ([], g)
  | S n' => '(y, g) ← f g; '(ys, g) ← gen_repeat n' f g; Val (y :: ys, g)
  end.

Definition to_map (l : list (option (string * Value))) : list (string * Value) :=
  foldl (λ m p, obj_insert p.1 p.2 m) [] (omap id l).

(** One datum of [generate_object_data]: the key and value inserted. *)
Fixpoint generate_datum (datum : DataSchema Hir) (g : Rng) : outcome (option (string * Value) * Rng) :=
  match datum with
  | SEmpty => Val (None, g)
  | SString k c => '(s, g) ← generate_string_data c g; Val (Some (k, Str s), g)
  | SInteger k c => '(n, g) ← generate_integer_data c g; Val (Some (k, int_value n), g)
  | SObject k c =>
      k ← unwrap k;
      '(l, g) ← gen_list generate_datum c g;
      Val (Some (k, Obj (to_map l)), g)
  | SArray k schema constraints =>
      k ← unwrap k;
      '(n, g) ← fastrand_i64 (bound KMinLength 1 constraints) (bound KMaxLength 20 constraints) g;
      '(vs, g) ← gen_repeat (Z.to_nat n) (λ g,
                   '(l, g) ← gen_list generate_datum schema g;
                   v ← unwrap (assoc "__" (to_map l));
                   Val (v, g)) g;
      Val (Some (k, Arr vs), g)
  | SConstantObject k c =>
      k ← unwrap k;
      Val (Some (k, default (Obj []) (cget KConstant c ≫= constraint_as_serde_value)), g)
  end.

Definition generate_object_data (data : list (DataSchema Hir)) (g : Rng) :
    outcome (list (string * Value) * Rng) :=
  '(l, g) ← gen_list generate_datum data g;
  Val (to_map l, g).

Definition generate_data (schema : DataSchema Hir) (g : Rng) : outcome (Value * Rng) :=
  match schema with
  | SObject None v => '(m, g) ← generate_object_data v g; Val (Obj m, g)
  | _ => Val (Null, g)
  end.

End Generate.

(** ** Schemas that parsing produces *)

Section SchemaOk.
  Context {Hir : Type} (parse_regex : string → option Hir).

Definition in_i64 (x : Z) : Prop := i64_MIN <= x <= i64_MAX.

(** The entry of a keyword is of the kind that [parse_constraints] puts there. *)
Definition entry_ok (k : Keywords) (x : Constraints Hir) : Prop :=
  match k, x with
  | KMinLength, CMinLength n | KMaxLength, CMaxLength n
  | KMinimum, CMinimum n | KMaximum, CMaximum n | KConstant, CConstantInt n => in_i64 n
  | KConstant, CConstantStr _ => True
  | KConstant, CConstantValue v => as_i64 v = None ∧ as_str v = None ∧ wf_value v
  | KPattern, CPattern p (Some h) => parse_regex p = Some h
  | _, _ => False
  end.

Definition entries_ok (c : ConstraintMap Hir) : Prop := ∀ k x, cget k c = Some x → entry_ok k x.

Definition constraints_ok (c : ConstraintMap Hir) : Prop :=
  entries_ok c ∧ validate_constraints c = Ok tt.

Definition schema_key (s : DataSchema Hir) : string :=
  match s with
  | SEmpty => ""
  | SString n _ | SInteger n _ => n
  | SObject n _ | SConstantObject n _ | SArray n _ _ => default "" n
  end.

Definition names_sorted (d : list (DataSchema Hir)) : Prop :=
  keys_sorted (map (λ s, (schema_key s, tt)) d).

Inductive schema_ok : DataSchema Hir → Prop :=
| ok_string n c : constraints_ok c → schema_ok (SString n c)
| ok_integer n c : constraints_ok c → schema_ok (SInteger n c)
| ok_object n d : names_sorted d → Forall schema_ok d → schema_ok (SObject (Some n) d)
| ok_constant n v :
    wf_value v → schema_ok (SConstantObject (Some n) (cinsert KConstant (CConstantValue v) no_constraints))
| ok_array n d c :
    constraints_ok c → Forall schema_ok d → Forall (λ s, schema_key s = "__"%string) d →
    (length d <= 1)%nat → schema_ok (SArray (Some n) d c).

(** Every array has items of a supported type. *)
Fixpoint supported (s : DataSchema Hir) : bool :=
  match s with
  | SObject _ d => forallb supported d
  | SArray _ d _ => match d with [] => false | _ => forallb supported d end
  | _ => true
  end.

Lemma cget_cinsert k (x : Constraints Hir) c : cget k (cinsert k x c) = Some x.
Proof. by destruct k, c. Qed.

Lemma cget_cinsert_ne j k (x : Constraints Hir) c : j ≠ k → cget j (cinsert k x c) = cget j c.
Proof. by destruct j, k, c. Qed.

#[local] Instance Keywords_eq_dec : EqDecision Keywords.
Proof. solve_decision. Defined.

Lemma entries_ok_insert k x c : entry_ok k x → entries_ok c → entries_ok (cinsert k x c).
Proof.
  intros Hx Hc j y. destruct (decide (j = k)) as [->|Hne].
  - rewrite cget_cinsert. by intros [= <-].
  - rewrite cget_cinsert_ne by done. apply Hc.
Qed.

Lemma parse_constraint_ok k v c c' :
  wf_value v → entries_ok c → parse_constraint parse_regex k v c = Some c' → entries_ok c'.
Proof.
  intros Hv Hc. unfold parse_constraint.
  repeat match goal with
  | |- context [if ?b then _ else _] => destruct b
  end; simpl; intros Hp.
  1-4: destruct (as_i64 v) eqn:E; simplify_eq/=; apply entries_ok_insert;
       [by apply (wf_as_i64 _ _ Hv)|done].
  - simplify_eq. apply entries_ok_insert; [|done].
    destruct (as_i64 v) eqn:E; [by apply (wf_as_i64 _ _ Hv)|].
    destruct (as_str v) eqn:E'; [done|by split_and!].
  - destruct (as_str v) as [p|]; simplify_eq/=.
    destruct (parse_regex p) eqn:E; simplify_eq/=. by apply entries_ok_insert.
  - by simplify_eq.
Qed.

Lemma parse_constraint_list_ok l c c' :
  Forall (λ p, wf_value p.2) l → entries_ok c →
  parse_constraint_list parse_regex l c = Some c' → entries_ok c'.
Proof.
  revert c. induction l as [|[k v] l IH]; intros c Hl Hc; simpl; [by intros [= <-]|].
  apply Forall_cons_1 in Hl as [Hv Hl].
  destruct (parse_constraint parse_regex k v c) as [c1|] eqn:E; simpl; [|done].
  apply IH; [done|]. by eapply parse_constraint_ok.
Qed.

Lemma get_constraints_ok v c :
  wf_value v → get_constraints parse_regex v = Ok c → constraints_ok c.
Proof.
  intros Hv. unfold get_constraints, parse_constraints. destruct v; simpl; try done.
  destruct (parse_constraint_list _ _ _) as [c1|] eqn:E; simpl; [|done].
  destruct (validate_constraints c1) as [[]|] eqn:E2; simpl; [|done]. intros [= <-].
  apply wf_obj_inv in Hv as [_ Hv]. split; [|done]. eapply parse_constraint_list_ok; [done| |done].
  intros [] x; done.
Qed.

(** ** Printing constraints and parsing them *)

Lemma parse_constraint_list_app l1 l2 c :
  parse_constraint_list parse_regex (l1 ++ l2) c =
  parse_constraint_list parse_regex l1 c ≫= parse_constraint_list parse_regex l2.
Proof.
  revert c. induction l1 as [|[k v] l1 IH]; intros c; simpl; [done|].
  destruct (parse_constraint parse_regex k v c); simpl; [apply IH|done].
Qed.

Lemma parse_entry k c acc :
  entries_ok c →
  parse_constraint_list parse_regex (entry k c) acc =
  Some (match cget k c with Some x => cinsert k x acc | None => acc end).
Proof.
  intros Hc. unfold entry. destruct (cget k c) as [x|] eqn:E; [|done].
  specialize (Hc k x E). simpl.
  destruct k, x; simpl in Hc; try done; unfold parse_constraint; simpl;
    rewrite ?as_i64_int_value by done; simpl; try done.
  - by destruct Hc as (-> & -> & _).
  - destruct hir; [|done]. by rewrite Hc.
Qed.

Lemma parse_constraints_to_map c :
  entries_ok c → parse_constraint_list parse_regex (constraints_to_map c) no_constraints = Some c.
Proof.
  intros Hc. unfold constraints_to_map.
  repeat (rewrite parse_constraint_list_app || rewrite parse_entry by done; simpl).
  by destruct c as [[] [] [] [] [] []].
Qed.

Lemma parse_constraint_list_insert k v l c :
  (∀ v c, parse_constraint parse_regex k v c = Some c) →
  parse_constraint_list parse_regex (obj_insert k v l) c = parse_constraint_list parse_regex l c.
Proof.
  intros Hk. revert c. induction l as [|[i x] l IH]; intros c; simpl; [by rewrite Hk|].
  destruct (String.compare k i) eqn:E; simpl.
  - apply String.compare_eq_iff in E as ->. by rewrite !Hk.
  - by rewrite Hk.
  - destruct (parse_constraint parse_regex i x c); simpl; [apply IH|done].
Qed.

(** ** Parsing and printing properties *)

Lemma assoc_map_fmap {A B} (f : A → B) k l : assoc_map f k l = f <$> assoc k l.
Proof. induction l as [|[i x] l IH]; simpl; [done|]. by destruct (String.eqb i k). Qed.

(** The equation of [parse_property] on an object. *)
Lemma parse_property_obj k m :
  parse_property parse_regex k (Obj m) =
  type_ ← ok_or (TypeNotFound k) (assoc "type" m ≫= as_str);
  if String.eqb type_ "object" then
    match assoc "properties" m with
    | Some (Obj ps) => d ← parse_properties parse_regex ps; Ok (Some (SObject (Some k) d))
    | Some _ => Err (ObjectPropertiesNotFound k)
    | None => match assoc "constant" m with
              | Some c => Ok (Some (SConstantObject (Some k)
                                     (cinsert KConstant (CConstantValue c) no_constraints)))
              | None => Err ObjectWithoutPropertiesOrConstant
              end
    end
  else if String.eqb type_ "string" then
    c ← get_constraints parse_regex (Obj m); Ok (Some (SString k c))
  else if String.eqb type_ "integer" then
    c ← get_constraints parse_regex (Obj m); Ok (Some (SInteger k c))
  else if String.eqb type_ "array" then
    match assoc "items" m with
    | Some x => d ← parse_property parse_regex "__" x;
                c ← get_constraints parse_regex (Obj m);
                Ok (Some (SArray (Some k) (match d with Some s => [s] | None => [] end) c))
    | None => Err (ArrayItemsNotFound k)
    end
  else Ok None.
Proof.
  cbn [parse_property value_get]. rewrite !assoc_map_fmap.
  destruct (assoc "type" m ≫= as_str) as [t|]; [|done]. simpl.
  destruct (String.eqb t "object").
  - destruct (assoc "properties" m) as [[]|]; done.
  - destruct (String.eqb t "string"); [done|]. destruct (String.eqb t "integer"); [done|].
    destruct (String.eqb t "array"); [|done]. by destruct (assoc "items" m).
Qed.

Lemma parse_property_not_obj k v :
  (∀ m, v ≠ Obj m) → parse_property parse_regex k v = Err (TypeNotFound k).
Proof. destruct v; simpl; try done. by intros H; destruct (H m). Qed.

Lemma mapM_result_cons {E A B} (f : A → result E B) x l ys :
  mapM f (x :: l) = Ok ys → ∃ y ys', ys = y :: ys' ∧ f x = Ok y ∧ mapM f l = Ok ys'.
Proof.
  simpl. destruct (f x) as [y|]; simpl; [|done]. destruct (mapM f l) as [ys'|]; simpl; [|done].
  intros [= <-]. eauto.
Qed.

(** What parsing a property promises. *)
Definition parsed_ok (v : Value) : Prop :=
  ∀ k s, parse_property parse_regex k v = Ok (Some s) → schema_ok s ∧ schema_key s = k.

(** What [parse_properties] promises when each property keeps its promise. *)
Lemma parse_properties_ok ps d :
  Forall (λ p, parsed_ok p.2) ps →
  keys_sorted ps → parse_properties parse_regex ps = Ok d →
  Forall schema_ok d ∧ names_sorted d ∧ (∀ s, s ∈ d → ∃ p, p ∈ ps ∧ schema_key s = p.1).
Proof.
  unfold parse_properties. revert d. induction ps as [|[k v] ps IH]; intros d Hps Hs.
  { intros [= <-]. split_and!; try done. set_solver. }
  apply Forall_cons_1 in Hps as [Hv Hps]. destruct Hs as [Hk Hs].
  destruct (mapM _ (_ :: _)) as [ds|] eqn:E; simpl; [|done]. intros [= <-].
  apply mapM_result_cons in E as (o & ds' & -> & Ho & Hds). simpl in Ho.
  rewrite Hds in IH. destruct (IH _ Hps Hs eq_refl) as (H1 & H2 & H3).
  destruct o as [s|]; simpl.
  - destruct (Hv _ _ Ho) as [Hok Hkey]. split_and!; [by constructor| |].
    + split; [|done]. simpl. apply Forall_forall. intros p Hp.
      apply list_elem_of_fmap_1 in Hp as (s' & -> & Hs'). simpl. rewrite Hkey.
      destruct (H3 s' Hs') as (q & Hq & ->). rewrite Forall_forall in Hk. by apply (Hk q).
    + intros s' Hs'. apply elem_of_cons in Hs' as [->|Hs'].
      * exists (k, v). split; [left|done].
      * destruct (H3 s' Hs') as (q & Hq & ?). exists q. split; [by right|done].
  - split_and!; try done. intros s' Hs'.
    destruct (H3 s' Hs') as (q & Hq & ?). exists q. split; [by right|done].
Qed.

Lemma parse_object_ok k m s :
  keys_sorted m → Forall (λ p, wf_value p.2) m → Forall (λ p, parsed_ok p.2) m →
  (∀ ps, assoc "properties" m = Some (Obj ps) → Forall (λ p, parsed_ok p.2) ps) →
  parse_property parse_regex k (Obj m) = Ok (Some s) → schema_ok s ∧ schema_key s = k.
Proof.
  intros Hs Hwf Hp Hpp. rewrite parse_property_obj.
  destruct (assoc "type" m ≫= as_str) as [t|]; simpl; [|done].
  assert (Hcon : ∀ c, get_constraints parse_regex (Obj m) = Ok c → constraints_ok c).
  { intros c. apply get_constraints_ok. by constructor. }
  rewrite Forall_forall in Hwf, Hp.
  destruct (String.eqb t "object").
  { destruct (assoc "properties" m) as [[| | | | |ps]|] eqn:Ep; try done.
    - apply assoc_elem, Hwf in Ep. destruct (wf_obj_inv _ Ep) as [Hps1 Hps2].
      destruct (parse_properties parse_regex ps) as [d|] eqn:Ed; simpl; [|done]. intros [= <-].
      apply parse_properties_ok in Ed as (? & ? & _); [by split; [constructor|]|auto|done].
    - destruct (assoc "constant" m) as [x|] eqn:Ec; simpl; [|done]. intros [= <-].
      split; [constructor; by apply assoc_elem, Hwf in Ec|done]. }
  destruct (String.eqb t "string").
  { destruct (get_constraints _ _) eqn:E; simpl; [|done]. intros [= <-]. split; [constructor; auto|done]. }
  destruct (String.eqb t "integer").
  { destruct (get_constraints _ _) eqn:E; simpl; [|done]. intros [= <-]. split; [constructor; auto|done]. }
  destruct (String.eqb t "array"); [|done].
  destruct (assoc "items" m) as [x|] eqn:Ei; [|done]. apply assoc_elem, Hp in Ei.
  destruct (parse_property _ _ x) as [o|] eqn:Ex; simpl; [|done].
  destruct (get_constraints _ _) eqn:E; simpl; [|done]. intros [= <-].
  split; [|done]. destruct o as [s'|]; constructor; auto; simpl.
  - apply Ei in Ex as [??]. by constructor.
  - apply Ei in Ex as [??]. by constructor.
Qed.

Lemma parse_property_ok v :
  wf_value v → parsed_ok v ∧ (∀ ps, v = Obj ps → Forall (λ p, parsed_ok p.2) ps).
Proof.
  induction v as [| | | | |m IH] using value_ind'; intros Hwf;
    try (split; [intros ??; by rewrite parse_property_not_obj|done]).
  destruct (wf_obj_inv _ Hwf) as [Hs Hm].
  assert (Hm1 : Forall (λ p, parsed_ok p.2) m).
  { rewrite Forall_forall in IH, Hm |- *. intros p Hp. by apply IH, Hm. }
  split; [|by intros ps [= <-]]. intros k s. apply parse_object_ok; try done.
  intros ps Hps%assoc_elem. rewrite Forall_forall in IH, Hm.
  by destruct (IH _ Hps (Hm _ Hps)) as [_ H]; apply H.
Qed.

Lemma data_schema_from_value_ok v s :
  wf_value v → data_schema_from_value parse_regex v = Ok s →
  ∃ d, s = SObject None d ∧ Forall schema_ok d ∧ names_sorted d.
Proof.
  intros Hwf. unfold data_schema_from_value.
  destruct (value_get "properties" v) as [p|] eqn:Ep; [|done].
  assert (Hp : wf_value p).
  { by eapply wf_value_get. }
  destruct p as [| | | | |ps]; try done. simpl.
  destruct (parse_properties parse_regex ps) as [d|] eqn:Ed; simpl; [|done]. intros [= <-].
  destruct (parse_property_ok _ Hp) as [_ Hps]. destruct (wf_obj_inv _ Hp) as [Hs Hm].
  apply parse_properties_ok in Ed as (? & ? & _); eauto.
Qed.

(** ** Round trip *)

Lemma get_constraints_print c k v :
  constraints_ok c → (∀ v c, parse_constraint parse_regex k v c = Some c) →
  get_constraints parse_regex (Obj (obj_insert k v (constraints_to_map c))) = Ok c.
Proof.
  intros [He Hv] Hk. unfold get_constraints, parse_constraints.
  rewrite parse_constraint_list_insert by done.
  rewrite parse_constraints_to_map by done. simpl. by rewrite Hv.
Qed.

Lemma get_constraints_print2 c v w :
  constraints_ok c →
  get_constraints parse_regex
    (Obj (obj_insert "type" v (obj_insert "items" w (constraints_to_map c)))) = Ok c.
Proof.
  intros [He Hv]. unfold get_constraints, parse_constraints.
  rewrite !parse_constraint_list_insert by done.
  rewrite parse_constraints_to_map by done. simpl. by rewrite Hv.
Qed.

(** What is printed of constraints is a map of values. *)
Lemma constraints_wf c : entries_ok c → wf_value (Obj (constraints_to_map c)).
Proof.
  intros Hc.
  assert (He : ∀ k x, cget k c = Some x → wf_value (constraint_to_value x)).
  { intros k x Hk. apply Hc in Hk. destruct k, x; simpl in *; try done; try (destruct hir; [|done]; by constructor);
      try (by constructor); try apply int_value_wf; try done. apply Hk. }
  constructor; unfold constraints_to_map, entry.
  - destruct c as [[] [] [] [] [] []]; repeat constructor.
  - rewrite !Forall_app. split_and!; (destruct (cget _ c) as [x|] eqn:E; [|constructor]);
      (constructor; [by eapply He|constructor]).
Qed.

(** Printing [s] gives a named value from which parsing gives [s] back. *)
Definition prints_back (s : DataSchema Hir) : Prop :=
  ∃ v, wf_value v ∧ convert_schema s = Val (Some (schema_key s, v)) ∧
       parse_property parse_regex (schema_key s) v = Ok (Some s).

Lemma prints_back_list d :
  Forall prints_back d → names_sorted d →
  ∃ m, wf_value (Obj m) ∧ convert_data_schema_to_map d = Val m ∧ parse_properties parse_regex m = Ok d.
Proof.
  intros Hd Hs.
  assert (∃ l, Forall (λ p, wf_value p.2) l ∧ mapM convert_schema d = Val (Some <$> l) ∧ map fst l = map schema_key d ∧
    mapM (λ kv, parse_property parse_regex kv.1 kv.2) l = Ok (Some <$> d)) as (l & H0 & H1 & H2 & H3).
  { clear Hs. induction Hd as [|s d (v & Hw & Hv & Hp) Hd (l & H0 & H1 & H2 & H3)]; [by exists []|].
    exists ((schema_key s, v) :: l). simpl. rewrite Hv, H1, Hp, H3. simpl. rewrite H2. split; [by constructor|done]. }
  assert (Hid : ∀ A (k : list A), omap id (Some <$> k) = k).
  { intros A k. induction k as [|x k IH]; simpl; [done|]. by f_equal. }
  exists l. unfold convert_data_schema_to_map, parse_properties. rewrite H1, H3. simpl.
  assert (keys_sorted l).
  { unfold names_sorted in Hs. eapply keys_sorted_fst; [|exact Hs]. rewrite map_map. by rewrite H2. }
  rewrite !Hid. split_and!; [by constructor| |done]. f_equal. by rewrite foldl_obj_insert_sorted.
Qed.

Lemma schema_prints_back s : schema_ok s → supported s = true → prints_back s.
Proof.
  induction s as [|n c|n c|n d IH|n c|n d c IH] using schema_ind; intros Hok Hsup;
    inversion Hok; subst; simpl in Hsup.
  - eexists. split; [|split; [done|]]; [by apply wf_obj_insert, constraints_wf; [constructor|apply H0]|].
    rewrite parse_property_obj, assoc_obj_insert_eq. simpl. by rewrite get_constraints_print.
  - eexists. split; [|split; [done|]]; [by apply wf_obj_insert, constraints_wf; [constructor|apply H0]|].
    rewrite parse_property_obj, assoc_obj_insert_eq. simpl. by rewrite get_constraints_print.
  - apply forallb_Forall in Hsup. assert (Forall prints_back d) as Hd.
    { rewrite Forall_forall in *. auto. }
    destruct (prints_back_list d Hd) as (m & Hm0 & Hm1 & Hm2); [done|].
    unfold convert_data_schema_to_map in Hm1. unfold prints_back. simpl.
    destruct (mapM convert_schema d) as [ms|]; [|done]. simpl in *. simplify_eq.
    eexists. split; [|split; [done|]]; [wf_members|].
    rewrite parse_property_obj. simpl. by rewrite Hm2.
  - eexists. split; [|split; [done|]]; [wf_members|].
    rewrite parse_property_obj, assoc_obj_insert_eq. done.
  - destruct d as [|s [|]]; simpl in *; [done| |lia].
    apply andb_true_iff in Hsup as [Hsup _]. repeat match goal with H : Forall _ [s] |- _ =>
      apply Forall_cons_1 in H as [H _] end.
    destruct IH as (v & Hw & Hv & Hp); [done|done|].
    match goal with H : schema_key s = _ |- _ => rewrite H in Hv, Hp end.
    unfold prints_back. simpl. rewrite Hv. simpl.
    eexists. split; [|split; [done|]]; [apply wf_obj_insert; [constructor|apply wf_obj_insert; [done|apply constraints_wf, H2]]|].
    rewrite parse_property_obj, assoc_obj_insert_eq. simpl.
    rewrite assoc_obj_insert_ne, assoc_obj_insert_eq by done.
    rewrite Hp. simpl. by rewrite get_constraints_print2.
Qed.

End SchemaOk.

(** ** Generated data conforms to its schema *)

Section Conforms.
  Context {Hir Rng : Type} `{!RandomSource Hir Rng, !RandomSourceLaws Hir Rng}.
  Context (parse_regex : string → option Hir).

(** [regex_generate]'s contract: what it generates for a pattern matches it. *)
  Context (matches : Hir → string → Prop).
  Context (rng_matches : ∀ h (g g' : Rng) s, rng_from_hir h g = (Some s, g') → matches h s).

(** A string for a pattern: it matches, or tells that none could be generated. *)
Definition pattern_string (p : string) (h : Hir) (s : string) : Prop :=
  matches h s ∨ s = ("Couldn't generate string for: " +:+ p)%string.

Definition string_conforms (c : ConstraintMap Hir) (s : string) : Prop :=
  match cget KConstant c, cget KPattern c with
  | Some x, _ => s = default "Error: invalid constant constraint"%string (constraint_as_str x)
  | None, Some x => ∃ p h, x = CPattern p (Some h) ∧ parse_regex p = Some h ∧ pattern_string p h s
  | None, None => bound KMinLength 1 c <= Z.of_nat (String.length s) <= bound KMaxLength 20 c
  end.

(** An integer for a pattern is the number that the string for it is, or 0. *)
Definition integer_conforms (c : ConstraintMap Hir) (n : Z) : Prop :=
  match cget KConstant c, cget KPattern c with
  | Some x, _ => n = default i64_MIN (constraint_as_i64 x)
  | None, Some x => ∃ p h t, x = CPattern p (Some h) ∧ parse_regex p = Some h ∧ pattern_string p h t ∧
                     n = default 0 (parse_i64 t)
  | None, None => bound KMinimum 0 c <= n <= bound KMaximum 100 c
  end.

(** A value has the shape of the schema and keeps to its constraints; the length of an
    array is drawn from its range, a negative draw gives the empty array. *)
Inductive conforms : DataSchema Hir → Value → Prop :=
| cf_string n c s : string_conforms c s → conforms (SString n c) (Str s)
| cf_integer n c x : integer_conforms c x → conforms (SInteger n c) (int_value x)
| cf_object n d m :
    Forall2 (λ s p, p.1 = schema_key s ∧ conforms s p.2) d m → conforms (SObject n d) (Obj m)
| cf_constant n v :
    conforms (SConstantObject n (cinsert KConstant (CConstantValue v) no_constraints)) v
| cf_array n s c vs k :
    bound KMinLength 1 c <= k <= bound KMaxLength 20 c → len vs = Z.max 0 k →
    Forall (conforms s) vs → conforms (SArray n [s] c) (Arr vs).

(** No string is asked to have a negative length. *)
Fixpoint strings_sized (s : DataSchema Hir) : bool :=
  match s with
  | SString _ c => match cget KConstant c, cget KPattern c with
                   | None, None => 0 <=? bound KMinLength 1 c
                   | _, _ => true
                   end
  | SObject _ d | SArray _ d _ => forallb strings_sized d
  | _ => true
  end.

Lemma check_pair_bound e1 e2 kmin kmax dmin dmax c :
  entries_ok parse_regex c →
  (kmin, kmax) = (KMinimum, KMaximum) ∨ (kmin, kmax) = (KMinLength, KMaxLength) →
  dmin <= dmax → check_pair e1 e2 (cget kmin c) (cget kmax c) = Ok tt →
  bound kmin dmin c <= bound kmax dmax c.
Proof.
  intros He Hk Hd. unfold check_pair, bound.
  destruct (cget kmin c) as [x|] eqn:E1, (cget kmax c) as [y|] eqn:E2; simpl; try done.
  apply He in E1, E2. destruct Hk as [[= -> ->]|[= -> ->]];
    destruct x, y; simpl in *; try done; destruct (Z.ltb_spec x0 x); done.
Qed.

Lemma constraints_bounds c :
  constraints_ok parse_regex c →
  bound KMinimum 0 c <= bound KMaximum 100 c ∧ bound KMinLength 1 c <= bound KMaxLength 20 c.
Proof.
  intros [He Hv]. unfold validate_constraints in Hv.
  destruct (check_pair _ _ (cget KMinimum c) _) as [[]|] eqn:E1; simpl in Hv; [|done].
  split; eapply check_pair_bound; eauto; lia.
Qed.

Lemma fastrand_i64_ok min max (g : Rng) :
  min <= max → ∃ n g', fastrand_i64 (Hir := Hir) min max g = Val (n, g') ∧ min <= n <= max.
Proof.
  intros H. unfold fastrand_i64. destruct (Z.ltb_spec max min); [lia|].
  pose proof (rng_i64_range min max g H) as Hr.
  destruct (rng_i64 min max g) as [n g']. eauto.
Qed.

Lemma alphabetic_string_length n (g : Rng) :
  String.length (fst (alphabetic_string (Hir := Hir) n g)) = n.
Proof.
  revert g. induction n as [|n IH]; intros g; simpl; [done|].
  destruct (rng_alphabetic g) as [a g']. specialize (IH g').
  destruct (alphabetic_string n g'). simpl in *. by rewrite IH.
Qed.

Lemma bound_entry_range k d c :
  entries_ok parse_regex c → in_i64 d → in_i64 (bound k d c).
Proof.
  intros He Hd. unfold bound. destruct (cget k c) as [x|] eqn:E; simpl; [|done].
  apply He in E. by destruct k, x.
Qed.

Lemma generate_from_pattern_ok p h (g : Rng) :
  pattern_string p h (fst (generate_from_pattern parse_regex p (Some h) g)).
Proof.
  unfold generate_from_pattern, pattern_string. destruct (rng_from_hir h g) as [[s|] g'] eqn:E; simpl; [|by right].
  left. by eapply rng_matches.
Qed.

Lemma generate_string_ok c (g : Rng) :
  constraints_ok parse_regex c → strings_sized (SString "" c) = true →
  ∃ s g', generate_string_data parse_regex c g = Val (s, g') ∧ string_conforms c s.
Proof.
  intros Hc Hs. destruct (constraints_bounds c Hc) as [_ Hb]. destruct Hc as [He _].
  unfold generate_string_data, string_conforms. cbn [strings_sized] in Hs.
  destruct (cget KConstant c) as [x|]; [eauto|].
  destruct (cget KPattern c) as [x|] eqn:Ek.
  { apply He in Ek. destruct x as [| | | | | | |p [h|]]; try done. simpl.
    pose proof (generate_from_pattern_ok p h g) as Hp. destruct (generate_from_pattern parse_regex p (Some h) g) as [s g'].
    exists s, g'. split; [done|]. by exists p, h. }
  simpl. bool_simp. destruct (fastrand_i64_ok _ _ g Hb) as (n & g' & Hn & Hr).
  unfold random_string. rewrite Hn. simpl.
  assert (in_i64 (bound KMaxLength 20 c)) as Hmax by (by apply bound_entry_range).
  unfold in_i64 in Hmax. rewrite wrap_id by lia. destruct (Z.ltb_spec i64_MAX n); [lia|].
  pose proof (alphabetic_string_length (Z.to_nat n) g') as Hl.
  destruct (alphabetic_string (Z.to_nat n) g') as [s g'']. simpl in Hl.
  exists s, g''. split; [done|]. rewrite Hl. lia.
Qed.

Lemma generate_integer_ok c (g : Rng) :
  constraints_ok parse_regex c →
  ∃ n g', generate_integer_data parse_regex c g = Val (n, g') ∧ integer_conforms c n.
Proof.
  intros Hc. destruct (constraints_bounds c Hc) as [Hb _]. destruct Hc as [He _].
  unfold generate_integer_data, integer_conforms.
  destruct (cget KConstant c) as [x|]; [eauto|].
  destruct (cget KPattern c) as [x|] eqn:Ek.
  - pose proof (He _ _ Ek) as Hx. destruct x as [| | | | | | |p [h|]]; try done. simpl.
    pose proof (generate_from_pattern_ok p h g) as Hp. destruct (generate_from_pattern parse_regex p (Some h) g) as [s g'].
    eexists _, g'. split; [done|]. by exists p, h, s.
  - destruct (fastrand_i64_ok _ _ g Hb) as (n & g' & Hn & Hr). eauto 10.
Qed.

(** [generate_datum] returns a named value that conforms. *)
Definition generates (s : DataSchema Hir) : Prop :=
  ∀ g : Rng, ∃ v g', generate_datum parse_regex s g = Val (Some (schema_key s, v), g') ∧ conforms s v.

Lemma gen_list_ok d (g : Rng) :
  Forall generates d →
  ∃ l g', gen_list (generate_datum parse_regex) d g = Val (Some <$> l, g') ∧
          Forall2 (λ s p, p.1 = schema_key s ∧ conforms s p.2) d l.
Proof.
  intros Hd. revert g. induction Hd as [|s d Hs Hd IH]; intros g; [by exists [], g|].
  destruct (Hs g) as (v & g1 & H1 & Hv). destruct (IH g1) as (l & g2 & H2 & Hl).
  exists ((schema_key s, v) :: l), g2. simpl. rewrite H1. simpl. rewrite H2. simpl.
  split; [done|]. by constructor.
Qed.

Lemma gen_repeat_ok {B} n (f : Rng → outcome (B * Rng)) (P : B → Prop) g :
  (∀ g, ∃ v g', f g = Val (v, g') ∧ P v) →
  ∃ vs g', gen_repeat n f g = Val (vs, g') ∧ length vs = n ∧ Forall P vs.
Proof.
  intros Hf. revert g. induction n as [|n IH]; intros g; simpl; [by exists [], g|].
  destruct (Hf g) as (v & g1 & -> & Hv). simpl. destruct (IH g1) as (vs & g2 & -> & Hl & Hvs).
  simpl. exists (v :: vs), g2. simpl. split_and!; [done|by rewrite Hl|by constructor].
Qed.

Lemma to_map_sorted d l :
  names_sorted d → Forall2 (λ s p, p.1 = schema_key s ∧ conforms s p.2) d l →
  to_map (Some <$> l) = l.
Proof.
  intros Hs Hl. unfold to_map.
  assert (omap id (Some <$> l) = l) as ->.
  { clear. induction l as [|x l IH]; simpl; [done|]. by f_equal. }
  rewrite foldl_obj_insert_sorted; [done|]. simpl. eapply keys_sorted_fst; [|exact Hs].
  rewrite map_map. simpl. clear Hs. induction Hl as [|s p d l [Hp _] Hl IH]; simpl; congruence.
Qed.

Lemma generate_datum_ok s :
  schema_ok parse_regex s → supported s = true → strings_sized s = true → generates s.
Proof.
  induction s as [|n c|n c|n d IH|n c|n d c IH] using schema_ind; intros Hok Hsup Hsz g;
    inversion Hok; subst; simpl in *.
  - destruct (generate_string_ok c g) as (s & g' & -> & Hc); [done..|]. simpl.
    exists (Str s), g'. split; [done|]. by constructor.
  - destruct (generate_integer_ok c g) as (x & g' & -> & Hc); [done..|]. simpl.
    exists (int_value x), g'. split; [done|]. by constructor.
  - apply forallb_Forall in Hsup, Hsz.
    destruct (gen_list_ok d g) as (l & g' & Hl & Hf); [rewrite Forall_forall in *; naive_solver|].
    simpl. rewrite Hl. simpl. eexists _, g'. split; [done|].
    rewrite (to_map_sorted d l) by done. by constructor.
  - eexists _, g. split; [done|]. simpl. constructor.
  - destruct d as [|s [|]]; simpl in *; [done| |lia]. rewrite !andb_true_r in *.
    repeat match goal with H : Forall _ [s] |- _ => apply Forall_cons_1 in H as [H _] end.
    destruct (constraints_bounds c) as [_ Hb]; [done|].
    destruct (fastrand_i64_ok _ _ g Hb) as (k & g1 & -> & Hk). simpl.
    match goal with |- context [gen_repeat _ ?f _] =>
      destruct (gen_repeat_ok (Z.to_nat k) f (conforms s) g1) as (vs & g2 & Hr & Hlen & Hvs) end.
    { intros g0. destruct (IH ltac:(done) ltac:(done) ltac:(done) g0) as (v & g3 & Hv & Hcv).
      match goal with H : schema_key s = _ |- _ => rewrite H in Hv end.
      rewrite Hv. simpl. eauto. }
    rewrite Hr. simpl. eexists _, g2. split; [done|]. eapply (cf_array _ s c vs k); [done| |done].
    unfold len. lia.
Qed.

End Conforms.

(** ** Properties *)

(** A schema that was parsed can be printed and parsed again to the same schema (this
    is how it travels from the primary to the secondaries), provided its arrays have
    items of a supported type. *)
Lemma schema_reads_back {Hir} (parse_regex : string → option Hir) v s :
  wf_value v → data_schema_from_value parse_regex v = Ok s → supported s = true →
  ∃ v', wf_value v' ∧ data_value_from_schema s = Val v' ∧ data_schema_from_value parse_regex v' = Ok s.
Proof.
  intros Hwf Hs Hsup. destruct (data_schema_from_value_ok _ _ _ Hwf Hs) as (d & -> & Hd & Hn).
  simpl in Hsup. apply forallb_Forall in Hsup.
  destruct (prints_back_list parse_regex d) as (m & Hw & Hm & Hp); [|done|].
  - rewrite Forall_forall in *. intros s Hin. apply schema_prints_back; auto.
  - exists (Obj [("properties"%string, Obj m)]). simpl. rewrite Hm. simpl. split_and!; [|done|].
    { wf_members. }
    unfold data_schema_from_value. simpl. by rewrite Hp.
Qed.

Lemma generate_data_ok {Hir Rng} `{!RandomSource Hir Rng, !RandomSourceLaws Hir Rng}
    (parse_regex : string → option Hir) (matches : Hir → string → Prop) v s (g : Rng) :
  (∀ h (g g' : Rng) s, rng_from_hir h g = (Some s, g') → matches h s) →
  wf_value v → data_schema_from_value parse_regex v = Ok s →
  supported s = true → strings_sized s = true →
  ∃ data g', generate_data parse_regex s g = Val (data, g') ∧ conforms parse_regex matches s data.
Proof.
  intros Hmt Hwf Hs Hsup Hsz. destruct (data_schema_from_value_ok _ _ _ Hwf Hs) as (d & -> & Hd & Hn).
  simpl in Hsup, Hsz. apply forallb_Forall in Hsup, Hsz.
  destruct (gen_list_ok parse_regex matches d g) as (l & g' & Hl & Hf).
  { rewrite Forall_forall in *. intros s Hin. eapply generate_datum_ok; eauto. }
  exists (Obj l), g'. unfold generate_data, generate_object_data. rewrite Hl. simpl.
  rewrite (to_map_sorted parse_regex matches d l) by done. split; [done|]. by constructor.
Qed.

(** Generation never panics, whatever the patterns give. *)
Lemma generate_data_some {Hir Rng} `{!RandomSource Hir Rng, !RandomSourceLaws Hir Rng}
    (parse_regex : string → option Hir) v s (g : Rng) :
  wf_value v → data_schema_from_value parse_regex v = Ok s →
  supported s = true → strings_sized s = true → ∃ data g', generate_data parse_regex s g = Val (data, g').
Proof.
  intros Hwf Hs Hsup Hsz. destruct (generate_data_ok parse_regex (λ _ _, True) v s g) as (d & g' & H & _); try done. eauto.
Qed.


(** A schema with an array of numbers; [number] is not a supported type. *)
Definition array_of_numbers : Value :=
  Obj [("properties"%string,
        Obj [("a"%string, Obj [("items"%string, Obj [("type"%string, Str "number")]);
                               ("type"%string, Str "array")])])].

(** A schema whose array has items of an unsupported type is accepted, yet it is lost
    on the way to a secondary (what it prints to is rejected) and generating data for
    it panics. *)
Theorem unsupported_items_accepted_then_fail {Hir Rng} `{!RandomSource Hir Rng, !RandomSourceLaws Hir Rng}
    (parse_regex : string → option Hir) (g : Rng) :
  ∃ s v', data_schema_from_value parse_regex array_of_numbers = Ok s ∧
    data_value_from_schema s = Val v' ∧
    data_schema_from_value parse_regex v' = Err (TypeNotFound "__") ∧
    generate_data parse_regex s g = Panic.
Proof.
  eexists _, _. split; [reflexivity|]. split; [reflexivity|]. split; [reflexivity|].
  unfold generate_data, generate_object_data. simpl. unfold bound. simpl.
  pose proof (rng_i64_range 1 20 g ltac:(lia)) as Hn. destruct (rng_i64 1 20 g) as [n g'].
  simpl in Hn. destruct (Z.to_nat n) eqn:E; [lia|]. done.
Qed.

(** ** Concrete inputs *)

Definition demo_schema : Value :=
  Obj [("properties"%string,
        Obj [("age"%string, Obj [("maximum"%string, Num (PosInt 100)); ("minimum"%string, Num (PosInt 10));
                                 ("type"%string, Str "integer")]);
             ("code"%string, Obj [("pattern"%string, Str "x7"); ("type"%string, Str "string")]);
             ("tags"%string, Obj [("items"%string, Obj [("constant"%string, Str "x"); ("type"%string, Str "string")]);
                                  ("maxLength"%string, Num (PosInt 3)); ("minLength"%string, Num (PosInt 2));
                                  ("type"%string, Str "array")])])].

#[export] Instance lowest_source : RandomSource unit unit :=
  {| rng_i64 min _ g := (min, g); rng_alphabetic g := ("a"%char, g); rng_from_hir _ g := (None, g) |}.

#[export] Instance lowest_source_laws : RandomSourceLaws unit unit.
Proof. intros min max g H. simpl. lia. Qed.

Ltac wf_solve := repeat first
  [ apply wf_obj; [simpl; split_and!; repeat constructor|]
  | apply Forall_cons_2; [simpl|] | apply Forall_nil_2 | apply wf_str | apply wf_pos; lia ].

Lemma demo_schema_wf : wf_value demo_schema.
Proof. wf_solve. Qed.

(** A source whose patterns are texts that match themselves. *)
#[local] Instance literal_source : RandomSource string unit :=
  {| rng_i64 min _ g := (min, g); rng_alphabetic g := ("a"%char, g); rng_from_hir h g := (Some h, g) |}.

#[local] Instance literal_source_laws : RandomSourceLaws string unit.
Proof. intros min max g H. simpl. lia. Qed.

Lemma literal_matches h (g g' : unit) s : rng_from_hir h g = (Some s, g') → h = s.
Proof. by intros [= -> _]. Qed.

Definition demo_parsed : DataSchema string :=
  match data_schema_from_value Some demo_schema with Ok s => s | Err _ => SEmpty end.


Lemma unsupported_items_accepted_then_fail_witness :
  ∃ s, data_schema_from_value (λ _, Some tt) array_of_numbers = Ok s ∧
       generate_data (λ _, Some tt) s tt = Panic.
Proof.
  destruct (unsupported_items_accepted_then_fail (λ _, Some tt) tt) as (s & v & H1 & _ & _ & H2).
  exists s. split; [exact H1|exact H2].
Defined.
