(* ===== verification/Template.v ===== *)
(** * JSON templates

    [datagen/src/template.rs]: finding the [{{expr}}] strings of a JSON value, compiling
    them, and putting the results in their place.

    The rhai engine is a parameter: [compile] turns an expression into an [AST] or an
    error text, [eval] evaluates an [AST] to a JSON value or an error text, drawing from the
    random numbers; it may panic, since the functions registered with it may.  The order in
    which a [HashMap] is iterated is an argument as well. *)
From Stdlib Require Import ZArith Lia Ascii.
From stdpp Require Import base list gmap strings numbers sets.
From S2P Require Import Prelude Json DataGen.

Local Open Scope Z_scope.

(** ** The regex [\{\{(.+?)}}] *)

Definition newline : ascii := "010".

(** After [{{] and one character of the expression: the rest of the expression up to
    the first [}}]; the expression may not contain a line break. *)
Fixpoint lazy_capture (s : string) : option string :=
  match s with
  | String "}" (String "}" _) => Some EmptyString
  | String a s' => if Ascii.eqb a newline then None else String a <$> lazy_capture s'
  | EmptyString => None
  end.

(** The expression of a match that starts at the head of [s]. *)
Definition capture_at (s : string) : option string :=
  match s with
  | String "{" (String "{" (String a s')) =>
      if Ascii.eqb a newline then None else String a <$> lazy_capture s'
  | _ => None
  end.

(** [PATTERN_FUNCTION.captures(s)], group 1: the leftmost match. *)
Fixpoint captures (s : string) : option string :=
  match s with
  | EmptyString => None
  | String _ s' => match capture_at s with Some e => Some e | None => captures s' end
  end.

(** [PATTERN_FUNCTION.is_match(s)] *)
Definition pattern_function_is_match (s : string) : bool :=
  match captures s with Some _ => true | None => false end.

(** ** JSON pointers ([Value::pointer], [Value::pointer_mut]) *)

(** [token.replace("~1", "/").replace("~0", "~")] *)
Fixpoint replace2 (a b : ascii) (by_ : ascii) (s : string) : string :=
  match s with
  | String x ((String y s') as t) =>
      if Ascii.eqb x a && Ascii.eqb y b then String by_ (replace2 a b by_ s')
      else String x (replace2 a b by_ t)
  | _ => s
  end.

Definition unescape (t : string) : string := replace2 "~" "0" "~" (replace2 "~" "1" "/" t).

(** [parse_index]: no leading [+], no leading zero. *)
Definition parse_index (t : string) : option Z :=
  match t with
  | String a (String _ _) =>
      if Ascii.eqb a "+" || Ascii.eqb a "0" then None else parse_unsigned usize_MAX t
  | String a EmptyString => if Ascii.eqb a "+" then None else parse_unsigned usize_MAX t
  | EmptyString => None
  end.

Definition child (t : string) (v : Value) : option Value :=
  match v with
  | Obj m => assoc t m
  | Arr l => i ← parse_index t; l !! Z.to_nat i
  | _ => None
  end.

Fixpoint lookup_tokens (ts : list string) (v : Value) : option Value :=
  match ts with
  | [] => Some v
  | t :: ts' => x ← child t v; lookup_tokens ts' x
  end.

(** [Value::pointer] *)
Definition pointer (p : string) (v : Value) : option Value :=
  match p with
  | EmptyString => Some v
  | String a rest =>
      if Ascii.eqb a "/" then lookup_tokens (map unescape (split_char "/" rest)) v else None
  end.

(** Replace the value the tokens lead to. *)
Fixpoint assoc_update {A} (f : A → A) (k : string) (l : list (string * A)) : list (string * A) :=
  match l with
  | [] => []
  | (i, x) :: l' => if String.eqb i k then (i, f x) :: l' else (i, x) :: assoc_update f k l'
  end.

Fixpoint update_tokens (ts : list string) (new : Value) (v : Value) : Value :=
  match ts with
  | [] => new
  | t :: ts' =>
      match v with
      | Obj m => Obj (assoc_update (update_tokens ts' new) t m)
      | Arr l => match parse_index t with
                 | Some i => Arr (alter (update_tokens ts' new) (Z.to_nat i) l)
                 | None => v
                 end
      | _ => v
      end
  end.

(** [if let Some(val) = json.pointer_mut(path) { *val = new }] *)
Definition pointer_set (p : string) (new : Value) (v : Value) : Value :=
  match pointer p v with
  | None => v
  | Some _ =>
      match p with
      | EmptyString => new
      | String _ rest => update_tokens (map unescape (split_char "/" rest)) new v
      end
  end.

(** ** Templates *)

Section Templates.
  Context {AST Rng : Type} (compile : string → result string AST).
  Context (eval : AST → Rng → outcome (result string Value * Rng)).

(** An expression that does not compile is replaced by the text of the error in
    backquotes; the [unwrap] panics if that does not compile either. *)
Definition find_pattern_and_compile (target : string) : outcome (option AST) :=
  match captures target with
  | Some expr =>
      match compile expr with
      | Ok ast => Val (Some ast)
      | Err e => match compile ("`" +:+ e +:+ "`") with
                 | Ok ast => Val (Some ast)
                 | Err _ => Panic
                 end
      end
  | None => Val None
  end.

(** A loop that threads the template map. *)
Definition fold_outcome {A B} (f : A → B → outcome B) : list A → B → outcome B :=
  fix go l b := match l with [] => Val b | x :: l' => b ← f x b; go l' b end.

(** The elements with their positions, as path tokens. *)
Fixpoint enumerate_from (i : Z) (l : list Value) : list (string * Value) :=
  match l with [] => [] | x :: l' => (show_unsigned i, x) :: enumerate_from (i + 1) l' end.

Fixpoint parse_templates_inner (json : Value) (path : string) (m : gmap string AST) :
    outcome (gmap string AST) :=
  match json with
  | Null | Bool _ | Num _ => Val m
  | Str s =>
      o ← find_pattern_and_compile s;
      Val (match o with Some ast => <[path := ast]> m | None => m end)
  | Arr vals =>
      (fix go (i : Z) (l : list Value) (m : gmap string AST) := match l with
       | [] => Val m
       | v :: l' => m ← parse_templates_inner v (path +:+ "/" +:+ show_unsigned i) m; go (i + 1) l' m
       end) 0 vals m
  | Obj vals =>
      fold_outcome (λ kv m, parse_templates_inner kv.2 (path +:+ "/" +:+ kv.1) m) vals m
  end.

Definition parse_templates (json : Value) : outcome (gmap string AST) :=
  parse_templates_inner json "" ∅.

(** What is put in the place of a template. *)
Definition eval_result (ast : AST) (g : Rng) : outcome (Value * Rng) :=
  '(r, g) ← eval ast g; Val (match r with Ok v => v | Err e => Str e end, g).

(** [populate_data], with the map's entries in the order they are visited. *)
Fixpoint populate_data (entries : list (string * AST)) (json : Value) (g : Rng) : outcome (Value * Rng) :=
  match entries with
  | [] => Val (json, g)
  | (path, ast) :: entries' =>
      match pointer path json with
      | Some _ => '(v, g) ← eval_result ast g; populate_data entries' (pointer_set path v json) g
      | None => populate_data entries' json g
      end
  end.

End Templates.

(** ** Template functions *)

(** The values of rhai that the functions take and return. *)
Inductive Dynamic (F64 : Type) :=
| DInt (n : Z)
| DBool (b : bool)
| DFloat (f : F64)
| DStr (s : string).

Arguments DInt {F64} _.
Arguments DBool {F64} _.
Arguments DFloat {F64} _.
Arguments DStr {F64} _.

Section TemplateFunctions.
  Context {Hir Rng F64 : Type} `{!RandomSource Hir Rng}.
  (** Random booleans and floats, the regex generator, and the texts of std. *)
  Context (rng_bool : Rng → bool * Rng) (f64_range : F64 → F64 → Rng → F64 * Rng).
  Context (regex_parse : string → result string Hir).
  Context (regex_generate : Hir → Rng → result string (list Byte.byte) * Rng).
  Context (from_utf8 : list Byte.byte → result string string).
  Context (show_f64 : F64 → string) (parse_error : string → string).

(** [randomInt]: a half open range, empty ranges panic. *)
Definition random_int (l h : Z) (g : Rng) : outcome (Z * Rng) := fastrand_i64 (Hir := Hir) l (h - 1) g.

Definition random_bool (g : Rng) : bool * Rng := rng_bool g.

Definition random_float (l h : F64) (g : Rng) : F64 * Rng := f64_range l h g.

(** [randomStr] *)
Definition random_str (min_len max_len : Z) (g : Rng) : outcome (string * Rng) :=
  let min_len := Z.max 1 min_len in
  let max_len := Z.max min_len max_len in
  random_string (Hir := Hir) min_len max_len g.

(** [patternStr]: a string of the pattern, or the text of whatever went wrong. *)
Definition random_str_pattern (regex : string) (g : Rng) : string * Rng :=
  match regex_parse regex with
  | Err e => (e, g)
  | Ok hir =>
      let '(r, g) := regex_generate hir g in
      (match buffer ← r; from_utf8 buffer with Ok s => s | Err e => e end, g)
  end.

(** [toStr] *)
Definition to_str (val : Dynamic F64) : string :=
  match val with
  | DInt n => show_signed n
  | DBool b => if b then "true" else "false"
  | DFloat f => show_f64 f
  | DStr s => s
  end.

(** [toInt]: the integer that the text of the value is, or the text of the parse error. *)
Definition to_int (int_str : Dynamic F64) : Dynamic F64 :=
  match parse_i64 (to_str int_str) with
  | Some n => DInt n
  | None => DStr (parse_error (to_str int_str))
  end.

(** [register_template_functions]: what a call of a registered function does; [None] if
    there is no function with this name for such arguments. *)
Definition register_template_functions (name : string) (args : list (Dynamic F64)) (g : Rng) :
    option (outcome (Dynamic F64 * Rng)) :=
  match args with
  | [] => if String.eqb name "randomBool" then let '(b, g) := random_bool g in Some (Val (DBool b, g)) else None
  | [x] =>
      if String.eqb name "toStr" then Some (Val (DStr (to_str x), g))
      else if String.eqb name "toInt" then Some (Val (to_int x, g))
      else if String.eqb name "patternStr" then
        match x with
        | DStr regex => let '(s, g) := random_str_pattern regex g in Some (Val (DStr s, g))
        | _ => None
        end
      else None
  | [DInt a; DInt b] =>
      if String.eqb name "randomInt" then Some ('(n, g) ← random_int a b g; Val (DInt n, g))
      else if String.eqb name "randomStr" then Some ('(s, g) ← random_str a b g; Val (DStr s, g))
      else None
  | [DFloat a; DFloat b] =>
      if String.eqb name "randomFloat" then let '(f, g) := random_float a b g in Some (Val (DFloat f, g)) else None
  | _ => None
  end.

End TemplateFunctions.

(** ** Paths *)

(** Keys that a JSON pointer does not escape. *)
Definition plain_char (a : ascii) : bool := negb (Ascii.eqb a "/") && negb (Ascii.eqb a "~").
Definition plain (t : string) : bool := str_forall plain_char t.

Inductive plain_keys : Value → Prop :=
| pk_null : plain_keys Null
| pk_bool b : plain_keys (Bool b)
| pk_num n : plain_keys (Num n)
| pk_str s : plain_keys (Str s)
| pk_arr l : len l <= usize_MAX → Forall plain_keys l → plain_keys (Arr l)
| pk_obj m : NoDup (map fst m) → Forall (λ p, plain p.1 = true ∧ plain_keys p.2) m →
             plain_keys (Obj m).

Definition render (ts : list string) : string :=
  foldr (λ t s, ("/" +:+ t +:+ s)%string) EmptyString ts.

Lemma replace2_plain b c t : plain t = true → replace2 "~" b c t = t.
Proof.
  unfold plain. induction t as [|x t IH]; simpl; [done|]. intros [Hx Ht]%andb_true_iff.
  destruct t as [|y t']; [done|]. unfold plain_char in Hx. apply andb_true_iff in Hx as [_ Hx].
  apply negb_true_iff in Hx. rewrite Hx. cbn [andb]. f_equal. by apply IH.
Qed.

Lemma unescape_plain t : plain t = true → unescape t = t.
Proof. intros Ht. unfold unescape. by rewrite !replace2_plain; rewrite ?replace2_plain. Qed.

Lemma map_unescape_plain ts : Forall (λ t, plain t = true) ts → map unescape ts = ts.
Proof. induction 1 as [|u us Hu Hus IH]; simpl; [done|]. by rewrite unescape_plain, IH. Qed.

Lemma append_empty_r (t : string) : (t +:+ EmptyString)%string = t.
Proof. induction t as [|a t IH]; [done|]. change (String a (t +:+ EmptyString) = String a t). by rewrite IH. Qed.

Lemma render_split t ts :
  Forall (λ t, plain t = true) (t :: ts) →
  split_char "/" (t +:+ render ts) = t :: ts.
Proof.
  revert t. induction ts as [|u ts IH]; intros t [Ht Hts]%Forall_cons_1; simpl.
  - rewrite append_empty_r. apply split_char_none. eapply str_forall_impl; [|exact Ht]. by intros a [??]%andb_true_iff.
  - change ("/" +:+ u +:+ render ts)%string with (String "/" (u +:+ render ts)).
    rewrite split_char_app; [by rewrite IH|]. eapply str_forall_impl; [|exact Ht].
    by intros a [??]%andb_true_iff.
Qed.

Lemma pointer_render ts v :
  Forall (λ t, plain t = true) ts → pointer (render ts) v = lookup_tokens ts v.
Proof.
  intros Hts. destruct ts as [|t ts]; [done|].
  change (render (t :: ts)) with (String "/" (t +:+ render ts)). cbn [pointer].
  by rewrite (Ascii.eqb_refl "/"), render_split, map_unescape_plain by done.
Qed.

Lemma update_render ts new v :
  Forall (λ t, plain t = true) ts →
  (match render ts with
   | EmptyString => new
   | String _ rest => update_tokens (map unescape (split_char "/" rest)) new v
   end) = update_tokens ts new v.
Proof.
  intros Hts. destruct ts as [|t ts]; [done|].
  change (render (t :: ts)) with (String "/" (t +:+ render ts)). cbn iota.
  by rewrite render_split, map_unescape_plain by done.
Qed.

Lemma plain_show n : plain (show_unsigned n) = true.
Proof.
  apply (str_forall_impl is_digit); [|by apply show_digits_forall].
  intros a Ha. unfold plain_char. destruct (Ascii.eqb_spec a "/") as [->|]; [done|].
  by destruct (Ascii.eqb_spec a "~") as [->|].
Qed.

Lemma parse_index_show i : 0 <= i <= usize_MAX → parse_index (show_unsigned i) = Some i.
Proof.
  intros Hi. pose proof (parse_show_unsigned usize_MAX i Hi ltac:(simpl; lia)) as Hp.
  unfold show_unsigned in *. destruct (decide (i = 0)) as [->|]; [done|].
  destruct (show_digits_nonzero 20 i EmptyString) as (d & s' & Hd & Heq); [simpl; lia|].
  rewrite Heq in *. unfold parse_index.
  assert (Ascii.eqb (digit_char d) "+" = false) as -> by (apply digit_char_not_plus; lia).
  assert (Ascii.eqb (digit_char d) "0" = false) as -> by (digit_cases d; done || lia).
  destruct s'; done.
Qed.

(** ** Which paths are recorded *)

(** A string in a value, with the tokens that lead to it. *)
Inductive leaf : Value → list string → string → Prop :=
| leaf_str s : leaf (Str s) [] s
| leaf_arr l i v ts s :
    l !! i = Some v → leaf v ts s → leaf (Arr l) (show_unsigned (Z.of_nat i) :: ts) s
| leaf_obj m k v ts s : (k, v) ∈ m → leaf v ts s → leaf (Obj m) (k :: ts) s.

Lemma assoc_nodup {A} k (v : A) m : NoDup (map fst m) → (k, v) ∈ m → assoc k m = Some v.
Proof.
  induction m as [|[i x] m IH]; simpl; [set_solver|]. intros [Hi Hnd]%NoDup_cons Hin.
  apply elem_of_cons in Hin as [[= -> ->]|Hin]; [by rewrite String.eqb_refl|].
  destruct (String.eqb_spec i k) as [->|]; [|auto].
  destruct Hi. by apply (list_elem_of_fmap_2 fst _ (k, v)).
Qed.

Lemma leaf_lookup v ts s :
  plain_keys v → leaf v ts s → Forall (λ t, plain t = true) ts ∧ lookup_tokens ts v = Some (Str s).
Proof.
  intros Hv Hl. induction Hl as [s|l i v ts s Hi Hl IH|m k v ts s Hk Hl IH]; [done|..].
  - inversion Hv as [| | | |? Hlen Hall|]; subst. rewrite Forall_forall in Hall.
    destruct IH as [H1 H2]; [apply Hall; by eapply list_elem_of_lookup_2|].
    split; [by constructor; [apply plain_show|]|]. simpl.
    pose proof (lookup_lt_Some _ _ _ Hi). unfold len in Hlen.
    rewrite parse_index_show by lia. simpl. by rewrite Nat2Z.id, Hi.
  - inversion Hv as [| | | | |? Hnd Hall]; subst. rewrite Forall_forall in Hall.
    destruct (Hall _ Hk) as [Hp Hvk]. destruct IH as [H1 H2]; [done|].
    split; [by constructor|]. simpl. by rewrite (assoc_nodup k v).
Qed.

Lemma render_inj ts us :
  Forall (λ t, plain t = true) ts → Forall (λ t, plain t = true) us → render ts = render us → ts = us.
Proof.
  intros Ht Hu. destruct ts as [|t ts], us as [|u us]; try done.
  intros [= H]. rewrite <- (render_split t ts), <- (render_split u us) by done.
  change ((t +:+ render ts)%string = (u +:+ render us)%string) in H. by rewrite H.
Qed.

Lemma append_assoc' (s t u : string) : ((s +:+ t) +:+ u)%string = (s +:+ t +:+ u)%string.
Proof.
  induction s as [|a s IH]; [done|].
  change (String a ((s +:+ t) +:+ u) = String a (s +:+ t +:+ u)). by rewrite IH.
Qed.

Section Recorded.
  Context {AST : Type} (compile : string → result string AST).

Lemma array_loop path l i (m : gmap string AST) :
  (fix go (i : Z) (l : list Value) (m : gmap string AST) := match l with
   | [] => Val m
   | v :: l' => m ← parse_templates_inner compile v (path +:+ "/" +:+ show_unsigned i) m; go (i + 1) l' m
   end) i l m =
  fold_outcome (λ kv m, parse_templates_inner compile kv.2 (path +:+ "/" +:+ kv.1) m)
    (enumerate_from i l) m.
Proof.
  revert i m. induction l as [|v l IH]; intros i m; simpl; [done|].
  destruct (parse_templates_inner _ _ _ _); simpl; [apply IH|done].
Qed.

Lemma enumerate_from_elem i l k v :
  (k, v) ∈ enumerate_from i l ↔ ∃ j, l !! j = Some v ∧ k = show_unsigned (i + Z.of_nat j).
Proof.
  revert i. induction l as [|x l IH]; intros i; simpl.
  { split; [set_solver|]. by intros (j & Hj & _). }
  rewrite elem_of_cons, IH. split.
  - intros [[= -> ->]|(j & Hj & ->)].
    + exists 0%nat. split; [done|]. f_equal. lia.
    + exists (S j). split; [done|]. f_equal. lia.
  - intros ([|j] & Hj & ->); simpl in Hj.
    + left. simplify_eq. f_equal. f_equal. lia.
    + right. exists j. split; [done|]. f_equal. lia.
Qed.

(** What collecting the templates of the leaves [L] under [path] does to the map. *)
Definition collects (L : list string → string → Prop) (path : string)
    (m m' : gmap string AST) : Prop :=
  (∀ p ast, m' !! p = Some ast → m !! p = Some ast ∨ ∃ ts s, L ts s ∧
     p = (path +:+ render ts)%string ∧ find_pattern_and_compile compile s = Val (Some ast)) ∧
  (∀ p, is_Some (m !! p) → is_Some (m' !! p)) ∧
  (∀ ts s ast, L ts s → find_pattern_and_compile compile s = Val (Some ast) →
     is_Some (m' !! (path +:+ render ts)%string)).

Lemma collects_children path (kvs : list (string * Value)) m m' :
  Forall (λ kv, ∀ path m m', parse_templates_inner compile kv.2 path m = Val m' →
                             collects (leaf kv.2) path m m') kvs →
  fold_outcome (λ kv m, parse_templates_inner compile kv.2 (path +:+ "/" +:+ kv.1) m) kvs m = Val m' →
  collects (λ ts s, ∃ k v us, ts = k :: us ∧ (k, v) ∈ kvs ∧ leaf v us s) path m m'.
Proof.
  intros Hall. revert m. induction Hall as [|[k v] kvs Hv Hall IH]; intros m; simpl.
  { intros [= <-]. split_and!; [by left|done|]. intros ts s ast (k & v & us & _ & Hin & _). set_solver. }
  destruct (parse_templates_inner compile v _ m) as [m1|] eqn:E; simpl; [|done]. intros Hf.
  destruct (Hv _ _ _ E) as (A1 & A2 & A3). destruct (IH _ Hf) as (B1 & B2 & B3).
  assert (Hpath : ∀ us, ((path +:+ "/" +:+ k) +:+ render us)%string = (path +:+ render (k :: us))%string).
  { intros us. by rewrite !append_assoc'. }
  split_and!.
  - intros p ast [Hp|(ts & s & (k' & v' & us & -> & Hin & Hl) & -> & Hs)]%B1.
    + apply A1 in Hp as [Hp|(ts & s & Hl & -> & Hs)]; [by left|]. right.
      exists (k :: ts), s. split_and!; [|by rewrite Hpath|done].
      exists k, v, ts. split_and!; [done|left|done].
    + right. exists (k' :: us), s. split_and!; [|done|done].
      exists k', v', us. split_and!; [done|by right|done].
  - auto.
  - intros ts s ast (k' & v' & us & -> & Hin & Hl) Hs.
    apply elem_of_cons in Hin as [[= -> ->]|Hin].
    + rewrite <- Hpath. eauto.
    + eapply B3; [|done]. by exists k', v', us.
Qed.

Lemma collects_ext (L L' : list string → string → Prop) path m m' :
  (∀ ts s, L ts s ↔ L' ts s) → collects L path m m' → collects L' path m m'.
Proof.
  intros HL (H1 & H2 & H3). split_and!; [|done|].
  - intros p ast [Hp|(ts & s & Hl & Hp & Hs)]%H1; [by left|]. right. exists ts, s.
    by rewrite <- HL.
  - intros ts s ast Hl. apply H3. by apply HL.
Qed.

Lemma parse_inner_collects v path m m' :
  parse_templates_inner compile v path m = Val m' → collects (leaf v) path m m'.
Proof.
  revert path m m'. induction v as [|b|n|s|l IH|kvs IH] using value_ind'; intros path m m'.
  1-3: intros [= <-]; split_and!; [by left|done|by intros ts s ast Hl; inversion Hl].
  - cbn [parse_templates_inner]. destruct (find_pattern_and_compile compile s) as [o|] eqn:E; [|done].
    intros [= <-]. destruct o as [a|]; split_and!.
    + intros p ast. destruct (decide (p = path)) as [->|Hne].
      * rewrite lookup_insert. intros Ha. right. exists [], s. rewrite append_empty_r.
        case_decide; simplify_eq. split_and!; [constructor|done|done].
      * rewrite lookup_insert_ne by done. by left.
    + intros p Hp. destruct (decide (p = path)) as [->|Hne]; [rewrite lookup_insert|].
      * case_decide; [by eexists|done].
      * by rewrite lookup_insert_ne.
    + intros ts t ast Hl _. inversion Hl; subst. rewrite append_empty_r, lookup_insert.
      case_decide; [by eexists|done].
    + by left.
    + done.
    + intros ts t ast Hl Hs. inversion Hl; subst. congruence.
  - cbn [parse_templates_inner]. rewrite array_loop. intros Hf.
    eapply collects_ext; [|eapply collects_children; [|exact Hf]].
    + intros ts s. split.
      * intros (k & v & us & -> & Hin & Hl). apply enumerate_from_elem in Hin as (j & Hj & ->).
        by apply leaf_arr with v.
      * intros Hl. inversion Hl; subst. eexists _, _, _. split_and!; [done| |done].
        apply enumerate_from_elem. eauto.
    + apply Forall_forall. intros [k v] Hin. apply enumerate_from_elem in Hin as (j & Hj & _).
      rewrite Forall_forall in IH. apply IH. by eapply list_elem_of_lookup_2.
  - cbn [parse_templates_inner]. intros Hf.
    eapply collects_ext; [|eapply collects_children; [|exact Hf]].
    + intros ts s. split.
      * intros (k & v & us & -> & Hin & Hl). by apply leaf_obj with v.
      * intros Hl. inversion Hl; subst. eauto 10.
    + done.
Qed.

Lemma recorded_iff json m p ast :
  plain_keys json → parse_templates compile json = Val m →
  m !! p = Some ast ↔
  ∃ ts s, leaf json ts s ∧ p = render ts ∧ pointer p json = Some (Str s) ∧
          find_pattern_and_compile compile s = Val (Some ast).
Proof.
  intros Hpk Hm. apply parse_inner_collects in Hm as (H1 & _ & H3).
  assert (Hptr : ∀ ts s, leaf json ts s → pointer (render ts) json = Some (Str s)).
  { intros ts s [Hp Hl]%leaf_lookup; [|done]. by rewrite pointer_render. }
  split.
  - intros [Hp|(ts & s & Hl & -> & Hs)]%H1; [done|].
    exists ts, s. split_and!; [done|done|by apply Hptr|done].
  - intros (ts & s & Hl & -> & Hptr' & Hs). destruct (H3 ts s ast Hl Hs) as [ast' Ha].
    change ("" +:+ render ts)%string with (render ts) in Ha. rewrite Ha.
    apply H1 in Ha as [Hp|(us & s' & Hl' & Hr & Hs')]; [done|].
    change ("" +:+ render us)%string with (render us) in Hr.
    destruct (leaf_lookup _ _ _ Hpk Hl) as [P1 L1], (leaf_lookup _ _ _ Hpk Hl') as [P2 L2].
    apply render_inj in Hr as ->; [|done|done]. congruence.
Qed.

End Recorded.

(** ** Putting values in their place

    The reference for [populate_data]: one pass over the value, in which [f] says what
    the string under a path becomes. *)

Fixpoint fill (f : list string → option Value) (json : Value) : Value :=
  match json with
  | Str s => default (Str s) (f [])
  | Arr l =>
      Arr ((fix go (i : nat) (l : list Value) : list Value := match l with
            | [] => []
            | v :: l' => fill (λ ts, f (show_unsigned (Z.of_nat i) :: ts)) v :: go (S i) l'
            end) 0%nat l)
  | Obj m => Obj (map (λ kv, (kv.1, fill (λ ts, f (kv.1 :: ts)) kv.2)) m)
  | _ => json
  end.

Definition set_at (ts : list string) (v : Value) (f : list string → option Value) : list string → option Value :=
  λ us, if decide (us = ts) then Some v else f us.

Lemma fill_arr f l : fill f (Arr l) = Arr (imap (λ i v, fill (λ ts, f (show_unsigned (Z.of_nat i) :: ts)) v) l).
Proof.
  cbn [fill]. f_equal.
  assert (H : ∀ k, (fix go (i : nat) (l : list Value) : list Value := match l with
            | [] => []
            | v :: l' => fill (λ ts, f (show_unsigned (Z.of_nat i) :: ts)) v :: go (S i) l'
            end) k l = imap (λ i v, fill (λ ts, f (show_unsigned (Z.of_nat (k + i)) :: ts)) v) l); [|apply (H 0%nat)].
  induction l as [|v l IH]; intros k; [done|]. cbn [imap]. rewrite Nat.add_0_r. f_equal.
  rewrite IH. apply imap_ext. intros i x _. simpl. by rewrite Nat.add_succ_r.
Qed.

Lemma fill_ext f f' json : (∀ ts s, leaf json ts s → f ts = f' ts) → fill f json = fill f' json.
Proof.
  revert f f'. induction json as [|b|n|s|l IH|m IH] using value_ind'; intros f f' H; rewrite ?fill_arr; simpl; try done.
  - by rewrite (H [] s (leaf_str s)).
  - f_equal. apply imap_ext. intros i v Hi. rewrite Forall_forall in IH.
    apply IH; [by eapply list_elem_of_lookup_2|]. intros ts s Hl. eapply H. by econstructor.
  - f_equal. apply list_fmap_ext. intros i [k v] Hi. simpl. f_equal. rewrite Forall_forall in IH.
    apply list_elem_of_lookup_2 in Hi. apply (IH (k, v)); [done|]. intros ts s Hl. eapply H. by econstructor.
Qed.

Lemma fill_none json : fill (λ _, None) json = json.
Proof.
  induction json as [|b|n|s|l IH|m IH] using value_ind'; rewrite ?fill_arr; simpl; try done.
  - f_equal. apply list_eq. intros i. rewrite list_lookup_imap. destruct (l !! i) as [v|] eqn:Hi; [|done]. simpl.
    f_equal. rewrite Forall_forall in IH. apply IH. by eapply list_elem_of_lookup_2.
  - f_equal. rewrite <- (map_id m) at 2. apply list_fmap_ext. intros i [k v] Hi. simpl. f_equal.
    rewrite Forall_forall in IH. by apply (IH (k, v)), list_elem_of_lookup_2 with i.
Qed.

Lemma fill_lookup f json ts s :
  plain_keys json → leaf json ts s → lookup_tokens ts (fill f json) = Some (default (Str s) (f ts)).
Proof.
  intros Hpk Hl. revert f Hpk. induction Hl as [s|l i v ts s Hi Hl IH|m k v ts s Hk Hl IH]; intros f Hpk; [done|..].
  - inversion Hpk as [| | | |? Hlen Hall|]; subst. pose proof (lookup_lt_Some _ _ _ Hi). unfold len in Hlen.
    rewrite fill_arr. cbn [lookup_tokens child]. rewrite parse_index_show by lia.
    cbn [mbind option_bind]. rewrite Nat2Z.id, list_lookup_imap, Hi. simpl. apply IH.
    rewrite Forall_forall in Hall. by eapply Hall, list_elem_of_lookup_2.
  - inversion Hpk as [| | | | |? Hnd Hall]; subst. rewrite Forall_forall in Hall.
    destruct (Hall _ Hk) as [_ Hv]. cbn [fill lookup_tokens child].
    rewrite (assoc_nodup k (fill (λ ts, f (k :: ts)) v)); [by apply IH| |].
    + rewrite map_map. exact Hnd.
    + by apply (list_elem_of_fmap_2 (λ kv, (kv.1, fill (λ ts, f (kv.1 :: ts)) kv.2)) _ (k, v)).
Qed.

Lemma assoc_update_map {A} (g : A → A) k (m : list (string * A)) (h h' : string * A → A) :
  NoDup (map fst m) → (∀ kv, kv ∈ m → h' kv = if String.eqb kv.1 k then g (h kv) else h kv) →
  assoc_update g k (map (λ kv, (kv.1, h kv)) m) = map (λ kv, (kv.1, h' kv)) m.
Proof.
  induction m as [|[i x] m IH]; simpl; [done|]. intros [Hi Hnd]%NoDup_cons H.
  pose proof (H (i, x) (list_elem_of_here _ _)) as Hx. simpl in Hx.
  destruct (String.eqb_spec i k) as [->|Hne].
  - rewrite Hx. f_equal. apply list_fmap_ext. intros j [i' x'] Hj. apply list_elem_of_lookup_2 in Hj.
    rewrite H by (by right). simpl. destruct (String.eqb_spec i' k) as [->|]; [|done].
    destruct Hi. by apply (list_elem_of_fmap_2 fst _ (k, x')).
  - rewrite Hx. f_equal. apply IH; [done|]. intros kv Hkv. apply H. by right.
Qed.

Lemma fill_set f json ts s v :
  plain_keys json → leaf json ts s → fill (set_at ts v f) json = update_tokens ts v (fill f json).
Proof.
  intros Hpk Hl. revert f Hpk. induction Hl as [s|l i x ts s Hi Hl IH|m k x ts s Hk Hl IH]; intros f Hpk; [done|..].
  - inversion Hpk as [| | | |? Hlen Hall|]; subst. pose proof (lookup_lt_Some _ _ _ Hi). unfold len in Hlen.
    rewrite !fill_arr. cbn [update_tokens]. rewrite parse_index_show by lia. f_equal. rewrite Nat2Z.id.
    rewrite Forall_forall in Hall.
    apply list_eq. intros j. rewrite list_lookup_imap. destruct (decide (j = i)) as [->|Hne].
    + rewrite list_lookup_alter, list_lookup_imap, Hi. simpl. rewrite decide_True by done. simpl. f_equal.
      rewrite <- IH by (by eapply Hall, list_elem_of_lookup_2). apply fill_ext. intros us s' _. unfold set_at.
      destruct (decide (us = ts)) as [->|]; [by rewrite decide_True|by rewrite decide_False by congruence].
    + rewrite list_lookup_alter_ne, list_lookup_imap by done. destruct (l !! j) as [y|] eqn:Hj; simpl; [|done].
      f_equal. apply fill_ext. intros us s' _. unfold set_at. rewrite decide_False; [done|].
      pose proof (lookup_lt_Some _ _ _ Hj). intros [= E%(f_equal parse_index) _].
      rewrite !parse_index_show in E by lia. injection E as E. lia.
  - inversion Hpk as [| | | | |? Hnd Hall]; subst. rewrite Forall_forall in Hall.
    cbn [fill update_tokens]. f_equal. symmetry.
    apply (assoc_update_map _ k m (λ kv, fill (λ us, f (kv.1 :: us)) kv.2)
             (λ kv, fill (λ us, set_at (k :: ts) v f (kv.1 :: us)) kv.2)); [done|].
    intros [k' x'] Hk'. simpl. destruct (String.eqb_spec k' k) as [->|Hne].
    + assert (x' = x) as -> by (apply (assoc_nodup k) in Hk, Hk'; [congruence|done..]).
      rewrite <- IH by apply (Hall _ Hk). apply fill_ext. intros us s' _. unfold set_at.
      destruct (decide (us = ts)) as [->|]; [by rewrite decide_True|by rewrite decide_False by congruence].
    + apply fill_ext. intros us s' _. unfold set_at. by rewrite decide_False by congruence.
Qed.

Section Populate.
  Context {AST Rng : Type} (eval : AST → Rng → outcome (result string Value * Rng)).

(** The value that some evaluation of [ast] gave. *)
Definition evaluates (ast : AST) (v : Value) : Prop := ∃ g g', eval_result eval ast g = Val (v, g').

(** What the loop has replaced after the entries [done], and what it replaces next. *)
Lemma populate_fill json entries f g json' g' :
  plain_keys json → NoDup (map fst entries) →
  (∀ p ast, (p, ast) ∈ entries → ∃ ts s, leaf json ts s ∧ p = render ts) →
  populate_data eval entries (fill f json) g = Val (json', g') →
  ∃ f', json' = fill f' json ∧
    (∀ p ast, (p, ast) ∈ entries → ∃ ts v, Forall (λ t, plain t = true) ts ∧ p = render ts ∧ f' ts = Some v ∧ evaluates ast v) ∧
    (∀ ts, Forall (λ t, plain t = true) ts → render ts ∉ map fst entries → f' ts = f ts).
Proof.
  intros Hpk. revert f g. induction entries as [|[p ast] entries IH]; intros f g Hnd Hl; simpl.
  { intros [= <- _]. exists f. split_and!; [done|set_solver|done]. }
  apply NoDup_cons in Hnd as [Hp Hnd].
  destruct (Hl p ast (list_elem_of_here _ _)) as (ts & s & Hts & ->).
  destruct (leaf_lookup _ _ _ Hpk Hts) as [Hpl _].
  unfold pointer_set. rewrite pointer_render, (fill_lookup f json ts s) by done.
  destruct (eval_result eval ast g) as [[v g1]|] eqn:Ev; simpl; [|done].
  assert (Hset : (match render ts with
      | EmptyString => v
      | String _ rest => update_tokens (map unescape (split_char "/" rest)) v (fill f json)
      end) = fill (set_at ts v f) json) by (by rewrite update_render, <- (fill_set f json ts s)).
  rewrite Hset. intros H. apply IH in H as (f' & -> & H1 & H2); [|done|intros p' a' Ha; apply (Hl p' a'); by right].
  exists f'. split_and!; [done| |].
  - intros p' ast' [[= -> ->]|Hin]%elem_of_cons; [|by apply H1].
    exists ts, v. split_and!; [done|done| |by exists g, g1]. rewrite H2 by done. unfold set_at. by rewrite decide_True.
  - intros us Hus Hnin. rewrite H2; [|done|set_solver]. unfold set_at. rewrite decide_False; [done|].
    intros ->. apply Hnin. left.
Qed.

Lemma populate_total entries json g :
  (∀ p ast g, (p, ast) ∈ entries → eval ast g ≠ Panic) → ∃ json' g', populate_data eval entries json g = Val (json', g').
Proof.
  revert json g. induction entries as [|[p ast] entries IH]; intros json g H; simpl; [by eexists _, _|].
  assert (H' : ∀ p ast g, (p, ast) ∈ entries → eval ast g ≠ Panic) by (intros p' a' g' Ha; apply (H p'); by right).
  destruct (pointer p json); [|by apply IH]. unfold eval_result.
  pose proof (H p ast g (list_elem_of_here _ _)) as He. destruct (eval ast g) as [[r g1]|]; [|done]. simpl. by apply IH.
Qed.

End Populate.

(** ** Properties *)

(** Collecting templates records exactly the template strings of the value: with keys
    that need no escaping, a path is in the map if and only if it leads (as a JSON
    pointer, the way [populate_data] uses it) to a string that has a template, and it
    carries the compiled template of that string. *)
Theorem templates_recorded_exactly {AST} (compile : string → result string AST) json m p ast :
  plain_keys json → parse_templates compile json = Val m →
  m !! p = Some ast ↔
  ∃ ts s, leaf json ts s ∧ p = render ts ∧ pointer p json = Some (Str s) ∧
          find_pattern_and_compile compile s = Val (Some ast).
Proof. apply recorded_iff. Qed.

(** C31: Populating a value puts every template's result in its place and changes nothing else,
    in whatever order the map of templates is visited: with keys that need no escaping the
    result is that of one pass over the value in which a string without a template is kept
    and a string with one becomes what its compiled template evaluated to; and populating
    panics only where an evaluation does. *)
Theorem templates_populated_exactly {AST Rng} (compile : string → result string AST)
    (eval : AST → Rng → outcome (result string Value * Rng)) json m entries g :
  plain_keys json → parse_templates compile json = Val m → entries ≡ₚ map_to_list m →
  (∀ p ast g, m !! p = Some ast → eval ast g ≠ Panic) →
  ∃ f g', populate_data eval entries json g = Val (fill f json, g') ∧
    ∀ ts s, leaf json ts s →
      match find_pattern_and_compile compile s with
      | Val (Some ast) => ∃ v, f ts = Some v ∧ evaluates eval ast v
      | _ => f ts = None
      end.
Proof.
  intros Hpk Hm He Hev.
  assert (Hin : ∀ p ast, (p, ast) ∈ entries ↔ m !! p = Some ast) by (intros p ast; by rewrite He, elem_of_map_to_list).
  destruct (populate_total eval entries json g) as (json' & g' & Hp); [intros p ast g0 Ha%Hin; by apply (Hev p)|].
  pose proof Hp as Hf. rewrite <- (fill_none json) in Hf. apply populate_fill in Hf as (f & -> & H1 & H2); [|done|..].
  - exists f, g'. split; [done|]. intros ts s Hts. destruct (leaf_lookup _ _ _ Hpk Hts) as [Hpl Hlk].
    assert (Hptr : pointer (render ts) json = Some (Str s)) by (by rewrite pointer_render).
    assert (Hnone : (∀ ast, find_pattern_and_compile compile s ≠ Val (Some ast)) → f ts = None).
    { intros Hn. apply H2; [done|]. intros ([p ast] & Hr & Ha%Hin)%list_elem_of_fmap. simpl in Hr. subst p.
      apply (recorded_iff compile json m) in Ha as (_ & s' & _ & _ & Hptr' & Hs); [|done..].
      rewrite Hptr in Hptr'. injection Hptr' as <-. by apply (Hn ast). }
    destruct (find_pattern_and_compile compile s) as [[ast|]|] eqn:Es; [|by apply Hnone..].
    destruct (H1 (render ts) ast) as (us & v & Hus & Hr & Hv & Hev').
    { apply Hin, (recorded_iff compile json m); [done..|]. by exists ts, s. }
    apply render_inj in Hr as ->; [|done..]. by exists v.
  - rewrite He. apply NoDup_fst_map_to_list.
  - intros p ast Ha%Hin. apply (recorded_iff compile json m) in Ha as (ts & s & Hts & -> & _); [|done..]. by exists ts, s.
Qed.

(** A template under a key with a slash is recorded under a path that does not lead
    back to it: it is never replaced, and another value may be replaced instead. *)
Theorem template_key_with_slash_misses :
  let json := Obj [("a"%string, Obj [("b"%string, Str "kept")]); ("a/b"%string, Str "{{1}}")] in
  let compile e := @Ok string string e in
  parse_templates compile json = Val {[ "/a/b"%string := "1"%string ]} ∧
  populate_data (λ _ g, Val (Ok (int_value 1), g)) [("/a/b"%string, "1"%string)] json tt =
    Val (Obj [("a"%string, Obj [("b"%string, int_value 1)]); ("a/b"%string, Str "{{1}}")], tt).
Proof. split; vm_compute; reflexivity. Qed.

Lemma random_str_ok {Hir Rng} `{!RandomSource Hir Rng, !RandomSourceLaws Hir Rng} min max (g : Rng) :
  max <= i64_MAX → min <= i64_MAX →
  ∃ s g', random_str (Hir := Hir) min max g = Val (s, g') ∧
    Z.max 1 min <= Z.of_nat (String.length s) <= Z.max (Z.max 1 min) max.
Proof.
  intros Hmax Hmin. unfold random_str, random_string.
  destruct (fastrand_i64_ok (Hir := Hir) (Z.max 1 min) (Z.max (Z.max 1 min) max) g)
    as (n & g' & -> & Hn); [lia|]. simpl.
  rewrite wrap_id by lia. destruct (Z.ltb_spec i64_MAX n); [lia|].
  pose proof (alphabetic_string_length (Hir := Hir) (Z.to_nat n) g') as Hl.
  destruct (alphabetic_string (Z.to_nat n) g') as [s g'']. simpl in Hl.
  exists s, g''. split; [done|]. rewrite Hl. lia.
Qed.

(** [randomStr] never panics and respects its bounds: at least one character, at most
    the maximum (which is raised to the minimum). *)
Theorem random_str_length {Hir Rng} `{!RandomSource Hir Rng, !RandomSourceLaws Hir Rng} min max (g : Rng) :
  max <= i64_MAX → min <= i64_MAX →
  ∃ s g', random_str (Hir := Hir) min max g = Val (s, g') ∧
    Z.max 1 min <= Z.of_nat (String.length s) <= Z.max (Z.max 1 min) max.
Proof. apply random_str_ok. Qed.

(** A number printed by [toStr] is read back by [toInt] as it was. *)
Theorem to_int_to_str {F64} (show_f64 : F64 → string) parse_error n :
  i64_MIN <= n <= i64_MAX → to_int show_f64 parse_error (DStr (to_str show_f64 (DInt n))) = DInt n.
Proof. intros Hn. unfold to_int. cbn [to_str]. by rewrite parse_show_signed. Qed.

(** A call of a template function panics exactly when it is [randomInt] with an empty range. *)
Theorem template_call_panics_iff {Hir Rng F64} `{!RandomSource Hir Rng, !RandomSourceLaws Hir Rng}
    rng_bool f64_range regex_parse regex_generate from_utf8 (show_f64 : F64 → string) parse_error name args (g : Rng) :
  Forall (λ d, match d with DInt n => i64_MIN <= n <= i64_MAX | _ => True end) args →
  register_template_functions (Hir := Hir) rng_bool f64_range regex_parse regex_generate from_utf8 show_f64 parse_error
    name args g = Some Panic ↔
  name = "randomInt"%string ∧ ∃ l h, args = [DInt l; DInt h] ∧ h <= l.
Proof.
  intros Hargs. split.
  - unfold register_template_functions. repeat case_match; simplify_eq; try done.
    all: repeat match goal with H : String.eqb _ _ = true |- _ => apply String.eqb_eq in H as -> end.
    + intros [= H]. split; [done|]. do 2 eexists. split; [done|]. revert H. unfold random_int, fastrand_i64.
      match goal with |- context [?x <? ?y] => destruct (Z.ltb_spec x y) end; [lia|].
      by destruct (rng_i64 _ _ _).
    + intros [= H]. apply Forall_cons_1 in Hargs as [H1 [H2 _]%Forall_cons_1]. simpl in H1, H2.
      revert H. match goal with |- context [random_str ?a ?b g] =>
        destruct (random_str_ok (Hir := Hir) a b g) as (s & g' & -> & _); [lia..|done] end.
  - intros (-> & l & h & -> & Hle). simpl. unfold random_int, fastrand_i64.
    destruct (Z.ltb_spec (h - 1) l); [done|lia].
Qed.

(** ** Concrete inputs *)

Definition demo_template : Value := Obj [("q"%string, Arr [Str "x"; Str "{{randomInt(1, 2)}}"])].

Lemma demo_template_plain : plain_keys demo_template.
Proof.
  apply pk_obj; [apply NoDup_singleton|]. apply Forall_cons_2; [|apply Forall_nil_2].
  split; [reflexivity|]. apply pk_arr; [unfold len; simpl; lia|].
  repeat apply Forall_cons_2; try apply Forall_nil_2; apply pk_str.
Qed.

Lemma templates_recorded_exactly_witness :
  ∃ ts s, leaf demo_template ts s ∧ "/q/1"%string = render ts ∧
    pointer "/q/1" demo_template = Some (Str s) ∧
    find_pattern_and_compile (λ e, @Ok string string e) s = Val (Some "randomInt(1, 2)"%string).
Proof.
  apply (templates_recorded_exactly (λ e, Ok e) demo_template
    {[ "/q/1"%string := "randomInt(1, 2)"%string ]}).
  - exact demo_template_plain.
  - vm_compute. reflexivity.
  - vm_compute. reflexivity.
Defined.

Lemma demo_entries : map_to_list {[ "/q/1"%string := "randomInt(1, 2)"%string ]} = [("/q/1"%string, "randomInt(1, 2)"%string)].
Proof. apply map_to_list_singleton. Qed.

Lemma templates_populated_exactly_witness :
  ∃ f, populate_data (λ _ g, Val (Ok (int_value 1), g)) [("/q/1"%string, "randomInt(1, 2)"%string)] demo_template tt =
       Val (fill f demo_template, tt) ∧ f ["q"; "1"]%string = Some (int_value 1) ∧ f ["q"; "0"]%string = None.
Proof.
  destruct (templates_populated_exactly (λ e, Ok e) (λ _ g, Val (Ok (int_value 1), g)) demo_template
    {[ "/q/1"%string := "randomInt(1, 2)"%string ]} [("/q/1"%string, "randomInt(1, 2)"%string)] tt)
    as (f & [] & H1 & H2).
  - exact demo_template_plain.
  - vm_compute. reflexivity.
  - rewrite demo_entries. reflexivity.
  - intros. discriminate.
  - exists f. split; [exact H1|]. split.
    + destruct (H2 ["q"; "1"]%string "{{randomInt(1, 2)}}"%string) as (v & Hv & g & g' & [= <- _]); [|exact Hv].
      eapply leaf_obj; [apply list_elem_of_here|]. by apply (leaf_arr _ 1 (Str "{{randomInt(1, 2)}}")); [|constructor].
    + apply (H2 ["q"; "0"]%string "x"%string).
      eapply leaf_obj; [apply list_elem_of_here|]. by apply (leaf_arr _ 0 (Str "x")); [|constructor].
Defined.

Lemma to_int_to_str_witness :
  to_int (λ _ : unit, ""%string) (λ _, ""%string) (DStr (to_str (λ _ : unit, ""%string) (DInt (-17)))) = DInt (-17).
Proof. apply (to_int_to_str (λ _ : unit, ""%string) (λ _, ""%string) (-17)). lia. Defined.

Lemma template_call_panics_iff_witness :
  register_template_functions (Hir := unit) (F64 := unit) (λ g, (true, g)) (λ f _ g, (f, g)) (λ _, Ok tt)
    (λ _ g, (Ok [], g)) (λ _, Ok ""%string) (λ _, ""%string) (λ _, ""%string) "randomInt" [DInt 3; DInt 3] tt = Some Panic.
Proof.
  apply (template_call_panics_iff (Hir := unit) (F64 := unit) (λ g, (true, g)) (λ f _ g, (f, g)) (λ _, Ok tt)
    (λ _ g, (Ok [], g)) (λ _, Ok ""%string) (λ _, ""%string) (λ _, ""%string) "randomInt" [DInt 3; DInt 3] tt).
  - repeat constructor; simpl; lia.
  - split; [reflexivity|]. exists 3, 3. split; [reflexivity|lia].
Defined.

Lemma random_str_length_witness :
  ∃ s g', random_str (Hir := unit) 2 5 tt = Val (s, g') ∧ 2 <= Z.of_nat (String.length s) <= 5.
Proof.
  apply (random_str_length (Hir := unit) 2 5 tt); lia.
Defined.
