(* ===== verification/TestsData.v ===== *)
(** * The unit tests of data generation

    The tests of [datagen/src/lib.rs] and [datagen/src/template.rs] as programs on the model:
    a test that fails panics.  The text of JSON is read by [serde_json], so a schema is given
    as the value it stands for, its members in the order of the text.

    The tests draw random numbers, hence a test is a function of the generator and passes
    if it does for every generator. *)
From Stdlib Require Import ZArith Lia Ascii.
From stdpp Require Import base list gmap strings numbers sets.
From S2P Require Import Prelude Json DataGen Template.

Local Open Scope string_scope.
Local Open Scope Z_scope.

(** ** JSON in the order of its text *)

Definition obj (l : list (string * Value)) : Value := Obj (foldl (λ m p, obj_insert p.1 p.2 m) [] l).
Definition int (n : Z) : Value := int_value n.

(** [s.contains(t)] *)
Definition str_contains (t s : string) : bool :=
  match String.index 0 t s with Some _ => true | None => false end.

Definition is_object (v : Value) : bool := match v with Obj _ => true | _ => false end.
Definition as_array (v : Value) : option (list Value) := match v with Arr l => Some l | _ => None end.

(** ** The schemas *)

Definition typed (t : string) (l : list (string * Value)) : Value := obj (("type", Str t) :: l).
Definition range (a b : Z) : list (string * Value) := [("minimum", int a); ("maximum", int b)].
Definition pattern (p : string) : list (string * Value) := [("pattern", Str p)].

Definition integer_pattern_data_gen_schema : Value :=
  obj [("properties", obj [
    ("key1", typed "string" [("constant", Str "value1")]);
    ("nested", typed "object" [("properties", obj [
      ("objKey1", typed "integer" (pattern "^1[0-9]{4}$"));
      ("objKey2", typed "string" (pattern "^a[0-9]{4}z$"))])])])].

Definition const_object : Value :=
  typed "object" [("constant", obj [
    ("key1", Str "val1");
    ("properties", obj [("comment", Str "this will be parsed as json instead of schema")]);
    ("keyInt", int 1234)])].

Definition const_obj_data_gen_with_other_obj_property_schema : Value :=
  obj [("properties", obj [
    ("key1", typed "string" [("constant", Str "value1")]);
    ("nested", typed "object" [("properties", obj [
      ("objKey1", typed "integer" (range 10 1000));
      ("objKey2", typed "string" (pattern "^a[0-9]{4}z$"))])]);
    ("constObject", const_object)])].

Definition const_obj_data_gen_schema : Value := obj [("properties", obj [("constObject", const_object)])].

Definition array_sample_json_3 : Value :=
  obj [("properties", obj [
    ("firstName", typed "string" []);
    ("lastName", typed "string" (pattern "^a[0-9]{4}z$"));
    ("age", typed "integer" (range 10 20));
    ("objArrayKeys", typed "array" [
      ("maxLength", int 20); ("minLength", int 10);
      ("items", typed "object" [("properties", obj [
        ("objKey1", typed "integer" (range 10 1000));
        ("objKey2", typed "string" (pattern "^a[0-9]{4}z$"))])])]);
    ("scalarArray", typed "array" [
      ("maxLength", int 20); ("minLength", int 20);
      ("items", typed "string" (pattern "^a[0-9]{4}z$"))])])].

Definition array_sample_json_2 : Value :=
  obj [("properties", obj [
    ("keys", typed "array" [
      ("items", typed "object" [("properties", obj [
        ("key1", typed "integer" (range 1 100));
        ("key2", typed "string" (pattern "^1[0-9]{6}$"))])]);
      ("maxLength", int 10); ("minLength", int 2)])])].

Definition array_sample_json_1 : Value :=
  obj [("properties", obj [
    ("keys", typed "array" [("items", typed "integer" (range 1 100)); ("maxLength", int 10); ("minLength", int 2)])])].

(** The schemas of the tests of wrong bounds differ in the bounds only. *)
Definition wrong_bounds (lengths key1 : list (string * Value)) : Value :=
  obj [("type", Str "object"); ("properties", obj [
    ("keys", typed "array" (lengths ++ [
      ("items", typed "object" [("properties", obj [
        ("key1", typed "integer" key1);
        ("key2", typed "string" (pattern "^a[0-9]{4}z$"))])])])%list)])].

Section DataGenTests.
  Context {Hir Rng : Type} `{!RandomSource Hir Rng}.
  Context (parse_regex : string → option Hir).
  (** [Regex::new(p).unwrap().is_match(s)], and the engine of JSON paths. *)
  Context (is_match : string → string → bool) (selector : Value → string → option (list Value)).

Local Abbreviation from_value := (data_schema_from_value parse_regex).
Local Abbreviation generate := (generate_data parse_regex).

Definition validate_json_path (path : string) (json : Value) (expected : option Value) : outcome (list Value) :=
  result ← unwrap (selector json path);
  match expected with
  | Some expected => x ← unwrap (head result); _ ← assert_that (value_eqb x expected); Val result
  | None => Val result
  end.

(** A schema is read and written back. *)
Definition there_and_back (schema : Value) : outcome unit :=
  data_schema ← unwrap_ok (from_value schema);
  converted ← data_value_from_schema data_schema;
  assert_that (value_eqb converted schema).

Fixpoint for_each {A} (f : A → outcome unit) (l : list A) : outcome unit :=
  match l with [] => Val tt | x :: l' => _ ← f x; for_each f l' end.

Definition json_schema_to_data_schema_and_back : outcome unit :=
  for_each there_and_back
    [const_obj_data_gen_schema; const_obj_data_gen_with_other_obj_property_schema; integer_pattern_data_gen_schema;
     array_sample_json_3; array_sample_json_2; array_sample_json_1].

Definition integer_pattern_data_gen (g : Rng) : outcome unit :=
  data_schema ← unwrap_ok (from_value integer_pattern_data_gen_schema);
  '(data, _) ← generate data_schema g;
  val ← validate_json_path "$.nested.objKey1" data None;
  val ← unwrap (head val);
  n ← unwrap (as_i64 val);
  assert_that (negb (n =? 0)).

Definition const_obj_data_gen (g : Rng) : outcome unit :=
  data_schema ← unwrap_ok (from_value const_obj_data_gen_schema);
  '(data, _) ← generate data_schema g;
  _ ← validate_json_path "$.constObject.properties.comment" data
        (Some (Str "this will be parsed as json instead of schema"));
  Val tt.

Definition const_obj_data_gen_with_other_obj_property (g : Rng) : outcome unit :=
  data_schema ← unwrap_ok (from_value const_obj_data_gen_with_other_obj_property_schema);
  '(data, _) ← generate data_schema g;
  _ ← validate_json_path "$.key1" data (Some (Str "value1"));
  _ ← validate_json_path "$.nested.objKey1" data None;
  _ ← validate_json_path "$.constObject.keyInt" data (Some (int 1234));
  Val tt.

(** [matches!(elements, ..)] has no effect: its result is not used. *)
Definition array_json_to_schema : outcome unit :=
  schema ← unwrap_ok (from_value array_sample_json_1);
  match schema with
  | SObject _ values =>
      _ ← assert_that (length values =? 1)%nat;
      array ← unwrap (values !! 0%nat);
      match array with
      | SArray k values c =>
          _ ← assert_that (bool_decide (k = Some "keys"));
          _ ← assert_that (length values =? 1)%nat;
          _ ← unwrap (values !! 0%nat);
          min ← unwrap (cget KMinLength c);
          _ ← assert_that (match min with CMinLength x => x =? 2 | _ => false end);
          max ← unwrap (cget KMaxLength c);
          assert_that (match max with CMaxLength x => x =? 10 | _ => false end)
      | _ => Panic
      end
  | _ => Panic
  end.

Definition array_schema_to_value : outcome unit := there_and_back array_sample_json_1.

Definition array_schema_to_value_string_pattern : outcome unit := there_and_back array_sample_json_3.

(** In this and the next test [contains] and [matches!] are computed but not asserted. *)
Definition array_schema_data_gen_integer (g : Rng) : outcome unit :=
  schema ← unwrap_ok (from_value array_sample_json_1);
  '(value, _) ← generate schema g;
  array ← unwrap (value_get "keys" value);
  array ← unwrap (as_array array);
  for_each (λ elm, _ ← unwrap (as_i64 elm); Val tt) array.

Definition array_schema_data_gen_object (g : Rng) : outcome unit :=
  schema ← unwrap_ok (from_value array_sample_json_2);
  '(value, _) ← generate schema g;
  array ← unwrap (value_get "keys" value);
  array ← unwrap (as_array array);
  for_each (λ elm,
    key1 ← unwrap (value_get "key1" elm);
    _ ← unwrap (as_i64 key1);
    key2 ← unwrap (value_get "key2" elm);
    key2 ← unwrap (as_str key2);
    key2 ← unwrap (parse_i64 key2);
    _ ← assert_that (1 <? key2);
    assert_that (key2 <? 1999999 - 1)) array.

Definition array_schema_data_gen_string_pattern (g : Rng) : outcome unit :=
  schema ← unwrap_ok (from_value array_sample_json_3);
  '(value, _) ← generate schema g;
  array ← unwrap (value_get "objArrayKeys" value);
  array ← unwrap (as_array array);
  _ ← for_each (λ elm,
    key1 ← unwrap (value_get "objKey1" elm);
    _ ← unwrap (as_i64 key1);
    key2 ← unwrap (value_get "objKey2" elm);
    key2 ← unwrap (as_str key2);
    assert_that (is_match "^a[0-9]{4}z$" key2)) array;
  array ← unwrap (value_get "scalarArray" value);
  array ← unwrap (as_array array);
  _ ← assert_that (length array =? 20)%nat;
  for_each (λ elm,
    key ← unwrap (as_str elm);
    assert_that (is_match "^a[0-9]{4}z$" key)) array.

(** The text of an error of [validate_constraints], up to the schema at its end. *)
Definition schema_error_text (e : schema_error) : string :=
  match e with
  | RequiresMinimumAndMaximum => "requires both minimum & maximum constraints - "
  | MinimumGreaterThanMaximum => "invalid constraints - minimum > maximum - "
  | RequiresMinLengthAndMaxLength => "requires both minLength & maxLength constraints - "
  | MinLengthGreaterThanMaxLength => "invalid constraints - minLength > maxLength - "
  | _ => ""
  end.

Definition rejected_with (text : string) (schema : Value) : outcome unit :=
  match from_value schema with
  | Ok _ => Panic
  | Err e => assert_that (str_contains text (schema_error_text e))
  end.

Definition failure_test_min_max_range : outcome unit :=
  rejected_with "minimum > maximum"
    (wrong_bounds [("maxLength", int 3); ("minLength", int 2)] (range 300000 200000)).

Definition failure_test_min_max_length : outcome unit :=
  rejected_with "minLength > maxLength"
    (wrong_bounds [("maxLength", int 1); ("minLength", int 2)] (range 100000 200000)).

Definition failure_test_min_missing_range : outcome unit :=
  rejected_with "requires both minimum & maximum"
    (wrong_bounds [("maxLength", int 3); ("minLength", int 2)] [("maximum", int 200000)]).

Definition failure_test_max_missing_range : outcome unit :=
  rejected_with "requires both minimum & maximum"
    (wrong_bounds [("maxLength", int 3); ("minLength", int 2)] [("minimum", int 200000)]).

Definition failure_test_max_missing_length : outcome unit :=
  rejected_with "requires both minLength & maxLength"
    (wrong_bounds [("minLength", int 2)] [("maximum", int 200000); ("minimum", int 200000)]).

Definition failure_test_min_missing_length : outcome unit :=
  rejected_with "requires both minLength & maxLength"
    (wrong_bounds [("maxLength", int 2)] [("maximum", int 200000); ("minimum", int 200000)]).

Definition described (t text : string) : Value := typed t [("description", Str text)].

Definition person : list (string * Value) :=
  [("firstName", described "string" "The person's first name.");
   ("lastName", described "string" "The person's last name.");
   ("age", obj (("description", Str "Age in years which must be equal to or greater than zero.") ::
                ("type", Str "integer") :: range 10 11))].

Definition generates_something (g : Rng) : outcome unit :=
  schema ← unwrap_ok (from_value (obj [("properties", obj person)]));
  _ ← generate schema g;
  Val tt.

Definition test_integer_constant (g : Rng) : outcome unit :=
  schema ← unwrap_ok (from_value (obj [("properties", obj [
    ("sample", typed "integer" [("constant", int 10)])])]));
  '(value, _) ← generate schema g;
  sample ← unwrap (value_get "sample" value);
  n ← unwrap (as_i64 sample);
  assert_that (n =? 10).

Definition test_string_constant (g : Rng) : outcome unit :=
  schema ← unwrap_ok (from_value (obj [("properties", obj [
    ("sample", typed "string" [("constant", Str "always produce this string")])])]));
  '(value, _) ← generate schema g;
  sample ← unwrap (value_get "sample" value);
  s ← unwrap (as_str sample);
  assert_that (String.eqb s "always produce this string").

Definition test_string_pattern (g : Rng) : outcome unit :=
  schema ← unwrap_ok (from_value (obj [("properties", obj [
    ("sample", typed "string" (pattern "^[0-9]{4}-[a-z]{2,}-[0-9]{2}$"))])]));
  '(value, _) ← generate schema g;
  sample ← unwrap (value_get "sample" value);
  s ← unwrap (as_str sample);
  assert_that (is_match "^\d{4}-\w+-\d{2}$" s).

Definition test_object (g : Rng) : outcome unit :=
  schema ← unwrap_ok (from_value (obj [("properties", obj [
    ("sample", obj [("constant", int 10); ("type", Str "integer")]);
    ("sampleObject", obj [
      ("properties", obj [("nestedSample", obj [("constant", int 20); ("type", Str "integer")])]);
      ("type", Str "object")])])]));
  '(value, _) ← generate schema g;
  sample ← unwrap (value_get "sample" value);
  n ← unwrap (as_i64 sample);
  _ ← assert_that (n =? 10);
  object ← unwrap (value_get "sampleObject" value);
  nested ← unwrap (value_get "nestedSample" object);
  n ← unwrap (as_i64 nested);
  assert_that (n =? 20).

(** All of them but [array_schema_data_gen_object], which does not always pass. *)
Definition datagen_tests (g : Rng) : list (outcome unit) :=
  [json_schema_to_data_schema_and_back; integer_pattern_data_gen g; const_obj_data_gen g;
   const_obj_data_gen_with_other_obj_property g; array_json_to_schema; array_schema_to_value;
   array_schema_to_value_string_pattern; array_schema_data_gen_integer g;
   array_schema_data_gen_string_pattern g; failure_test_min_max_range; failure_test_min_max_length;
   failure_test_min_missing_range; failure_test_max_missing_range; failure_test_max_missing_length;
   failure_test_min_missing_length; generates_something g; test_integer_constant g; test_string_constant g;
   test_string_pattern g; test_object g].

(** ** What the tests rely on of other crates *)

(** The digits of [s] are [n], and then it ends with [rest]. *)
Fixpoint digits_then (n : nat) (rest : string) (s : string) : bool :=
  match n, s with
  | O, _ => String.eqb s rest
  | S n', String a s' => match digit a with Some _ => digits_then n' rest s' | None => false end
  | S _, EmptyString => false
  end.

Definition starts_then (a : ascii) (f : string → bool) (s : string) : bool :=
  match s with String b s' => Ascii.eqb a b && f s' | EmptyString => false end.

(** The strings of the patterns with a fixed length. *)
Definition shape (p : string) : option (string → bool) :=
  if String.eqb p "^1[0-9]{4}$" then Some (starts_then "1" (digits_then 4 ""))
  else if String.eqb p "^a[0-9]{4}z$" then Some (starts_then "a" (digits_then 4 "z"))
  else if String.eqb p "^1[0-9]{6}$" then Some (starts_then "1" (digits_then 6 ""))
  else None.

(** The member of [v] at the end of a chain of keys, and the path of the chain. *)
Fixpoint members (ks : list string) (v : Value) : option Value :=
  match ks with [] => Some v | k :: ks' => x ← value_get k v; members ks' x end.

Definition member_path (ks : list string) : string := "$" +:+ foldr (λ k s, "." +:+ k +:+ s) "" ks.

(** A key of letters and digits. *)
Definition member_char (a : ascii) : bool :=
  let n := nat_of_ascii a in
  ((48 <=? n) && (n <=? 57) || (65 <=? n) && (n <=? 90) || (97 <=? n) && (n <=? 122))%nat.

Definition member_key (k : string) : bool := str_forall member_char k.

Record TestCrates : Prop := {
  parses p : p ∈ ["^1[0-9]{4}$"; "^a[0-9]{4}z$"; "^1[0-9]{6}$"; "^[0-9]{4}-[a-z]{2,}-[0-9]{2}$"] → is_Some (parse_regex p);
  generates_shape p f h (g : Rng) : shape p = Some f → parse_regex p = Some h →
    ∃ s, fst (rng_from_hir h g) = Some s ∧ f s = true;
  matches_shape p f s : shape p = Some f → f s = true → is_match p s = true;
  generates_match h (g : Rng) : parse_regex "^[0-9]{4}-[a-z]{2,}-[0-9]{2}$" = Some h →
    ∃ s, fst (rng_from_hir h g) = Some s ∧ is_match "^\d{4}-\w+-\d{2}$" s = true;
  selects_member ks v x : forallb member_key ks = true → members ks v = Some x → selector v (member_path ks) = Some [x]
}.

Section Pass.
  Context `{!RandomSourceLaws Hir Rng} (Hcrates : TestCrates).

Lemma all_parse :
  ∃ h1 h2 h3 h4, parse_regex "^1[0-9]{4}$" = Some h1 ∧ parse_regex "^a[0-9]{4}z$" = Some h2 ∧
    parse_regex "^1[0-9]{6}$" = Some h3 ∧ parse_regex "^[0-9]{4}-[a-z]{2,}-[0-9]{2}$" = Some h4.
Proof.
  destruct (parses Hcrates "^1[0-9]{4}$") as [h1 H1]; [set_solver|].
  destruct (parses Hcrates "^a[0-9]{4}z$") as [h2 H2]; [set_solver|].
  destruct (parses Hcrates "^1[0-9]{6}$") as [h3 H3]; [set_solver|].
  destruct (parses Hcrates "^[0-9]{4}-[a-z]{2,}-[0-9]{2}$") as [h4 H4]; [set_solver|].
  by exists h1, h2, h3, h4.
Qed.

(** Evaluates the parsing of a schema. *)
Ltac parse_schema :=
  destruct all_parse as (h1 & h2 & h3 & h4 & H1 & H2 & H3 & H4);
  match goal with |- context [data_schema_from_value parse_regex ?S] =>
    let t := eval vm_compute in (data_schema_from_value parse_regex S) in
    let E := fresh "E" in
    assert (E : data_schema_from_value parse_regex S = t) by (vm_compute; reflexivity);
    rewrite ?H1, ?H2, ?H3, ?H4 in E; rewrite E; clear E
  end.

Lemma for_each_ok {A} (f : A → outcome unit) l : Forall (λ x, f x = Val tt) l → for_each f l = Val tt.
Proof. induction 1 as [|x l Hx Hl IH]; [done|]. simpl. by rewrite Hx. Qed.

Lemma schemas_back : json_schema_to_data_schema_and_back = Val tt.
Proof.
  apply for_each_ok. repeat apply Forall_cons_2; [..|by apply Forall_nil]; unfold there_and_back; by parse_schema.
Qed.

Lemma draws p f h (g : Rng) :
  parse_regex p = Some h → shape p = Some f → ∃ s g', rng_from_hir h g = (Some s, g') ∧ f s = true.
Proof.
  intros Hh Hp. destruct (generates_shape Hcrates p f h g Hp Hh) as (s & Hs & Hf).
  destruct (rng_from_hir h g) as [o g'] eqn:E. simpl in Hs. subst o. eauto.
Qed.

Lemma finds ks path v x :
  member_path ks = path → forallb member_key ks = true → members ks v = Some x → selector v path = Some [x].
Proof. intros <-. apply (selects_member Hcrates). Qed.

(** A number of [n] digits after [acc]. *)
Lemma digits_parse max n s acc :
  digits_then n "" s = true → 0 <= acc → (acc + 1) * 10 ^ Z.of_nat n <= max + 1 →
  ∃ m, parse_digits max s acc = Some m ∧ acc * 10 ^ Z.of_nat n <= m < (acc + 1) * 10 ^ Z.of_nat n.
Proof.
  revert s acc. induction n as [|n IH]; intros s acc Hd Ha Hm; simpl in Hd.
  { apply String.eqb_eq in Hd as ->. exists acc. simpl. split; [done|lia]. }
  destruct s as [|a s]; [done|]. cbn [parse_digits]. destruct (digit a) as [d|] eqn:Ed; [|done].
  assert (0 <= d <= 9).
  { unfold digit in Ed. case_match eqn:Er; [|done]. bool_simp. simplify_eq. lia. }
  assert (0 < 10 ^ Z.of_nat n) by (apply Z.pow_pos_nonneg; lia).
  rewrite Nat2Z.inj_succ, Z.pow_succ_r in * by lia.
  destruct (IH s (acc * 10 + d) Hd) as (m & Hp & Hr); [nia..|]. cbn zeta.
  destruct (Z.leb_spec (acc * 10 + d) max); [|nia]. exists m. split; [done|]. nia.
Qed.

Lemma one_digits_parse n p s :
  (n <= 6)%nat → 10 ^ Z.of_nat n = p → starts_then "1" (digits_then n "") s = true →
  ∃ m, parse_i64 s = Some m ∧ p <= m < 2 * p.
Proof.
  intros Hn <- Hs. destruct s as [|a s]; [done|]. unfold starts_then in Hs.
  apply andb_true_iff in Hs as [<-%Ascii.eqb_eq Hd].
  assert (10 ^ Z.of_nat n <= 10 ^ 6) by (apply Z.pow_le_mono_r; lia).
  destruct (digits_parse i64_MAX n s 1 Hd) as (m & Hm & Hr); [lia..|].
  exists m. split; [exact Hm|lia].
Qed.

Ltac draw H :=
  match goal with |- context [rng_from_hir ?h ?g] =>
    let s := fresh "s" in let g' := fresh "g'" in let Hd := fresh "Hd" in let Hs := fresh "Hs" in
    destruct (draws _ _ h g H eq_refl) as (s & g' & Hd & Hs); rewrite Hd; cbn -[random_string] end.

Ltac find_member ks :=
  let p := eval vm_compute in (member_path ks) in erewrite (finds ks p) by done; cbn.

Lemma integer_pattern_passes g : integer_pattern_data_gen g = Val tt.
Proof.
  unfold integer_pattern_data_gen. parse_schema. cbn. draw H1. draw H2.
  destruct (one_digits_parse 4 10000 s) as (m & -> & Hm); [lia|done|done|]. unfold validate_json_path.
  find_member (["nested"; "objKey1"]). cbn [unwrap mbind outcome_bind head default id].
  rewrite as_i64_int_value by (unfold id; lia). cbn. unfold id. by destruct (Z.eqb_spec m 0); [lia|].
Qed.

Lemma const_obj_passes g : const_obj_data_gen g = Val tt.
Proof.
  unfold const_obj_data_gen. parse_schema. unfold validate_json_path. cbn.
  find_member (["constObject"; "properties"; "comment"]). done.
Qed.

Lemma const_obj_other_passes g : const_obj_data_gen_with_other_obj_property g = Val tt.
Proof.
  unfold const_obj_data_gen_with_other_obj_property. parse_schema. unfold validate_json_path. cbn.
  destruct (rng_i64 10 1000 g) as [n g1] eqn:En. cbn. draw H2.
  find_member (["key1"]). find_member (["nested"; "objKey1"]).
  find_member (["constObject"; "keyInt"]). done.
Qed.

Lemma array_to_schema_passes : array_json_to_schema = Val tt.
Proof. unfold array_json_to_schema. by parse_schema. Qed.

Lemma array_to_value_passes : array_schema_to_value = Val tt.
Proof. unfold array_schema_to_value, there_and_back. by parse_schema. Qed.

Lemma array_pattern_to_value_passes : array_schema_to_value_string_pattern = Val tt.
Proof. unfold array_schema_to_value_string_pattern, there_and_back. by parse_schema. Qed.

(** Draws a number in its range. *)
Ltac draw_int :=
  match goal with |- context [rng_i64 ?a ?b ?g] =>
    let n := fresh "n" in let g' := fresh "g'" in let Hn := fresh "Hn" in
    pose proof (rng_i64_range (Hir := Hir) a b g ltac:(lia)) as Hn;
    destruct (rng_i64 a b g) as [n g']; cbn -[random_string] in Hn |- * end.

(** The elements of a generated array, of which each one passes [check]. *)
Ltac elements check :=
  match goal with |- context [gen_repeat ?n ?f ?g] =>
    let vs := fresh "vs" in let g' := fresh "g'" in let Hr := fresh "Hr" in
    let Hl := fresh "Hl" in let Hvs := fresh "Hvs" in
    destruct (gen_repeat_ok n f (λ v, check v = Val tt) g) as (vs & g' & Hr & Hl & Hvs);
    [intros ?; cbn|rewrite Hr; cbn] end.

Lemma array_integer_passes g : array_schema_data_gen_integer g = Val tt.
Proof.
  unfold array_schema_data_gen_integer. parse_schema. cbn. draw_int.
  elements (λ elm, unwrap (as_i64 elm) ≫= λ _, Val tt); [|by apply for_each_ok].
  draw_int. eexists _, _. split; [done|]. by rewrite as_i64_int_value by lia.
Qed.

(** Compares the keys of an object. *)
Ltac compare_keys :=
  repeat (match goal with |- context [Ascii.compare ?a ?b] =>
    let r := eval vm_compute in (Ascii.compare a b) in change (Ascii.compare a b) with r end;
    cbn -[random_string for_each]).

(** A string of up to twenty letters. *)
Lemma draws_string (g : Rng) : ∃ s g', random_string (Hir := Hir) 1 20 g = Val (s, g').
Proof.
  unfold random_string, fastrand_i64. cbn. draw_int. unfold wrap. rewrite Z.mod_small by lia.
  destruct (Z.ltb_spec i64_MAX n); [lia|]. destruct (alphabetic_string _ _) as [s g'']. eauto.
Qed.

Ltac draw_string :=
  match goal with |- context [random_string ?a ?b ?g] =>
    let s := fresh "s" in let g' := fresh "g'" in let Hs := fresh "Hs" in
    destruct (draws_string g) as (s & g' & Hs);
    change (random_string a b g) with (random_string (Hir := Hir) 1 20 g); rewrite Hs; cbn -[random_string] end.

Lemma matches_a_z s : starts_then "a" (digits_then 4 "z") s = true → is_match "^a[0-9]{4}z$" s = true.
Proof. by apply (matches_shape Hcrates "^a[0-9]{4}z$"). Qed.

Lemma array_pattern_passes g : array_schema_data_gen_string_pattern g = Val tt.
Proof.
  unfold array_schema_data_gen_string_pattern. parse_schema. cbn -[random_string]. draw_int. draw_string. draw H2.
  draw_int.
  elements (λ elm, key1 ← unwrap (value_get "objKey1" elm); _ ← unwrap (as_i64 key1);
    key2 ← unwrap (value_get "objKey2" elm); key2 ← unwrap (as_str key2); assert_that (is_match "^a[0-9]{4}z$" key2)).
  { draw_int. draw H2. eexists (Obj [("objKey1", int_value n1); ("objKey2", Str s1)]), _. split; [done|]. cbn -[as_i64]. rewrite as_i64_int_value by lia. cbn.
    by rewrite (matches_a_z _ Hs1). }
  draw_int.
  elements (λ elm, key ← unwrap (as_str elm); assert_that (is_match "^a[0-9]{4}z$" key)).
  { draw H2. eexists _, _. split; [done|]. cbn. by rewrite (matches_a_z _ Hs1). }
  compare_keys. rewrite for_each_ok by done. assert (n1 = 20) as -> by lia. cbn -[for_each]. rewrite Hl0. cbn -[for_each].
  by rewrite for_each_ok.
Qed.

Lemma something_passes g : generates_something g = Val tt.
Proof. unfold generates_something. parse_schema. cbn -[random_string]. draw_int. draw_string. by draw_string. Qed.

Lemma array_object_passes g :
  (∀ h g s n, parse_regex "^1[0-9]{6}$" = Some h → fst (rng_from_hir h g) = Some s → parse_i64 s = Some n → n < 1999998) →
  array_schema_data_gen_object g = Val tt.
Proof.
  intros Hlt. unfold array_schema_data_gen_object. parse_schema. cbn. draw_int.
  elements (λ elm, key1 ← unwrap (value_get "key1" elm); _ ← unwrap (as_i64 key1);
    key2 ← unwrap (value_get "key2" elm); key2 ← unwrap (as_str key2); key2 ← unwrap (parse_i64 key2);
    _ ← assert_that (1 <? key2); assert_that (key2 <? 1999999 - 1)); [|by apply for_each_ok].
  draw_int. draw H3. eexists (Obj [("key1", int_value n0); ("key2", Str s)]), _. split; [done|].
  cbn -[as_i64 parse_i64 Z.ltb]. rewrite as_i64_int_value by lia.
  destruct (one_digits_parse 6 1000000 s) as (m & Hm & Hr); [lia|done|done|]. rewrite Hm. cbn -[Z.ltb].
  assert (m < 1999998) by (eapply Hlt; [exact H3| |exact Hm]; by rewrite Hd).
  destruct (Z.ltb_spec 1 m); [|lia]. cbn -[Z.ltb]. destruct (Z.ltb_spec m (1999999 - 1)); [done|lia].
Qed.

Lemma rejections :
  failure_test_min_max_range = Val tt ∧ failure_test_min_max_length = Val tt ∧
  failure_test_min_missing_range = Val tt ∧ failure_test_max_missing_range = Val tt ∧
  failure_test_max_missing_length = Val tt ∧ failure_test_min_missing_length = Val tt.
Proof.
  unfold failure_test_min_max_range, failure_test_min_max_length, failure_test_min_missing_range,
    failure_test_max_missing_range, failure_test_max_missing_length, failure_test_min_missing_length, rejected_with.
  split_and!; by parse_schema.
Qed.
Lemma constants_pass g : test_integer_constant g = Val tt ∧ test_string_constant g = Val tt ∧ test_object g = Val tt.
Proof.
  unfold test_integer_constant, test_string_constant, test_object. split_and!; by parse_schema.
Qed.
Lemma string_pattern_passes g : test_string_pattern g = Val tt.
Proof.
  unfold test_string_pattern. parse_schema. cbn. destruct (generates_match Hcrates h4 g H4) as (s & Hs & Hm).
  destruct (rng_from_hir h4 g) as [o g']. simpl in Hs. subst o. cbn. by rewrite Hm.
Qed.
Lemma datagen_tests_ok g : Forall (λ t, t = Val tt) (datagen_tests g).
Proof.
  destruct rejections as (? & ? & ? & ? & ? & ?). destruct (constants_pass g) as (? & ? & ?). unfold datagen_tests.
  repeat constructor; auto using schemas_back, integer_pattern_passes, const_obj_passes, const_obj_other_passes,
    array_to_schema_passes, array_to_value_passes, array_pattern_to_value_passes, array_integer_passes,
    array_pattern_passes, something_passes, string_pattern_passes.
Qed.

End Pass.
End DataGenTests.

(** ** Templates *)

Definition test_parse_template_1_json : Value := obj [("duration", Str "{{randomInt(100, 200)}}")].

Definition test_parse_template_2_json : Value :=
  obj [("duration", Str "{{randomInt(100, 200)}}"); ("name", Str "demo-test");
       ("qps", obj [("ConstantRate", obj [("countPerSec", Str "{{randomInt(150, 200)}}")])])].

Definition test_parse_template_3_json : Value :=
  obj [("duration", int 123); ("name", Str "{{toString(randomInt(150, 200))}}");
       ("qps", obj [("ConstantRate", obj [("countPerSec", Str "{{randomInt(150, 200)}}")])])].

(** Evaluate a JSON value, and all that are written as objects. *)
Ltac eval_json v := let t := eval vm_compute in v in change v with t.
Ltac eval_objs :=
  repeat match goal with |- context [obj ?l] => let t := eval vm_compute in (obj l) in change (obj l) with t end.

Section TemplateTests.
  Context {Hir Rng AST : Type} `{!RandomSource Hir Rng}.
  Context (compile : string → result string AST) (eval : AST → Rng → outcome (result string Value * Rng)).

(** [assert!(matches!(map.get(path), Some(AST { .. })))] *)
Definition has_template (path : string) (m : gmap string AST) : outcome unit :=
  assert_that (bool_decide (is_Some (m !! path))).

Definition test_ast_compile : outcome unit :=
  _ ← find_pattern_and_compile compile "{{random(10, 100)}}";
  _ ← unwrap_ok (compile "`some error`");
  Val tt.

Definition test_parse_template_1 : outcome unit :=
  m ← parse_templates_inner compile test_parse_template_1_json "" ∅;
  _ ← assert_that (size m =? 1)%nat;
  has_template "/duration" m.

Definition test_parse_template_2 : outcome unit :=
  m ← parse_templates_inner compile test_parse_template_2_json "" ∅;
  _ ← assert_that (size m =? 2)%nat;
  _ ← has_template "/duration" m;
  has_template "/qps/ConstantRate/countPerSec" m.

Definition test_parse_template_3 : outcome unit :=
  m ← parse_templates_inner compile test_parse_template_3_json "" ∅;
  _ ← assert_that (size m =? 2)%nat;
  _ ← has_template "/name" m;
  has_template "/qps/ConstantRate/countPerSec" m.

Definition in_range (a b : Z) (path : string) (json : Value) : outcome unit :=
  value ← unwrap (pointer path json);
  value ← unwrap (as_i64 value);
  assert_that ((a <=? value) && (value <? b)).

(** [order] gives the entries of the map in the order of its iteration. *)
Definition test_eval_2 (order : gmap string AST → list (string * AST)) (g : Rng) : outcome unit :=
  m ← parse_templates_inner compile test_parse_template_2_json "" ∅;
  '(json, _) ← populate_data eval (order m) test_parse_template_2_json g;
  _ ← in_range 150 200 "/qps/ConstantRate/countPerSec" json;
  in_range 100 200 "/duration" json.

Definition template_tests (order : gmap string AST → list (string * AST)) (g : Rng) : list (outcome unit) :=
  [test_ast_compile; test_parse_template_1; test_parse_template_2; test_parse_template_3; test_eval_2 order g].

(** What the tests rely on of rhai: the expressions compile, and a call of [randomInt] calls
    the function that is registered under this name. *)
Record TestEngine : Prop := {
  compiles e : e ∈ ["random(10, 100)"; "`some error`"; "toString(randomInt(150, 200))"] → is_ok (compile e) = true;
  calls_random_int e a b : (e, a, b) ∈ [("randomInt(100, 200)", 100, 200); ("randomInt(150, 200)", 150, 200)] →
    ∃ ast, compile e = Ok ast ∧ ∀ g, eval ast g = ('(n, g) ← random_int (Hir := Hir) a b g; Val (Ok (int_value n), g))
}.

Section Pass.
  Context `{!RandomSourceLaws Hir Rng} (Hengine : TestEngine).

Lemma compiled e :
  e ∈ ["random(10, 100)"; "`some error`"; "toString(randomInt(150, 200))"] → ∃ ast, compile e = Ok ast.
Proof. intros He. pose proof (compiles Hengine e He) as H. destruct (compile e); [by eexists|done]. Qed.

Lemma found e ast t :
  captures t = Some e → compile e = Ok ast → find_pattern_and_compile compile t = Val (Some ast).
Proof. intros Hc He. unfold find_pattern_and_compile. by rewrite Hc, He. Qed.

Lemma parse_templates_pass :
  test_parse_template_1 = Val tt ∧ test_parse_template_2 = Val tt ∧ test_parse_template_3 = Val tt.
Proof.
  destruct (calls_random_int Hengine "randomInt(100, 200)" 100 200) as (a1 & H1 & _); [set_solver|].
  destruct (calls_random_int Hengine "randomInt(150, 200)" 150 200) as (a2 & H2 & _); [set_solver|].
  destruct (compiled "toString(randomInt(150, 200))") as (a3 & H3); [set_solver|].
  pose proof (found _ a1 "{{randomInt(100, 200)}}" eq_refl H1) as F1.
  pose proof (found _ a2 "{{randomInt(150, 200)}}" eq_refl H2) as F2.
  pose proof (found _ a3 "{{toString(randomInt(150, 200))}}" eq_refl H3) as F3.
  assert (F4 : find_pattern_and_compile compile "demo-test" = Val None) by done.
  unfold test_parse_template_1, test_parse_template_2, test_parse_template_3. split_and!.
  - eval_json test_parse_template_1_json. cbn -[find_pattern_and_compile]. rewrite F1. done.
  - eval_json test_parse_template_2_json. cbn -[find_pattern_and_compile]. rewrite F1, F4.
    cbn -[find_pattern_and_compile]. rewrite F2. done.
  - eval_json test_parse_template_3_json. cbn -[find_pattern_and_compile]. rewrite F3.
    cbn -[find_pattern_and_compile]. rewrite F2. done.
Qed.

Lemma in_range_ok a b n path json :
  0 <= a → b <= i64_MAX → a <= n < b → pointer path json = Some (int_value n) → in_range a b path json = Val tt.
Proof.
  intros Ha Hb Hn Hp. unfold in_range. rewrite Hp. cbn. rewrite as_i64_int_value by lia. cbn -[Z.leb Z.ltb].
  by destruct (Z.leb_spec a n), (Z.ltb_spec n b); try lia.
Qed.

Lemma eval_2_passes order (g : Rng) : (∀ m, order m ≡ₚ map_to_list m) → test_eval_2 order g = Val tt.
Proof.
  intros Horder. unfold test_eval_2.
  destruct (calls_random_int Hengine "randomInt(100, 200)" 100 200) as (a1 & H1 & E1); [set_solver|].
  destruct (calls_random_int Hengine "randomInt(150, 200)" 150 200) as (a2 & H2 & E2); [set_solver|].
  pose proof (found _ a1 "{{randomInt(100, 200)}}" eq_refl H1) as F1.
  pose proof (found _ a2 "{{randomInt(150, 200)}}" eq_refl H2) as F2.
  assert (F4 : find_pattern_and_compile compile "demo-test" = Val None) by done.
  eval_json test_parse_template_2_json. cbn -[find_pattern_and_compile populate_data in_range]. rewrite F1, F4.
  cbn -[find_pattern_and_compile populate_data in_range]. rewrite F2. cbn -[populate_data in_range].
  match goal with |- context [order ?m] => set (tm := m) end.
  assert (Htm : order tm ≡ₚ [("/qps/ConstantRate/countPerSec", a2); ("/duration", a1)]).
  { rewrite Horder. unfold tm. rewrite map_to_list_insert by done. by rewrite map_to_list_insert, map_to_list_empty. }
  assert (Hr : ∀ a b (g : Rng), a < b → ∃ n g', random_int (Hir := Hir) a b g = Val (n, g') ∧ a <= n < b).
  { intros a b g0 Hab. destruct (fastrand_i64_ok (Hir := Hir) a (b - 1) g0) as (n & g' & Hn & Hb); [lia|]. exists n, g'. split; [done|lia]. }
  apply Permutation_sym, Permutation_length_2_inv in Htm as [-> | ->]; cbn -[in_range]; unfold eval_result.
  - rewrite E2. destruct (Hr 150 200 g) as (n & g1 & -> & Hn); [lia|]. cbn -[in_range]. rewrite E1.
    destruct (Hr 100 200 g1) as (n' & g2 & -> & Hn'); [lia|]. cbn -[in_range].
    rewrite (in_range_ok 150 200 n) by (done || lia). cbn -[in_range]. by rewrite (in_range_ok 100 200 n') by (done || lia).
  - rewrite E1. destruct (Hr 100 200 g) as (n' & g1 & -> & Hn'); [lia|]. cbn -[in_range]. rewrite E2.
    destruct (Hr 150 200 g1) as (n & g2 & -> & Hn); [lia|]. cbn -[in_range].
    rewrite (in_range_ok 150 200 n) by (done || lia). cbn -[in_range]. by rewrite (in_range_ok 100 200 n') by (done || lia).
Qed.

Lemma template_tests_ok order (g : Rng) :
  (∀ m, order m ≡ₚ map_to_list m) → Forall (λ t, t = Val tt) (template_tests order g).
Proof.
  intros Horder. destruct parse_templates_pass as (? & ? & ?). unfold template_tests.
  repeat constructor; auto using eval_2_passes. unfold test_ast_compile.
  destruct (compiled "random(10, 100)") as (a1 & Ha1); [set_solver|].
  destruct (compiled "`some error`") as (a2 & Ha2); [set_solver|].
  rewrite (found "random(10, 100)" a1) by done. cbn. by rewrite Ha2.
Qed.

End Pass.
End TemplateTests.

(** ** Properties *)

(** The model passes the unit tests of the data generator and of the templates (those
    whose crates are described by [TestCrates] and [TestEngine]), whatever random numbers
    are drawn and in whatever order the templates are visited. *)
Theorem data_tests_pass {Hir Rng AST} `{!RandomSource Hir Rng, !RandomSourceLaws Hir Rng}
    parse_regex is_match selector (compile : string → result string AST)
    (eval : AST → Rng → outcome (result string Value * Rng)) order (g : Rng) :
  TestCrates (Hir := Hir) (Rng := Rng) parse_regex is_match selector →
  TestEngine (Hir := Hir) compile eval → (∀ m, order m ≡ₚ map_to_list m) →
  Forall (λ t, t = Val tt) (datagen_tests parse_regex is_match selector g ++ template_tests compile eval order g)%list.
Proof. intros Hc He Ho. apply Forall_app. split; [by apply datagen_tests_ok|by eapply template_tests_ok]. Qed.

(** ** Concrete inputs *)

(** Patterns are their own syntax trees, and every pattern has one string; the one of seven
    digits is an argument. *)
Definition sample (seven p : string) : option string :=
  if String.eqb p "^1[0-9]{4}$" then Some "10000"
  else if String.eqb p "^a[0-9]{4}z$" then Some "a0000z"
  else if String.eqb p "^1[0-9]{6}$" then Some seven
  else Some "0000-aa-00".

Definition sample_source (seven : string) : RandomSource string unit :=
  {| rng_i64 min _ g := (min, g); rng_alphabetic g := ("a"%char, g); rng_from_hir p g := (sample seven p, g) |}.

Lemma sample_source_laws seven : RandomSourceLaws string unit (RandomSource0 := sample_source seven).
Proof. intros min max g H. simpl. lia. Qed.

Definition sample_match (p s : string) : bool :=
  match shape p with Some f => f s | None => String.eqb s "0000-aa-00" end.

(** Chains of members. *)
Definition sample_selector (v : Value) (path : string) : option (list Value) :=
  match path with
  | String _ EmptyString => Some [v]
  | String _ (String _ ks) => (λ x, [x]) <$> members (split_char "." ks) v
  | EmptyString => None
  end.

Lemma member_key_no_dot k : member_key k = true → str_forall (λ a, negb (Ascii.eqb a ".")) k = true.
Proof. apply str_forall_impl. intros a Ha. by destruct (Ascii.eqb_spec a "."); subst. Qed.

Lemma split_member_path k ks :
  forallb member_key (k :: ks) = true → split_char "." (k +:+ foldr (λ k s, "." +:+ k +:+ s) "" ks) = k :: ks.
Proof.
  revert k. induction ks as [|k' ks IH]; intros k; simpl; intros [Hk Hks]%andb_true_iff.
  - rewrite append_empty_r. by apply split_char_none, member_key_no_dot.
  - etrans; [apply (split_char_app "."%char k (k' +:+ foldr (λ k s, "." +:+ k +:+ s) "" ks)); by apply member_key_no_dot|].
    f_equal. by apply IH.
Qed.

Lemma sample_selects ks v x :
  forallb member_key ks = true → members ks v = Some x → sample_selector v (member_path ks) = Some [x].
Proof.
  intros Hks Hm. destruct ks as [|k ks]; [by simplify_eq/=|]. unfold member_path.
  change (sample_selector v ("$" +:+ foldr (λ k s, "." +:+ k +:+ s) "" (k :: ks)))
    with ((λ x, [x]) <$> members (split_char "." (k +:+ foldr (λ k s, "." +:+ k +:+ s) "" ks)) v).
  by rewrite split_member_path, Hm.
Qed.

Lemma sample_crates seven :
  shape "^1[0-9]{6}$" ≫= (λ f, Some (f seven)) = Some true →
  TestCrates (RandomSource0 := sample_source seven) Some sample_match sample_selector.
Proof.
  intros Hseven. split.
  - by eexists.
  - intros p f h g Hp [= <-]. simpl. unfold sample, shape in *.
    destruct (String.eqb p "^1[0-9]{4}$"); [injection Hp as <-; by eexists|].
    destruct (String.eqb p "^a[0-9]{4}z$"); [injection Hp as <-; by eexists|].
    destruct (String.eqb p "^1[0-9]{6}$"); [|done]. injection Hp as <-. eexists. split; [done|]. by injection Hseven.
  - intros p f s Hp Hs. unfold sample_match. by rewrite Hp.
  - intros h g [= <-]. by eexists.
  - apply sample_selects.
Qed.

(** A generator that draws 1999999 makes the test of arrays of objects fail: it expects less
    than 1999998, although the pattern allows up to 1999999. *)
Theorem array_schema_data_gen_object_may_fail :
  TestCrates (RandomSource0 := sample_source "1999999") Some sample_match sample_selector ∧
  array_schema_data_gen_object (RandomSource0 := sample_source "1999999") Some tt = Panic.
Proof. split; [by apply sample_crates|by vm_compute]. Qed.

(** An engine whose trees are the calls of [randomInt]. *)
Definition sample_compile (e : string) : result string (Z * Z) :=
  Ok (if String.eqb e "randomInt(100, 200)" then (100, 200) else (150, 200)).

Definition sample_eval (t : Z * Z) (g : unit) : outcome (result string Value * unit) :=
  '(n, g) ← random_int (Hir := string) (RandomSource0 := sample_source "1000000") t.1 t.2 g; Val (Ok (int_value n), g).

Lemma sample_engine : TestEngine (Hir := string) (RandomSource0 := sample_source "1000000") sample_compile sample_eval.
Proof.
  split; [done|]. intros e a b He.
  rewrite !elem_of_cons in He. destruct He as [[= -> -> ->]|[[= -> -> ->]|He%not_elem_of_nil]];
    [by exists (100, 200)|by exists (150, 200)|done].
Qed.

Lemma data_tests_pass_witness :
  Forall (λ t, t = Val tt)
    (datagen_tests (RandomSource0 := sample_source "1000000") Some sample_match sample_selector tt ++
     template_tests sample_compile sample_eval map_to_list tt)%list.
Proof.
  apply (data_tests_pass (RandomSource0 := sample_source "1000000") (RandomSourceLaws0 := sample_source_laws "1000000")
    Some sample_match sample_selector sample_compile sample_eval map_to_list tt);
    [apply sample_crates; reflexivity|exact sample_engine|reflexivity].
Defined.
