(* ===== verification/HttpTypes.v ===== *)
(** * Requests and the types of the HTTP interface

    [overload-http/src/lib.rs], [overload-http/src/request_specs.rs] and
    [common-types/src/lib.rs] (the parameters of a URL are in [UrlParams]).

    A [HashMap] is a [gmap].  [Compiled], [Hir], [AST] and [Conn] stand for the types of
    jsonpath expressions, regular expressions, rhai programs and SQLite connections. *)
From Stdlib Require Import ZArith Lia Ascii SpecFloat.
From stdpp Require Import base list gmap strings numbers sets.
From S2P Require Import Prelude Float32 RateSpec Json Assert DataGen Template.

Local Open Scope Z_scope.

(** ** Data *)

Inductive LoadGenerationMode :=
| Batch (batch_size : Z)
| Immediate.

Inductive Scheme := HTTP.

Record Target := { host : string; port : Z; protocol : Scheme }.

Record HttpReq := mk_http_req {
  req_id : string;
  method : string;
  url : string;
  body : option string;
  headers : gmap string string
}.

(** The columns of a row of a request file. *)
Record SqliteRow := {
  row_rowid : Z;
  row_method : string;
  row_url : string;
  row_body : option string;
  row_headers : string
}.

(** [FromRow for HttpReq]: the method must be valid, headers that do not parse are
    replaced by none. *)
Definition from_row (valid_method : string → bool) (parse_headers : string → option (gmap string string))
    (row : SqliteRow) : outcome HttpReq :=
  if valid_method (row_method row) then
    Val {| req_id := show_signed (row_rowid row); method := row_method row; url := row_url row;
           body := row_body row; headers := default ∅ (parse_headers (row_headers row)) |}
  else Panic.

(** ** Environment: [env] is what [env::var] gives *)

Definition http_port (env : string → option string) : Z :=
  default 3030 (env "HTTP_ENDPOINT_PORT" ≫= parse_unsigned u16_MAX).

(** [PathBuf::from("/").join(env)]: an absolute path replaces the root. *)
Definition data_dir_path (env : string → option string) : string :=
  match env "DATA_DIR" with
  | Some d => if starts_with_char "/" d then d else "/" +:+ d
  | None => "/tmp"
  end.

Record ConnectionKeepAlive := { ka_ttl : Z; ka_max_request_per_connection : Z }.

Definition keep_alive_default : ConnectionKeepAlive :=
  {| ka_ttl := u32_MAX; ka_max_request_per_connection := u32_MAX |}.

Record RequestList := { data : list HttpReq }.

(** [default_usize_max] *)
Definition default_usize_max : Z := 2147483647.
Definition default_split_range : Z := 0.
Definition default_body : Value := Null.

Section Types.
  Context {Compiled Hir AST Conn : Type}.

Record RequestFile := {
  rf_file_name : string;
  rf_inner : option Conn;
  rf_size : Z
}.

Definition request_file_new (file_name : string) : RequestFile :=
  {| rf_file_name := file_name; rf_inner := None; rf_size := default_usize_max |}.

Definition request_file_clone (self : RequestFile) : RequestFile :=
  request_file_new (rf_file_name self).

Record SplitRequestFile := {
  sf_file_name : string;
  sf_inner : option Conn;
  sf_size : Z;
  range_start_inclusive : Z;
  range_end_inclusive : Z;
  next_read_cursor : Z
}.

Definition clone_with_new_range (self : SplitRequestFile) (range : Z * Z) : SplitRequestFile :=
  {| sf_file_name := sf_file_name self; sf_inner := None; sf_size := sf_size self;
     range_start_inclusive := fst range; range_end_inclusive := snd range;
     next_read_cursor := fst range |}.

Definition split_request_file_clone (self : SplitRequestFile) : SplitRequestFile :=
  {| sf_file_name := sf_file_name self; sf_inner := None; sf_size := sf_size self;
     range_start_inclusive := range_start_inclusive self;
     range_end_inclusive := range_end_inclusive self;
     next_read_cursor := next_read_cursor self |}.

Record UrlParam := { up_name : string; up_start : Z; up_end : Z }.

Record RandomDataRequest := {
  rd_init : bool;
  rd_method : string;
  rd_url : string;
  rd_url_param_pos : option (list UrlParam);
  rd_headers : gmap string string;
  rd_body_schema : option (DataSchema Hir);
  rd_uri_param_schema : option (DataSchema Hir)
}.

(** The engine holds no state of its own and is left out. *)
Record JsonTemplate := {
  jt_method : string;
  jt_url : Value;
  jt_headers : gmap string string;
  jt_body : Value;
  jt_url_template : gmap string AST;
  jt_body_template : gmap string AST
}.

Record JsonTemplateRequest := {
  jr_method : string;
  jr_url : Value;
  jr_headers : gmap string string;
  jr_body : Value
}.

Inductive RequestSpecEnum :=
| RSRequestList (r : RequestList)
| RSRequestFile (r : RequestFile)
| RSSplitRequestFile (r : SplitRequestFile)
| RSRandomDataRequest (r : RandomDataRequest)
| RSJsonTemplateRequest (r : JsonTemplate).

(** [Request], and [RequestShadow], which has the same fields and from which a [Request]
    is deserialised. *)
Record Request := {
  name : option string;
  duration : Z;
  target : Target;
  req : RequestSpecEnum;
  qps : RateSpecEnum;
  concurrent_connection : ConcurrentConnectionRateSpec;
  connection_keep_alive : ConnectionKeepAlive;
  histogram_buckets : list spec_float;
  response_assertion : option (ResponseAssertion Compiled);
  generation_mode : LoadGenerationMode
}.

Record RequestShadow := {
  shadow_name : option string;
  shadow_duration : Z;
  shadow_target : Target;
  shadow_req : RequestSpecEnum;
  shadow_qps : RateSpecEnum;
  shadow_concurrent_connection : ConcurrentConnectionRateSpec;
  shadow_connection_keep_alive : ConnectionKeepAlive;
  shadow_histogram_buckets : list spec_float;
  shadow_response_assertion : option (ResponseAssertion Compiled);
  shadow_generation_mode : LoadGenerationMode
}.

Record MultiRequest := { mr_name : option string; requests : list Request }.

(** ** Defaults *)

Definition default_concurrent_connection : ConcurrentConnectionRateSpec := ConnElastic elastic_default.
Definition default_histogram_bucket : list spec_float :=
  (λ n, binary_normalize 53 1024 n 0 false) <$> [20; 50; 100; 300; 700; 1100].
Definition default_generation_mode : LoadGenerationMode := Immediate.

(** ** Host header *)

(** [HOST.eq(x)]: header names are compared without regard to case. *)
Definition is_host (x : string) : bool := String.eqb (to_lower x) "host".

Definition host_exists (hs : gmap string string) : bool :=
  existsb (λ kv, is_host kv.1) (map_to_list hs).

Definition validate_and_update_host_header (hs : gmap string string) (t : Target) : gmap string string :=
  if host_exists hs then hs else <["host" := host t]> hs.

(** [From<RequestShadow> for Request] *)
Definition request_from_shadow (value : RequestShadow) : Request :=
  let t := shadow_target value in
  let r := match shadow_req value with
           | RSJsonTemplateRequest r =>
               RSJsonTemplateRequest
                 {| jt_method := jt_method r; jt_url := jt_url r;
                    jt_headers := validate_and_update_host_header (jt_headers r) t;
                    jt_body := jt_body r; jt_url_template := jt_url_template r;
                    jt_body_template := jt_body_template r |}
           | RSRandomDataRequest r =>
               RSRandomDataRequest
                 {| rd_init := rd_init r; rd_method := rd_method r; rd_url := rd_url r;
                    rd_url_param_pos := rd_url_param_pos r;
                    rd_headers := validate_and_update_host_header (rd_headers r) t;
                    rd_body_schema := rd_body_schema r;
                    rd_uri_param_schema := rd_uri_param_schema r |}
           | r => r
           end in
  {| name := shadow_name value; duration := shadow_duration value; target := t; req := r;
     qps := shadow_qps value; concurrent_connection := shadow_concurrent_connection value;
     connection_keep_alive := shadow_connection_keep_alive value;
     histogram_buckets := shadow_histogram_buckets value;
     response_assertion := shadow_response_assertion value;
     generation_mode := shadow_generation_mode value |}.

(** ** JSON template requests *)

(** [validate_url_json_val] and [validate_url_str]. *)
Definition validate_url_str (u : string) : bool := starts_with_char "/" u.

Definition validate_url_json_val (u : Value) : bool :=
  match as_str u with
  | None => false
  | Some u => if pattern_function_is_match u then true else validate_url_str u
  end.

(** [TryFrom<JsonTemplateRequest> for JsonTemplate]: [None] is a validation error. *)
Definition json_template_try_from (compile : string → result string AST)
    (value : JsonTemplateRequest) : outcome (option JsonTemplate) :=
  if validate_url_json_val (jr_url value) then
    url_template ← parse_templates compile (jr_url value);
    body_template ← parse_templates compile (jr_body value);
    Val (Some {| jt_method := jr_method value; jt_url := jr_url value;
                 jt_headers := jr_headers value; jt_body := jr_body value;
                 jt_url_template := url_template; jt_body_template := body_template |})
  else Val None.

(** [From<JsonTemplate> for JsonTemplateRequest] *)
Definition json_template_into (value : JsonTemplate) : JsonTemplateRequest :=
  {| jr_method := jt_method value; jr_url := jt_url value;
     jr_headers := jt_headers value; jr_body := jt_body value |}.

End Types.

Arguments RequestFile : clear implicits.
Arguments SplitRequestFile : clear implicits.
Arguments RandomDataRequest : clear implicits.
Arguments JsonTemplate : clear implicits.
Arguments RequestSpecEnum : clear implicits.
Arguments Request : clear implicits.
Arguments RequestShadow : clear implicits.
Arguments MultiRequest : clear implicits.

(** ** Errors and job status queries *)

Record GenericError := {
  error_code : Z;
  error_message : string;
  error_data : gmap string string
}.

Definition generic_error_default : GenericError :=
  {| error_code := u16_MAX; error_message := ""; error_data := ∅ |}.

Definition generic_error_new (msg : string) (code : Z) : GenericError :=
  {| error_code := code; error_message := msg; error_data := ∅ |}.

Definition internal_500 (msg : string) : GenericError := generic_error_new msg 500.
Definition error_unknown : GenericError := internal_500 "Unknown error".

Inductive JobStatusQueryParams :=
| JobId (job_id : string)
| PagerOptions (offset limit : Z).

(** [Display for JobStatusQueryParams] *)
Definition show_query (q : JobStatusQueryParams) : string :=
  match q with
  | JobId job_id => "job_id=" +:+ job_id
  | PagerOptions offset limit =>
      "offset=" +:+ show_unsigned offset +:+ "&limit=" +:+ show_unsigned limit
  end.

(** [TryFrom<HashMap<String, String>>]; [parse_error] is the text of a [ParseIntError].
    The message for a bad limit prints the offset, as the source does. *)
Definition query_try_from (parse_error : string → string) (value : gmap string string) :
    result GenericError JobStatusQueryParams :=
  let job_id := value !! "job_id" in
  let value := delete "job_id" value in
  '(params, value) ←
    match job_id with
    | Some job_id => Ok (JobId job_id, value)
    | None =>
        let offset_s := default "0" (value !! "offset") in
        let value := delete "offset" value in
        offset ← ok_or (generic_error_new ("Invalid offset " +:+ offset_s +:+ ", " +:+ parse_error offset_s) 400)
                       (parse_unsigned usize_MAX offset_s);
        let limit_s := default "20" (value !! "limit") in
        let value := delete "limit" value in
        limit ← ok_or (generic_error_new ("Invalid limit " +:+ show_unsigned offset +:+ ", " +:+ parse_error limit_s) 400)
                      (parse_unsigned usize_MAX limit_s);
        if limit <? 1 then Err (generic_error_new "limit can't be less than 1" 400)
        else Ok (PagerOptions offset limit, value)
    end;
  if decide (value = ∅) then Ok params
  else Err (generic_error_new "Invalid or too many query params" 400).

(** The parameters that [Display] prints. *)
Definition query_params (q : JobStatusQueryParams) : gmap string string :=
  match q with
  | JobId job_id => {[ "job_id" := job_id ]}
  | PagerOptions offset limit =>
      {[ "offset" := show_unsigned offset; "limit" := show_unsigned limit ]}
  end.

(** ** Lemmas *)

Lemma to_lower_idem s : to_lower (to_lower s) = to_lower s.
Proof.
  induction s as [|a s IH]; simpl; [done|]. rewrite IH. f_equal. clear.
  destruct a as [[] [] [] [] [] [] [] []]; reflexivity.
Qed.

Lemma host_exists_spec hs : host_exists hs = true ↔ ∃ k v, hs !! k = Some v ∧ is_host k = true.
Proof.
  unfold host_exists. rewrite List.existsb_exists. split.
  - intros ([k v] & Hin & Hk). exists k, v. split; [|done].
    apply elem_of_map_to_list. by apply list_elem_of_In.
  - intros (k & v & Hl & Hk). exists (k, v). split; [|done].
    apply list_elem_of_In. by apply elem_of_map_to_list.
Qed.

(** ** Properties *)

(** The headers of a request spec that has headers of its own. *)
Definition spec_headers {Hir AST Conn} (r : RequestSpecEnum Hir AST Conn) : option (gmap string string) :=
  match r with
  | RSJsonTemplateRequest r => Some (jt_headers r)
  | RSRandomDataRequest r => Some (rd_headers r)
  | _ => None
  end.

(** A generated request always has a host header: deserialising keeps every header it
    was given, adds [host] with the target's host exactly when no header of that name
    (in any case) was there, and doing it again changes nothing. *)
Theorem host_header_present {Compiled Hir AST Conn} (v : RequestShadow Compiled Hir AST Conn) hs :
  spec_headers (shadow_req v) = Some hs →
  ∃ hs', spec_headers (req (request_from_shadow v)) = Some hs' ∧ host_exists hs' = true ∧
    (∀ k x, hs !! k = Some x → hs' !! k = Some x) ∧
    (if host_exists hs then hs' = hs else hs' = <["host" := host (shadow_target v)]> hs) ∧
    validate_and_update_host_header hs' (shadow_target v) = hs'.
Proof.
  intros Hs. exists (validate_and_update_host_header hs (shadow_target v)).
  split; [by destruct v as [? ? ? [] ? ? ? ? ? ?]; simpl in *; simplify_eq|].
  unfold validate_and_update_host_header. destruct (host_exists hs) eqn:E.
  { rewrite E. by split_and!. }
  assert (Hh : host_exists (<["host":=host (shadow_target v)]> hs) = true).
  { apply host_exists_spec. exists "host"%string, (host (shadow_target v)).
    split; [by simplify_map_eq|done]. }
  rewrite Hh. split_and!; try done. intros k x Hk.
  destruct (decide (k = "host"%string)) as [->|Hne]; [|by rewrite lookup_insert_ne].
  assert (host_exists hs = true) as HE; [|congruence]. apply host_exists_spec. eauto.
Qed.

(** The map has no key other than these. *)
Definition only_keys (ks : list string) (m : gmap string string) : Prop :=
  ∀ k, is_Some (m !! k) → k ∈ ks.

Lemma deletes_empty m ks : foldr delete m ks = (∅ : gmap string string) ↔ only_keys ks m.
Proof.
  unfold only_keys. split.
  - intros H k [x Hx]. destruct (decide (k ∈ ks)) as [|Hn]; [done|]. exfalso.
    assert (foldr delete m ks !! k = Some x) as Hl; [|by rewrite H in Hl].
    clear H. induction ks as [|j ks IH]; simpl; [done|].
    apply not_elem_of_cons in Hn as [Hj Hn]. rewrite lookup_delete_ne by done. auto.
  - intros H. apply map_empty. intros k.
    assert (Hin : k ∈ ks → foldr delete m ks !! k = None).
    { clear H. induction ks as [|j ks IH]; [set_solver|]. simpl.
      intros [->|Hk]%elem_of_cons; [by apply lookup_delete_eq|].
      apply lookup_delete_None. auto. }
    destruct (m !! k) as [x|] eqn:E; [apply Hin, H; by eexists|].
    clear -E. induction ks as [|j ks IH]; simpl; [done|]. apply lookup_delete_None. auto.
Qed.

Lemma query_try_from_error pe m e : query_try_from pe m = Err e → ∃ msg, e = generic_error_new msg 400.
Proof.
  unfold query_try_from. cbv zeta. destruct (m !! "job_id"); simpl; [case_decide; naive_solver|].
  destruct (parse_unsigned _ (default "0"%string _)); simpl; [|naive_solver].
  destruct (parse_unsigned _ (default "20"%string _)) as [l|]; simpl; [|naive_solver].
  destruct (l <? 1); simpl; [naive_solver|]. case_decide; naive_solver.
Qed.

(** Query parameters are accepted exactly in two forms: [job_id] alone, or at most
    [offset] (default 0) and [limit] (default 20), both readable as [usize] and the
    limit at least 1.  Everything else, unknown parameters included, is error 400. *)
Theorem query_try_from_exact pe (m : gmap string string) :
  (∀ q, query_try_from pe m = Ok q ↔
    match q with
    | JobId id => m !! "job_id" = Some id ∧ only_keys ["job_id"%string] m
    | PagerOptions o l =>
        m !! "job_id" = None ∧ only_keys ["offset"%string; "limit"%string] m ∧
        parse_unsigned usize_MAX (default "0"%string (m !! "offset")) = Some o ∧
        parse_unsigned usize_MAX (default "20"%string (m !! "limit")) = Some l ∧ 1 <= l
    end) ∧
  (∀ e, query_try_from pe m = Err e → error_code e = 400).
Proof.
  unfold query_try_from. destruct (m !! "job_id") as [id|] eqn:Ej; simpl.
  - pose proof (deletes_empty m ["job_id"%string]) as Hd. simpl in Hd.
    case_decide as Hm; (split; [|by intros e [= <-]]).
    + intros q. split; [intros [= <-]; naive_solver|]. destruct q; naive_solver.
    + intros [id'|o l]; (split; [done|]); naive_solver.
  - rewrite (delete_id m) by done.
    pose proof (deletes_empty m ["offset"%string; "limit"%string]) as Hd. simpl in Hd.
    rewrite delete_delete in Hd. rewrite (lookup_delete_ne m "offset" "limit") by done.
    destruct (parse_unsigned usize_MAX (default "0"%string (m !! "offset"))) as [o|] eqn:Eo; simpl;
      [|split; [intros []; naive_solver|by intros e [= <-]]].
    destruct (parse_unsigned usize_MAX (default "20"%string (m !! "limit"))) as [l|] eqn:El; simpl;
      [|split; [intros []; naive_solver|by intros e [= <-]]].
    destruct (Z.ltb_spec l 1); simpl;
      [split; [intros []; naive_solver lia|by intros e [= <-]]|].
    case_decide as Hm; (split; [|by intros e [= <-]]); intros []; naive_solver.
Qed.

Lemma split_once_prefix (k s : string) :
  str_forall (λ a, negb (Ascii.eqb a "=")) k = true →
  split_once "=" (k +:+ String "=" s) = Some (k, s).
Proof.
  induction k as [|a k IH]; simpl; [done|]. intros [Ha Hk]%andb_true_iff.
  apply negb_true_iff in Ha. by rewrite Ha, IH.
Qed.

Lemma show_unsigned_no c n :
  is_digit c = false → str_forall (λ a, negb (Ascii.eqb a c)) (show_unsigned n) = true.
Proof.
  intros Hc. apply (str_forall_impl is_digit); [|by apply show_digits_forall].
  intros a Ha. apply negb_true_iff, Ascii.eqb_neq. intros ->. congruence.
Qed.

Lemma str_forall_app f s t : str_forall f (s +:+ t)%string = str_forall f s && str_forall f t.
Proof.
  induction s as [|a s IH]; [done|].
  change (f a && str_forall f (s +:+ t)%string = f a && str_forall f s && str_forall f t).
  by rewrite IH, andb_assoc.
Qed.

(** What can be asked for: any job id without [&], any page of at least one job. *)
Definition query_valid (q : JobStatusQueryParams) : Prop :=
  match q with
  | JobId id => str_forall (λ a, negb (Ascii.eqb a "&")) id = true
  | PagerOptions o l => 0 <= o <= usize_MAX ∧ 1 <= l <= usize_MAX
  end.

Lemma show_query_map q : query_valid q → query_map (show_query q) = Val (query_params q).
Proof.
  unfold query_map. destruct q as [id|o l]; intros Hq.
  - change (show_query (JobId id)) with ("job_id" +:+ String "=" id)%string.
    rewrite split_char_none by (rewrite str_forall_app; simpl; by rewrite Hq).
    cbn [mapM]. unfold split_param. rewrite split_once_prefix by done. done.
  - change (show_query (PagerOptions o l)) with
      ("offset" +:+ String "=" (show_unsigned o +:+ String "&" ("limit" +:+ String "=" (show_unsigned l))))%string.
    replace ("offset" +:+ String "=" (show_unsigned o +:+ String "&" ("limit" +:+ String "=" (show_unsigned l))))%string
      with (("offset" +:+ String "=" (show_unsigned o)) +:+ String "&" ("limit" +:+ String "=" (show_unsigned l)))%string
      by (by rewrite append_assoc').
    rewrite split_char_app, split_char_none;
      [|by rewrite str_forall_app; simpl; rewrite show_unsigned_no..].
    cbn [mapM]. unfold split_param. rewrite !split_once_prefix by done. done.
Qed.

Lemma query_try_from_params pe q : query_valid q → query_try_from pe (query_params q) = Ok q.
Proof.
  intros Hq. unfold query_try_from, query_params. destruct q as [id|o l]; simpl.
  - rewrite lookup_singleton_eq. simpl. rewrite delete_singleton_eq. by rewrite decide_True.
  - destruct Hq as [Ho Hl]. rewrite lookup_insert_ne, lookup_singleton_ne by done. simpl.
    rewrite delete_insert_ne, delete_singleton_ne by done.
    rewrite lookup_insert_eq. simpl. rewrite parse_show_unsigned by lia. simpl.
    rewrite delete_insert_id by (by rewrite lookup_singleton_ne).
    rewrite lookup_singleton_eq. simpl. rewrite parse_show_unsigned by lia. simpl.
    destruct (Z.ltb_spec l 1); [lia|]. simpl. rewrite delete_singleton_eq. by rewrite decide_True.
Qed.

(** The query string a node prints when it passes a status query on is read back as
    the same query. *)
Theorem query_round_trip pe q :
  query_valid q →
  query_map (show_query q) = Val (query_params q) ∧ query_try_from pe (query_params q) = Ok q.
Proof. intros Hq. split; [by apply show_query_map|by apply query_try_from_params]. Qed.

(** ** Concrete inputs *)

Definition demo_target : Target := {| host := "127.0.0.1"; port := 2080; protocol := HTTP |}.

Definition demo_shadow : RequestShadow unit unit unit unit :=
  {| shadow_name := Some "t"%string; shadow_duration := 10; shadow_target := demo_target;
     shadow_req := RSRandomDataRequest
       {| rd_init := false; rd_method := "GET"; rd_url := "/"; rd_url_param_pos := None;
          rd_headers := {[ "Connection"%string := "keep-alive"%string ]};
          rd_body_schema := None; rd_uri_param_schema := None |};
     shadow_qps := RateConstant {| cr_count_per_sec := 3 |};
     shadow_concurrent_connection := default_concurrent_connection;
     shadow_connection_keep_alive := keep_alive_default;
     shadow_histogram_buckets := default_histogram_bucket;
     shadow_response_assertion := None; shadow_generation_mode := default_generation_mode |}.

Lemma host_header_present_witness :
  ∃ hs', spec_headers (req (request_from_shadow demo_shadow)) = Some hs' ∧ host_exists hs' = true.
Proof.
  destruct (host_header_present demo_shadow {[ "Connection"%string := "keep-alive"%string ]})
    as (hs' & H1 & H2 & _); [reflexivity|].
  exists hs'. split; [exact H1|exact H2].
Defined.

Lemma query_round_trip_witness :
  query_try_from (λ _, EmptyString) (query_params (PagerOptions 40 20)) = Ok (PagerOptions 40 20).
Proof. apply (query_round_trip (λ _, EmptyString) (PagerOptions 40 20)). simpl. lia. Defined.
