(* ===== verification/Pool.v ===== *)
(** * The connection pool

    [QueuePool] of [cluster-executor/src/connection.rs], with the pool metrics of
    [overload-metrics/src/lib.rs] it updates.

    The pool shares [recyclable_connections], [new_connections] and
    [failed_connection] with the tasks it spawns and with those that return connections,
    so the model has them in one record and all of them take steps on it ([pool_step]).  A
    step has at most one lock or atomic operation on what is shared: [get_connections] is
    three steps, opening connections two.  What hyper and tokio decide is an argument:
    [complete] is the order in which the readiness checks of a batch finish and their
    results, [opened] the results of the connection attempts that finish before the
    timeout, [now] the clock. *)
From Stdlib Require Import ZArith Lia.
From stdpp Require Import base list numbers strings sets relations.
From S2P Require Import Prelude HttpTypes.

Local Open Scope Z_scope.
Local Open Scope rust_scope.

(** ** Data *)

(** [request_handle] identifies hyper's [SendRequest] handle. *)
Record HttpConnection := {
  request_handle : Z;
  should_drop : bool;
  expire_at : Z;
  remaining_reuse : Z
}.

Record QueuePool := {
  max_connection : Z;
  connections : list HttpConnection;
  recyclable_connections : list HttpConnection;
  new_connections : list HttpConnection;
  busy_connections : Z;
  host_port : string;
  elastic : bool;
  keep_alive : ConnectionKeepAlive;
  last_use : Z;
  failed_connection : Z
}.

(** The counters and gauges of [Metrics] that the pool moves. *)
Record PoolMetrics := {
  pm_attempt : Z;
  pm_success : Z;
  pm_broken : Z;
  pm_dropped : Z;
  pm_size : Z;
  pm_idle : Z;
  pm_busy : Z
}.

Definition pool_connection_attempt (n : Z) (m : PoolMetrics) : PoolMetrics :=
  {| pm_attempt := pm_attempt m + n; pm_success := pm_success m; pm_broken := pm_broken m;
     pm_dropped := pm_dropped m; pm_size := pm_size m; pm_idle := pm_idle m; pm_busy := pm_busy m |}.
Definition pool_connection_success (n : Z) (m : PoolMetrics) : PoolMetrics :=
  {| pm_attempt := pm_attempt m; pm_success := pm_success m + n; pm_broken := pm_broken m;
     pm_dropped := pm_dropped m; pm_size := pm_size m; pm_idle := pm_idle m; pm_busy := pm_busy m |}.
Definition pool_connection_broken (n : Z) (m : PoolMetrics) : PoolMetrics :=
  {| pm_attempt := pm_attempt m; pm_success := pm_success m; pm_broken := pm_broken m + n;
     pm_dropped := pm_dropped m; pm_size := pm_size m; pm_idle := pm_idle m; pm_busy := pm_busy m |}.
Definition pool_connection_dropped (n : Z) (m : PoolMetrics) : PoolMetrics :=
  {| pm_attempt := pm_attempt m; pm_success := pm_success m; pm_broken := pm_broken m;
     pm_dropped := pm_dropped m + n; pm_size := pm_size m; pm_idle := pm_idle m; pm_busy := pm_busy m |}.
Definition pool_connection_busy (n : Z) (m : PoolMetrics) : PoolMetrics :=
  {| pm_attempt := pm_attempt m; pm_success := pm_success m; pm_broken := pm_broken m;
     pm_dropped := pm_dropped m; pm_size := pm_size m; pm_idle := pm_idle m; pm_busy := pm_busy m + n |}.
Definition pool_connection_idle (n : Z) (m : PoolMetrics) : PoolMetrics :=
  {| pm_attempt := pm_attempt m; pm_success := pm_success m; pm_broken := pm_broken m;
     pm_dropped := pm_dropped m; pm_size := pm_size m; pm_idle := pm_idle m + n; pm_busy := pm_busy m |}.
Definition pool_size (n : Z) (m : PoolMetrics) : PoolMetrics :=
  {| pm_attempt := pm_attempt m; pm_success := pm_success m; pm_broken := pm_broken m;
     pm_dropped := pm_dropped m; pm_size := n; pm_idle := pm_idle m; pm_busy := pm_busy m |}.

(** A future handed to [tokio::spawn]; [TaskAppend] is what is left of one that has opened
    its connections and waits for the lock of [new_connections]. *)
Inductive PoolTask :=
| TaskResize (diff : Z)
| TaskAddNew (count : Z)
| TaskAppend (conn : list HttpConnection).

(** ** Construction *)

Definition pool_new (host_port : string) (keep_alive : ConnectionKeepAlive)
    (elastic_pool : bool) (now : Z) : QueuePool :=
  {| max_connection := 0; connections := []; recyclable_connections := [];
     new_connections := []; busy_connections := 0; host_port := host_port;
     elastic := elastic_pool; keep_alive := keep_alive; last_use := now;
     failed_connection := 0 |}.

(** [since_epoch().saturating_add(ttl)] *)
Definition get_expiry (now ttl : Z) : Z := Z.min u64_MAX (now + ttl).

(** [max_request_per_connection.get().try_into().unwrap_or(i32::MAX)] *)
Definition initial_reuse (ka : ConnectionKeepAlive) : Z :=
  if ka_max_request_per_connection ka <=? i32_MAX
  then ka_max_request_per_connection ka else i32_MAX.

(** [open_connection]: [handle] is what connecting and hand-shaking gave, [None]
    when either failed. *)
Definition open_connection (ka : ConnectionKeepAlive) (now : Z) (handle : option Z) :
    option HttpConnection :=
  match handle with
  | Some h => Some {| request_handle := h; should_drop := false;
                      expire_at := get_expiry now (ka_ttl ka);
                      remaining_reuse := initial_reuse ka |}
  | None => None
  end.

(** ** Operations *)

(** [set_connection_count]; the returned task is the spawned resizer. *)
Definition set_connection_count (connection_count : Z) (self : QueuePool) (m : PoolMetrics) :
    QueuePool * PoolMetrics * PoolTask :=
  let elastic' :=
    if elastic self && negb (connection_count =? wrap 64 (max_connection self))
    then false else elastic self in
  let avail_con_len := len (connections self) in
  let conns :=
    if connection_count <? avail_con_len
    then drop (Z.to_nat (avail_con_len - connection_count)) (connections self)
    else connections self in
  let dropped := avail_con_len - len conns in
  let m := pool_connection_dropped dropped m in
  let avail_con_len := len conns in
  let diff := connection_count - max_connection self in
  let diff :=
    if 0 <? diff then
      let active_con := len (new_connections self) +usize busy_connections self +usize avail_con_len in
      Z.max 0 (connection_count - swrap 64 active_con)
    else diff in
  ({| max_connection := connection_count; connections := conns;
      recyclable_connections := recyclable_connections self;
      new_connections := new_connections self;
      busy_connections := busy_connections self; host_port := host_port self;
      elastic := elastic'; keep_alive := keep_alive self; last_use := last_use self;
      failed_connection := failed_connection self |},
   m, TaskResize diff).

(** [claim_connections], for either container: drain it to the back of the
    queue; returns how many were moved. *)
Definition claim_connections (queue container : list HttpConnection) :
    list HttpConnection * list HttpConnection * Z :=
  (queue ++ container, [], len container).

(** [add_new_connection_mut]: spawn an opener unless there is nothing to open. *)
Definition add_new_connection_mut (count : Z) : list PoolTask :=
  if count =? 0 then [] else [TaskAddNew count].

(** The loop that takes up to [n] connections from the front and sorts out those
    marked for dropping: (to check, dropped, rest). *)
Fixpoint take_usable (n : nat) (queue : list HttpConnection) :
    list HttpConnection * Z * list HttpConnection :=
  match n, queue with
  | O, _ => ([], 0, queue)
  | S _, [] => ([], 0, [])
  | S n', con :: queue' =>
      let '(futures, dropped, rest) := take_usable n' queue' in
      if should_drop con then (futures, dropped + 1, rest)
      else (con :: futures, dropped, rest)
  end.

(** *** [get_connections]

    It waits for the lock of each container and for the readiness checks, so it is three
    steps with two local values: how many connections were returned, then the connections
    being checked and how many were dropped. *)

(** The first claim. *)
Definition get_claim (self : QueuePool) : QueuePool * Z :=
  let '(conns, recyclable, returned_to_pool) :=
    claim_connections (connections self) (recyclable_connections self) in
  ({| max_connection := max_connection self; connections := conns;
      recyclable_connections := recyclable; new_connections := new_connections self;
      busy_connections := busy_connections self; host_port := host_port self;
      elastic := elastic self; keep_alive := keep_alive self; last_use := last_use self;
      failed_connection := failed_connection self |}, returned_to_pool).

(** The second claim, enforcing the pool size, and taking connections from the queue. *)
Definition get_check (returned_to_pool connection_request : Z) (self : QueuePool) (m : PoolMetrics) :
    QueuePool * PoolMetrics * (list HttpConnection * Z) * list PoolTask :=
  let '(conns, news, _) := claim_connections (connections self) (new_connections self) in
  let busy := busy_connections self -usize returned_to_pool in
  let '(conns, m, tasks) :=
    if elastic self then
      let diff := len conns - connection_request in
      (conns, m, if diff <? 0 then add_new_connection_mut (Z.abs diff) else [])
    else
      let available := len conns in
      let current_active := available +usize busy in
      let diff := swrap 64 current_active - max_connection self in
      if 0 <? diff then
        let conns' := truncate (Z.max 0 (available - diff)) conns in
        let change := available - len conns' in
        (conns',
         if 0 <? change then pool_connection_idle (- change) (pool_connection_dropped change m) else m,
         [])
      else (conns, m, []) in
  let '(futures, dropped, conns) := take_usable (Z.to_nat connection_request) conns in
  ({| max_connection := max_connection self; connections := conns;
      recyclable_connections := recyclable_connections self; new_connections := news;
      busy_connections := busy; host_port := host_port self; elastic := elastic self;
      keep_alive := keep_alive self; last_use := last_use self;
      failed_connection := failed_connection self |},
   m, (futures, dropped), tasks).

(** After the readiness checks: refilling, and the connections handed out. *)
Definition get_finish (results : list (HttpConnection * bool)) (dropped : Z) (self : QueuePool)
    (m : PoolMetrics) : QueuePool * PoolMetrics * list HttpConnection * list PoolTask :=
  let vec := map fst (filter (λ r, snd r = true) results) in
  let broken := len (filter (λ r, snd r = false) results) in
  let tasks := add_new_connection_mut (broken + dropped + failed_connection self) in
  let m := pool_connection_dropped (broken + dropped) (pool_connection_broken broken m) in
  let n := len vec in
  let busy := busy_connections self +usize n in
  let m := pool_connection_idle (- n) (pool_connection_busy n m) in
  ({| max_connection := max_connection self; connections := connections self;
      recyclable_connections := recyclable_connections self; new_connections := new_connections self;
      busy_connections := busy; host_port := host_port self; elastic := elastic self;
      keep_alive := keep_alive self; last_use := last_use self;
      failed_connection := 0 |},
   m, vec, tasks).

(** [return_connection], at time [now]. *)
Definition mark_returned (now : Z) (connection : HttpConnection) : HttpConnection :=
  {| request_handle := request_handle connection;
     should_drop :=
       if (expire_at connection <? now) || (remaining_reuse connection <=? 1) then true
       else should_drop connection;
     expire_at := expire_at connection;
     remaining_reuse := remaining_reuse connection -i32 1 |}.

Definition return_connection (now : Z) (connection : HttpConnection)
    (self : QueuePool) (m : PoolMetrics) : QueuePool * PoolMetrics :=
  ({| max_connection := max_connection self; connections := connections self;
      recyclable_connections := recyclable_connections self ++ [mark_returned now connection];
      new_connections := new_connections self; busy_connections := busy_connections self;
      host_port := host_port self; elastic := elastic self; keep_alive := keep_alive self;
      last_use := last_use self; failed_connection := failed_connection self |},
   pool_connection_idle 1 (pool_connection_busy (-1) m)).

(** [resize_conn_container] *)
Definition resize_conn_container (container : list HttpConnection) (to_be_removed : Z) :
    list HttpConnection * Z :=
  let n := len container in
  if n <? to_be_removed then ([], n)
  else (truncate (n - to_be_removed) container, to_be_removed).

(** The two fields of the pool that spawned tasks write. *)
Definition with_new_failed (news : list HttpConnection) (failed : Z) (self : QueuePool) : QueuePool :=
  {| max_connection := max_connection self; connections := connections self;
     recyclable_connections := recyclable_connections self; new_connections := news;
     busy_connections := busy_connections self; host_port := host_port self;
     elastic := elastic self; keep_alive := keep_alive self; last_use := last_use self;
     failed_connection := failed |}.

(** [add_new_connection]: [opened] are the attempts that finished before the timeout.  The
    failures are counted first, ... *)
Definition add_attempts (count : Z) (opened : list (option HttpConnection))
    (self : QueuePool) (m : PoolMetrics) : QueuePool * PoolMetrics * list HttpConnection :=
  let m := pool_connection_attempt count m in
  let conn := omap id opened in
  let n := len conn in
  let failed := count -usize n in
  let m := pool_connection_idle n (pool_connection_success n m) in
  (with_new_failed (new_connections self) (failed_connection self +usize failed) self, m, conn).

(** ... then the connections are appended under the lock. *)
Definition append_new (conn : list HttpConnection) (self : QueuePool) : QueuePool :=
  with_new_failed (new_connections self ++ conn) (failed_connection self) self.

Definition add_new_connection (count : Z) (opened : list (option HttpConnection))
    (self : QueuePool) (m : PoolMetrics) : QueuePool * PoolMetrics :=
  let '(self, m, conn) := add_attempts count opened self m in (append_new conn self, m).

(** [resize_connection_pool] when there are too many connections. *)
Definition remove_new (to_be_removed : Z) (self : QueuePool) (m : PoolMetrics) : QueuePool * PoolMetrics :=
  let '(news, removed) := resize_conn_container (new_connections self) to_be_removed in
  (with_new_failed news (failed_connection self) self,
   if 0 <? removed then pool_connection_idle (- removed) (pool_connection_dropped removed m) else m).

Definition resize_connection_pool (diff : Z) (opened : list (option HttpConnection))
    (self : QueuePool) (m : PoolMetrics) : QueuePool * PoolMetrics :=
  if diff <? 0 then remove_new (Z.abs diff) self m
  else if 0 <? diff then add_new_connection diff opened self m
  else (self, m).

(** How many connections a task tries to open. *)
Definition attempts (t : PoolTask) : Z :=
  match t with TaskResize diff => Z.max 0 diff | TaskAddNew count => count | TaskAppend _ => 0 end.

(** One step of a spawned task, and what is left of it. *)
Definition run_pool_task (t : PoolTask) (opened : list (option HttpConnection))
    (self : QueuePool) (m : PoolMetrics) : QueuePool * PoolMetrics * list PoolTask :=
  let add count := let '(self, m, conn) := add_attempts count opened self m in
                   (self, m, [TaskAppend conn]) in
  match t with
  | TaskResize diff =>
      if diff <? 0 then (remove_new (Z.abs diff) self m, [])
      else if 0 <? diff then add diff
      else (self, m, [])
  | TaskAddNew count => add count
  | TaskAppend conn => (append_new conn self, m, [])
  end.

(** [queue_pool.last_use = now] *)
Definition with_last_use (now : Z) (self : QueuePool) : QueuePool :=
  {| max_connection := max_connection self; connections := connections self;
     recyclable_connections := recyclable_connections self;
     new_connections := new_connections self; busy_connections := busy_connections self;
     host_port := host_port self; elastic := elastic self; keep_alive := keep_alive self;
     last_use := now; failed_connection := failed_connection self |}.

(** ** The pool and its tasks as a transition system

    [ps_get] is where a running call of [get_connections] is, [ps_in_flight] are the
    connections that were handed out and not returned, [ps_tasks] the spawned tasks that
    have not finished yet.  Two ghost fields record history: every handle that was opened,
    and every handle that was handed out (once per request). *)
Inductive GetStage :=
| GetIdle
| GetClaimed (returned_to_pool connection_request : Z)
| GetChecking (futures : list HttpConnection) (dropped : Z).

Record PoolSys := {
  ps_pool : QueuePool;
  ps_metrics : PoolMetrics;
  ps_get : GetStage;
  ps_in_flight : list HttpConnection;
  ps_tasks : list PoolTask;
  ps_issued : list Z;
  ps_handed : list Z
}.

Definition handles (l : list HttpConnection) : list Z := map request_handle l.

Definition metrics_zero : PoolMetrics :=
  {| pm_attempt := 0; pm_success := 0; pm_broken := 0; pm_dropped := 0;
     pm_size := 0; pm_idle := 0; pm_busy := 0 |}.

Definition pool_sys_init (host : string) (ka : ConnectionKeepAlive) (el : bool) (now : Z) : PoolSys :=
  {| ps_pool := pool_new host ka el now; ps_metrics := metrics_zero; ps_get := GetIdle;
     ps_in_flight := []; ps_tasks := []; ps_issued := []; ps_handed := [] |}.

Definition with_pool (p : QueuePool) (m : PoolMetrics) (g : GetStage) (ts : list PoolTask) (s : PoolSys) : PoolSys :=
  {| ps_pool := p; ps_metrics := m; ps_get := g; ps_in_flight := ps_in_flight s; ps_tasks := ts;
     ps_issued := ps_issued s; ps_handed := ps_handed s |}.

(** *** What the owner of the pool does *)

Definition sys_set (n : Z) (s : PoolSys) : PoolSys :=
  let '(p, m, t) := set_connection_count n (ps_pool s) (ps_metrics s) in
  with_pool p m (ps_get s) (ps_tasks s ++ [t]) s.

Definition sys_claim (n : Z) (s : PoolSys) : PoolSys :=
  let '(p, returned) := get_claim (ps_pool s) in
  with_pool p (ps_metrics s) (GetClaimed returned n) (ps_tasks s) s.

Definition sys_check (returned n : Z) (s : PoolSys) : PoolSys :=
  let '(p, m, (futures, dropped), ts) := get_check returned n (ps_pool s) (ps_metrics s) in
  with_pool p m (GetChecking futures dropped) (ps_tasks s ++ ts) s.

Definition sys_finish (results : list (HttpConnection * bool)) (dropped : Z) (s : PoolSys) :
    PoolSys * list HttpConnection :=
  let '(p, m, vec, ts) := get_finish results dropped (ps_pool s) (ps_metrics s) in
  ({| ps_pool := p; ps_metrics := m; ps_get := GetIdle; ps_in_flight := ps_in_flight s ++ vec;
      ps_tasks := ps_tasks s ++ ts; ps_issued := ps_issued s;
      ps_handed := ps_handed s ++ handles vec |}, vec).

Definition sys_size (n : Z) (s : PoolSys) : PoolSys :=
  with_pool (ps_pool s) (pool_size n (ps_metrics s)) (ps_get s) (ps_tasks s) s.

Definition sys_touch (now : Z) (s : PoolSys) : PoolSys :=
  with_pool (with_last_use now (ps_pool s)) (ps_metrics s) (ps_get s) (ps_tasks s) s.

(** [get_connections] as a whole: other tasks run between its steps.  It borrows the pool
    mutably, so no other call is running; if one were, nothing would happen. *)
Definition get_connections (between1 between2 : PoolSys → PoolSys)
    (complete : list HttpConnection → list (HttpConnection * bool)) (n : Z) (s : PoolSys) :
    PoolSys * list HttpConnection :=
  match ps_get s with
  | GetIdle =>
      let s := between1 (sys_claim n s) in
      match ps_get s with
      | GetClaimed returned n =>
          let s := between2 (sys_check returned n s) in
          match ps_get s with
          | GetChecking futures dropped => sys_finish (complete futures) dropped s
          | _ => (s, [])
          end
      | _ => (s, [])
      end
  | _ => (s, [])
  end.

Inductive owner_step : PoolSys → PoolSys → Prop :=
| owner_set s n : 0 <= n <= u32_MAX → owner_step s (sys_set n s)
| owner_claim s n :
    ps_get s = GetIdle → 0 <= n <= u32_MAX → owner_step s (sys_claim n s)
| owner_check s returned n :
    ps_get s = GetClaimed returned n → owner_step s (sys_check returned n s)
| owner_finish s futures dropped results :
    ps_get s = GetChecking futures dropped → map fst results ≡ₚ futures →
    owner_step s (fst (sys_finish results dropped s))
| owner_size s n : owner_step s (sys_size n s)
| owner_touch s now : owner_step s (sys_touch now s).

(** *** What other tasks do *)

Inductive task_step : PoolSys → PoolSys → Prop :=
| task_return s now c l1 l2 p m :
    ps_in_flight s = l1 ++ c :: l2 →
    return_connection now c (ps_pool s) (ps_metrics s) = (p, m) →
    task_step s {| ps_pool := p; ps_metrics := m; ps_get := ps_get s; ps_in_flight := l1 ++ l2;
                   ps_tasks := ps_tasks s; ps_issued := ps_issued s; ps_handed := ps_handed s |}
| task_run s t l1 l2 now hs p m ts :
    ps_tasks s = l1 ++ t :: l2 → len hs <= attempts t →
    NoDup (omap id hs) → (∀ h, h ∈ omap id hs → h ∉ ps_issued s) →
    len (ps_issued s ++ omap id hs) <= i64_MAX →
    run_pool_task t (open_connection (keep_alive (ps_pool s)) now <$> hs)
      (ps_pool s) (ps_metrics s) = (p, m, ts) →
    task_step s {| ps_pool := p; ps_metrics := m; ps_get := ps_get s; ps_in_flight := ps_in_flight s;
                   ps_tasks := l1 ++ ts ++ l2; ps_issued := ps_issued s ++ omap id hs;
                   ps_handed := ps_handed s |}.

Definition pool_step (s s' : PoolSys) : Prop := owner_step s s' ∨ task_step s s'.

(** Any number of steps, of all or only of the other tasks. *)
Definition pool_steps : PoolSys → PoolSys → Prop := rtc pool_step.
Definition task_steps : PoolSys → PoolSys → Prop := rtc task_step.

(** States reachable from a fresh pool. *)
Definition pool_reachable (host : string) (ka : ConnectionKeepAlive) (el : bool) (s : PoolSys) : Prop :=
  ∃ now, pool_steps (pool_sys_init host ka el now) s.

Lemma pool_steps_reachable host ka el s s' :
  pool_reachable host ka el s → pool_steps s s' → pool_reachable host ka el s'.
Proof. intros [now Hr] Hs. exists now. by etrans. Qed.

Lemma owner_steps s s' : owner_step s s' → pool_steps s s'.
Proof. intros H. apply rtc_once. by left. Qed.

Lemma task_steps_pool s s' : task_steps s s' → pool_steps s s'.
Proof. apply rtc_subrel. intros ?? H. by right. Qed.

Lemma task_steps_get s s' : task_steps s s' → ps_get s' = ps_get s.
Proof. induction 1 as [|s s1 s' Hs _ IH]; [done|]. rewrite IH. by destruct Hs. Qed.

Lemma get_connections_steps between1 between2 complete n s :
  (∀ s, task_steps s (between1 s)) → (∀ s, task_steps s (between2 s)) →
  (∀ l, map fst (complete l) ≡ₚ l) → 0 <= n <= u32_MAX →
  pool_steps s (fst (get_connections between1 between2 complete n s)).
Proof.
  intros H1 H2 Hc Hn. unfold get_connections. destruct (ps_get s) eqn:Eg; try apply rtc_refl.
  etrans; [by apply owner_steps, (owner_claim _ n)|]. etrans; [apply task_steps_pool, H1|].
  destruct (ps_get (between1 _)) as [|returned n'|] eqn:E1; try apply rtc_refl.
  etrans; [by apply owner_steps, owner_check|]. etrans; [apply task_steps_pool, H2|].
  destruct (ps_get (between2 _)) as [| |futures dropped] eqn:E2; try apply rtc_refl.
  by eapply owner_steps, owner_finish.
Qed.

(** ** Invariant *)

(** The connections in the pool's containers, and all that are held: those being checked
    and those waiting to be appended as well. *)
Definition pooled (p : QueuePool) : list HttpConnection :=
  connections p ++ recyclable_connections p ++ new_connections p.

Definition checking (g : GetStage) : list HttpConnection :=
  match g with GetChecking futures _ => futures | _ => [] end.

Definition appending (ts : list PoolTask) : list HttpConnection :=
  mjoin ((λ t, match t with TaskAppend conn => conn | _ => [] end) <$> ts).

Definition held (s : PoolSys) : list HttpConnection :=
  pooled (ps_pool s) ++ checking (ps_get s) ++ appending (ps_tasks s).

(** The connections a running [get_connections] took back and still counts as busy. *)
Definition claimed (g : GetStage) : Z :=
  match g with GetClaimed returned _ => returned | _ => 0 end.

(** How often a handle was handed out. *)
Definition uses (handed : list Z) (h : Z) : Z := len (filter (λ x, x = h) handed).

(** A pooled connection has been used [R - remaining_reuse] times, and may only be
    used again if it has a reuse left. *)
Definition conn_ok (R : Z) (handed : list Z) (c : HttpConnection) : Prop :=
  0 <= remaining_reuse c ∧ uses handed (request_handle c) + remaining_reuse c = R ∧
  (should_drop c = false → 1 <= remaining_reuse c).

(** A connection in flight: its current use is not yet subtracted. *)
Definition flight_ok (R : Z) (handed : list Z) (c : HttpConnection) : Prop :=
  1 <= remaining_reuse c ∧ uses handed (request_handle c) + remaining_reuse c = R + 1.

Record pool_inv (ka : ConnectionKeepAlive) (s : PoolSys) : Prop := {
  inv_keep_alive : keep_alive (ps_pool s) = ka;
  inv_nodup : NoDup (handles (held s ++ ps_in_flight s));
  inv_issued : ∀ c, c ∈ held s ++ ps_in_flight s → request_handle c ∈ ps_issued s;
  inv_issued_len : len (ps_issued s) <= i64_MAX;
  inv_handed : ∀ h, h ∈ ps_handed s → h ∈ ps_issued s;
  inv_held : Forall (conn_ok (initial_reuse ka) (ps_handed s)) (held s);
  inv_checking : Forall (λ c, should_drop c = false) (checking (ps_get s));
  inv_flight : Forall (flight_ok (initial_reuse ka) (ps_handed s)) (ps_in_flight s);
  inv_uses : ∀ h, uses (ps_handed s) h <= initial_reuse ka;
  inv_busy : busy_connections (ps_pool s) =
             len (ps_in_flight s) + len (recyclable_connections (ps_pool s)) + claimed (ps_get s);
  inv_claimed : 0 <= claimed (ps_get s);
  inv_busy_gauge : pm_busy (ps_metrics s) = len (ps_in_flight s);
  inv_idle_gauge : len (held s) <= pm_idle (ps_metrics s)
}.

(** ** What each operation does to the connections *)

Lemma uses_app h1 h2 h : uses (h1 ++ h2) h = uses h1 h + uses h2 h.
Proof. unfold uses. rewrite filter_app. apply len_app. Qed.

Lemma uses_nonneg handed h : 0 <= uses handed h.
Proof. apply len_nonneg. Qed.

Lemma uses_not_in handed h : h ∉ handed → uses handed h = 0.
Proof.
  intros Hn. unfold uses. induction handed as [|x l IH]; [done|].
  apply not_elem_of_cons in Hn as [Hx Hn]. rewrite filter_cons_False by done. auto.
Qed.

Lemma uses_nodup handed h : NoDup handed → h ∈ handed → uses handed h = 1.
Proof.
  intros Hnd Hin. apply list_elem_of_split in Hin as (l1 & l2 & ->).
  apply NoDup_app in Hnd as (_ & Hnd1 & Hnd). apply NoDup_cons in Hnd as [Hn2 _].
  change (h :: l2) with ([h] ++ l2). rewrite !uses_app.
  rewrite (uses_not_in l1), (uses_not_in l2); [|done|].
  - unfold uses. rewrite filter_cons_True by done. done.
  - intros Hin. eapply Hnd1; [done|left].
Qed.

Lemma NoDup_submseteq' {A} (k l : list A) : l ⊆+ k → NoDup k → NoDup l.
Proof. intros [k' ->]%submseteq_Permutation. by intros [??]%NoDup_app. Qed.

Lemma Forall_submseteq {A} (P : A → Prop) (k l : list A) : l ⊆+ k → Forall P k → Forall P l.
Proof. intros [k' ->]%submseteq_Permutation. by intros [??]%Forall_app. Qed.

Lemma take_usable_spec n queue :
  let '(futures, dropped, rest) := take_usable n queue in
  futures ++ rest ⊆+ queue ∧ Forall (λ c, should_drop c = false) futures ∧
  len futures + dropped + len rest = len queue ∧ 0 <= dropped ∧
  len futures + dropped <= Z.of_nat n.
Proof.
  revert queue. induction n as [|n IH]; intros queue; simpl.
  { split_and!; try done; unfold len; simpl; lia. }
  destruct queue as [|c queue]; [split_and!; try done; unfold len; simpl; lia|].
  specialize (IH queue). destruct (take_usable n queue) as [[f d] r].
  destruct IH as (Hs & Hf & Hl & Hd & Hn). destruct (should_drop c) eqn:Hc; rewrite ?len_cons.
  - split_and!; try done; try lia. by apply submseteq_cons.
  - split_and!; try lia; [by apply submseteq_skip|by constructor].
Qed.

Lemma filter_results_submseteq (results : list (HttpConnection * bool)) l :
  map fst results ≡ₚ l → map fst (filter (λ r, snd r = true) results) ⊆+ l.
Proof.
  intros <-. apply (fmap_submseteq fst). apply sublist_submseteq, sublist_filter.
Qed.

Lemma filter_results_len (results : list (HttpConnection * bool)) :
  len (map fst (filter (λ r, snd r = true) results)) +
  len (filter (λ r, snd r = false) results) = len results.
Proof.
  unfold len. rewrite length_map. induction results as [|[c []] results IH]; [done|..];
    rewrite !filter_cons; simpl in *; repeat case_decide; simpl in *; done || lia.
Qed.

Lemma appending_app ts1 ts2 : appending (ts1 ++ ts2) = appending ts1 ++ appending ts2.
Proof. unfold appending. by rewrite fmap_app, join_app. Qed.

Lemma appending_add_new n : appending (add_new_connection_mut n) = [].
Proof. unfold add_new_connection_mut. by case_match. Qed.

Lemma appending_append conn : appending [TaskAppend conn] = conn.
Proof. unfold appending. simpl. apply app_nil_r. Qed.

(** A sum of two counts that fits [i64] keeps its value. *)
Lemma count_sum_i64 a b : 0 <= a → 0 <= b → a + b <= i64_MAX → swrap 64 (a +usize b) = a + b.
Proof. intros Ha Hb Hs. rewrite wrap_id by lia. apply swrap_id; simpl; lia. Qed.

Lemma get_check_spec returned n p m p' m' futures dropped ts :
  get_check returned n p m = (p', m', (futures, dropped), ts) →
  keep_alive p' = keep_alive p ∧ max_connection p' = max_connection p ∧
  recyclable_connections p' = recyclable_connections p ∧ new_connections p' = [] ∧
  futures ++ connections p' ⊆+ connections p ++ new_connections p ∧
  Forall (λ c, should_drop c = false) futures ∧ len futures <= Z.max 0 n ∧ appending ts = [] ∧
  busy_connections p' = busy_connections p -usize returned ∧ pm_busy m' = pm_busy m ∧
  len futures + len (connections p') - pm_idle m' <=
    len (connections p ++ new_connections p) - pm_idle m ∧
  (elastic p = false → len (connections p ++ new_connections p) + (busy_connections p -usize returned) <= i64_MAX →
   len futures + len (connections p') <=
     Z.max 0 (max_connection p - (busy_connections p -usize returned))).
Proof.
  unfold get_check. cbn [claim_connections].
  set (busy := busy_connections p -usize returned). set (avail := connections p ++ new_connections p).
  assert (0 <= busy) as Hbusy by (by apply wrap_range). clearbody busy.
  match goal with |- context [let '(_, _) := ?e in _] => destruct e as [[conns m1] ts1] eqn:E1 end.
  assert (conns ⊆+ avail ∧ pm_busy m1 = pm_busy m ∧ appending ts1 = [] ∧
          len conns - pm_idle m1 <= len avail - pm_idle m ∧
          (elastic p = false → len avail + busy <= i64_MAX → len conns <= Z.max 0 (max_connection p - busy))) as (Hs1 & Hb1 & Ha1 & Hi1 & Hcap).
  { destruct (elastic p).
    { simplify_eq. split_and!; try done. case_match; [apply appending_add_new|done]. }
    pose proof (len_nonneg avail). pose proof (λ H, count_sum_i64 (len avail) busy ltac:(lia) Hbusy H) as Hsum.
    destruct (Z.ltb_spec 0 (swrap 64 (len avail +usize busy) - max_connection p)).
    - simplify_eq. unfold truncate in *. split; [apply submseteq_take|].
      case_match; bool_simp; simpl; rewrite len_take in *; split_and!; try done; try lia; intros _ Hle; rewrite Hsum in * by done; lia.
    - simplify_eq. split_and!; try done. intros _ Hle. rewrite Hsum in * by done. lia. }
  pose proof (take_usable_spec (Z.to_nat n) conns) as Ht.
  destruct (take_usable (Z.to_nat n) conns) as [[fs d] rest].
  destruct Ht as (Hs2 & Hf & Hl & Hd & Hle).
  intros [= <- <- <- <- <-]. simpl.
  pose proof (len_nonneg rest). split_and!; try done; try lia; [by etrans|..].
  all: try (intros He Hle'; specialize (Hcap He Hle')); lia.
Qed.

Lemma set_connection_count_spec n p m p' m' t :
  0 <= n → set_connection_count n p m = (p', m', t) →
  keep_alive p' = keep_alive p ∧ pooled p' ⊆+ pooled p ∧ appending [t] = [] ∧
  recyclable_connections p' = recyclable_connections p ∧
  busy_connections p' = busy_connections p ∧ pm_busy m' = pm_busy m ∧ pm_idle m' = pm_idle m.
Proof.
  unfold set_connection_count. intros Hn [= <- <- <-]. unfold pooled. simpl. split_and!; try done.
  apply submseteq_skips_r. case_match; [|done]. apply sublist_submseteq, sublist_drop.
Qed.

Definition fresh_conn (R : Z) (c : HttpConnection) : Prop :=
  remaining_reuse c = R ∧ should_drop c = false.

Lemma opened_spec ka now hs :
  let opened := omap id (open_connection ka now <$> hs) in
  handles opened = omap id hs ∧ Forall (fresh_conn (initial_reuse ka)) opened.
Proof.
  induction hs as [|[h|] hs [IH1 IH2]]; simpl; [done| |done].
  split; [by f_equal|]. by constructor.
Qed.

Lemma remove_new_spec n p m p' m' :
  0 <= n → remove_new n p m = (p', m') →
  keep_alive p' = keep_alive p ∧ connections p' = connections p ∧
  recyclable_connections p' = recyclable_connections p ∧ new_connections p' ⊆+ new_connections p ∧
  busy_connections p' = busy_connections p ∧ pm_busy m' = pm_busy m ∧
  len (new_connections p') - pm_idle m' = len (new_connections p) - pm_idle m.
Proof.
  intros Hn. unfold remove_new, resize_conn_container. pose proof (len_nonneg (new_connections p)).
  destruct (Z.ltb_spec (len (new_connections p)) n); intros [= <- <-]; unfold truncate; simpl;
    split_and!; try done; try (by case_match).
  - apply submseteq_nil_l.
  - case_match; bool_simp; simpl; unfold len in *; simpl; lia.
  - apply submseteq_take.
  - case_match; bool_simp; simpl; rewrite len_take; lia.
Qed.

Lemma run_pool_task_spec t opened p m p' m' ts :
  run_pool_task t opened p m = (p', m', ts) →
  keep_alive p' = keep_alive p ∧
  pooled p' ++ appending ts ⊆+ omap id opened ++ pooled p ++ appending [t] ∧
  recyclable_connections p' = recyclable_connections p ∧
  busy_connections p' = busy_connections p ∧ pm_busy m' = pm_busy m ∧
  len (pooled p') + len (appending ts) - pm_idle m' = len (pooled p) + len (appending [t]) - pm_idle m.
Proof.
  assert (Hadd : ∀ count t', appending [t'] = [] →
    (let '(p, m, conn) := add_attempts count opened p m in (p, m, [TaskAppend conn])) = (p', m', ts) →
    keep_alive p' = keep_alive p ∧
    pooled p' ++ appending ts ⊆+ omap id opened ++ pooled p ++ appending [t'] ∧
    recyclable_connections p' = recyclable_connections p ∧
    busy_connections p' = busy_connections p ∧ pm_busy m' = pm_busy m ∧
    len (pooled p') + len (appending ts) - pm_idle m' = len (pooled p) + len (appending [t']) - pm_idle m).
  { intros count t' Ht [= <- <- <-]. rewrite Ht. unfold pooled. simpl. split_and!; try done.
    - by rewrite appending_append, app_nil_r, (Permutation_app_comm (omap id opened)).
    - rewrite appending_append. unfold len. simpl. lia. }
  destruct t as [diff|count|conn]; simpl.
  - destruct (Z.ltb_spec diff 0).
    + destruct (remove_new _ _ _) as [p1 m1] eqn:E. intros [= <- <- <-].
      apply remove_new_spec in E as (? & E1 & E2 & ? & ? & ? & ?); [|lia].
      unfold pooled. rewrite E1, E2. autorewrite with overload. split_and!; try done; try lia.
      * apply submseteq_inserts_l. apply submseteq_skips_r. by do 2 apply submseteq_skips_l.
      * change (appending [TaskResize diff]) with (appending []). lia.
    + destruct (Z.ltb_spec 0 diff); [by apply Hadd|]. intros [= <- <- <-].
      split_and!; try done. by apply submseteq_inserts_l.
  - by apply Hadd.
  - intros [= <- <- <-]. rewrite appending_append. unfold pooled. simpl. split_and!; try done.
    + rewrite app_nil_r. apply submseteq_inserts_l. by rewrite <- !app_assoc.
    + autorewrite with overload. unfold len. simpl. lia.
Qed.

(** *** What each step does to the connections held *)

Lemma held_set s n : 0 <= n → held (sys_set n s) ⊆+ held s.
Proof.
  intros Hn. unfold sys_set. destruct (set_connection_count _ _ _) as [[p m] t] eqn:E.
  apply set_connection_count_spec in E as (_ & Hs & Ht & _); [|done].
  unfold held. simpl. rewrite appending_app, Ht, app_nil_r. by apply submseteq_skips_r.
Qed.

Lemma held_claim s n : ps_get s = GetIdle → held (sys_claim n s) ≡ₚ held s.
Proof. intros Hg. unfold held, pooled. simpl. rewrite Hg. simpl. solve_Permutation. Qed.

Lemma held_check s returned n : ps_get s = GetClaimed returned n → held (sys_check returned n s) ⊆+ held s.
Proof.
  intros Hg. unfold sys_check. destruct (get_check _ _ _ _) as [[[p m] [futures dropped]] ts] eqn:E.
  apply get_check_spec in E as (_ & _ & Hr & Hnew & Hs & _ & _ & Ha & _).
  unfold held. simpl. rewrite Hg, appending_app, Ha, app_nil_r. simpl.
  rewrite app_assoc. apply submseteq_skips_r. unfold pooled. rewrite Hr, Hnew, app_nil_r.
  transitivity ((futures ++ connections p) ++ recyclable_connections (ps_pool s));
    [apply Permutation_submseteq; solve_Permutation|].
  etrans; [by apply submseteq_skips_r, Hs|]. apply Permutation_submseteq. solve_Permutation.
Qed.

Lemma held_finish s futures dropped results :
  ps_get s = GetChecking futures dropped → map fst results ≡ₚ futures →
  snd (sys_finish results dropped s) ++ held (fst (sys_finish results dropped s)) ⊆+ held s.
Proof.
  intros Hg Hres. unfold sys_finish, get_finish. pose proof (filter_results_submseteq _ _ Hres) as Hv.
  set (vec := map fst (filter (λ r, snd r = true) results)) in *.
  unfold held. simpl. rewrite Hg, appending_app, appending_add_new, app_nil_r. simpl.
  unfold pooled. simpl. rewrite (Permutation_app_comm vec), <- !app_assoc, (Permutation_app_comm _ vec).
  do 3 apply submseteq_skips_l. by apply submseteq_skips_r.
Qed.

Lemma held_run s t l1 l2 now hs p m ts :
  ps_tasks s = l1 ++ t :: l2 →
  run_pool_task t (open_connection (keep_alive (ps_pool s)) now <$> hs) (ps_pool s) (ps_metrics s) = (p, m, ts) →
  held {| ps_pool := p; ps_metrics := m; ps_get := ps_get s; ps_in_flight := ps_in_flight s;
          ps_tasks := l1 ++ ts ++ l2; ps_issued := ps_issued s ++ omap id hs; ps_handed := ps_handed s |} ⊆+
  omap id (open_connection (keep_alive (ps_pool s)) now <$> hs) ++ held s.
Proof.
  intros Hts Hrun. apply run_pool_task_spec in Hrun as (_ & Hs & _).
  assert (Ht : appending (ps_tasks s) ≡ₚ appending [t] ++ appending (l1 ++ l2)).
  { rewrite Hts. change (t :: l2) with ([t] ++ l2). rewrite !appending_app. solve_Permutation. }
  unfold held. simpl. rewrite Ht.
  transitivity ((pooled p ++ appending ts) ++ checking (ps_get s) ++ appending (l1 ++ l2)).
  { rewrite !appending_app. apply Permutation_submseteq. solve_Permutation. }
  etrans; [by apply submseteq_skips_r, Hs|]. apply Permutation_submseteq. solve_Permutation.
Qed.

Lemma held_return s now c l1 l2 p m :
  return_connection now c (ps_pool s) (ps_metrics s) = (p, m) →
  held {| ps_pool := p; ps_metrics := m; ps_get := ps_get s; ps_in_flight := l1 ++ l2;
          ps_tasks := ps_tasks s; ps_issued := ps_issued s; ps_handed := ps_handed s |} ≡ₚ
  mark_returned now c :: held s.
Proof. intros [= <- <-]. unfold held, pooled. simpl. solve_Permutation. Qed.

(** ** The invariant is preserved *)

(** Steps that hand nothing out: what is held afterwards is a part of what was held and of
    some freshly opened connections. *)
Lemma pool_inv_refill ka s s' fresh :
  pool_inv ka s → 1 <= initial_reuse ka → held s' ⊆+ fresh ++ held s →
  Forall (fresh_conn (initial_reuse ka)) fresh → NoDup (handles fresh) →
  (∀ h, h ∈ handles fresh → h ∉ ps_issued s) →
  ps_issued s' = ps_issued s ++ handles fresh → len (ps_issued s') <= i64_MAX →
  ps_in_flight s' = ps_in_flight s → ps_handed s' = ps_handed s →
  keep_alive (ps_pool s') = keep_alive (ps_pool s) →
  Forall (λ c, should_drop c = false) (checking (ps_get s')) →
  busy_connections (ps_pool s') =
    len (ps_in_flight s) + len (recyclable_connections (ps_pool s')) + claimed (ps_get s') →
  0 <= claimed (ps_get s') →
  pm_busy (ps_metrics s') = pm_busy (ps_metrics s) → len (held s') <= pm_idle (ps_metrics s') →
  pool_inv ka s'.
Proof.
  intros [] HR Hsub Hfresh Hnd Hnew Hiss Hlen Hfl Hhd Hka Hchk Hbusy Hcl Hg Hidle.
  assert (Hpool : Forall (conn_ok (initial_reuse ka) (ps_handed s)) (fresh ++ held s)).
  { apply Forall_app. split; [|done]. rewrite Forall_forall in Hfresh |- *.
    intros c Hc. destruct (Hfresh c Hc) as [Hr Hd]. unfold conn_ok.
    rewrite uses_not_in; [split_and!; lia|]. intros Hin%inv_handed0.
    eapply Hnew; [|exact Hin]. by apply list_elem_of_fmap_2. }
  constructor; rewrite ?Hfl, ?Hhd, ?Hiss in *; try congruence; try done.
  - eapply (NoDup_submseteq' (handles (fresh ++ held s ++ ps_in_flight s))).
    + apply (fmap_submseteq request_handle). rewrite app_assoc. by apply submseteq_skips_r.
    + unfold handles. rewrite map_app. apply NoDup_app. split_and!; try done.
      intros h Hh Hin. apply (Hnew h Hh). apply list_elem_of_fmap_1 in Hin as (c & -> & Hc). auto.
  - intros c Hc. apply elem_of_app. apply elem_of_app in Hc as [Hc|Hc].
    + eapply elem_of_submseteq in Hc; [|exact Hsub].
      apply elem_of_app in Hc as [Hc|Hc]; [right; by apply list_elem_of_fmap_2|].
      left. apply inv_issued0, elem_of_app; auto.
    + left. apply inv_issued0, elem_of_app; auto.
  - intros h Hh. apply elem_of_app. auto.
  - by eapply Forall_submseteq.
Qed.

(** The case without new connections. *)
Lemma pool_inv_shrink ka s s' :
  pool_inv ka s → 1 <= initial_reuse ka → held s' ⊆+ held s →
  ps_issued s' = ps_issued s → ps_in_flight s' = ps_in_flight s → ps_handed s' = ps_handed s →
  keep_alive (ps_pool s') = keep_alive (ps_pool s) →
  Forall (λ c, should_drop c = false) (checking (ps_get s')) →
  busy_connections (ps_pool s') =
    len (ps_in_flight s) + len (recyclable_connections (ps_pool s')) + claimed (ps_get s') →
  0 <= claimed (ps_get s') →
  pm_busy (ps_metrics s') = pm_busy (ps_metrics s) → len (held s') <= pm_idle (ps_metrics s') →
  pool_inv ka s'.
Proof.
  intros Hinv HR Hsub Hiss. intros. eapply (pool_inv_refill ka s s' []); try done.
  - constructor.
  - set_solver.
  - by rewrite app_nil_r.
  - rewrite Hiss. apply Hinv.
Qed.

Lemma len_handles l : len (handles l) = len l.
Proof. unfold len, handles. by rewrite length_map. Qed.

Lemma len_submseteq {A} (k l : list A) : k ⊆+ l → len k <= len l.
Proof. intros H%submseteq_length. unfold len. lia. Qed.

Lemma inv_total ka s :
  pool_inv ka s → len (held s) + len (ps_in_flight s) <= i64_MAX.
Proof.
  intros []. rewrite <- len_app, <- len_handles.
  assert (handles (held s ++ ps_in_flight s) ⊆+ ps_issued s) as Hsub.
  { apply NoDup_submseteq; [done|]. intros h Hh.
    apply list_elem_of_fmap_1 in Hh as (c & -> & Hc). auto. }
  apply len_submseteq in Hsub. lia.
Qed.

Lemma inv_pooled_total ka s :
  pool_inv ka s →
  len (connections (ps_pool s) ++ new_connections (ps_pool s)) + len (recyclable_connections (ps_pool s)) +
    len (ps_in_flight s) <= i64_MAX.
Proof.
  intros Hinv. pose proof (inv_total _ _ Hinv) as Htot. unfold held, pooled in Htot. autorewrite with overload in *.
  pose proof (len_nonneg (checking (ps_get s))). pose proof (len_nonneg (appending (ps_tasks s))). lia.
Qed.

(** What handing out [vec] does to the use counts. *)
Lemma uses_after_get R handed rest flight vec :
  NoDup (handles (rest ++ flight ++ vec)) →
  Forall (conn_ok R handed) (vec ++ rest) → Forall (λ c, should_drop c = false) vec →
  Forall (flight_ok R handed) flight → (∀ h, uses handed h <= R) →
  Forall (conn_ok R (handed ++ handles vec)) rest ∧
  Forall (flight_ok R (handed ++ handles vec)) (flight ++ vec) ∧
  (∀ h, uses (handed ++ handles vec) h <= R).
Proof.
  intros Hnd [Hvec Hrest]%Forall_app Hdrop Hfl Huses.
  rewrite app_assoc in Hnd. unfold handles in Hnd. rewrite map_app in Hnd.
  apply NoDup_app in Hnd as (_ & Hdisj & Hndv). fold (handles vec) in Hndv, Hdisj.
  assert (Hsame : ∀ c, c ∈ rest ++ flight →
    uses (handed ++ handles vec) (request_handle c) = uses handed (request_handle c)).
  { intros c Hin. rewrite uses_app, (uses_not_in (handles vec)); [lia|].
    apply Hdisj. by apply list_elem_of_fmap_2. }
  assert (Hvec' : Forall (flight_ok R (handed ++ handles vec)) vec).
  { rewrite Forall_forall in Hvec, Hdrop |- *. intros c Hin.
    destruct (Hvec c Hin) as (? & ? & Hd). specialize (Hd (Hdrop c Hin)). unfold flight_ok.
    rewrite uses_app, (uses_nodup (handles vec)); [lia|done|by apply list_elem_of_fmap_2]. }
  rewrite Forall_app. split_and!; try done.
  - rewrite Forall_forall in Hrest |- *. intros c Hin. unfold conn_ok.
    rewrite Hsame; [by apply Hrest|]. apply elem_of_app. auto.
  - rewrite Forall_forall in Hfl |- *. intros c Hin. unfold flight_ok.
    rewrite Hsame; [by apply Hfl|]. apply elem_of_app. auto.
  - intros h. destruct (decide (h ∈ handles vec)) as [Hin|Hout].
    + apply list_elem_of_fmap_1 in Hin as (c & -> & Hin). rewrite Forall_forall in Hvec'.
      destruct (Hvec' c Hin). lia.
    + rewrite uses_app, (uses_not_in _ _ Hout). specialize (Huses h). lia.
Qed.

Lemma pool_inv_finish ka s futures dropped results :
  pool_inv ka s → ps_get s = GetChecking futures dropped → map fst results ≡ₚ futures →
  pool_inv ka (fst (sys_finish results dropped s)).
Proof.
  intros Hinv Hg Hres. pose proof (inv_total _ _ Hinv) as Htot. destruct Hinv. rewrite Hg in *. simpl in *.
  unfold sys_finish, get_finish. pose proof (filter_results_submseteq _ _ Hres) as Hv.
  set (vec := map fst (filter (λ r, snd r = true) results)) in *.
  match goal with |- pool_inv _ ?x => set (s' := x) end. assert (Hheld : vec ++ held s' ⊆+ held s)
    by exact (held_finish s futures dropped results Hg Hres).
  assert (Hsub : held s' ++ ps_in_flight s ++ vec ⊆+ held s ++ ps_in_flight s).
  { rewrite (Permutation_app_comm (ps_in_flight s) vec), app_assoc, (Permutation_app_comm (held s')).
    by apply submseteq_skips_r. }
  assert (Hnd : NoDup (handles (held s' ++ ps_in_flight s ++ vec))).
  { eapply NoDup_submseteq'; [|exact inv_nodup0]. by apply (fmap_submseteq request_handle). }
  destruct (uses_after_get (initial_reuse ka) (ps_handed s) (held s') (ps_in_flight s) vec)
    as (Hp & Hf & Hu); try done; [by eapply Forall_submseteq| |].
  { apply Forall_forall. intros c Hin. rewrite Forall_forall in inv_checking0. apply inv_checking0.
    by eapply elem_of_submseteq. }
  pose proof (len_submseteq _ _ Hheld) as Hl. rewrite len_app in Hl. pose proof (len_nonneg vec).
  assert (len (recyclable_connections (ps_pool s)) + len futures <= len (held s)).
  { unfold held, pooled. rewrite Hg. autorewrite with overload. simpl.
    pose proof (len_nonneg (connections (ps_pool s))). pose proof (len_nonneg (new_connections (ps_pool s))).
    pose proof (len_nonneg (appending (ps_tasks s))). lia. }
  pose proof (len_submseteq _ _ Hv). pose proof (len_nonneg (ps_in_flight s)).
  pose proof (len_nonneg (recyclable_connections (ps_pool s))).
  constructor; simpl; try done.
  - intros c Hin. apply inv_issued0. by eapply elem_of_submseteq.
  - intros h [Hin|Hin]%elem_of_app; [auto|]. apply list_elem_of_fmap_1 in Hin as (c & -> & Hin).
    apply inv_issued0. eapply elem_of_submseteq; [|exact Hsub]. rewrite !elem_of_app. auto.
  - rewrite inv_busy0, len_app, wrap_id; simpl; lia.
  - rewrite len_app. lia.
  - lia.
Qed.

Lemma initial_reuse_range ka :
  1 <= ka_max_request_per_connection ka →
  1 <= initial_reuse ka <= i32_MAX ∧ initial_reuse ka <= ka_max_request_per_connection ka.
Proof. intros. unfold initial_reuse. case_match; bool_simp; lia. Qed.

Lemma mark_returned_ok R handed now c :
  R <= i32_MAX → flight_ok R handed c → conn_ok R handed (mark_returned now c).
Proof.
  intros HR [Hr Hu]. unfold conn_ok, mark_returned. simpl.
  pose proof (uses_nonneg handed (request_handle c)).
  rewrite swrap_id by (simpl; lia). split_and!; try lia.
  case_match; [done|]. bool_simp. lia.
Qed.

Lemma pool_inv_return ka s now c l1 l2 p m :
  pool_inv ka s → initial_reuse ka <= i32_MAX →
  ps_in_flight s = l1 ++ c :: l2 →
  return_connection now c (ps_pool s) (ps_metrics s) = (p, m) →
  pool_inv ka {| ps_pool := p; ps_metrics := m; ps_get := ps_get s; ps_in_flight := l1 ++ l2;
                 ps_tasks := ps_tasks s; ps_issued := ps_issued s; ps_handed := ps_handed s |}.
Proof.
  intros [] HR Hfl [= <- <-]. rewrite Hfl in *. set (c' := mark_returned now c).
  set (s' := Build_PoolSys _ _ _ _ _ _ _).
  assert (Hp : held s' ≡ₚ c' :: held s) by (by apply held_return).
  assert (Hh : handles (held s' ++ l1 ++ l2) ≡ₚ handles (held s ++ l1 ++ c :: l2)).
  { unfold handles. rewrite Hp. simpl. change (request_handle c') with (request_handle c).
    change (request_handle c :: ?l) with (map request_handle [c] ++ l).
    rewrite <- map_app. f_equiv. simpl. by rewrite <- !Permutation_middle. }
  apply Forall_app in inv_flight0 as [Hf1 Hf2]. apply Forall_cons in Hf2 as [Hfc Hf2].
  constructor; simpl; try done.
  - by rewrite Hh.
  - intros x Hx. assert (request_handle x ∈ handles (held s ++ l1 ++ c :: l2)) as Hin.
    { rewrite <- Hh. by apply list_elem_of_fmap_2. }
    apply list_elem_of_fmap_1 in Hin as (y & -> & Hy). auto.
  - rewrite Hp. constructor; [|done]. by apply mark_returned_ok.
  - by apply Forall_app.
  - rewrite inv_busy0. autorewrite with overload. unfold len. simpl. lia.
  - rewrite inv_busy_gauge0. autorewrite with overload. lia.
  - unfold len in *. rewrite Hp. simpl. lia.
Qed.

Lemma pool_inv_set ka s n : 1 <= initial_reuse ka → pool_inv ka s → 0 <= n → pool_inv ka (sys_set n s).
Proof.
  intros HR Hinv Hn. pose proof (held_set s n Hn) as Hh. unfold sys_set in *. destruct (set_connection_count _ _ _) as [[p m] t] eqn:E.
  apply set_connection_count_spec in E as (? & Hs & Ht & Hr & Hb & Hg & Hi); [|done].
  pose proof (len_submseteq _ _ Hh). pose proof Hinv as []. eapply pool_inv_shrink; try done; simpl.
  - by rewrite Hb, Hr, inv_busy0.
  - rewrite Hi. lia.
Qed.

Lemma pool_inv_claim ka s n :
  1 <= initial_reuse ka → pool_inv ka s → ps_get s = GetIdle → pool_inv ka (sys_claim n s).
Proof.
  intros HR Hinv Hg. pose proof (held_claim s n Hg) as Hh.
  pose proof Hinv as []. rewrite Hg in inv_busy0. simpl in inv_busy0.
  pose proof (len_nonneg (recyclable_connections (ps_pool s))).
  eapply pool_inv_shrink; try done; simpl; [by rewrite Hh|unfold len in *; simpl; lia|].
  unfold len in *. rewrite Hh. done.
Qed.

Lemma pool_inv_check ka s returned n :
  1 <= initial_reuse ka → pool_inv ka s → ps_get s = GetClaimed returned n →
  pool_inv ka (sys_check returned n s).
Proof.
  intros HR Hinv Hg. pose proof (inv_total _ _ Hinv) as Htot. pose proof (held_check s returned n Hg) as Hh.
  unfold sys_check in *.
  destruct (get_check _ _ _ _) as [[[p m] [futures dropped]] ts] eqn:E.
  apply get_check_spec in E as (? & _ & Hr & Hnew & Hs & Hd & _ & Ha & Hb & Hpm & Hi & _).
  set (s' := with_pool _ _ _ _ _) in *.
  assert (len (held s') - pm_idle m <= len (held s) - pm_idle (ps_metrics s)) as Hidle.
  { unfold held, pooled, s'. simpl. rewrite Hr, Hnew, Hg, appending_app, Ha.
    autorewrite with overload in *. unfold len in *. simpl. lia. }
  assert (len (recyclable_connections (ps_pool s)) <= len (held s)).
  { unfold held, pooled. autorewrite with overload.
    pose proof (len_nonneg (connections (ps_pool s))). pose proof (len_nonneg (new_connections (ps_pool s))).
    pose proof (len_nonneg (checking (ps_get s))). pose proof (len_nonneg (appending (ps_tasks s))). lia. }
  pose proof (len_nonneg (ps_in_flight s)). pose proof (len_nonneg (recyclable_connections (ps_pool s))).
  pose proof Hinv as []. rewrite Hg in inv_busy0, inv_claimed0. simpl in inv_busy0, inv_claimed0.
  eapply pool_inv_shrink; try done; simpl; try lia.
  rewrite Hb, Hr, inv_busy0, wrap_id; lia.
Qed.

Lemma pool_inv_run ka s t l1 l2 now hs p m ts :
  1 <= initial_reuse ka → pool_inv ka s → ps_tasks s = l1 ++ t :: l2 →
  NoDup (omap id hs) → (∀ h, h ∈ omap id hs → h ∉ ps_issued s) →
  len (ps_issued s ++ omap id hs) <= i64_MAX →
  run_pool_task t (open_connection (keep_alive (ps_pool s)) now <$> hs)
    (ps_pool s) (ps_metrics s) = (p, m, ts) →
  pool_inv ka {| ps_pool := p; ps_metrics := m; ps_get := ps_get s; ps_in_flight := ps_in_flight s;
                 ps_tasks := l1 ++ ts ++ l2; ps_issued := ps_issued s ++ omap id hs;
                 ps_handed := ps_handed s |}.
Proof.
  intros HR Hinv Hts Hnd Hnew Hlen Hrun. pose proof (held_run _ _ _ _ _ _ _ _ _ Hts Hrun) as Hh.
  apply run_pool_task_spec in Hrun as (? & Hs & Hr & Hb & Hg & Hi).
  pose proof (inv_keep_alive _ _ Hinv) as Hk. rewrite Hk in *.
  pose proof (opened_spec ka now hs) as [Ho1 Ho2]. rewrite <- Ho1 in *.
  set (fresh := omap id (open_connection ka now <$> hs)) in *.
  set (s' := Build_PoolSys _ _ _ _ _ _ _) in *.
  assert (Ht : appending (ps_tasks s) ≡ₚ appending [t] ++ appending (l1 ++ l2)).
  { rewrite Hts. change (t :: l2) with ([t] ++ l2). rewrite !appending_app. solve_Permutation. }
  assert (len (held s') - pm_idle m = len (held s) - pm_idle (ps_metrics s)) as Hidle.
  { unfold held, s'. simpl. autorewrite with overload. unfold len in *. rewrite Ht.
    rewrite !appending_app, !length_app in *. lia. }
  pose proof (inv_idle_gauge _ _ Hinv).
  eapply (pool_inv_refill ka s s' fresh); try done; simpl; try lia; try congruence; try apply Hinv.
  rewrite Hb, Hr. apply Hinv.
Qed.

Lemma pool_inv_step ka s s' :
  1 <= ka_max_request_per_connection ka → pool_inv ka s → pool_step s s' → pool_inv ka s'.
Proof.
  intros Hka%initial_reuse_range Hinv [Hstep|Hstep].
  - destruct Hstep as [s n Hn|s n Hg Hn|s returned n Hg|s futures dropped results Hg Hres|s n|s now].
    + apply pool_inv_set; done || lia.
    + apply pool_inv_claim; done || lia.
    + apply pool_inv_check; done || lia.
    + by eapply pool_inv_finish.
    + destruct Hinv. by constructor.
    + destruct Hinv. by constructor.
  - destruct Hstep as [s now c l1 l2 p m Hfl Hret|s t l1 l2 now hs p m ts Hts Hhs Hnd Hnew Hlen Hrun].
    + eapply pool_inv_return; try done. lia.
    + eapply pool_inv_run; try done. lia.
Qed.

Lemma pool_reachable_inv host ka el s :
  1 <= ka_max_request_per_connection ka → pool_reachable host ka el s → pool_inv ka s.
Proof.
  intros Hka [now Hs]. assert (Hinit : pool_inv ka (pool_sys_init host ka el now)).
  { apply initial_reuse_range in Hka.
    constructor; simpl; try done; try constructor; intros; set_solver || (unfold uses, len; simpl; lia). }
  induction Hs; [done|]. eauto using pool_inv_step.
Qed.

(** ** A pool that has what is asked for *)

(** Readiness checks that all succeed. *)
Definition all_ready (l : list HttpConnection) : list (HttpConnection * bool) :=
  map (λ c, (c, true)) l.

Lemma all_ready_perm l : map fst (all_ready l) ≡ₚ l.
Proof. unfold all_ready. rewrite map_map. simpl. by rewrite map_id. Qed.

Lemma all_ready_vec l : map fst (filter (λ r, snd r = true) (all_ready l)) = l.
Proof.
  unfold all_ready. induction l as [|c l IH]; [done|].
  cbn [map]. rewrite filter_cons, decide_True by done. simpl. f_equal. exact IH.
Qed.

Lemma take_usable_all n queue :
  Forall (λ c, should_drop c = false) queue → take_usable n queue = (take n queue, 0, drop n queue).
Proof.
  intros Hq. revert n. induction Hq as [|c queue Hc Hq IH]; intros [|n]; try done. simpl. by rewrite IH, Hc.
Qed.

Lemma get_check_serves returned n p m :
  let avail := connections p ++ new_connections p in
  Forall (λ c, should_drop c = false) avail → len avail + (busy_connections p -usize returned) <= i64_MAX →
  elastic p = true ∨ len avail + (busy_connections p -usize returned) <= max_connection p →
  ∃ p' m' ts, get_check returned n p m = (p', m', (take (Z.to_nat n) avail, 0), ts).
Proof.
  intros avail Hd Hi Hcap. unfold get_check. cbn [claim_connections]. fold avail.
  destruct (elastic p) eqn:Ee.
  - rewrite take_usable_all by done. by eexists _, _, _.
  - destruct Hcap as [?|Hcap]; [done|].
    rewrite count_sum_i64 by (done || apply len_nonneg || by apply wrap_range).
    destruct (Z.ltb_spec 0 (len avail + (busy_connections p -usize returned) - max_connection p)); [lia|].
    rewrite take_usable_all by done. by eexists _, _, _.
Qed.

(** What a pool in order can hand out at once: no call is running, no connection is marked
    for dropping, and it is elastic or within its size; otherwise nothing is promised. *)
Definition in_order (s : PoolSys) : Prop :=
  ps_get s = GetIdle ∧ Forall (λ c, should_drop c = false) (pooled (ps_pool s)) ∧
  (elastic (ps_pool s) = true ∨ len (pooled (ps_pool s)) + len (ps_in_flight s) <= max_connection (ps_pool s)).

#[export] Instance in_order_dec s : Decision (in_order s).
Proof.
  unfold in_order. apply and_dec; [destruct (ps_get s); [by left|by right..]|]. apply _.
Defined.

Definition supply (s : PoolSys) : Z := if decide (in_order s) then len (pooled (ps_pool s)) else 0.

(** All connections turn out to be ready, in any order. *)
Definition ready_complete (complete : list HttpConnection → list (HttpConnection * bool)) : Prop :=
  ∀ l, complete l ≡ₚ all_ready l.

Lemma ready_vec complete l :
  ready_complete complete → len (map fst (filter (λ r, snd r = true) (complete l))) = len l.
Proof.
  intros Hc. rewrite <- (all_ready_vec l) at 2. unfold len. f_equal. apply Permutation_length.
  change (map fst) with (fmap (M := list) (@fst HttpConnection bool)). by rewrite (Hc l).
Qed.

(** When nothing intervenes, a pool in order gives all that is asked for or all it has. *)
Lemma get_connections_serves ka between1 between2 complete s n :
  (∀ s, between1 s = s) → (∀ s, between2 s = s) → ready_complete complete →
  pool_inv ka s → in_order s → 0 <= n →
  len (snd (get_connections between1 between2 complete n s)) = Z.min n (len (pooled (ps_pool s))).
Proof.
  intros Hb1 Hb2 Hc Hinv (Hg & Hd & Hcap) Hn. pose proof (inv_total _ _ Hinv) as Htot. pose proof (inv_busy _ _ Hinv) as Hb.
  rewrite Hg in Hb. simpl in Hb. set (r := len (recyclable_connections (ps_pool s))) in *.
  assert (r <= len (held s)).
  { unfold held, pooled, r. autorewrite with overload. pose proof (len_nonneg (connections (ps_pool s))).
    pose proof (len_nonneg (new_connections (ps_pool s))). pose proof (len_nonneg (checking (ps_get s))).
    pose proof (len_nonneg (appending (ps_tasks s))). lia. }
  pose proof (len_nonneg (ps_in_flight s)). pose proof (len_nonneg (recyclable_connections (ps_pool s))).
  set (s1 := sys_claim n s). assert (Ep : connections (ps_pool s1) ++ new_connections (ps_pool s1) = pooled (ps_pool s)).
  { unfold s1, pooled. simpl. by rewrite <- app_assoc. }
  destruct (get_check_serves r n (ps_pool s1) (ps_metrics s1)) as (p' & m' & ts & E).
  { by rewrite Ep. }
  { rewrite Ep. simpl. rewrite Hb, wrap_id by lia. pose proof (inv_pooled_total _ _ Hinv). unfold pooled.
    autorewrite with overload in *. lia. }
  { rewrite Ep. simpl. rewrite Hb, wrap_id by lia. destruct Hcap; [by left|right]. lia. }
  assert (E1 : ps_get (sys_check r n s1) = GetChecking (take (Z.to_nat n) (pooled (ps_pool s))) 0).
  { unfold sys_check. by rewrite E, Ep. }
  unfold get_connections. rewrite Hg. fold s1. rewrite Hb1. change (ps_get s1) with (GetClaimed r n). cbn match.
  rewrite Hb2, E1. unfold sys_finish, get_finish. simpl. rewrite ready_vec by done. rewrite len_take. lia.
Qed.

(** ** Properties *)

(** C1: Whatever the order of resizing, handing out, returning and opening, no
    connection carries more requests than [max_request_per_connection] allows: a
    handle is given out at most that many times over the life of the pool. *)
Theorem connection_reuse_bounded host ka el s h :
  1 <= ka_max_request_per_connection ka → pool_reachable host ka el s →
  uses (ps_handed s) h <= initial_reuse ka ∧
  uses (ps_handed s) h <= ka_max_request_per_connection ka.
Proof.
  intros Hka Hr. pose proof (initial_reuse_range _ Hka).
  pose proof (inv_uses _ _ (pool_reachable_inv _ _ _ _ Hka Hr) h). lia.
Qed.

(** C22: In every reachable state, also between the steps of [get_connections],
    [busy_connections] counts exactly the connections in flight, those returned and not yet
    reclaimed, and those a running [get_connections] has reclaimed but not yet subtracted,
    so that its subtraction never wraps below zero; the busy gauge equals the number of
    connections in flight, the idle gauge never under-reports what the pool holds, and no
    connection is in two places at once. *)
Theorem pool_accounting host ka el s :
  1 <= ka_max_request_per_connection ka → pool_reachable host ka el s →
  busy_connections (ps_pool s) =
    len (ps_in_flight s) + len (recyclable_connections (ps_pool s)) + claimed (ps_get s) ∧
  0 <= claimed (ps_get s) <= busy_connections (ps_pool s) ∧
  pm_busy (ps_metrics s) = len (ps_in_flight s) ∧
  len (held s) <= pm_idle (ps_metrics s) ∧
  NoDup (handles (held s ++ ps_in_flight s)).
Proof.
  intros Hka Hr. destruct (pool_reachable_inv _ _ _ _ Hka Hr).
  pose proof (len_nonneg (ps_in_flight s)). pose proof (len_nonneg (recyclable_connections (ps_pool s))).
  split_and!; done || lia.
Qed.

(** C36: A non-elastic pool re-enforces its size on every request: once [get_connections] has
    claimed both containers, what is in use, queued and being checked does not exceed
    [max_connection], unless the connections in use already did; at most the requested
    number is checked, none of them marked for dropping, and whatever other tasks do
    meanwhile, only connections that were checked are handed out. *)
Theorem pool_size_enforced host ka el s returned n :
  1 <= ka_max_request_per_connection ka → pool_reachable host ka el s →
  ps_get s = GetClaimed returned n → 0 <= n → elastic (ps_pool s) = false →
  let s' := sys_check returned n s in
  let in_use := len (ps_in_flight s) + len (recyclable_connections (ps_pool s)) in
  ∃ futures dropped, ps_get s' = GetChecking futures dropped ∧
    in_use + len (connections (ps_pool s')) + len futures <= Z.max (max_connection (ps_pool s)) in_use ∧
    new_connections (ps_pool s') = [] ∧ len futures <= n ∧ Forall (λ c, should_drop c = false) futures ∧
    (∀ s'' results, map fst results ≡ₚ futures → (sys_finish results dropped s'').2 ⊆+ futures).
Proof.
  intros Hka Hr Hg Hn He s' in_use. pose proof (pool_reachable_inv _ _ _ _ Hka Hr) as Hinv.
  pose proof (inv_total _ _ Hinv) as Htot. pose proof (inv_pooled_total _ _ Hinv). destruct Hinv. subst s'. unfold sys_check.
  destruct (get_check _ _ _ _) as [[[p m] [futures dropped]] ts] eqn:E.
  apply get_check_spec in E as (_ & _ & _ & Hnew & _ & Hd & Hlen & _ & _ & _ & _ & Hcap).
  specialize (Hcap He). rewrite Hg in inv_busy0. simpl in inv_busy0.
  assert (len (recyclable_connections (ps_pool s)) <= len (held s)).
  { unfold held, pooled. autorewrite with overload. unfold len. lia. }
  pose proof (len_nonneg (ps_in_flight s)). pose proof (len_nonneg (recyclable_connections (ps_pool s))).
  rewrite inv_busy0, wrap_id in Hcap by lia. specialize (Hcap ltac:(lia)).
  exists futures, dropped. simpl. split_and!; try done; try lia.
  intros s'' results Hres. by apply filter_results_submseteq.
Qed.

(** Growing the pool asks for exactly the connections that are missing: when
    every attempt succeeds, the connections queued, opened and in use (busy) reach
    [connection_count], or stay as they were if there were more already; setting a
    size other than the current one makes an elastic pool non-elastic. *)
Theorem set_connection_count_fills n self m p m' diff opened :
  0 <= n <= u32_MAX → 0 <= busy_connections self → max_connection self < n →
  len (new_connections self) + busy_connections self + len (connections self) <= i64_MAX →
  set_connection_count n self m = (p, m', TaskResize diff) →
  len (omap id opened) = diff →
  let active q := len (new_connections q) + busy_connections q + len (connections q) in
  active (fst (resize_connection_pool diff opened p m')) = Z.max n (active p) ∧
  max_connection p = n ∧ (0 <= max_connection self → elastic p = false).
Proof.
  intros Hn Hb Hmax Hw [= <- <- Hd] Ho. rewrite (proj2 (Z.ltb_lt _ _)) in Hd by lia.
  pose proof (len_nonneg (new_connections self)).
  match type of Hd with context [len (if ?b then _ else _)] => set (conns := if b then _ else _) in * end.
  assert (len conns <= len (connections self)) by (unfold conns; case_match; [unfold len; rewrite length_drop|]; lia).
  clearbody conns. pose proof (len_nonneg conns).
  rewrite (wrap_id 64 (len (new_connections self) + _)), count_sum_i64 in Hd by lia.
  split_and!; [|done|].
  - unfold resize_connection_pool. cbn -[len Z.ltb Z.abs Z.max].
    destruct (Z.ltb_spec diff 0); [lia|].
    destruct (Z.ltb_spec 0 diff); cbn -[len]; rewrite ?len_app, ?Ho; lia.
  - intros Hm. simpl. rewrite wrap_id by lia. rewrite (proj2 (Z.eqb_neq n _)) by lia.
    by destruct (elastic self).
Qed.

(** ** A concrete run

    One connection that may carry one request: it is opened, handed out and
    returned. *)
Definition demo_ka : ConnectionKeepAlive := {| ka_ttl := 1000; ka_max_request_per_connection := 1 |}.

Definition demo_conn : HttpConnection :=
  {| request_handle := 7; should_drop := false; expire_at := 1005; remaining_reuse := 1 |}.

Definition demo_pool (conns recyclable news : list HttpConnection) (busy : Z) : QueuePool :=
  {| max_connection := 1; connections := conns; recyclable_connections := recyclable;
     new_connections := news; busy_connections := busy; host_port := "h"; elastic := false;
     keep_alive := demo_ka; last_use := 0; failed_connection := 0 |}.

Definition demo_metrics (attempt success dropped idle busy : Z) : PoolMetrics :=
  {| pm_attempt := attempt; pm_success := success; pm_broken := 0; pm_dropped := dropped;
     pm_size := 0; pm_idle := idle; pm_busy := busy |}.

(** The pool after it was sized, ... *)
Definition demo_sized : PoolSys := sys_set 1 (pool_sys_init "h" demo_ka true 0).

(** ... after opening its connection, ... *)
Definition demo_opened : PoolSys :=
  {| ps_pool := demo_pool [] [] [demo_conn] 0; ps_metrics := demo_metrics 1 1 0 1 0; ps_get := GetIdle;
     ps_in_flight := []; ps_tasks := []; ps_issued := [7]; ps_handed := [] |}.

(** ... with the connection in flight, ... *)
Definition demo_flying : PoolSys :=
  {| ps_pool := demo_pool [] [] [] 1; ps_metrics := demo_metrics 1 1 0 0 1; ps_get := GetIdle;
     ps_in_flight := [demo_conn]; ps_tasks := []; ps_issued := [7]; ps_handed := [7] |}.

(** ... after the request was answered, ... *)
Definition demo_returned : PoolSys :=
  {| ps_pool := demo_pool [] [mark_returned 10 demo_conn] [] 1;
     ps_metrics := demo_metrics 1 1 0 1 0; ps_get := GetIdle;
     ps_in_flight := []; ps_tasks := []; ps_issued := [7]; ps_handed := [7] |}.

(** ... and after the used up connection was claimed back and dropped. *)
Definition demo_dropped : PoolSys :=
  {| ps_pool := demo_pool [] [] [] 0; ps_metrics := demo_metrics 1 1 1 1 0; ps_get := GetIdle;
     ps_in_flight := []; ps_tasks := [TaskAddNew 1]; ps_issued := [7]; ps_handed := [7] |}.

Lemma demo_opened_reachable : pool_reachable "h" demo_ka true demo_opened.
Proof.
  exists 0. etrans; [by apply owner_steps, (owner_set _ 1)|]. fold demo_sized.
  eapply rtc_l; [right; refine (task_run demo_sized (TaskResize 1) [] [] 5 [Some 7] _ _ _ _ _ _ _ _ _)|].
  - done.
  - done.
  - apply NoDup_singleton.
  - simpl. set_solver.
  - done.
  - reflexivity.
  - apply rtc_once. right. simpl.
    refine (task_run _ (TaskAppend [demo_conn]) [] [] 5 [] _ _ [] _ _ _ _ _ _); try done; simpl.
    + constructor.
    + set_solver.
Qed.

(** A request for one connection, with nothing in between. *)
Definition demo_get (s : PoolSys) : PoolSys := fst (get_connections id id all_ready 1 s).

Lemma demo_get_reachable s :
  pool_reachable "h" demo_ka true s → pool_reachable "h" demo_ka true (demo_get s).
Proof.
  intros Hs. eapply pool_steps_reachable; [exact Hs|].
  apply get_connections_steps; [intros; apply rtc_refl..|apply all_ready_perm|lia].
Qed.

Lemma demo_returned_reachable : pool_reachable "h" demo_ka true demo_returned.
Proof.
  eapply (pool_steps_reachable _ _ _ demo_flying).
  - exact (demo_get_reachable _ demo_opened_reachable).
  - apply rtc_once. right. by refine (task_return demo_flying 10 demo_conn [] [] (ps_pool demo_returned)
      (ps_metrics demo_returned) _ _).
Qed.

Lemma demo_dropped_reachable : pool_reachable "h" demo_ka true demo_dropped.
Proof. exact (demo_get_reachable _ demo_returned_reachable). Qed.

(** The idle gauge over-reports: dropping a used up connection does not lower
    it, so it still counts one idle connection in a reachable state whose pool is
    empty and has nothing in flight. *)
Theorem idle_gauge_over_reports :
  ∃ s, pool_reachable "h" demo_ka true s ∧ ps_in_flight s = [] ∧
       pooled (ps_pool s) = [] ∧ pm_idle (ps_metrics s) = 1.
Proof. exists demo_dropped. split; [exact demo_dropped_reachable|done]. Qed.

Lemma connection_reuse_bounded_witness :
  uses (ps_handed demo_returned) 7 = 1 ∧ uses (ps_handed demo_returned) 7 <= initial_reuse demo_ka.
Proof.
  split; [reflexivity|].
  apply (connection_reuse_bounded "h" demo_ka true demo_returned 7);
    [simpl; lia|exact demo_returned_reachable].
Defined.

Lemma pool_accounting_witness :
  busy_connections (ps_pool demo_returned) = 1 ∧
  NoDup (handles (held demo_returned ++ ps_in_flight demo_returned)).
Proof.
  split; [reflexivity|].
  apply (pool_accounting "h" demo_ka true demo_returned);
    [simpl; lia|exact demo_returned_reachable].
Defined.

Lemma pool_size_enforced_witness :
  ∃ futures dropped, ps_get (sys_check 0 2 (sys_claim 2 demo_opened)) = GetChecking futures dropped ∧
    len (connections (ps_pool (sys_check 0 2 (sys_claim 2 demo_opened)))) + len futures <= 1.
Proof.
  destruct (pool_size_enforced "h" demo_ka true (sys_claim 2 demo_opened) 0 2) as (f & d & H1 & H2 & _);
    [simpl; lia| |reflexivity|lia|reflexivity|exists f, d; split; [exact H1|exact H2]].
  eapply pool_steps_reachable; [exact demo_opened_reachable|].
  by apply owner_steps, owner_claim.
Defined.

Lemma set_connection_count_fills_witness :
  let p := demo_pool [] [] [] 0 in
  max_connection p = 1 ∧ len (new_connections (fst (resize_connection_pool 1 [Some demo_conn] p metrics_zero))) = 1.
Proof.
  pose proof (set_connection_count_fills 1 (pool_new "h" demo_ka true 0) metrics_zero
    (demo_pool [] [] [] 0) metrics_zero 1 [Some demo_conn]) as H.
  destruct H as (H1 & H2 & _); [lia|simpl; lia|simpl; lia|vm_compute; discriminate|reflexivity|reflexivity|].
  split; [exact H2|reflexivity].
Defined.
