(* ===== verification/PoolSpec.v ===== *)
(** * What a connection pool promises

    The pool of [Pool] seen from outside: connections that are free or lent out, each with
    the number of times it may still be lent.  Queues, locks, claims, checks, metrics and
    spawned tasks are gone.  Every step of the pool is a sequence of such operations, so
    whatever the pool does, this machine can do. *)
From Stdlib Require Import ZArith Lia.
From stdpp Require Import base list gmap strings numbers sets relations.
From S2P Require Import Prelude HttpTypes Pool.

Local Open Scope Z_scope.

(** ** The abstract pool *)

(** The free connections and those lent out, with the uses that they have left, and every
    connection there ever was. *)
Record Lease := { ls_free : gmap Z Z; ls_out : gmap Z Z; ls_known : gset Z }.

Definition lease_init : Lease := {| ls_free := ∅; ls_out := ∅; ls_known := ∅ |}.

(** [R] is the number of requests a new connection may carry. *)
Inductive lease_step (R : Z) : Lease → list Z → Lease → Prop :=
| lease_open l h :
    h ∉ ls_known l →
    lease_step R l [] {| ls_free := <[h := R]> (ls_free l); ls_out := ls_out l; ls_known := {[ h ]} ∪ ls_known l |}
| lease_take l h n :
    ls_free l !! h = Some n → 1 <= n →
    lease_step R l [h] {| ls_free := delete h (ls_free l); ls_out := <[h := n - 1]> (ls_out l); ls_known := ls_known l |}
| lease_return l h n :
    ls_out l !! h = Some n →
    lease_step R l [] {| ls_free := <[h := n]> (ls_free l); ls_out := delete h (ls_out l); ls_known := ls_known l |}
| lease_drop l h :
    is_Some (ls_free l !! h) →
    lease_step R l [] {| ls_free := delete h (ls_free l); ls_out := ls_out l; ls_known := ls_known l |}.

(** Any number of steps, with the connections that were lent, in order. *)
Inductive lease_run (R : Z) : Lease → list Z → Lease → Prop :=
| run_refl l : lease_run R l [] l
| run_step l t l1 t' l2 : lease_step R l t l1 → lease_run R l1 t' l2 → lease_run R l (t ++ t') l2.

Lemma run_once R l t l' : lease_step R l t l' → lease_run R l t l'.
Proof. intros H. rewrite <- (app_nil_r t). econstructor; [exact H|constructor]. Qed.

Lemma run_trans R l t l1 t' l2 : lease_run R l t l1 → lease_run R l1 t' l2 → lease_run R l (t ++ t') l2.
Proof. induction 1 as [|? ? ? ? ? Hs _ IH]; [done|]. intros H. rewrite <- app_assoc. econstructor; eauto. Qed.

Lemma run_silent R l l1 t l2 : lease_run R l [] l1 → lease_run R l1 t l2 → lease_run R l t l2.
Proof. intros H1 H2. exact (run_trans R l [] l1 t l2 H1 H2). Qed.

(** ** The abstract pool never lends a connection too often *)

(** What was lent so far and what may still be lent are together at most [R]. *)
Record lease_inv (R : Z) (lent : list Z) (l : Lease) : Prop := {
  li_free : ∀ h n, ls_free l !! h = Some n → uses lent h + n <= R ∧ h ∈ ls_known l ∧ ls_out l !! h = None;
  li_out : ∀ h n, ls_out l !! h = Some n → uses lent h + n <= R ∧ h ∈ ls_known l;
  li_known : ∀ h, h ∉ ls_known l → uses lent h = 0;
  li_uses : ∀ h, uses lent h <= R
}.

Lemma uses_single h x : uses [h] x = if decide (h = x) then 1 else 0.
Proof. unfold uses, len. rewrite filter_cons. by destruct (decide (h = x)). Qed.

Lemma lease_inv_step R lent l t l' : lease_inv R lent l → lease_step R l t l' → lease_inv R (lent ++ t) l'.
Proof.
  intros [Hf Ho Hk Hu] Hs. destruct Hs as [l h Hn|l h n Hh Hn|l h n Hh|l h Hh]; rewrite ?app_nil_r; constructor; simpl.
  all: try done.
  - intros x m [[<- <-]|[Hne Hx]]%lookup_insert_Some.
    + rewrite Hk by done. split_and!; [lia|set_solver|]. destruct (ls_out l !! h) eqn:E; [|done].
      destruct Hn. by eapply Ho.
    + destruct (Hf x m Hx) as (? & ? & ?). split_and!; [done|set_solver|done].
  - intros x m Hx. destruct (Ho x m Hx). split; [done|set_solver].
  - intros x Hx. apply Hk. set_solver.
  - intros x m [Hne Hx]%lookup_delete_Some. destruct (Hf x m Hx) as (? & ? & ?).
    rewrite uses_app, uses_single, decide_False by done. split_and!; [lia|done|by rewrite lookup_insert_ne].
  - intros x m [[<- <-]|[Hne Hx]]%lookup_insert_Some.
    + destruct (Hf h n Hh) as (? & ? & ?). rewrite uses_app, uses_single, decide_True by done. split; [lia|done].
    + destruct (Ho x m Hx). rewrite uses_app, uses_single, decide_False by done. split; [lia|done].
  - intros x Hx. rewrite uses_app, (Hk x Hx), uses_single, decide_False; [done|]. intros ->. by destruct (Hf x n Hh) as (_ & ? & _).
  - intros x. rewrite uses_app, uses_single. specialize (Hu x). case_decide as Hx; [|lia]. subst x.
    destruct (Hf h n Hh) as (? & _). lia.
  - intros x m [[<- <-]|[Hne Hx]]%lookup_insert_Some.
    + destruct (Ho h n Hh). split_and!; [done..|]. apply lookup_delete_eq.
    + destruct (Hf x m Hx) as (? & ? & ?). split_and!; [done..|]. by rewrite lookup_delete_ne.
  - intros x m [_ Hx]%lookup_delete_Some. by apply Ho.
  - intros x m [_ Hx]%lookup_delete_Some. by apply Hf.
Qed.

Lemma lease_run_inv R lent l t l' : lease_inv R lent l → lease_run R l t l' → lease_inv R (lent ++ t) l'.
Proof.
  intros Hi Hr. revert lent Hi. induction Hr as [|l t l1 t' l2 Hs Hr IH]; intros lent Hi; [by rewrite app_nil_r|].
  rewrite app_assoc. apply IH. by eapply lease_inv_step.
Qed.

Lemma lease_lends R t l h : 0 <= R → lease_run R lease_init t l → uses t h <= R.
Proof.
  intros HR Hr. apply (lease_run_inv R []) in Hr; [by apply Hr|].
  constructor; simpl; try (intros ? ?; by rewrite lookup_empty); intros; unfold uses, len; simpl; lia.
Qed.

(** ** How the pool implements it *)

(** A list of connections as a map to the uses that they have left. *)
Definition budget (f : HttpConnection → Z) (l : list HttpConnection) : gmap Z Z :=
  list_to_map ((λ c, (request_handle c, f c)) <$> l).

(** A connection in flight has not been charged for the request it carries. *)
Definition left_after (c : HttpConnection) : Z := remaining_reuse c - 1.

Definition lease_of (s : PoolSys) : Lease :=
  {| ls_free := budget remaining_reuse (held s); ls_out := budget left_after (ps_in_flight s);
     ls_known := list_to_set (ps_issued s) |}.

Lemma budget_cons f c l : budget f (c :: l) = <[request_handle c := f c]> (budget f l).
Proof. done. Qed.

Lemma budget_keys (f : HttpConnection → Z) (l : list HttpConnection) : ((λ c, (request_handle c, f c)) <$> l).*1 = handles l.
Proof. rewrite <- list_fmap_compose. done. Qed.

Lemma budget_perm f l k : NoDup (handles l) → l ≡ₚ k → budget f l = budget f k.
Proof.
  intros Hnd Hp. apply list_to_map_proper; [by rewrite budget_keys|]. by rewrite Hp.
Qed.

Lemma budget_not_in f l h : h ∉ handles l → budget f l !! h = None.
Proof. intros H. apply not_elem_of_list_to_map. by rewrite budget_keys. Qed.

Lemma budget_delete f c l : request_handle c ∉ handles l → delete (request_handle c) (budget f (c :: l)) = budget f l.
Proof. intros H. rewrite budget_cons. apply delete_insert_id. by apply budget_not_in. Qed.

Section Simulation.
  Context (R : Z).

(** Dropping, opening and lending a list of connections. *)
Lemma drops d l out known :
  NoDup (handles (d ++ l)) →
  lease_run R {| ls_free := budget remaining_reuse (d ++ l); ls_out := out; ls_known := known |} []
    {| ls_free := budget remaining_reuse l; ls_out := out; ls_known := known |}.
Proof.
  induction d as [|c d IH]; [constructor|]. cbn [app handles map]. intros [Hc Hnd]%NoDup_cons.
  eapply run_silent; [|by apply IH]. rewrite <- (budget_delete remaining_reuse c (d ++ l)) by done.
  apply run_once. refine (lease_drop R {| ls_free := _; ls_out := _; ls_known := _ |} (request_handle c) _).
  simpl. rewrite budget_cons, lookup_insert_eq. by eexists.
Qed.

Lemma opens fresh l out known :
  Forall (fresh_conn R) fresh → NoDup (handles fresh) → (∀ h, h ∈ handles fresh → h ∉ known) →
  lease_run R {| ls_free := budget remaining_reuse l; ls_out := out; ls_known := known |} []
    {| ls_free := budget remaining_reuse (fresh ++ l); ls_out := out; ls_known := list_to_set (handles fresh) ∪ known |}.
Proof.
  induction 1 as [|c fresh [Hc _] Hf IH]; cbn [app handles map].
  { intros _ _. rewrite list_to_set_nil, (left_id_L ∅ (∪)). constructor. }
  intros [Hn Hnd]%NoDup_cons Hk. eapply run_silent; [apply IH; [done|]|].
  { intros h Hh. apply Hk. by right. }
  rewrite budget_cons, Hc. apply run_once.
  assert (request_handle c ∉ list_to_set (handles fresh) ∪ known) as Hnk.
  { apply not_elem_of_union. split; [by rewrite elem_of_list_to_set|]. apply Hk. left. }
  rewrite list_to_set_cons, <- (assoc_L (∪)).
  exact (lease_open R {| ls_free := _; ls_out := _; ls_known := _ |} (request_handle c) Hnk).
Qed.

Lemma takes vec l flight known :
  NoDup (handles (vec ++ l)) → Forall (λ c, 1 <= remaining_reuse c) vec →
  lease_run R {| ls_free := budget remaining_reuse (vec ++ l); ls_out := budget left_after flight; ls_known := known |}
    (handles vec)
    {| ls_free := budget remaining_reuse l; ls_out := budget left_after (rev vec ++ flight); ls_known := known |}.
Proof.
  intros Hnd Hv. revert flight Hnd. induction Hv as [|c vec Hc Hv IH]; intros flight; [constructor|].
  cbn [app handles map]. intros [Hn Hnd]%NoDup_cons.
  change (request_handle c :: map request_handle vec) with ([request_handle c] ++ handles vec).
  eapply run_trans; [|cbn [rev]; rewrite <- app_assoc; by apply (IH (c :: flight))].
  rewrite <- (budget_delete remaining_reuse c (vec ++ l)), (budget_cons left_after) by done.
  apply run_once. refine (lease_take R {| ls_free := _; ls_out := _; ls_known := _ |} (request_handle c) (remaining_reuse c) _ Hc).
  simpl. by rewrite budget_cons, lookup_insert_eq.
Qed.

(** What is held afterwards is a part of what was held before. *)
Lemma shrinks l l' out known :
  NoDup (handles l) → l' ⊆+ l →
  lease_run R {| ls_free := budget remaining_reuse l; ls_out := out; ls_known := known |} []
    {| ls_free := budget remaining_reuse l'; ls_out := out; ls_known := known |}.
Proof.
  intros Hnd [d Hd]%submseteq_Permutation.
  assert (l ≡ₚ d ++ l') as Hp by (by rewrite Hd, (comm app)).
  rewrite (budget_perm remaining_reuse l (d ++ l')) by done. apply drops.
  unfold handles in *. by rewrite <- Hp.
Qed.

End Simulation.

(** *** Step by step *)

Definition simulates (R : Z) (s s' : PoolSys) : Prop :=
  ∃ t, ps_handed s' = ps_handed s ++ t ∧ lease_run R (lease_of s) t (lease_of s').

Lemma simulates_shrink R s s' :
  NoDup (handles (held s)) → held s' ⊆+ held s → ps_in_flight s' = ps_in_flight s →
  ps_issued s' = ps_issued s → ps_handed s' = ps_handed s → simulates R s s'.
Proof.
  intros Hnd Hh Hf Hi Hs. exists []. rewrite app_nil_r. split; [done|]. unfold lease_of. rewrite Hf, Hi.
  by apply shrinks.
Qed.

Lemma simulates_finish ka s futures dropped results :
  pool_inv ka s → ps_get s = GetChecking futures dropped → map fst results ≡ₚ futures →
  simulates (initial_reuse ka) s (fst (sys_finish results dropped s)).
Proof.
  intros Hinv Hg Hres. pose proof (held_finish s futures dropped results Hg Hres) as Hh.
  assert (Hv : snd (sys_finish results dropped s) ⊆+ checking (ps_get s)).
  { rewrite Hg. by apply filter_results_submseteq. }
  destruct (sys_finish results dropped s) as [s' vec] eqn:Es. simpl in *.
  assert (ps_in_flight s' = ps_in_flight s ++ vec ∧ ps_issued s' = ps_issued s ∧
          ps_handed s' = ps_handed s ++ handles vec) as (Ef & Ei & Eh).
  { unfold sys_finish in Es. destruct (get_finish _ _ _ _) as [[[p m] v] ts]. by injection Es as <- <-. }
  destruct Hinv as [_ Hnodup _ _ _ Hheld Hchk _ _ _ _ _ _].
  apply Forall_app in Hheld as [_ Hc]. apply Forall_app in Hc as [Hc _].
  assert (Hnd : NoDup (handles (held s) ++ handles (ps_in_flight s))).
  { unfold handles in *. by rewrite <- map_app. }
  apply NoDup_app in Hnd as (Hnh & Hdisj & Hnf).
  assert (Hndv : NoDup (handles (vec ++ held s'))).
  { eapply NoDup_submseteq'; [by apply (fmap_submseteq request_handle)|exact Hnh]. }
  exists (handles vec). split; [done|]. unfold lease_of. rewrite Ei, Ef.
  eapply run_silent; [apply shrinks; [exact Hnh|exact Hh]|].
  rewrite (budget_perm left_after (ps_in_flight s ++ vec) (rev vec ++ ps_in_flight s)).
  - apply takes; [done|]. apply Forall_forall. intros c Hin. eapply elem_of_submseteq in Hin; [|exact Hv].
    rewrite Forall_forall in Hc, Hchk. by apply Hc, Hchk.
  - unfold handles. rewrite map_app. fold (handles (ps_in_flight s)) (handles vec).
    apply NoDup_app. split_and!; [done| |].
    + intros h Hh1 Hh2. apply (Hdisj h); [|done]. eapply elem_of_submseteq; [exact Hh2|].
      apply (fmap_submseteq request_handle). etrans; [|exact Hh]. by apply submseteq_inserts_r.
    + unfold handles in Hndv. rewrite map_app in Hndv. by apply NoDup_app in Hndv as (H & _ & _).
  - by rewrite (Permutation_rev vec) at 1; rewrite (comm app).
Qed.

Lemma simulates_return ka s now c l1 l2 p m :
  initial_reuse ka <= i32_MAX → pool_inv ka s → ps_in_flight s = l1 ++ c :: l2 →
  return_connection now c (ps_pool s) (ps_metrics s) = (p, m) →
  simulates (initial_reuse ka) s
    {| ps_pool := p; ps_metrics := m; ps_get := ps_get s; ps_in_flight := l1 ++ l2;
       ps_tasks := ps_tasks s; ps_issued := ps_issued s; ps_handed := ps_handed s |}.
Proof.
  intros HR Hinv Hfl Hret. pose proof (held_return s now c l1 l2 p m Hret) as Hh.
  exists []. split; [by rewrite app_nil_r|]. unfold lease_of. cbn [ps_in_flight ps_issued]. rewrite Hfl.
  destruct Hinv as [_ Hnodup _ _ _ _ _ Hflight _ _ _ _ _]. rewrite Hfl in Hnodup, Hflight.
  assert (Hp : l1 ++ c :: l2 ≡ₚ c :: l1 ++ l2) by (symmetry; apply Permutation_middle).
  assert (Hnd : NoDup (handles (held s) ++ handles (c :: l1 ++ l2))).
  { unfold handles in *. rewrite <- map_app. by rewrite <- Hp. }
  apply NoDup_app in Hnd as (Hnh & Hdisj & Hnf). pose proof Hnf as Hnf'. cbn [handles map] in Hnf'.
  apply NoDup_cons in Hnf' as [Hc Hnf'].
  rewrite (budget_perm left_after _ (c :: l1 ++ l2)); [|unfold handles in *; by rewrite Hp|done].
  set (s' := Build_PoolSys _ _ _ _ _ _ _) in *.
  rewrite (budget_perm remaining_reuse (held s') (mark_returned now c :: held s)); [| |done].
  - assert (remaining_reuse (mark_returned now c) = left_after c) as E.
    { unfold mark_returned, left_after. simpl. apply Forall_app in Hflight as [_ Hf].
      apply Forall_cons_1 in Hf as [[H1 H2] _]. pose proof (uses_nonneg (ps_handed s) (request_handle c)).
      rewrite swrap_id; simpl; lia. }
    rewrite (budget_cons remaining_reuse), E, <- (budget_delete left_after c (l1 ++ l2)) by done.
    apply run_once. refine (lease_return _ {| ls_free := _; ls_out := _; ls_known := _ |} (request_handle c) (left_after c) _).
    simpl. by rewrite budget_cons, lookup_insert_eq.
  - unfold handles. rewrite Hh. cbn [map]. apply NoDup_cons. split; [|exact Hnh].
    change (request_handle (mark_returned now c)) with (request_handle c). intros Hin. apply (Hdisj _ Hin). left.
Qed.

Lemma simulates_run ka s t l1 l2 now hs p m ts :
  pool_inv ka s → ps_tasks s = l1 ++ t :: l2 → NoDup (omap id hs) → (∀ h, h ∈ omap id hs → h ∉ ps_issued s) →
  run_pool_task t (open_connection (keep_alive (ps_pool s)) now <$> hs) (ps_pool s) (ps_metrics s) = (p, m, ts) →
  simulates (initial_reuse ka) s
    {| ps_pool := p; ps_metrics := m; ps_get := ps_get s; ps_in_flight := ps_in_flight s;
       ps_tasks := l1 ++ ts ++ l2; ps_issued := ps_issued s ++ omap id hs; ps_handed := ps_handed s |}.
Proof.
  intros Hinv Hts Hnd Hnew Hrun. pose proof (held_run _ _ _ _ _ _ _ _ _ Hts Hrun) as Hh.
  rewrite (inv_keep_alive _ _ Hinv) in Hh. destruct (opened_spec ka now hs) as [Ho1 Ho2].
  set (fresh := omap id (open_connection ka now <$> hs)) in *. set (s' := Build_PoolSys _ _ _ _ _ _ _) in *.
  exists []. split; [by rewrite app_nil_r|]. unfold lease_of. cbn [ps_in_flight ps_issued s']. rewrite <- Ho1 in *.
  pose proof (inv_nodup _ _ Hinv) as Hn. pose proof (inv_issued _ _ Hinv) as Hi.
  assert (Hnf : NoDup (handles (fresh ++ held s))).
  { unfold handles in *. rewrite map_app in *. apply NoDup_app in Hn as (Hn & _). apply NoDup_app. split_and!; [done| |done].
    intros h Hh1 (c & -> & Hc)%list_elem_of_fmap_1. eapply Hnew; [exact Hh1|]. apply Hi, elem_of_app. by left. }
  eapply run_silent; [apply (opens (initial_reuse ka) fresh); [done|done|]|].
  { intros h Hh1. rewrite elem_of_list_to_set. by apply Hnew. }
  rewrite list_to_set_app_L, (comm_L (∪) (list_to_set (ps_issued s))). by apply shrinks.
Qed.

Lemma pool_step_simulated ka s s' :
  1 <= ka_max_request_per_connection ka → pool_inv ka s → pool_step s s' → simulates (initial_reuse ka) s s'.
Proof.
  intros Hka%initial_reuse_range Hinv. assert (Hnd : NoDup (handles (held s))).
  { pose proof (inv_nodup _ _ Hinv) as Hn. unfold handles in *. rewrite map_app in Hn. by apply NoDup_app in Hn as (H & _). }
  intros [Hstep|Hstep].
  - destruct Hstep as [s n Hn|s n Hg Hn|s returned n Hg|s futures dropped results Hg Hres|s n|s now].
    + apply simulates_shrink; [done|apply held_set; lia|..]; unfold sys_set; by destruct (set_connection_count _ _ _) as [[]].
    + apply simulates_shrink; [done|by rewrite held_claim|done..].
    + apply simulates_shrink; [done|by apply held_check|..]; unfold sys_check; by destruct (get_check _ _ _ _) as [[[] []]].
    + by eapply simulates_finish.
    + by apply simulates_shrink.
    + by apply simulates_shrink.
  - destruct Hstep as [s now c l1 l2 p m Hfl Hret|s t l1 l2 now hs p m ts Hts Hhs Hndh Hnew Hlen Hrun].
    + eapply simulates_return; try done. lia.
    + by eapply simulates_run.
Qed.

(** ** Properties *)

(** C3: The pool refines the abstract pool of leases: in every interleaving of its operations
    and tasks, lock by lock, a state that it reaches stands for a state that the abstract
    pool reaches while lending the same connections in the same order; each step is a
    sequence of openings, loans, returns and drops of connections that exist. *)
Theorem pool_refines_lease host ka el s :
  1 <= ka_max_request_per_connection ka → pool_reachable host ka el s →
  lease_run (initial_reuse ka) lease_init (ps_handed s) (lease_of s).
Proof.
  intros Hka [now Hs]. revert s Hs. apply (rtc_ind_r (λ s, lease_run (initial_reuse ka) lease_init (ps_handed s) (lease_of s))).
  - constructor.
  - intros s s' Hr Hstep IH. assert (pool_inv ka s) as Hinv by (eapply (pool_reachable_inv host ka el); [done|by exists now]).
    destruct (pool_step_simulated ka s s' Hka Hinv Hstep) as (t & -> & Ht). by eapply run_trans.
Qed.

(** The abstract pool lends no connection more than [R] times, so neither does the pool. *)
Theorem lease_lends_bounded R t l h : 0 <= R → lease_run R lease_init t l → uses t h <= R.
Proof. apply lease_lends. Qed.

(** ** Concrete inputs *)

Lemma pool_refines_lease_witness :
  lease_run 1 lease_init [7] (lease_of demo_flying) ∧ ls_out (lease_of demo_flying) !! 7 = Some 0.
Proof.
  split; [|reflexivity].
  apply (pool_refines_lease "h" demo_ka true demo_flying); [simpl; lia|].
  exact (demo_get_reachable demo_opened demo_opened_reachable).
Defined.
