(* ===== verification/UrlParams.v ===== *)
(** * Parameters of a URL

    [RandomDataRequest::find_param_positions] and [substitute_param_with_data] of
    [overload-http/src/request_specs.rs], with the [BinaryHeap] they go through.
    Positions are byte offsets. *)
From Stdlib Require Import ZArith Lia Ascii.
From stdpp Require Import base list gmap strings numbers sets.
From S2P Require Import Prelude Json Template HttpTypes.

Local Open Scope Z_scope.

(** ** The regex [\{[a-zA-Z0-9_-]+}] *)

Definition name_char (a : ascii) : bool :=
  let n := nat_of_ascii a in
  ((97 <=? n) && (n <=? 122))%nat || ((65 <=? n) && (n <=? 90))%nat ||
  ((48 <=? n) && (n <=? 57))%nat || Ascii.eqb a "_" || Ascii.eqb a "-".

(** The longest prefix of name characters, and the rest. *)
Fixpoint span_name (s : string) : string * string :=
  match s with
  | EmptyString => (EmptyString, EmptyString)
  | String a s' => if name_char a then let '(n, r) := span_name s' in (String a n, r)
                   else (EmptyString, s)
  end.

(** The name of a match at the head of [s], and what follows it. *)
Definition param_at (s : string) : option (string * string) :=
  match s with
  | String "{" s' => match span_name s' with
                     | (String a n, String "}" r) => Some (String a n, r)
                     | _ => None
                     end
  | _ => None
  end.

Definition slen (s : string) : Z := Z.of_nat (String.length s).

(** [re.find_iter(url)]: successive matches, none overlapping; [pos] is the offset of
    [s] in the url, [fuel] its length. *)
Fixpoint find_iter (fuel : nat) (pos : Z) (s : string) : list UrlParam :=
  match fuel, s with
  | O, _ => []
  | S _, EmptyString => []
  | S fuel', String _ s' =>
      match param_at s with
      | Some (n, r) =>
          let e := pos + slen n + 2 in
          {| up_name := n; up_start := pos; up_end := e |} :: find_iter fuel' e r
      | None => find_iter fuel' (pos + 1) s'
      end
  end.

(** ** [BinaryHeap] *)

(** Whether the hole's element stays: [hole.element() <= hole.get(parent)]. *)
Definition heap_le (a b : UrlParam) : bool := up_start a <=? up_start b.

(** [sift_up(0, pos)] of the element [x] whose hole is at [pos]. *)
Fixpoint sift_up (fuel : nat) (x : UrlParam) (pos : nat) (v : list UrlParam) : list UrlParam :=
  match fuel, pos with
  | S fuel', S p' =>
      let parent := (p' / 2)%nat in
      match v !! parent with
      | Some y => if heap_le x y then <[pos := x]> v
                  else sift_up fuel' x parent (<[pos := y]> v)
      | None => v
      end
  | _, _ => <[pos := x]> v
  end.

Definition heap_push (v : list UrlParam) (x : UrlParam) : list UrlParam :=
  sift_up (S (length v)) x (length v) (v ++ [x]).

Definition find_param_positions (u : string) : list UrlParam :=
  foldl heap_push [] (find_iter (String.length u) 0 u).

(** ** Substitution *)

Definition param_value (p_val : Value) : string :=
  match as_str p_val with
  | Some s => s
  | None => match as_i64 p_val with Some t => show_signed t | None => "unknown" end
  end.

(** [url.replace_range(start..end, val)]: panics when the range is not within the url. *)
Definition replace_range (u : string) (s e : Z) (val : string) : outcome string :=
  if (s <=? e) && (e <=? slen u) then
    Val (String.substring 0 (Z.to_nat s) u +:+ val +:+
         String.substring (Z.to_nat e) (Z.to_nat (slen u - e)) u)%string
  else Panic.

(** [positions.iter()] visits the heap's vector from front to back. *)
Fixpoint substitute_param_with_data (positions : list UrlParam) (data : Value) (u : string) :
    outcome string :=
  match positions with
  | [] => Val u
  | p :: positions' =>
      u ← match value_get (up_name p) data with
          | Some p_val => replace_range u (up_start p) (up_end p) (param_value p_val)
          | None => Val u
          end;
      substitute_param_with_data positions' data u
  end.

(** ** Reference: substitute while reading the url *)

Fixpoint substitute_ref (fuel : nat) (data : Value) (s : string) : string :=
  match fuel, s with
  | S fuel', String a s' =>
      match param_at s with
      | Some (n, r) =>
          (match value_get n data with
           | Some v => param_value v
           | None => "{" +:+ n +:+ "}"
           end +:+ substitute_ref fuel' data r)%string
      | None => String a (substitute_ref fuel' data s')
      end
  | _, _ => s
  end.

(** ** Lemmas *)

Lemma span_name_app s n r : span_name s = (n, r) → s = (n +:+ r)%string.
Proof.
  revert n r. induction s as [|a s IH]; simpl; intros n r; [by intros [= <- <-]|].
  destruct (name_char a); [|by intros [= <- <-]].
  destruct (span_name s) as [n' r']. intros [= <- <-].
  change (String a s = String a (n' +:+ r')). by rewrite (IH n' r').
Qed.

Lemma param_at_app s n r : param_at s = Some (n, r) → s = ("{" +:+ n +:+ "}" +:+ r)%string.
Proof.
  unfold param_at. destruct s as [|a s]; [done|]. intros H.
  destruct (decide (a = "{"%char)) as [->|Hne].
  - destruct (span_name s) as [n' r'] eqn:E. apply span_name_app in E as ->.
    destruct n' as [|b n']; [done|]. destruct r' as [|c r']; [done|].
    destruct (decide (c = "}"%char)) as [->|Hc].
    + by injection H as <- <-.
    + exfalso. destruct c as [[] [] [] [] [] [] [] []]; done.
  - exfalso. destruct a as [[] [] [] [] [] [] [] []]; done.
Qed.

Lemma slen_app s t : slen (s +:+ t)%string = slen s + slen t.
Proof. unfold slen. rewrite length_append. lia. Qed.

Lemma substring_suffix s t :
  String.substring (String.length s) (String.length t) (s +:+ t) = t.
Proof. induction s as [|a s IH]; simpl; [apply substring_all|]. exact IH. Qed.

(** Replacing the middle part of a string. *)
Lemma replace_range_middle p m r val :
  replace_range (p +:+ m +:+ r) (slen p) (slen p + slen m) val = Val (p +:+ val +:+ r)%string.
Proof.
  unfold replace_range. rewrite !slen_app.
  assert (0 <= slen m ∧ 0 <= slen r ∧ 0 <= slen p) by (unfold slen; lia).
  rewrite (proj2 (Z.leb_le _ _)) by lia. rewrite (proj2 (Z.leb_le _ _)) by lia. simpl.
  f_equal. f_equal.
  - unfold slen. rewrite Nat2Z.id. apply substring_prefix.
  - f_equal. replace (slen p + (slen m + slen r) - (slen p + slen m)) with (slen r) by lia.
    replace (Z.to_nat (slen p + slen m)) with (String.length (p +:+ m)%string).
    + rewrite <- append_assoc'. unfold slen. rewrite Nat2Z.id. apply substring_suffix.
    + pose proof (slen_app p m) as H'. unfold slen in *. lia.
Qed.

Lemma substitute_app l1 l2 data u :
  substitute_param_with_data (l1 ++ l2) data u =
  u' ← substitute_param_with_data l1 data u; substitute_param_with_data l2 data u'.
Proof.
  revert u. induction l1 as [|p l1 IH]; intros u; simpl; [done|].
  destruct (value_get (up_name p) data); simpl; [|apply IH].
  destruct (replace_range _ _ _ _); simpl; [apply IH|done].
Qed.

(** From right to left, substituting the positions that were found is substituting
    while reading. *)
Lemma substitute_right_to_left fuel data p s :
  substitute_param_with_data (rev (find_iter fuel (slen p) s)) data (p +:+ s) =
  Val (p +:+ substitute_ref fuel data s)%string.
Proof.
  revert p s. induction fuel as [|fuel IH]; intros p s; [done|].
  destruct s as [|a s']; [done|]. cbn [find_iter substitute_ref].
  destruct (param_at (String a s')) as [[n r]|] eqn:E.
  - apply param_at_app in E. rewrite E. cbn [rev]. rewrite substitute_app.
    set (m := ("{" +:+ n +:+ "}")%string).
    replace (p +:+ "{" +:+ n +:+ "}" +:+ r)%string with ((p +:+ m) +:+ r)%string
      by (unfold m; by rewrite !append_assoc').
    replace (slen p + slen n + 2) with (slen (p +:+ m)).
    2: { unfold m. rewrite !slen_app. unfold slen. simpl. lia. }
    rewrite IH. cbn [mbind outcome_bind substitute_param_with_data up_name up_start up_end].
    destruct (value_get n data) as [v|].
    + rewrite slen_app, append_assoc', replace_range_middle. done.
    + by rewrite append_assoc'.
  - replace (slen p + 1) with (slen (p +:+ String a EmptyString)%string)
      by (rewrite slen_app; reflexivity).
    replace (p +:+ String a s')%string with ((p +:+ String a EmptyString) +:+ s')%string
      by (by rewrite append_assoc').
    rewrite IH. by rewrite append_assoc'.
Qed.

Lemma find_iter_ge fuel pos s : Forall (λ x, pos <= up_start x) (find_iter fuel pos s).
Proof.
  revert pos s. induction fuel as [|fuel IH]; intros pos s; [constructor|].
  destruct s as [|a s']; [constructor|]. cbn [find_iter].
  destruct (param_at (String a s')) as [[n r]|].
  - constructor; [simpl; lia|]. forall_weaken (IH (pos + slen n + 2) r). unfold slen in *. lia.
  - forall_weaken (IH (pos + 1) s').
Qed.

Lemma find_iter_ascending fuel pos s x y l :
  find_iter fuel pos s = x :: y :: l → up_start x < up_start y.
Proof.
  revert pos s. induction fuel as [|fuel IH]; intros pos s; [done|].
  destruct s as [|a s']; [done|]. cbn [find_iter].
  destruct (param_at (String a s')) as [[n r]|]; [|apply IH].
  intros [= <- Hy]. pose proof (find_iter_ge fuel (pos + slen n + 2) r) as Hge.
  rewrite Hy in Hge. apply Forall_cons_1 in Hge as [Hge _]. simpl. unfold slen in *. lia.
Qed.

(** ** Properties *)

Lemma substitute_two u data :
  (length (find_iter (String.length u) 0 u) <= 2)%nat →
  substitute_param_with_data (find_param_positions u) data u =
  Val (substitute_ref (String.length u) data u).
Proof.
  intros Hl. pose proof (substitute_right_to_left (String.length u) data EmptyString u) as H.
  change (slen EmptyString) with 0 in H.
  change (EmptyString +:+ u)%string with u in H.
  change (EmptyString +:+ substitute_ref (String.length u) data u)%string
    with (substitute_ref (String.length u) data u) in H.
  rewrite <- H. f_equal. unfold find_param_positions.
  destruct (find_iter (String.length u) 0 u) as [|x [|y [|]]] eqn:E; simpl in Hl; try lia; try done.
  apply find_iter_ascending in E. simpl. unfold heap_push. simpl. unfold heap_le.
  by destruct (Z.leb_spec (up_start y) (up_start x)); [lia|].
Qed.

(** With at most two parameters the url is substituted correctly: every [{name}] with a
    value is replaced by it, all else is kept, and nothing panics. *)
Theorem substitute_two_params u data :
  (length (find_iter (String.length u) 0 u) <= 2)%nat →
  substitute_param_with_data (find_param_positions u) data u =
  Val (substitute_ref (String.length u) data u).
Proof. apply substitute_two. Qed.

Definition three_params : Value :=
  Obj [("a"%string, Str "A"); ("b"%string, Str "BBBBB"); ("c"%string, Str "C")].

(** With three parameters the heap's vector is not in descending order, so a position
    is used after text in front of it has moved: the url is corrupted. *)
Theorem substitute_three_params_corrupts :
  substitute_param_with_data (find_param_positions "/{a}/{b}/{c}") three_params "/{a}/{b}/{c}" =
    Val "/A/{bBBBBB"%string ∧
  substitute_ref 12 three_params "/{a}/{b}/{c}" = "/A/BBBBB/C"%string.
Proof. split; vm_compute; reflexivity. Qed.

Lemma substitute_two_params_witness :
  substitute_param_with_data (find_param_positions "/{a}/x/{b}") three_params "/{a}/x/{b}" =
  Val "/A/x/BBBBB"%string.
Proof.
  rewrite (substitute_two_params "/{a}/x/{b}" three_params); [reflexivity|].
  vm_compute. lia.
Defined.
