(* ===== verification/Providers.v ===== *)
(** * Request providers

    [cluster-executor/src/request_providers.rs]: where the requests of a job come from.

    SQLite is a parameter ([SqliteDb]: opening a file and the three queries); so are the
    random numbers, the regex parser, the evaluation of templates and the printing of
    JSON.  [get_n] gets an amount of fuel for the one loop whose length depends on the
    contents of a file; [None] means that it did not finish within the fuel. *)
From Stdlib Require Import ZArith Lia Ascii.
From stdpp Require Import base list gmap strings numbers sets.
From S2P Require Import Prelude Json DataGen Template HttpTypes UrlParams.

Local Open Scope Z_scope.
Local Open Scope rust_scope.

(** Opening a database; [SELECT COUNT( * )]; the rows with [start <= ROWID < end]; the rows
    whose [ROWID] is in a list. *)
Class SqliteDb (Conn : Type) := {
  sq_connect : string → result string Conn;
  sq_count : Conn → result string Z;
  sq_range : Conn → Z → Z → result string (list HttpReq);
  sq_in : Conn → list Z → result string (list HttpReq)
}.

(** The trait [RequestProvider]. *)
Class RequestProvider (Rng T : Type) := {
  get_n : nat → Z → T → Rng → option (outcome (result string (list HttpReq) * T * Rng));
  size_hint : T → Z;
  shared : T → bool
}.

Section Providers.
  Context {Compiled Hir AST Conn Rng : Type} `{!RandomSource Hir Rng} `{!SqliteDb Conn}.
  Context (parse_regex : string → option Hir).
  Context (eval : AST → Rng → outcome (result string Value * Rng)).
  Context (order : gmap string AST → list (string * AST)).
  Context (show_json : Value → string).

(** [n] draws from [lo..=hi]. *)
Definition draws (n : nat) (lo hi : Z) (g : Rng) : outcome (list Z * Rng) :=
  gen_repeat n (fastrand_i64 (Hir := Hir) lo hi) g.

(** ** [RequestList] *)

Definition request_list_get_n (n : Z) (self : RequestList) (g : Rng) :
    outcome (result string (list HttpReq) * RequestList * Rng) :=
  if n =? 0 then Panic
  else match data self with
  | [] => Val (Err "No Data Found"%string, self, g)
  | _ =>
      '(idx, g) ← draws (Z.to_nat n) 0 (len (data self) - 1) g;
      l ← mapM (λ i, unwrap (data self !! Z.to_nat i)) idx;
      Val (Ok l, self, g)
  end.

#[export] Instance request_list_provider : RequestProvider Rng RequestList := {|
  get_n _ n self g := Some (request_list_get_n n self g);
  size_hint self := len (data self);
  shared _ := false
|}.

(** ** [RequestFile] *)

Definition sqlite_url (file_name : string) : string := "sqlite://" +:+ file_name.

Definition request_file_get_n (n : Z) (self : RequestFile Conn) (g : Rng) :
    outcome (result string (list HttpReq) * RequestFile Conn * Rng) :=
  if n =? 0 then Panic
  else
    let opened :=
      match rf_inner self with
      | Some connection => Ok (connection, self)
      | None =>
          connection ← sq_connect (sqlite_url (rf_file_name self));
          size ← sq_count connection;
          Ok (connection, {| rf_file_name := rf_file_name self; rf_inner := Some connection;
                             rf_size := wrap 64 size |})
      end in
    match opened with
    | Err e => Val (Err e, self, g)
    | Ok (connection, self) =>
        '(random_ids, g) ← draws (Z.to_nat n) 1 (rf_size self) g;
        Val (sq_in connection random_ids, self, g)
    end.

#[export] Instance request_file_provider : RequestProvider Rng (RequestFile Conn) := {|
  get_n _ n self g := Some (request_file_get_n n self g);
  size_hint self := rf_size self;
  shared _ := true
|}.

(** ** [SplitRequestFile] *)

Definition with_cursor (self : SplitRequestFile Conn) (c : Z) : SplitRequestFile Conn :=
  {| sf_file_name := sf_file_name self; sf_inner := sf_inner self; sf_size := sf_size self;
     range_start_inclusive := range_start_inclusive self;
     range_end_inclusive := range_end_inclusive self; next_read_cursor := c |}.

(** The loop: the rows read and the cursor, also when a query fails. *)
Fixpoint split_file_loop (fuel : nat) (connection : Conn) (start_incl end_incl n data_need cursor : Z)
    (request_data : list HttpReq) : option (result string (list HttpReq) * Z) :=
  if n <=? len request_data then Some (Ok request_data, cursor)
  else match fuel with
  | O => None
  | S fuel' =>
      let start := cursor in
      let e := Z.min (end_incl +usize 1) (cursor +usize data_need) in
      match sq_range connection start e with
      | Err x => Some (Err x, cursor)
      | Ok rows =>
          let data_need := Z.max (data_need -usize len rows) 0 in
          let cursor := if end_incl <? e then start_incl else e in
          split_file_loop fuel' connection start_incl end_incl n data_need cursor (request_data ++ rows)
      end
  end.

(** Opening the file on first use: the connection, and the fields that are set even when
    the file turns out to be empty. *)
Definition split_file_open (self : SplitRequestFile Conn) :
    result string Conn * SplitRequestFile Conn :=
  match sf_inner self with
  | Some connection => (Ok connection, self)
  | None =>
      match (connection ← sq_connect (sqlite_url (sf_file_name self));
             size ← sq_count connection; Ok (connection, wrap 64 size)) with
      | Err e => (Err e, self)
      | Ok (connection, size) =>
          if size <? 1 then
            (Err "Empty request file"%string,
             {| sf_file_name := sf_file_name self; sf_inner := None; sf_size := size;
                range_start_inclusive := range_start_inclusive self;
                range_end_inclusive := range_end_inclusive self;
                next_read_cursor := next_read_cursor self |})
          else
            let s := if range_start_inclusive self =? 0 then 1 else range_start_inclusive self in
            let e := if range_end_inclusive self =? 0 then size else range_end_inclusive self in
            (Ok connection,
             {| sf_file_name := sf_file_name self; sf_inner := Some connection; sf_size := size;
                range_start_inclusive := s; range_end_inclusive := e; next_read_cursor := s |})
      end
  end.

Definition split_file_get_n (fuel : nat) (n : Z) (self : SplitRequestFile Conn) (g : Rng) :
    option (outcome (result string (list HttpReq) * SplitRequestFile Conn * Rng)) :=
  if n =? 0 then Some Panic
  else match split_file_open self with
  | (Err e, self) => Some (Val (Err e, self, g))
  | (Ok connection, self) =>
      '(r, cursor) ← split_file_loop fuel connection (range_start_inclusive self)
                       (range_end_inclusive self) n n (next_read_cursor self) [];
      Some (Val (r, with_cursor self cursor, g))
  end.

#[export] Instance split_file_provider : RequestProvider Rng (SplitRequestFile Conn) := {|
  get_n := split_file_get_n;
  size_hint self := sf_size self;
  shared _ := true
|}.

(** ** [RandomDataRequest] *)

Definition random_data_init (self : RandomDataRequest Hir) : RandomDataRequest Hir :=
  if rd_init self then self
  else {| rd_init := true; rd_method := rd_method self; rd_url := rd_url self;
          rd_url_param_pos := match rd_uri_param_schema self with
                              | Some _ => Some (find_param_positions (rd_url self))
                              | None => rd_url_param_pos self
                              end;
          rd_headers := rd_headers self; rd_body_schema := rd_body_schema self;
          rd_uri_param_schema := rd_uri_param_schema self |}.

(** One iteration of the loop. *)
Definition random_data_one (self : RandomDataRequest Hir) (g : Rng) : outcome (HttpReq * Rng) :=
  '(u, g) ← match rd_uri_param_schema self, rd_url_param_pos self with
            | Some schema, Some positions =>
                '(data, g) ← generate_data parse_regex schema g;
                u ← substitute_param_with_data positions data (rd_url self);
                Val (u, g)
            | _, _ => Val (rd_url self, g)
            end;
  '(b, g) ← match rd_body_schema self with
            | Some schema =>
                if String.eqb (rd_method self) "POST" then
                  '(v, g) ← generate_data parse_regex schema g; Val (Some (show_json v), g)
                else Val (None, g)
            | None => Val (None, g)
            end;
  Val (mk_http_req "" (rd_method self) u b (rd_headers self), g).

Definition random_data_get_n (n : Z) (self : RandomDataRequest Hir) (g : Rng) :
    outcome (result string (list HttpReq) * RandomDataRequest Hir * Rng) :=
  let self := random_data_init self in
  '(l, g) ← gen_repeat (Z.to_nat n) (random_data_one self) g;
  Val (Ok l, self, g).

#[export] Instance random_data_provider : RequestProvider Rng (RandomDataRequest Hir) := {|
  get_n _ n self g := Some (random_data_get_n n self g);
  size_hint _ := usize_MAX;
  shared _ := true
|}.

(** ** [JsonTemplate] *)

(** One iteration of the loop; a URL that is no string panics. *)
Definition json_template_one (self : JsonTemplate AST) (g : Rng) : outcome (HttpReq * Rng) :=
  '(u, g) ← populate_data eval (order (jt_url_template self)) (jt_url self) g;
  '(b, g) ← match jt_body self with
            | Null => Val (None, g)
            | value => '(value, g) ← populate_data eval (order (jt_body_template self)) value g;
                       Val (Some (show_json value), g)
            end;
  u ← unwrap (as_str u);
  Val (mk_http_req "" (jt_method self) u b (jt_headers self), g).

Definition json_template_get_n (n : Z) (self : JsonTemplate AST) (g : Rng) :
    outcome (result string (list HttpReq) * JsonTemplate AST * Rng) :=
  '(l, g) ← gen_repeat (Z.to_nat n) (json_template_one self) g;
  Val (Ok l, self, g).

#[export] Instance json_template_provider : RequestProvider Rng (JsonTemplate AST) := {|
  get_n _ n self g := Some (json_template_get_n n self g);
  size_hint _ := usize_MAX;
  shared _ := true
|}.

End Providers.

(** ** Reading a range in a circle *)

(** [n] elements from offset [off] on, starting over at the end. *)
Definition cyc {A} (rng : list A) (off n : nat) : list A :=
  omap (λ i, rng !! ((off + i) mod length rng)%nat) (seq 0 n).

Lemma omap_lookup_seq {A} (l : list A) off k :
  (off + k <= length l)%nat → omap (λ i, l !! (off + i)%nat) (seq 0 k) = take k (drop off l).
Proof.
  revert off. induction k as [|k IH]; intros off Hk; [done|].
  destruct (lookup_lt_is_Some_2 l off) as [x Hx]; [lia|].
  rewrite (drop_S l x off) by done. cbn [seq take]. simpl. rewrite Nat.add_0_r, Hx. f_equal.
  rewrite <- (IH (S off)) by lia. rewrite <- fmap_S_seq, omap_fmap.
  apply omap_ext_in. intros i _. by rewrite Nat.add_succ_r.
Qed.

(** The first [k] elements are read in one piece, up to the end of the range. *)
Lemma cyc_split {A} (rng : list A) off k n :
  (off + k <= length rng)%nat → (off < length rng)%nat → (k <= n)%nat →
  cyc rng off n = take k (drop off rng) ++ cyc rng ((off + k) mod length rng) (n - k).
Proof.
  intros Hk Hoff Hn. unfold cyc. replace n with (k + (n - k))%nat at 1 by lia.
  rewrite seq_app, omap_app. f_equal.
  - rewrite <- omap_lookup_seq by done. apply omap_ext_in. intros i Hi.
    apply elem_of_seq in Hi. by rewrite Nat.mod_small by lia.
  - replace (0 + k)%nat with (k + 0)%nat by lia.
    rewrite <- fmap_add_seq, omap_fmap. apply omap_ext_in. intros i _.
    by rewrite Nat.add_assoc, Nat.Div0.add_mod_idemp_l.
Qed.

Lemma length_cyc {A} (rng : list A) off n : rng ≠ [] → length (cyc rng off n) = n.
Proof.
  intros Hr. unfold cyc. assert (0 < length rng)%nat by (destruct rng; simpl; [done|lia]).
  generalize 0%nat. induction n as [|n IH]; intros j; simpl; [done|].
  destruct (lookup_lt_is_Some_2 rng ((off + j) mod length rng)) as [x Hx].
  { apply Nat.mod_upper_bound. lia. }
  rewrite Hx. simpl. by rewrite IH.
Qed.

Section SplitFile.
  Context {Conn : Type} `{!SqliteDb Conn}.

(** The file holds [rows], numbered from 1 without gaps. *)
Definition table (c : Conn) (rows : list HttpReq) : Prop :=
  sq_count c = Ok (len rows) ∧
  ∀ a b, 1 <= a <= b → sq_range c a b = Ok (take (Z.to_nat (b - a)) (drop (Z.to_nat (a - 1)) rows)).

(** The rows numbered [s] to [e]. *)
Definition range_of (rows : list HttpReq) (s e : Z) : list HttpReq :=
  take (Z.to_nat (e - s + 1)) (drop (Z.to_nat (s - 1)) rows).

Lemma length_range_of rows s e :
  1 <= s <= e → e <= len rows → length (range_of rows s e) = Z.to_nat (e - s + 1).
Proof. intros. unfold range_of, len in *. rewrite length_take, length_drop. lia. Qed.

Lemma range_of_part rows s e c k :
  1 <= s <= c → c + k <= e + 1 → 0 <= k →
  take (Z.to_nat k) (drop (Z.to_nat (c - 1)) rows) =
  take (Z.to_nat k) (drop (Z.to_nat (c - s)) (range_of rows s e)).
Proof.
  intros. unfold range_of. rewrite List.skipn_firstn_comm, drop_drop, take_take. f_equal; [lia|]. f_equal. lia.
Qed.

Lemma split_file_loop_cycles fuel conn rows s e n need cursor acc :
  table conn rows → 1 <= s <= cursor → cursor <= e → e <= len rows → e < i64_MAX → n <= i64_MAX →
  0 <= need → need + len acc = n → need <= Z.of_nat fuel →
  split_file_loop fuel conn s e n need cursor acc =
  Some (Ok (acc ++ cyc (range_of rows s e) (Z.to_nat (cursor - s)) (Z.to_nat need)),
        s + (cursor - s + need) mod (e - s + 1)).
Proof.
  intros Ht. revert need cursor acc.
  induction fuel as [|fuel IH]; intros need cursor acc Hs Hc He Hemax Hn Hneed Hacc Hfuel.
  { simpl. rewrite (proj2 (Z.leb_le _ _)) by lia. replace need with 0 by lia.
    rewrite Z.add_0_r, Z.mod_small by lia. simpl. rewrite app_nil_r. do 2 f_equal. lia. }
  cbn [split_file_loop]. destruct (Z.leb_spec n (len acc)).
  { replace need with 0 by lia.
    rewrite Z.add_0_r, Z.mod_small by lia. simpl. rewrite app_nil_r. do 2 f_equal. lia. }
  pose proof (len_nonneg acc). rewrite (wrap_id 64 (e + 1)), (wrap_id 64 (cursor + need)) by lia.
  set (en := Z.min (e + 1) (cursor + need)). set (k := en - cursor).
  assert (Hk : 1 <= k <= need ∧ cursor + k <= e + 1) by lia.
  destruct Ht as [_ Hr]. rewrite Hr by lia. fold k.
  rewrite (range_of_part rows s e cursor k) by lia.
  set (rng := range_of rows s e). assert (Hrng : length rng = Z.to_nat (e - s + 1))
    by (apply length_range_of; lia).
  set (got := take (Z.to_nat k) (drop (Z.to_nat (cursor - s)) rng)).
  assert (Hgot : len got = k).
  { unfold got, len. rewrite length_take, length_drop, Hrng. lia. }
  rewrite Hgot, (wrap_id 64 (need - k)), Z.max_l by lia.
  assert (Hcyc : cyc rng (Z.to_nat (cursor - s)) (Z.to_nat need) =
    got ++ cyc rng (Z.to_nat ((cursor - s + k) mod (e - s + 1))) (Z.to_nat (need - k))).
  { rewrite (cyc_split rng _ (Z.to_nat k)) by lia. unfold got. rewrite Hrng. do 2 f_equal; [|lia].
    rewrite <- Z2Nat.inj_add, Z2Nat.inj_mod by lia. done. }
  assert (Hcur : (if e <? en then s else en) = s + (cursor - s + k) mod (e - s + 1)).
  { destruct (Z.ltb_spec e en).
    - replace (cursor - s + k) with (e - s + 1) by lia. rewrite Z_mod_same_full. lia.
    - rewrite Z.mod_small by lia. lia. }
  pose proof (Z.mod_pos_bound (cursor - s + k) (e - s + 1) ltac:(lia)).
  rewrite Hcur, IH; rewrite ?len_app, ?Hgot; try lia.
  rewrite Hcyc, <- app_assoc.
  replace (s + (cursor - s + k) mod (e - s + 1) - s) with ((cursor - s + k) mod (e - s + 1)) by lia.
  do 3 f_equal. rewrite Z.add_mod_idemp_l by lia. f_equal. lia.
Qed.

End SplitFile.

(** ** Properties *)


Lemma draws_ok {Hir Rng} `{!RandomSource Hir Rng, !RandomSourceLaws Hir Rng} n lo hi (g : Rng) :
  lo <= hi → ∃ l g', draws (Hir := Hir) n lo hi g = Val (l, g') ∧ length l = n ∧
                     Forall (λ i, lo <= i <= hi) l.
Proof. intros H. apply gen_repeat_ok. intros g0. by apply fastrand_i64_ok. Qed.

(** A non-empty list gives [n] of its elements. *)
Lemma request_list_draws {Hir Rng} `{!RandomSource Hir Rng, !RandomSourceLaws Hir Rng}
    (n : Z) (self : RequestList) (g : Rng) :
  0 < n → data self ≠ [] → ∃ l g', request_list_get_n (Hir := Hir) n self g = Val (Ok l, self, g') ∧
     len l = n ∧ Forall (λ r, r ∈ data self) l.
Proof.
  unfold request_list_get_n.
  intros Hn Hd. destruct (Z.eqb_spec n 0); [lia|]. set (d := data self) in *. clearbody d.
  destruct d as [|x0 d0] eqn:Ed; [done|]. rewrite <- Ed. clear Hd.
  assert (1 <= len d) by (rewrite Ed, len_cons; pose proof (len_nonneg d0); lia).
  destruct (draws_ok (Hir := Hir) (Z.to_nat n) 0 (len d - 1) g) as (l & g' & -> & Hl & Hr); [lia|].
  cbn [mbind outcome_bind].
  assert (∃ rs, mapM (λ i, unwrap (d !! Z.to_nat i)) l = Val rs ∧ length rs = length l ∧
                Forall (λ r, r ∈ d) rs) as (rs & -> & Hrs & Hin).
  { clear Hl. induction Hr as [|i l Hi Hl (rs & IH1 & IH2 & IH3)]; [by exists []|].
    destruct (lookup_lt_is_Some_2 d (Z.to_nat i)) as [x Hx]; [unfold len in *; lia|].
    exists (x :: rs). cbn [mapM]. rewrite Hx, IH1. cbn. split_and!; [done|by rewrite IH2|].
    constructor; [by eapply list_elem_of_lookup_2|done]. }
  eexists rs, g'. split; [done|]. split; [unfold len; lia|done].
Qed.

(** A non-empty request list asked for [n > 0] requests returns exactly [n], every one
    of them an element of the list; an empty list is an error and [n = 0] panics. *)
Theorem request_list_get_n_spec {Hir Rng} `{!RandomSource Hir Rng, !RandomSourceLaws Hir Rng}
    (n : Z) (self : RequestList) (g : Rng) :
  (n = 0 → request_list_get_n (Hir := Hir) n self g = Panic) ∧
  (n ≠ 0 → data self = [] →
     request_list_get_n (Hir := Hir) n self g = Val (Err "No Data Found"%string, self, g)) ∧
  (0 < n → data self ≠ [] → ∃ l g', request_list_get_n (Hir := Hir) n self g = Val (Ok l, self, g') ∧
     len l = n ∧ Forall (λ r, r ∈ data self) l).
Proof.
  unfold request_list_get_n. split_and!.
  - by intros ->.
  - intros Hn ->. by destruct (Z.eqb_spec n 0).
  - apply request_list_draws.
Qed.

(** ** What the sender relies on

    Within its fuel a provider answers every demand without a panic, and a list it
    returns is not empty.  [I] is what the provider keeps between demands. *)
Class ProviderTotal {Rng T} `{!RequestProvider Rng T} (fuel : nat) (I : T → Prop) : Prop :=
  provider_total (n : Z) (self : T) (g : Rng) : 1 <= n <= u32_MAX → n <= Z.of_nat fuel → I self →
    ∃ r self' g', get_n fuel n self g = Some (Val (r, self', g')) ∧ I self' ∧ ∀ l, r = Ok l → l ≠ [].

(** A provider that never fails: every demand is answered with at least one request. *)
Class ProviderServes {Rng T} `{!RequestProvider Rng T} (fuel : nat) (I : T → Prop) : Prop :=
  provider_serves (n : Z) (self : T) (g : Rng) : 1 <= n <= u32_MAX → n <= Z.of_nat fuel → I self →
    ∃ l self' g', get_n fuel n self g = Some (Val (Ok l, self', g')) ∧ I self' ∧ l ≠ [].

Lemma serves_total {Rng T} `{!RequestProvider Rng T} fuel (I : T → Prop) :
  ProviderServes (Rng := Rng) fuel I → ProviderTotal (Rng := Rng) fuel I.
Proof.
  intros Hs n self g Hn Hf Hi. destruct (Hs n self g Hn Hf Hi) as (l & self' & g' & -> & Hi' & Hl).
  do 3 eexists. split; [done|]. split; [done|by intros ? [= <-]].
Qed.

#[export] Instance request_list_serves {Hir Rng} `{!RandomSource Hir Rng, !RandomSourceLaws Hir Rng} fuel :
  ProviderServes (Rng := Rng) (RequestProvider0 := request_list_provider (Hir := Hir)) fuel (λ self : RequestList, data self ≠ []).
Proof.
  intros n self g Hn _ Hd. cbn.
  destruct (request_list_draws (Hir := Hir) n self g) as (l & g' & -> & Hl & _); [lia|done|].
  do 3 eexists. split_and!; [done..|]. intros ->. unfold len in Hl. simpl in Hl. lia.
Qed.

#[export] Instance request_list_total {Hir Rng} `{!RandomSource Hir Rng, !RandomSourceLaws Hir Rng} fuel :
  ProviderTotal (Rng := Rng) (RequestProvider0 := request_list_provider (Hir := Hir)) fuel (λ _ : RequestList, True).
Proof.
  intros n self g Hn Hf _. cbn. destruct (data self) eqn:Ed.
  - unfold request_list_get_n. rewrite Ed. destruct (Z.eqb_spec n 0); [lia|]. eauto 10.
  - destruct (request_list_serves fuel n self g) as (l1 & self' & g' & Hg & _ & Hl); [done..|by rewrite Ed|].
    cbn in Hg. rewrite Hg. do 3 eexists. split; [done|]. split; [done|by intros ? [= <-]].
Qed.

(** A request file whose rows can be found: it is open, or opening it gives such a file. *)
Definition rows_found {Conn} `{!SqliteDb Conn} (conn : Conn) (size : Z) : Prop :=
  ∀ ids l, ids ≠ [] → Forall (λ i, 1 <= i <= size) ids → sq_in conn ids = Ok l → l ≠ [].

Definition file_ready {Conn} `{!SqliteDb Conn} (self : RequestFile Conn) : Prop :=
  match rf_inner self with
  | Some conn => 1 <= rf_size self ∧ rows_found conn (rf_size self)
  | None => ∀ conn size, sq_connect (sqlite_url (rf_file_name self)) = Ok conn → sq_count conn = Ok size →
              1 <= size <= i64_MAX ∧ rows_found conn size
  end.

#[export] Instance request_file_total {Hir Conn Rng} `{!RandomSource Hir Rng, !RandomSourceLaws Hir Rng, !SqliteDb Conn} fuel :
  ProviderTotal (Rng := Rng) (RequestProvider0 := request_file_provider (Hir := Hir)) fuel file_ready.
Proof.
  intros n self g Hn _ Hi. cbn. unfold request_file_get_n. destruct (Z.eqb_spec n 0); [lia|].
  assert (Hdraw : ∀ conn (self' : RequestFile Conn), rf_inner self' = Some conn → file_ready self' →
    ∃ r self'' g', ('(random_ids, g) ← draws (Hir := Hir) (Z.to_nat n) 1 (rf_size self') g;
       Val (sq_in conn random_ids, self', g)) = Val (r, self'', g') ∧ file_ready self'' ∧ ∀ l, r = Ok l → l ≠ []).
  { intros conn self' Hc Hr. pose proof Hr as Hr'. unfold file_ready in Hr'. rewrite Hc in Hr'. destruct Hr' as [Hs Hf].
    destruct (draws_ok (Hir := Hir) (Z.to_nat n) 1 (rf_size self') g) as (ids & g' & -> & Hl & Hids); [lia|].
    simpl. do 3 eexists. split; [done|]. split; [done|]. intros l. apply Hf; [|done]. intros ->. simpl in Hl. lia. }
  destruct (rf_inner self) as [conn|] eqn:Ei.
  - destruct (Hdraw conn self Ei Hi) as (r & self' & g' & -> & H). eauto 10.
  - pose proof Hi as Hi'. unfold file_ready in Hi'. rewrite Ei in Hi'.
    destruct (sq_connect _) as [conn|e] eqn:Ec; simpl; [|do 3 eexists; split; [done|]; split; [done|by intros]].
    destruct (sq_count conn) as [size|e] eqn:Es; simpl; [|do 3 eexists; split; [done|]; split; [done|by intros]].
    destruct (Hi' conn size eq_refl Es) as [Hs Hf].
    set (self' := {| rf_file_name := rf_file_name self; rf_inner := Some conn; rf_size := wrap 64 size |}).
    destruct (Hdraw conn self' eq_refl) as (r & self'' & g' & Hd & H).
    { unfold file_ready, self'. simpl. rewrite wrap_id by lia. split; [lia|done]. }
    exists r, self'', g'. split; [|done]. f_equal. exact Hd.
Qed.

(** A request file that is open and in which every row can be read. *)
Definition file_open {Conn} `{!SqliteDb Conn} (self : RequestFile Conn) : Prop :=
  ∃ conn, rf_inner self = Some conn ∧ 1 <= rf_size self ∧
    ∀ ids, ids ≠ [] → Forall (λ i, 1 <= i <= rf_size self) ids → ∃ l, sq_in conn ids = Ok l ∧ l ≠ [].

#[export] Instance request_file_serves {Hir Conn Rng} `{!RandomSource Hir Rng, !RandomSourceLaws Hir Rng, !SqliteDb Conn} fuel :
  ProviderServes (Rng := Rng) (RequestProvider0 := request_file_provider (Hir := Hir)) fuel file_open.
Proof.
  intros n self g Hn _ Ho. pose proof Ho as (conn & Hc & Hs & Hf). cbn. unfold request_file_get_n.
  destruct (Z.eqb_spec n 0); [lia|]. rewrite Hc.
  destruct (draws_ok (Hir := Hir) (Z.to_nat n) 1 (rf_size self) g) as (ids & g' & -> & Hl & Hids); [lia|].
  destruct (Hf ids) as (l & Hi & Hne); [intros ->; simpl in Hl; lia|done|].
  simpl. rewrite Hi. by do 3 eexists.
Qed.

(** A split file that is open on a table and whose range and cursor are inside it, or that
    is so once it is opened. *)
Definition split_open {Conn} `{!SqliteDb Conn} (self : SplitRequestFile Conn) : Prop :=
  ∃ conn rows, sf_inner self = Some conn ∧ table conn rows ∧
    1 <= range_start_inclusive self <= next_read_cursor self ∧
    next_read_cursor self <= range_end_inclusive self ∧
    range_end_inclusive self <= len rows ∧ range_end_inclusive self < i64_MAX.

Definition split_ready {Conn} `{!SqliteDb Conn} (self : SplitRequestFile Conn) : Prop :=
  split_open self ∨ sf_inner self = None ∧ ∀ conn self', split_file_open self = (Ok conn, self') → split_open self'.

Lemma split_open_get {Conn Rng} `{!SqliteDb Conn} fuel n (self : SplitRequestFile Conn) (g : Rng) conn :
  1 <= n <= u32_MAX → n <= Z.of_nat fuel → split_open self → sf_inner self = Some conn →
  ∃ l c, split_file_loop fuel conn (range_start_inclusive self) (range_end_inclusive self) n n (next_read_cursor self) [] =
           Some (Ok l, c) ∧ split_open (with_cursor self c) ∧ l ≠ [].
Proof.
  intros Hn Hfuel (conn' & rows & Hi & Ht & Hs & Hc & He & Hmax) Hi'. rewrite Hi in Hi'. injection Hi' as ->.
  set (s := range_start_inclusive self) in *. set (e := range_end_inclusive self) in *.
  rewrite (split_file_loop_cycles _ _ rows) by (done || lia || (unfold len; simpl; lia)).
  do 2 eexists. split; [reflexivity|]. split.
  - exists conn, rows. fold s e. simpl.
    pose proof (Z.mod_pos_bound (next_read_cursor self - s + n) (e - s + 1)).
    fold s e. split_and!; done || lia.
  - intros Hl. apply (f_equal length) in Hl. simpl in Hl; rewrite length_cyc in Hl; [simpl in Hl; lia|].
    intros H. fold s e in H. pose proof (length_range_of rows s e ltac:(lia) He) as Hlen.
    rewrite H in Hlen. simpl in Hlen. lia.
Qed.

#[export] Instance split_file_serves {Conn Rng} `{!SqliteDb Conn} fuel :
  ProviderServes (Rng := Rng) fuel split_open.
Proof.
  intros n self g Hn Hfuel Ho. cbn. unfold split_file_get_n. destruct (Z.eqb_spec n 0); [lia|].
  pose proof Ho as (conn & _ & Hi & _). unfold split_file_open. rewrite Hi.
  destruct (split_open_get fuel n self g conn) as (l & c & -> & Hl & Hne); [done..|].
  cbn. by do 3 eexists.
Qed.

#[export] Instance split_file_total {Conn Rng} `{!SqliteDb Conn} fuel :
  ProviderTotal (Rng := Rng) fuel split_ready.
Proof.
  intros n self g Hn Hfuel Hr. cbn. unfold split_file_get_n. destruct (Z.eqb_spec n 0); [lia|].
  destruct (split_file_open self) as [[conn|e] self'] eqn:Eo.
  - assert (split_open self' ∧ sf_inner self' = Some conn) as [Ho Hi].
    { destruct Hr as [Ho|[Hi Ho]].
      - unfold split_file_open in Eo. destruct Ho as (c & rows & Hc & Ho). rewrite Hc in Eo. injection Eo as <- <-.
        split; [by exists c, rows|done].
      - split; [by eapply Ho|]. unfold split_file_open in Eo. rewrite Hi in Eo.
        repeat case_match; simplify_eq; done. }
    destruct (split_open_get fuel n self' g conn) as (l & c & -> & Hl & Hne); [done..|].
    cbn. do 3 eexists. split; [done|]. split; [by left|by intros ? [= <-]].
  - do 3 eexists. split; [done|]. split; [|by intros]. destruct Hr as [(c & rows & Hc & Ho)|[Hi Ho]].
    + unfold split_file_open in Eo. by rewrite Hc in Eo.
    + right. unfold split_file_open in Eo, Ho. rewrite Hi in Eo, Ho.
      destruct (sq_connect _) as [conn|e1] eqn:Ec; simpl in Eo, Ho; 
        [|by injection Eo as <- <-; unfold split_file_open; rewrite Hi, Ec].
      destruct (sq_count conn) as [size|e1] eqn:Es; simpl in Eo, Ho;
        [|by injection Eo as <- <-; unfold split_file_open; rewrite Hi, Ec; simpl; rewrite Es].
      destruct (wrap 64 size <? 1) eqn:Ew; [|done]. injection Eo as <- <-. simpl.
      split; [done|]. unfold split_file_open. simpl. rewrite Ec. simpl. rewrite Es. simpl. by rewrite Ew.
Qed.

(** A loop of [n] requests answers with [n] requests when each iteration gives one. *)
Lemma repeat_total {Rng} (one : Rng → outcome (HttpReq * Rng)) n (g : Rng) :
  1 <= n → (∀ g, ∃ r g', one g = Val (r, g')) → ∃ l g', gen_repeat (Z.to_nat n) one g = Val (l, g') ∧ l ≠ [].
Proof.
  intros Hn Hone. destruct (gen_repeat_ok (Z.to_nat n) one (λ _, True) g) as (l & g' & -> & Hl & _).
  - intros g0. destruct (Hone g0) as (r & g1 & H). eauto.
  - exists l, g'. split; [done|]. intros ->. simpl in Hl. lia.
Qed.

(** A schema that was read from JSON and for which data can be generated. *)
Definition schema_fine {Hir} (parse_regex : string → option Hir) (s : DataSchema Hir) : Prop :=
  ∃ v, wf_value v ∧ data_schema_from_value parse_regex v = Ok s ∧ supported s = true ∧ strings_sized s = true.

(** Random data with such schemas, and at most two parameters in the URL. *)
Definition random_ready {Hir} (parse_regex : string → option Hir) (self : RandomDataRequest Hir) : Prop :=
  (∀ s, rd_body_schema self = Some s → schema_fine parse_regex s) ∧
  (∀ s, rd_uri_param_schema self = Some s → schema_fine parse_regex s ∧
     (length (find_iter (String.length (rd_url self)) 0 (rd_url self)) <= 2)%nat ∧
     (rd_init self = true → ∀ positions, rd_url_param_pos self = Some positions →
        positions = find_param_positions (rd_url self))).

Lemma random_init_ready {Hir} (parse_regex : string → option Hir) (self : RandomDataRequest Hir) :
  random_ready parse_regex self →
  random_ready parse_regex (random_data_init self) ∧ rd_init (random_data_init self) = true.
Proof.
  intros Hr. pose proof Hr as [H1 H2]. unfold random_data_init. destruct (rd_init self) eqn:Ei; [by split|].
  split; [|done]. split; simpl; [done|]. intros s Hs. destruct (H2 s Hs) as (Hf & Hl & _).
  split_and!; [done..|]. intros _ positions. rewrite Hs. by intros [= <-].
Qed.

Lemma random_one_total {Hir Rng} `{!RandomSource Hir Rng, !RandomSourceLaws Hir Rng} parse_regex show_json
    (self : RandomDataRequest Hir) (g : Rng) :
  random_ready parse_regex self → rd_init self = true →
  ∃ r g', random_data_one (Hir := Hir) parse_regex show_json self g = Val (r, g').
Proof.
  intros [H1 H2] Hi. unfold random_data_one.
  assert (Hgen : ∀ s g, schema_fine parse_regex s → ∃ d g', generate_data parse_regex s g = Val (d, g')).
  { intros s g0 (v & Hv & Hs & Hsup & Hsz). destruct (generate_data_some parse_regex v s g0) as (d & g' & H); eauto. }
  assert (∃ u g1, match rd_uri_param_schema self, rd_url_param_pos self with
     | Some schema, Some positions =>
         '(data, g) ← generate_data parse_regex schema g;
         u ← substitute_param_with_data positions data (rd_url self); Val (u, g)
     | _, _ => Val (rd_url self, g)
     end = Val (u, g1)) as (u & g1 & ->).
  { destruct (rd_uri_param_schema self) as [s|] eqn:Es; [|by eexists _, _].
    destruct (rd_url_param_pos self) as [pos|] eqn:Ep; [|by eexists _, _].
    destruct (H2 s eq_refl) as (Hs & Hlen & Hpos). rewrite (Hpos Hi pos eq_refl). destruct (Hgen s g Hs) as (d & g' & ->).
    cbn [mbind outcome_bind]. rewrite substitute_two by done. by eexists _, _. }
  cbn [mbind outcome_bind]. destruct (rd_body_schema self) as [s|] eqn:Es; [|by eexists _, _].
  destruct (String.eqb _ _); [|by eexists _, _]. destruct (Hgen s g1 (H1 s eq_refl)) as (d & g' & ->). by eexists _, _.
Qed.

#[export] Instance random_data_serves {Hir Rng} `{!RandomSource Hir Rng, !RandomSourceLaws Hir Rng} parse_regex show_json fuel :
  ProviderServes (Rng := Rng) (RequestProvider0 := random_data_provider parse_regex show_json) fuel (random_ready parse_regex).
Proof.
  intros n self g Hn _ Hi. cbn. unfold random_data_get_n. destruct (random_init_ready _ _ Hi) as [Hi' Hinit].
  destruct (repeat_total (random_data_one (Hir := Hir) parse_regex show_json (random_data_init self)) n g)
    as (l & g' & -> & Hl); [lia|intros g0; by apply random_one_total|].
  by do 3 eexists.
Qed.

#[export] Instance random_data_total {Hir Rng} `{!RandomSource Hir Rng, !RandomSourceLaws Hir Rng} parse_regex show_json fuel :
  ProviderTotal (Rng := Rng) (RequestProvider0 := random_data_provider parse_regex show_json) fuel (random_ready parse_regex).
Proof. apply serves_total, random_data_serves. Qed.

Section TemplateTotal.
  Context {AST Rng : Type} (eval : AST → Rng → outcome (result string Value * Rng)).
  Context (order : gmap string AST → list (string * AST)) (show_json : Value → string).

(** A template whose URL is a string and evaluates to strings, and whose evaluations do not
    panic. *)
Definition template_ready (self : JsonTemplate AST) : Prop :=
  (∃ s, jt_url self = Str s) ∧
  (∀ p ast g, (p, ast) ∈ order (jt_url_template self) → ∃ s g', eval_result eval ast g = Val (Str s, g')) ∧
  (∀ p ast g, (p, ast) ∈ order (jt_body_template self) → eval ast g ≠ Panic).

Lemma populate_string entries s (g : Rng) :
  (∀ p ast g, (p, ast) ∈ entries → ∃ s g', eval_result eval ast g = Val (Str s, g')) →
  ∃ s' g', populate_data eval entries (Str s) g = Val (Str s', g').
Proof.
  revert s g. induction entries as [|[p ast] entries IH]; intros s g H; simpl; [by eexists _, _|].
  assert (H' : ∀ p ast g, (p, ast) ∈ entries → ∃ s g', eval_result eval ast g = Val (Str s, g'))
    by (intros p' a' g' Ha; apply (H p'); by right).
  destruct (pointer p (Str s)) eqn:Ep; [|by apply IH].
  destruct (H p ast g (list_elem_of_here _ _)) as (s' & g' & ->). simpl.
  assert (Hset : ∃ s2, pointer_set p (Str s') (Str s) = Str s2).
  { unfold pointer_set. rewrite Ep. destruct p as [|a rest]; [by eexists|]. simpl in Ep.
    destruct (Ascii.eqb a "/"); [|done]. by destruct (map unescape (split_char "/" rest)); eexists. }
  destruct Hset as [s2 ->]. by apply IH.
Qed.

Lemma template_one_total (self : JsonTemplate AST) (g : Rng) :
  template_ready self → ∃ r g', json_template_one eval order show_json self g = Val (r, g').
Proof.
  intros ([s Hs] & Hu & Hb). unfold json_template_one. rewrite Hs.
  destruct (populate_string (order (jt_url_template self)) s g Hu) as (s' & g1 & ->). cbn [mbind outcome_bind].
  destruct (populate_total eval (order (jt_body_template self)) (jt_body self) g1) as (b & g2 & Hp); [done|].
  destruct (jt_body self) eqn:Eb; rewrite ?Hp; by eexists _, _.
Qed.

#[export] Instance json_template_serves fuel :
  ProviderServes (Rng := Rng) (RequestProvider0 := json_template_provider eval order show_json) fuel template_ready.
Proof.
  intros n self g Hn _ Hi. cbn. unfold json_template_get_n.
  destruct (repeat_total (json_template_one eval order show_json self) n g) as (l & g' & -> & Hl);
    [lia|intros g0; by apply template_one_total|].
  by do 3 eexists.
Qed.

#[export] Instance json_template_total fuel :
  ProviderTotal (Rng := Rng) (RequestProvider0 := json_template_provider eval order show_json) fuel template_ready.
Proof. apply serves_total, json_template_serves. Qed.

(** A template in the URL that evaluates to something else than a string makes every demand
    panic: the URL is then no string, although it was accepted as a template. *)
Theorem number_as_url_panics (self : JsonTemplate AST) s ast v n (g g' : Rng) :
  jt_url self = Str s → order (jt_url_template self) = [(""%string, ast)] → jt_body self = Null →
  eval ast g = Val (Ok v, g') → as_str v = None → 1 <= n →
  json_template_get_n eval order show_json n self g = Panic.
Proof.
  intros Hs Ho Hb He Hv Hn. assert (json_template_one eval order show_json self g = Panic) as E.
  { unfold json_template_one. rewrite Hs, Ho, Hb. simpl. unfold eval_result. rewrite He. simpl. by destruct v. }
  unfold json_template_get_n. destruct (Z.to_nat n) as [|k] eqn:En; [lia|]. simpl. by rewrite E.
Qed.

End TemplateTotal.

(** ** Concrete inputs *)

(** A database whose connections are the rows of the file. *)
#[export] Instance rows_db : SqliteDb (list HttpReq) := {|
  sq_connect _ := Ok (replicate 5 (mk_http_req "" "GET" "/" None ∅));
  sq_count c := Ok (len c);
  sq_range c a b := Ok (take (Z.to_nat (b - a)) (drop (Z.to_nat (a - 1)) c));
  sq_in c ids := Ok (omap (λ i, c !! Z.to_nat (i - 1)) ids)
|}.

Definition demo_rows : list HttpReq :=
  (λ i, mk_http_req (show_unsigned i) "GET" "/" None ∅) <$> [1; 2; 3; 4; 5].

Definition demo_split_file : SplitRequestFile (list HttpReq) :=
  {| sf_file_name := "f"; sf_inner := Some demo_rows; sf_size := 5;
     range_start_inclusive := 2; range_end_inclusive := 4; next_read_cursor := 3 |}.


Lemma request_list_get_n_spec_witness :
  ∃ l g', request_list_get_n (Hir := unit) 2 {| data := demo_rows |} tt =
          Val (Ok l, {| data := demo_rows |}, g') ∧ len l = 2.
Proof.
  destruct (request_list_get_n_spec (Hir := unit) 2 {| data := demo_rows |} tt) as (_ & _ & H).
  destruct H as (l & g' & H1 & H2 & _); [lia|discriminate|].
  exists l, g'. split; [exact H1|exact H2].
Defined.

Lemma number_as_url_panics_witness :
  json_template_get_n (λ _ (g : unit), Val (Ok (int_value 7), g)) map_to_list (λ _, ""%string) 1
    {| jt_method := "GET"; jt_url := Str "{{randomInt(1, 9)}}"; jt_headers := ∅; jt_body := Null;
       jt_url_template := {[ ""%string := tt ]}; jt_body_template := ∅ |} tt = Panic.
Proof.
  eapply (number_as_url_panics (λ _ (g : unit), Val (Ok (int_value 7), g)) map_to_list (λ _, ""%string) _
    "{{randomInt(1, 9)}}" tt (int_value 7) 1 tt tt); try reflexivity.
Defined.
