(* ===== verification/Jobs.v ===== *)
(** * Jobs: status bookkeeping and the handlers of the HTTP interface

    The job table of [cluster-executor/src/lib.rs], the checks and job ids of
    [overload/src/overload/lib.rs], and the handlers of [overload/src/overload/standalone.rs];
    the handlers of a cluster are in [Api].

    [JOB_STATUS] is a [BTreeMap]: an association list in ascending order of ids.  A
    handler returns the requests it spawned an executor for.  New UUIDs and the file
    system are arguments. *)
From Stdlib Require Import ZArith Lia Ascii.
From stdpp Require Import base list gmap strings numbers sets relations.
From S2P Require Import Prelude RateSpec Json Assert DataGen Template HttpTypes.

Local Open Scope Z_scope.

(** ** Job status *)

Inductive ErrorCode :=
| InactiveCluster
| NoSecondary
| SqliteOpenFailed
| PreparationFailed
| SecondaryClusterNode
| RequestFileNotFound
| LuaParseFailure
| BodyGenerationFailure
| UriParamGenerationFailure
| Others.

Inductive JobStatus :=
| Starting
| InProgress
| Stopped
| Completed
| Failed
| JobError (e : ErrorCode).

#[export] Instance ErrorCode_eq_dec : EqDecision ErrorCode.
Proof. solve_decision. Defined.
#[export] Instance JobStatus_eq_dec : EqDecision JobStatus.
Proof. solve_decision. Defined.

Definition JobMap : Type := list (string * JobStatus).

(** [job_id.starts_with(prefix)] *)
Definition starts_with (prefix s : string) : bool := String.prefix prefix s.

(** [JOB_STATUS.write().insert(job_id, status)] *)
Definition set_status (job_id : string) (status : JobStatus) (m : JobMap) : JobMap :=
  obj_insert job_id status m.

(** [stop_request_by_job_id]: the jobs with their previous status, and the new table. *)
Definition stop_request_by_job_id (job_id : string) (m : JobMap) :
    list (string * option JobStatus) * JobMap :=
  (omap (λ kv, if starts_with job_id kv.1 then Some (kv.1, Some kv.2) else None) m,
   map (λ kv, if starts_with job_id kv.1 then (kv.1, Stopped) else kv) m).

Definition get_status_by_job_id (job_id : string) (m : JobMap) : gmap string JobStatus :=
  list_to_map (filter (λ kv, starts_with job_id kv.1 = true) m).

Definition get_status_all (m : JobMap) : JobMap := m.

(** [cleanup_job]: the ids are collected under a read lock, then removed under a write lock;
    [meanwhile] is what other tasks do to the table in between. *)
Definition cleanup_indices (predicate : JobStatus → bool) (m : JobMap) : list string :=
  map fst (filter (λ kv, predicate kv.2 = true) m).

Definition cleanup_remove (indices : list string) (m : JobMap) : JobMap :=
  filter (λ kv, kv.1 ∉ indices) m.

Definition cleanup_job (meanwhile : JobMap → JobMap) (predicate : JobStatus → bool) (m : JobMap) : JobMap :=
  cleanup_remove (cleanup_indices predicate m) (meanwhile m).

(** The predicate of the clean up task that [init] runs. *)
Definition cleanup_finished (status : JobStatus) : bool :=
  match status with Failed | Stopped | Completed => true | _ => false end.

(** The loop of [get_job_status] over the jobs, [len_] their number. *)
Fixpoint job_page (len_ offset limit count : Z) (jobs : JobMap) (acc : gmap string JobStatus) :
    gmap string JobStatus :=
  match jobs with
  | [] => acc
  | (id, status) :: jobs' =>
      if len_ <? count then acc
      else
        let count := count + 1 in
        if (offset <? count) && (limit <? count - offset) then acc
        else job_page len_ offset limit count jobs'
               (if offset <? count then <[id := status]> acc else acc)
  end.

Definition get_job_status (job_id : option string) (offset limit : Z) (m : JobMap) :
    gmap string JobStatus :=
  match job_id with
  | Some job_id => get_status_by_job_id job_id m
  | None => job_page (len m) offset limit 0 (get_status_all m) ∅
  end.

Definition handle_get_status (params : JobStatusQueryParams) (m : JobMap) : gmap string JobStatus :=
  match params with
  | JobId job_id => get_job_status (Some job_id) 0 0 m
  | PagerOptions offset limit => get_job_status None offset limit m
  end.

(** ** Stopping a job *)

Definition stop_message (status : option JobStatus) : string :=
  match status with
  | Some Starting | Some InProgress => "Job stopped"
  | Some Stopped => "Job already stopped"
  | Some Completed => "Job already completed"
  | Some Failed => "Job failed"
  | Some (JobError _) => "Invalid job status"
  | None => "Job Not Found"
  end.

Definition stop_job (job_id : string) (m : JobMap) : gmap string string * JobMap :=
  let '(r, m) := stop_request_by_job_id job_id m in
  (list_to_map (map (λ job, (job.1, stop_message job.2)) r), m).

(** ** Job ids *)

Definition hex_char (a : ascii) : bool :=
  let n := nat_of_ascii a in ((48 <=? n) && (n <=? 57))%nat || ((97 <=? n) && (n <=? 102))%nat.

(** [n] characters of the class, then the rest. *)
Fixpoint take_class (f : ascii → bool) (n : nat) (s : string) : option string :=
  match n with
  | O => Some s
  | S n' => match s with
            | String a s' => if f a then take_class f n' s' else None
            | EmptyString => None
            end
  end.

Definition expect_char (c : ascii) (s : string) : option string :=
  match s with String a s' => if Ascii.eqb a c then Some s' else None | EmptyString => None end.

(** [[0-9a-f]{8}-[0-9a-f]{4}-[0-9a-f]{4}-[0-9a-f]{4}-[0-9a-f]{12}] at the head of [s]. *)
Definition uuid_prefix (s : string) : option string :=
  s ← take_class hex_char 8 s; s ← expect_char "-" s;
  s ← take_class hex_char 4 s; s ← expect_char "-" s;
  s ← take_class hex_char 4 s; s ← expect_char "-" s;
  s ← take_class hex_char 4 s; s ← expect_char "-" s;
  take_class hex_char 12 s.

(** [(_[0-9]+)?$] *)
Definition uuid_suffix_ok (s : string) : bool :=
  match s with
  | EmptyString => true
  | String a (String b s') => Ascii.eqb a "_" && is_digit b && str_forall is_digit s'
  | _ => false
  end.

Definition uuid_at (s : string) : bool :=
  match uuid_prefix s with Some r => uuid_suffix_ok r | None => false end.

(** [uuid.is_match(n)]: the match may start anywhere. *)
Fixpoint uuid_is_match (s : string) : bool :=
  uuid_at s || match s with EmptyString => false | String _ s' => uuid_is_match s' end.

(** [n.trim()], for ASCII white space. *)
Definition is_space (a : ascii) : bool :=
  let n := nat_of_ascii a in (n =? 32)%nat || ((9 <=? n) && (n <=? 13))%nat.

Fixpoint trim_start (s : string) : string :=
  match s with String a s' => if is_space a then trim_start s' else s | EmptyString => s end.

Fixpoint trim_end (s : string) : string :=
  match s with
  | EmptyString => EmptyString
  | String a s' => match trim_end s' with
                   | EmptyString => if is_space a then EmptyString else String a EmptyString
                   | t => String a t
                   end
  end.

Definition trim (s : string) : string := trim_end (trim_start s).

(** [uuid] is the new UUID this call draws. *)
Definition job_id (uuid : string) (request_name : option string) : string :=
  match request_name with
  | None => uuid
  | Some n => if uuid_is_match n then n else trim n +:+ String "-" uuid
  end.

(** ** Checks and handlers *)

Record Response := { resp_job_id : string; resp_status : JobStatus }.

Definition response_new (job_id : string) (status : JobStatus) : Response :=
  {| resp_job_id := job_id; resp_status := status |}.

Definition unknown_error_resp (job_id : string) : Response := response_new job_id (JobError Others).

Definition is_null (v : Value) : bool := match v with Null => true | _ => false end.

Section Handlers.
  Context {Compiled Hir AST Conn Rng LuaFunction : Type} `{!RandomSource Hir Rng}.
  Context (parse_regex : string → option Hir).
  Context (request_file_exists : string → bool).
  Context (eval_function : string → result string LuaFunction).

Local Abbreviation Req := (Request Compiled Hir AST Conn).

Definition set_name (r : Req) (n : string) : Req :=
  {| name := Some n; duration := duration r; target := target r; req := req r; qps := qps r;
     concurrent_connection := concurrent_connection r;
     connection_keep_alive := connection_keep_alive r;
     histogram_buckets := histogram_buckets r; response_assertion := response_assertion r;
     generation_mode := generation_mode r |}.

(** A schema that is there must generate something. *)
Definition check_schema (e : ErrorCode) (schema : option (DataSchema Hir)) (g : Rng) :
    outcome (result ErrorCode unit * Rng) :=
  match schema with
  | Some s => '(v, g) ← generate_data parse_regex s g;
              Val (if is_null v then Err e else Ok tt, g)
  | None => Val (Ok tt, g)
  end.

Definition check_lua (r : Req) : result ErrorCode unit :=
  match response_assertion r ≫= lua_assertion with
  | Some chunks =>
      match verify_lua_chunk eval_function (String.concat (String "010" EmptyString) chunks) with
      | Ok _ => Ok tt
      | Err _ => Err LuaParseFailure
      end
  | None => Ok tt
  end.

Definition pre_check (r : Req) (g : Rng) : outcome (result ErrorCode unit * Rng) :=
  '(c, g) ← match req r with
            | RSRequestFile file =>
                Val (if request_file_exists (rf_file_name file) then Ok tt
                     else Err RequestFileNotFound, g)
            | RSRandomDataRequest d =>
                '(c, g) ← check_schema BodyGenerationFailure (rd_body_schema d) g;
                match c with
                | Err e => Val (Err e, g)
                | Ok _ => check_schema UriParamGenerationFailure (rd_uri_param_schema d) g
                end
            | _ => Val (Ok tt, g)
            end;
  Val (match c with Err e => Err e | Ok _ => check_lua r end, g).

(** [standalone::handle_request]: the response and the requests spawned. *)
Definition handle_request (uuid : string) (r : Req) (g : Rng) : outcome (Response * list Req * Rng) :=
  let id := job_id uuid (name r) in
  let r := set_name r id in
  '(c, g) ← pre_check r g;
  Val (match c with
       | Err e => (response_new id (JobError e), [], g)
       | Ok _ => (response_new id Starting, [r], g)
       end).

(** The loop of [standalone::handle_multi_request] from index [idx] on. *)
Fixpoint multi_loop (id : string) (idx : Z) (rs : list Req) (g : Rng) :
    outcome (Response * list Req * Rng) :=
  match rs with
  | [] => Val (response_new id Starting, [], g)
  | r :: rs' =>
      let r := set_name r (id +:+ String "_" (show_unsigned idx)) in
      '(c, g) ← pre_check r g;
      match c with
      | Err e => Val (response_new id (JobError e), [], g)
      | Ok _ => '(resp, spawned, g) ← multi_loop id (idx + 1) rs' g;
                Val (resp, r :: spawned, g)
      end
  end.

Definition handle_multi_request (uuid : string) (m : MultiRequest Compiled Hir AST Conn) (g : Rng) :
    outcome (Response * list Req * Rng) :=
  multi_loop (job_id uuid (mr_name m)) 0 (requests m) g.

(** In a cluster the primary spawns every request of a multi request without checking it. *)
Fixpoint multi_spawn (id : string) (idx : Z) (rs : list Req) : list Req :=
  match rs with
  | [] => []
  | r :: rs' => set_name r (id +:+ String "_" (show_unsigned idx)) :: multi_spawn id (idx + 1) rs'
  end.

End Handlers.

(** ** Lemmas *)

(** What [job_page] still adds when [count] jobs have been seen. *)
Lemma job_page_spec n offset limit count jobs acc :
  0 <= offset → 0 <= limit → 0 <= count → count + len jobs <= n →
  job_page n offset limit count jobs acc =
  foldl (λ m kv, <[kv.1 := kv.2]> m) acc
    (take (Z.to_nat (offset + limit - Z.max offset count)) (drop (Z.to_nat (offset - count)) jobs)).
Proof.
  revert count acc. induction jobs as [|[id st] jobs IH]; intros count acc Ho Hl Hc Hn.
  { simpl. by rewrite drop_nil, take_nil. }
  rewrite len_cons in Hn. pose proof (len_nonneg jobs). cbn [job_page].
  destruct (Z.ltb_spec n count); [lia|].
  destruct (Z.ltb_spec offset (count + 1)) as [Hlt|Hge].
  - replace (Z.to_nat (offset - count)) with 0%nat by lia. rewrite drop_0. simpl.
    destruct (Z.ltb_spec limit (count + 1 - offset)).
    + replace (Z.to_nat (offset + limit - Z.max offset count)) with 0%nat by lia. done.
    + replace (Z.to_nat (offset + limit - Z.max offset count)) with
        (S (Z.to_nat (offset + limit - Z.max offset (count + 1)))) by lia.
      rewrite IH by lia. replace (Z.to_nat (offset - (count + 1))) with 0%nat by lia. done.
  - simpl. rewrite IH by lia.
    replace (Z.to_nat (offset - count)) with (S (Z.to_nat (offset - (count + 1)))) by lia.
    simpl. by replace (Z.max offset (count + 1)) with (Z.max offset count) by lia.
Qed.

Lemma foldl_insert_list_to_map (l : JobMap) acc :
  NoDup (map fst l) →
  foldl (λ m kv, <[kv.1 := kv.2]> m) acc l = (list_to_map l : gmap string JobStatus) ∪ acc.
Proof.
  revert acc. induction l as [|[k v] l IH]; intros acc Hnd; simpl; [by rewrite (left_id_L ∅ _)|].
  apply NoDup_cons in Hnd as [Hk Hnd]. rewrite IH by done. simpl.
  rewrite <- insert_union_r; [by rewrite insert_union_l|].
  by apply not_elem_of_list_to_map_1.
Qed.

Lemma take_class_app f n s r t :
  take_class f n s = Some r → take_class f n (s +:+ t) = Some (r +:+ t)%string.
Proof.
  revert s. induction n as [|n IH]; intros s; simpl; [by intros [= ->]|].
  destruct s as [|a s]; [done|]. simpl. destruct (f a); [apply IH|done].
Qed.

(** A new UUID: lower case hexadecimal digits in the usual groups. *)
Definition is_uuid (u : string) : Prop := uuid_prefix u = Some EmptyString.

Lemma uuid_at_match u : is_uuid u → uuid_at u = true.
Proof. unfold is_uuid, uuid_at. by intros ->. Qed.

Lemma uuid_is_match_suffix p s : uuid_is_match s = true → uuid_is_match (p +:+ s) = true.
Proof.
  intros H. induction p as [|a p IH]; [done|].
  change (uuid_at (String a (p +:+ s)) || uuid_is_match (p +:+ s) = true). rewrite IH.
  apply orb_true_r.
Qed.

Lemma uuid_matches u : is_uuid u → uuid_is_match u = true.
Proof. intros Hu%uuid_at_match. destruct u; [done|]. cbn [uuid_is_match]. by rewrite Hu. Qed.

(** ** Properties *)

Lemma page_entries offset limit (m : JobMap) :
  keys_sorted m → 0 <= offset → 0 <= limit →
  job_page (len m) offset limit 0 m ∅ = list_to_map (take (Z.to_nat limit) (drop (Z.to_nat offset) m)).
Proof.
  intros Hs Ho Hl. rewrite job_page_spec by lia.
  replace (offset + limit - Z.max offset 0) with limit by lia.
  replace (offset - 0) with offset by lia.
  rewrite foldl_insert_list_to_map; [by rewrite (right_id_L ∅ _)|].
  apply keys_sorted_nodup in Hs. eapply sublist_NoDup; [exact Hs|].
  apply (fmap_sublist fst). etrans; [apply sublist_take|apply sublist_drop].
Qed.

(** A page of the job list is what it says: the jobs numbered [offset + 1] to
    [offset + limit] in the order of their ids, so that consecutive pages neither
    repeat nor miss a job. *)
Theorem job_pages offset limit (m : JobMap) :
  keys_sorted m → 0 <= offset → 0 <= limit →
  get_job_status None offset limit m =
  list_to_map (take (Z.to_nat limit) (drop (Z.to_nat offset) m)).
Proof.
  apply page_entries.
Qed.

Lemma assoc_map_fst {A B} (f : string → A → B) k l :
  assoc k (map (λ kv, (kv.1, f kv.1 kv.2)) l) = f k <$> assoc k l.
Proof.
  induction l as [|[i x] l IH]; simpl; [done|].
  destruct (String.eqb_spec i k) as [->|]; [done|exact IH].
Qed.

Lemma stop_table prefix m :
  snd (stop_request_by_job_id prefix m) =
  map (λ kv, (kv.1, if starts_with prefix kv.1 then Stopped else kv.2)) m.
Proof.
  simpl. apply map_ext. intros [k v]. simpl. by destruct (starts_with prefix k).
Qed.

(** Stopping a job marks exactly the jobs whose id starts with the given one as
    stopped and reports the status each of them had; every other job, the set of ids
    and the order of the table stay as they were. *)
Theorem stop_marks_prefix prefix (m : JobMap) :
  let '(r, m') := stop_request_by_job_id prefix m in
  (∀ id, assoc id m' = (λ s, if starts_with prefix id then Stopped else s) <$> assoc id m) ∧
  (∀ id s, (id, s) ∈ r ↔ ∃ old, s = Some old ∧ (id, old) ∈ m ∧ starts_with prefix id = true) ∧
  map fst m' = map fst m ∧ (keys_sorted m → keys_sorted m').
Proof.
  pose proof (stop_table prefix m) as Ht. destruct (stop_request_by_job_id prefix m) as [r m'] eqn:E.
  simpl in Ht. subst m'.
  assert (Hf : map fst (map (λ kv, (kv.1, if starts_with prefix kv.1 then Stopped else kv.2)) m) = map fst m).
  { rewrite map_map. done. }
  split_and!; [| |done|by apply keys_sorted_fst].
  - intros id. exact (assoc_map_fst (λ k s, if starts_with prefix k then Stopped else s) id m).
  - intros id s. injection E as <- _. rewrite list_elem_of_omap. split.
    + intros ([k v] & Hin & Hk). simpl in Hk. destruct (starts_with prefix k) eqn:Es; [|done].
      simplify_eq. eauto.
    + intros (old & -> & Hin & Hs). exists (id, old). split; [done|]. simpl. by rewrite Hs.
Qed.

(** The first request of a multi request may be stopped together with others: [_1] is
    a prefix of [_10]. *)
Theorem stop_prefix_hits_other_jobs :
  snd (stop_request_by_job_id "j_1" [("j_1"%string, InProgress); ("j_10"%string, InProgress)]) =
  [("j_1"%string, Stopped); ("j_10"%string, Stopped)].
Proof. reflexivity. Qed.

(** Every id is recognised as one. *)
Lemma job_id_is_match uuid request_name : is_uuid uuid → uuid_is_match (job_id uuid request_name) = true.
Proof.
  intros Hu. unfold job_id. destruct request_name as [n|]; [|by apply uuid_matches].
  destruct (uuid_is_match n) eqn:E; [done|].
  change (trim n +:+ String "-" uuid)%string with (trim n +:+ ("-" +:+ uuid))%string.
  by do 2 apply uuid_is_match_suffix; apply uuid_matches.
Qed.

Lemma job_id_match uuid id : uuid_is_match id = true → job_id uuid (Some id) = id.
Proof. intros Hm. unfold job_id. by rewrite Hm. Qed.

(** A job keeps its id when its request is passed on: the id given to a request is
    recognised as an id and not changed by another node. *)
Theorem job_id_stable uuid uuid' request_name :
  is_uuid uuid → job_id uuid' (Some (job_id uuid request_name)) = job_id uuid request_name.
Proof. intros Hu. by apply job_id_match, job_id_is_match. Qed.

(** Clean up removes exactly the jobs that had failed, been stopped or completed when it
    looked, whatever other tasks do to the table before it gets to remove them: running
    jobs, jobs that ended in an error code and jobs that are new stay.  If nothing happens
    in between, what is left are the jobs that are not finished. *)
Theorem cleanup_removes_finished meanwhile (m : JobMap) :
  keys_sorted m →
  (∀ id s, (id, s) ∈ cleanup_job meanwhile cleanup_finished m ↔
     (id, s) ∈ meanwhile m ∧ ∀ s0, (id, s0) ∈ m → cleanup_finished s0 = false) ∧
  (meanwhile m = m → ∀ id s, (id, s) ∈ cleanup_job meanwhile cleanup_finished m ↔
     (id, s) ∈ m ∧ cleanup_finished s = false).
Proof.
  intros Hs%keys_sorted_nodup.
  assert (H : ∀ id s, (id, s) ∈ cleanup_job meanwhile cleanup_finished m ↔
     (id, s) ∈ meanwhile m ∧ ∀ s0, (id, s0) ∈ m → cleanup_finished s0 = false).
  { intros id s. unfold cleanup_job, cleanup_remove, cleanup_indices.
    rewrite list_elem_of_filter. simpl. split.
    - intros [Hn Hin]. split; [done|]. intros s0 H0. destruct (cleanup_finished s0) eqn:E; [|done]. destruct Hn.
      apply (list_elem_of_fmap_2 fst _ (id, s0)). by apply list_elem_of_filter.
    - intros [Hin Hf]. split; [|done]. intros Hx. apply list_elem_of_fmap_1 in Hx as ([k v] & -> & Hx).
      apply list_elem_of_filter in Hx as [Hp Hx]. simpl in *. specialize (Hf v Hx). congruence. }
  split; [done|]. intros Hm id s. rewrite H, Hm. split; [naive_solver|]. intros [Hin Hf].
  split; [done|]. intros s0 Hs0. apply (assoc_nodup _ _ _ Hs) in Hin, Hs0. congruence.
Qed.

Lemma lookup_list_to_map_assoc {T} (l : list (string * T)) k :
  (list_to_map l : gmap string T) !! k = assoc k l.
Proof.
  induction l as [|[i x] l IH]; [done|]. simpl. destruct (String.eqb_spec i k) as [->|Hne].
  - by rewrite lookup_insert_eq.
  - by rewrite lookup_insert_ne.
Qed.

(** *** The table as a map *)

(** What any task may do to the table at a time it holds the write lock. *)
Inductive table_step : JobMap → JobMap → Prop :=
| step_set id st m : table_step m (set_status id st m)
| step_stop prefix m : table_step m (snd (stop_request_by_job_id prefix m))
| step_cleanup ids m : table_step m (cleanup_remove ids m).

(** What the tasks ask of the table, one operation per lock: writing a status, stopping, a
    query, and the two halves of a clean up. *)
Inductive JobOp :=
| OpSet (id : string) (st : JobStatus)
| OpStop (prefix : string)
| OpQuery (q : JobStatusQueryParams)
| OpLook
| OpRemove (ids : list string).

Inductive JobReply :=
| Written
| Stops (r : gmap string string)
| Statuses (r : gmap string JobStatus)
| Found (ids : gset string).

Definition table_op (op : JobOp) (m : JobMap) : JobReply * JobMap :=
  match op with
  | OpSet id st => (Written, set_status id st m)
  | OpStop prefix => let '(r, m) := stop_job prefix m in (Stops r, m)
  | OpQuery q => (Statuses (handle_get_status q m), m)
  | OpLook => (Found (list_to_set (cleanup_indices cleanup_finished m)), m)
  | OpRemove ids => (Written, cleanup_remove ids m)
  end.

(** The number of ids before this one. *)
Definition rank (m : gmap string JobStatus) (id : string) : Z :=
  Z.of_nat (size (filter (λ kv, String.compare kv.1 id = Lt) m)).

(** The specification: a finite map from ids to statuses. *)
Definition map_op (op : JobOp) (m : gmap string JobStatus) : JobReply * gmap string JobStatus :=
  match op with
  | OpSet id st => (Written, <[id := st]> m)
  | OpStop prefix =>
      let those := filter (λ kv, starts_with prefix kv.1 = true) m in
      (Stops ((λ st, stop_message (Some st)) <$> those), ((λ _, Stopped) <$> those) ∪ m)
  | OpQuery (JobId prefix) => (Statuses (filter (λ kv, starts_with prefix kv.1 = true) m), m)
  | OpQuery (PagerOptions offset limit) =>
      (Statuses (filter (λ kv, offset <= rank m kv.1 < offset + limit) m), m)
  | OpLook => (Found (dom (filter (λ kv, cleanup_finished kv.2 = true) m)), m)
  | OpRemove ids => (Written, filter (λ kv, kv.1 ∉ ids) m)
  end.

Fixpoint run_ops {S} (step : JobOp → S → JobReply * S) (ops : list JobOp) (s : S) : list JobReply * S :=
  match ops with
  | [] => ([], s)
  | op :: ops' => let '(r, s) := step op s in let '(rs, s) := run_ops step ops' s in (r :: rs, s)
  end.

(** Offset and limit are unsigned. *)
Definition op_ok (op : JobOp) : Prop :=
  match op with OpQuery (PagerOptions offset limit) => 0 <= offset ∧ 0 <= limit | _ => True end.

Definition table_map (m : JobMap) : gmap string JobStatus := list_to_map m.

Lemma obj_insert_elem {T} k (x : T) l p : p ∈ obj_insert k x l → p = (k, x) ∨ p ∈ l.
Proof.
  induction l as [|[i y] l IH]; simpl; [set_solver|].
  destruct (String.compare k i); set_solver.
Qed.

Lemma string_compare_trans a b c :
  String.compare a b = Lt → String.compare b c = Lt → String.compare a c = Lt.
Proof.
  revert b c. induction a as [|x a IH]; intros [|y b] [|z c]; simpl; try done.
  unfold Ascii.compare. intros Hab Hbc.
  destruct (N.compare_spec (N_of_ascii x) (N_of_ascii y)) as [Exy|Exy|Exy]; try done;
    destruct (N.compare_spec (N_of_ascii y) (N_of_ascii z)) as [Eyz|Eyz|Eyz]; try done;
    destruct (N.compare_spec (N_of_ascii x) (N_of_ascii z)); try lia; try done.
  by eapply IH.
Qed.

Lemma keys_sorted_insert {A} k (x : A) l : keys_sorted l → keys_sorted (obj_insert k x l).
Proof.
  induction l as [|[i y] l IH]; simpl; [by repeat constructor|]. intros [Hi Hs].
  destruct (String.compare k i) eqn:E; simpl.
  - apply String.compare_eq_iff in E as ->. done.
  - split; [|done]. constructor; [done|]. eapply Forall_impl; [exact Hi|]. intros p Hp.
    by eapply string_compare_trans.
  - split; [|by apply IH]. apply Forall_forall. intros p [->|Hp]%obj_insert_elem.
    + by apply string_compare_gt.
    + rewrite Forall_forall in Hi. by apply Hi.
Qed.

Lemma keys_sorted_filter {A} (P : string * A → Prop) `{!∀ x, Decision (P x)} l :
  keys_sorted l → keys_sorted (filter P l).
Proof.
  induction l as [|[i y] l IH]; [done|]. intros [Hi Hs]. rewrite filter_cons.
  case_decide; [|by apply IH]. simpl. split; [|by apply IH].
  apply Forall_forall. intros p [_ Hp]%list_elem_of_filter. rewrite Forall_forall in Hi. by apply Hi.
Qed.

Lemma assoc_filter_keys {A} (Q : string → Prop) `{!∀ x, Decision (Q x)} (l : list (string * A)) k :
  assoc k (filter (λ kv, Q kv.1) l) = if decide (Q k) then assoc k l else None.
Proof.
  induction l as [|[i y] l IH]; [simpl; by case_decide|]. rewrite filter_cons. cbn [fst].
  destruct (decide (Q i)) as [Hi|Hi]; cbn [assoc]; destruct (String.eqb_spec i k) as [->|Hne]; try exact IH.
  - by case_decide.
  - rewrite IH. by case_decide.
Qed.

Lemma lookup_filter_keys (Q : string → Prop) `{!∀ x, Decision (Q x)} (m : JobMap) k :
  filter (λ kv, Q kv.1) (list_to_map m : gmap string JobStatus) !! k = if decide (Q k) then assoc k m else None.
Proof.
  rewrite map_lookup_filter, lookup_list_to_map_assoc. destruct (assoc k m) as [x|]; simpl; [|by case_decide].
  unfold guard. repeat case_decide; done.
Qed.

Lemma table_op_sorted op m : keys_sorted m → keys_sorted (snd (table_op op m)).
Proof.
  intros Hs. destruct op as [id st|prefix|q| |ids]; simpl.
  - by apply keys_sorted_insert.
  - rewrite (stop_table prefix m : map _ m = _). eapply keys_sorted_fst; [|exact Hs]. by rewrite map_map.
  - done.
  - done.
  - by apply keys_sorted_filter.
Qed.

(** Filtering by id, in the table and in the map. *)
Lemma filter_table_map (Q : string → Prop) `{!∀ x, Decision (Q x)} (m : list (string * JobStatus)) :
  table_map (filter (λ kv, Q kv.1) m) = filter (λ kv, Q kv.1) (table_map m).
Proof.
  unfold table_map. apply map_eq. intros k. rewrite lookup_list_to_map_assoc.
  etrans; [exact (assoc_filter_keys Q m k)|]. symmetry. exact (lookup_filter_keys Q m k).
Qed.

Lemma filter_prefix_map prefix (m : list (string * JobStatus)) :
  filter (λ kv, starts_with prefix kv.1 = true) (table_map m) = table_map (filter (λ kv, starts_with prefix kv.1 = true) m).
Proof. symmetry. exact (filter_table_map (λ i, starts_with prefix i = true) m). Qed.

Lemma filter_before_map id (m : list (string * JobStatus)) :
  filter (λ kv, String.compare kv.1 id = Lt) (table_map m) = table_map (filter (λ kv, String.compare kv.1 id = Lt) m).
Proof. symmetry. exact (filter_table_map (λ i, String.compare i id = Lt) m). Qed.

Lemma stop_messages_map prefix (m : list (string * JobStatus)) :
  list_to_map (map (λ job : string * option JobStatus, (job.1, stop_message job.2)) (fst (stop_request_by_job_id prefix m))) =
  (λ st, stop_message (Some st)) <$> filter (λ kv, starts_with prefix kv.1 = true) (table_map m).
Proof.
  rewrite filter_prefix_map. unfold table_map. rewrite <- list_to_map_fmap. f_equal. simpl.
  induction m as [|[k st] m IH]; [done|]. rewrite filter_cons. cbn [omap list_omap fst snd].
  destruct (starts_with prefix k) eqn:E; [rewrite decide_True by done; cbn; by f_equal|by rewrite decide_False by done].
Qed.

Lemma stop_table_map prefix m :
  table_map (snd (stop_request_by_job_id prefix m)) =
  ((λ _, Stopped) <$> filter (λ kv, starts_with prefix kv.1 = true) (table_map m)) ∪ table_map m.
Proof.
  rewrite stop_table. unfold table_map. apply map_eq. intros k.
  rewrite lookup_list_to_map_assoc, (assoc_map_fst (λ id st, if starts_with prefix id then Stopped else st)).
  rewrite lookup_union, lookup_fmap, lookup_list_to_map_assoc.
  replace (filter _ _ !! k) with (if decide (starts_with prefix k = true) then assoc k m else None)
    by (symmetry; exact (lookup_filter_keys (λ i, starts_with prefix i = true) m k)).
  destruct (assoc k m) as [st|]; simpl; [|by case_decide].
  destruct (starts_with prefix k); [by rewrite decide_True|by rewrite decide_False].
Qed.

Lemma set_table_map id st m : table_map (set_status id st m) = <[id := st]> (table_map m).
Proof.
  unfold table_map. apply map_eq. intros k. rewrite lookup_list_to_map_assoc. unfold set_status.
  destruct (decide (k = id)) as [->|Hne].
  - by rewrite lookup_insert_eq, assoc_obj_insert_eq.
  - by rewrite lookup_insert_ne, assoc_obj_insert_ne, lookup_list_to_map_assoc.
Qed.

Lemma finished_ids_map m :
  keys_sorted m →
  list_to_set (cleanup_indices cleanup_finished m) = dom (filter (λ kv, cleanup_finished kv.2 = true) (table_map m)) :> gset string.
Proof.
  intros Hs%keys_sorted_nodup. apply set_eq. intros k. unfold cleanup_indices.
  rewrite elem_of_list_to_set, elem_of_dom. unfold is_Some. setoid_rewrite map_lookup_filter_Some. unfold table_map.
  setoid_rewrite lookup_list_to_map_assoc. split.
  - intros ([k' st] & -> & [Hf Hin]%list_elem_of_filter)%list_elem_of_fmap_1. exists st. split; [|done]. by apply assoc_nodup.
  - intros (st & Ha & Hf). apply (list_elem_of_fmap_2 fst _ (k, st)), list_elem_of_filter. split; [done|]. by apply assoc_elem.
Qed.

(** In a sorted table the entry at a position has that many ids before it. *)
Lemma rank_position (m : list (string * JobStatus)) i id st : keys_sorted m → m !! i = Some (id, st) → rank (table_map m) id = Z.of_nat i.
Proof.
  intros Hs Hi. unfold rank. f_equal. rewrite filter_before_map. unfold table_map.
  rewrite map_size_list_to_map by (by apply keys_sorted_nodup, keys_sorted_filter).
  revert i Hi. induction m as [|[k s] m IH]; intros i Hi; [done|]. destruct Hs as [Hk Hs]. rewrite filter_cons. cbn [fst].
  rewrite Forall_forall in Hk. destruct i as [|i]; simpl in Hi.
  - injection Hi as -> ->. rewrite decide_False by (by rewrite string_compare_refl).
    destruct (filter _ m) as [|p l] eqn:Ef; [done|]. exfalso. assert (p ∈ p :: l) as Hp by left. rewrite <- Ef in Hp.
    apply list_elem_of_filter in Hp as [Hlt Hp]. specialize (Hk p Hp). pose proof (string_compare_trans _ _ _ Hk Hlt) as Hx. by rewrite string_compare_refl in Hx.
  - rewrite decide_True by (apply (Hk (id, st)); by eapply list_elem_of_lookup_2). simpl. by rewrite (IH Hs i Hi).
Qed.

(** A page are the entries at its positions. *)
Lemma page_map offset limit m :
  keys_sorted m → 0 <= offset → 0 <= limit →
  get_job_status None offset limit m = filter (λ kv, offset <= rank (table_map m) kv.1 < offset + limit) (table_map m).
Proof.
  intros Hs Ho Hl. pose proof (keys_sorted_nodup _ Hs) as Hnd.
  unfold get_job_status, get_status_all. rewrite page_entries by done.
  assert (Hin : ∀ l k st, NoDup l.*1 → (list_to_map l : gmap string JobStatus) !! k = Some st ↔ (k, st) ∈ l).
  { intros l k st Hl'. symmetry. by apply elem_of_list_to_map. }
  apply map_eq. intros k. apply option_eq. intros st. rewrite map_lookup_filter_Some. cbn [fst].
  rewrite Hin by (eapply sublist_NoDup; [exact Hnd|]; apply (fmap_sublist fst); etrans; [apply sublist_take|apply sublist_drop]).
  unfold table_map at 1. rewrite Hin by done. rewrite !list_elem_of_lookup. split.
  - intros [i [Hi Hlt]%lookup_take_Some]. rewrite lookup_drop in Hi.
    split; [eauto|]. rewrite (rank_position _ _ _ _ Hs Hi). lia.
  - intros [[i Hi] Hr]. rewrite (rank_position _ _ _ _ Hs Hi) in Hr. exists (i - Z.to_nat offset)%nat.
    apply lookup_take_Some. rewrite lookup_drop. split; [|lia]. by replace (Z.to_nat offset + (i - Z.to_nat offset))%nat with i by lia.
Qed.

Lemma table_op_map op m :
  keys_sorted m → op_ok op → map_op op (table_map m) = (fst (table_op op m), table_map (snd (table_op op m))).
Proof.
  intros Hs Hok. destruct op as [id st|prefix|[id|offset limit]| |ids].
  - cbn [map_op table_op fst snd]. by rewrite set_table_map.
  - cbn [map_op table_op]. unfold stop_job.
    pose proof (stop_messages_map prefix m) as H1. pose proof (stop_table_map prefix m) as H2.
    destruct (stop_request_by_job_id prefix m) as [r m']. cbn [fst snd] in *. by rewrite H1, H2.
  - cbn [map_op table_op fst snd]. by rewrite filter_prefix_map.
  - destruct Hok as [Ho Hl]. cbn [map_op table_op fst snd handle_get_status]. by rewrite page_map.
  - cbn [map_op table_op fst snd]. by rewrite finished_ids_map.
  - cbn [map_op table_op fst snd]. f_equal. symmetry. exact (filter_table_map (λ i, i ∉ ids) m).
Qed.

(** C25: The job table implements a finite map from ids to statuses: however writing,
    stopping, queries by prefix or by page and clean ups follow each other, they get the
    answers that they get from the map, and the table stays in strictly ascending order of
    its ids.  A page of the map are the entries with [offset] up to [offset + limit - 1]
    smaller ids. *)
Theorem job_table_refines_map ops :
  Forall op_ok ops →
  let '(replies, m) := run_ops table_op ops [] in
  run_ops map_op ops ∅ = (replies, table_map m) ∧ keys_sorted m.
Proof.
  intros Hops. assert (Hgen : ∀ m, keys_sorted m → let '(replies, m') := run_ops table_op ops m in
    run_ops map_op ops (table_map m) = (replies, table_map m') ∧ keys_sorted m'); [|by apply (Hgen [])].
  induction Hops as [|op ops Hop Hops IH]; intros m Hs; [done|]. cbn [run_ops]. rewrite table_op_map by done.
  pose proof (table_op_sorted op m Hs) as Hs'. destruct (table_op op m) as [r m1]. cbn [fst snd] in *.
  specialize (IH m1 Hs'). destruct (run_ops table_op ops m1) as [rs m2]. destruct IH as [-> Hs2]. done.
Qed.

(** *** Multi requests *)

Section Multi.
  Context {Compiled Hir AST Conn Rng LuaFunction : Type} `{!RandomSource Hir Rng}.
  Context (parse_regex : string → option Hir).
  Context (request_file_exists : string → bool).
  Context (eval_function : string → result string LuaFunction).

Local Abbreviation Req := (Request Compiled Hir AST Conn).

Definition not_random (r : Req) : Prop := match req r with RSRandomDataRequest _ => False | _ => True end.

Lemma pre_check_name r n (g : Rng) :
  not_random r →
  ∃ c, pre_check parse_regex request_file_exists eval_function (set_name r n) g = Val (c, g) ∧
       pre_check parse_regex request_file_exists eval_function r g = Val (c, g).
Proof.
  unfold not_random, pre_check. cbn [set_name req]. intros Hr.
  destruct (req r); try done; eexists; split; reflexivity.
Qed.

End Multi.

(** A multi request is checked one request at a time: when a request fails its check the
    response is that error, although every request before it has already been started. *)
Theorem multi_request_partial_start {Compiled Hir AST Conn Rng LuaFunction} `{!RandomSource Hir Rng}
    parse_regex request_file_exists (eval_function : string → result string LuaFunction)
    uuid (m : MultiRequest Compiled Hir AST Conn) (g : Rng) good bad rest e :
  requests m = good ++ bad :: rest → Forall not_random (good ++ [bad]) →
  Forall (λ r, pre_check parse_regex request_file_exists eval_function r g = Val (Ok tt, g)) good →
  pre_check parse_regex request_file_exists eval_function bad g = Val (Err e, g) →
  handle_multi_request parse_regex request_file_exists eval_function uuid m g =
  Val (response_new (job_id uuid (mr_name m)) (JobError e),
       multi_spawn (job_id uuid (mr_name m)) 0 good, g).
Proof.
  intros Hm Hnr Hgood Hbad. unfold handle_multi_request. rewrite Hm. clear Hm.
  generalize 0. generalize (job_id uuid (mr_name m)). intros id.
  induction Hgood as [|r good Hr Hgood IH]; intros idx; cbn [app multi_loop multi_spawn].
  - apply Forall_cons_1 in Hnr as [Hnr _].
    destruct (pre_check_name parse_regex request_file_exists eval_function bad
      (id +:+ String "_" (show_unsigned idx)) g Hnr) as (c & H1 & H2).
    rewrite Hbad in H2. simplify_eq. by rewrite H1.
  - apply Forall_cons_1 in Hnr as [Hn Hnr].
    destruct (pre_check_name parse_regex request_file_exists eval_function r
      (id +:+ String "_" (show_unsigned idx)) g Hn) as (c & H1 & H2).
    rewrite Hr in H2. simplify_eq. rewrite H1. cbn [mbind outcome_bind].
    rewrite IH by done. done.
Qed.

(** ** Concrete inputs *)

Definition demo_jobs : JobMap := [("a"%string, InProgress); ("b"%string, Completed); ("c"%string, Stopped)].

Lemma demo_jobs_sorted : keys_sorted demo_jobs.
Proof. simpl. split_and!; repeat constructor. Qed.

Lemma job_pages_witness :
  get_job_status None 1 1 demo_jobs = list_to_map [("b"%string, Completed)].
Proof. apply (job_pages 1 1 demo_jobs); [exact demo_jobs_sorted|lia|lia]. Defined.

Lemma job_id_stable_witness :
  let u := "7e19ae6b-59af-4916-8cc0-a04cc48a739b"%string in
  job_id "x" (Some (job_id u (Some " demo "%string))) = "demo-7e19ae6b-59af-4916-8cc0-a04cc48a739b"%string.
Proof.
  intros u. rewrite (job_id_stable u "x" (Some " demo "%string)); [reflexivity|].
  vm_compute. reflexivity.
Defined.

Lemma cleanup_removes_finished_witness :
  ("a"%string, InProgress) ∈ cleanup_job (λ m, m) cleanup_finished demo_jobs.
Proof.
  apply (proj2 (cleanup_removes_finished (λ m, m) demo_jobs demo_jobs_sorted) eq_refl).
  split; [left|reflexivity].
Defined.

(** Two jobs start, one is stopped, the second page of one job is asked for, and the clean up
    removes the job that was stopped. *)
Definition demo_ops : list JobOp :=
  [OpSet "b" Starting; OpSet "a" InProgress; OpStop "a"; OpQuery (PagerOptions 1 1); OpLook; OpRemove ["a"%string]].

Lemma job_table_refines_map_witness :
  run_ops map_op demo_ops ∅ =
    ([Written; Written; Stops {["a"%string := "Job stopped"%string]}; Statuses {["b"%string := Starting]};
      Found {["a"%string]}; Written], {["b"%string := Starting]}).
Proof.
  apply (job_table_refines_map demo_ops). repeat constructor; simpl; lia.
Defined.

(** A request that replays a file. *)
Definition file_request (f : string) : Request unit unit unit unit :=
  {| name := None; duration := 1; target := demo_target;
     req := RSRequestFile (request_file_new f);
     qps := RateConstant {| cr_count_per_sec := 1 |};
     concurrent_connection := default_concurrent_connection;
     connection_keep_alive := keep_alive_default;
     histogram_buckets := default_histogram_bucket; response_assertion := None;
     generation_mode := default_generation_mode |}.

Lemma multi_request_partial_start_witness :
  handle_multi_request (λ _, Some tt) (String.eqb "there") (λ _, @Ok string unit tt) "u"
    {| mr_name := None; requests := [file_request "there"; file_request "gone"] |} tt =
  Val (response_new "u" (JobError RequestFileNotFound),
       multi_spawn "u" 0 [file_request "there"], tt).
Proof.
  apply (multi_request_partial_start (λ _, Some tt) (String.eqb "there") (λ _, @Ok string unit tt) "u"
    {| mr_name := None; requests := [file_request "there"; file_request "gone"] |} tt
    [file_request "there"] (file_request "gone") [] RequestFileNotFound).
  - reflexivity.
  - repeat apply Forall_cons_2; try apply Forall_nil_2; exact I.
  - apply Forall_cons_2; [reflexivity|apply Forall_nil_2].
  - reflexivity.
Defined.
