(* ===== verification/Primary.v ===== *)
(** * Running a job: the primary and the standalone executor

    [cluster-executor/src/primary.rs], [cluster-executor/src/standalone.rs],
    [cluster-executor/src/split_request.rs] and the sending half of
    [cluster-executor/src/lib.rs].

    A [Sender] is known by the id of its instance.  The network is the log of what was
    connected and delivered; [send_ok] and [connect_ok] decide, from the log so far,
    whether the next attempt succeeds.  A [HashMap] of senders is a set of ids, visited
    in the order [iter], which may be another one at every visit.  [get_one] is [get_n(1)]
    of a split request file; it may succeed at one point of the run and fail at another. *)
From Stdlib Require Import ZArith Lia Ascii.
From stdpp Require Import base list gmap strings numbers sets.
From S2P Require Import Prelude RateSpec Split Json HttpTypes Jobs.

Local Open Scope Z_scope.
Local Open Scope rust_scope.

(** ** Messages and the network *)

Record RateMessage := { rm_qps : Z; rm_connections : Z }.
Record Metadata := { primary_host : string }.

Section Messages.
  Context {Compiled Hir AST Conn : Type}.

Inductive MessageFromPrimary :=
| MMetadata (m : Metadata)
| MRequest (r : Request Compiled Hir AST Conn)
| MRates (r : RateMessage)
| MReset
| MStop
| MFinished.

Inductive event :=
| Connected (id : string)
| Delivered (id : string) (m : MessageFromPrimary).

End Messages.

Arguments MessageFromPrimary : clear implicits.
Arguments event : clear implicits.

(** A node of the cluster; ports have optional names. *)
Record Node := {
  instance_id : option string;
  node_host : option string;
  node_ports : option (list (option string * Z))
}.

Definition remoc_port (env : string → option string) : Z :=
  default 3031 (env "CLUSTER_COM_PORT"%string ≫= parse_unsigned u16_MAX).

Definition remoc_port_name (env : string → option string) : string :=
  default "tcp-remoc"%string (env "CLUSTER_COM_PORT_NAME"%string).

Section Primary.
  Context {Compiled Hir AST Conn : Type}.

Local Abbreviation Req := (Request Compiled Hir AST Conn).
Local Abbreviation Msg := (MessageFromPrimary Compiled Hir AST Conn).
Local Abbreviation Log := (list (event Compiled Hir AST Conn)).

  Context (send_ok : Log → string → Msg → bool).
  Context (connect_ok : Log → string → Z → bool).
  Context (iter : Log → gset string → list string).
  Context (get_one : Log → SplitRequestFile Conn → result string (list HttpReq) * SplitRequestFile Conn).
  Context (port_name : string).

(** [sender.send(msg)] *)
Definition send (id : string) (m : Msg) (net : Log) : bool * Log :=
  if send_ok net id m then (true, net ++ [Delivered id m]) else (false, net).

(** A loop that sends one message per entry; the ids for which it failed. *)
Fixpoint send_each (l : list (string * Msg)) (net : Log) : list string * Log :=
  match l with
  | [] => ([], net)
  | (id, m) :: l' =>
      let '(ok, net) := send id m net in
      let '(failed, net) := send_each l' net in
      (if ok : bool then failed else id :: failed, net)
  end.

(** The senders among [instances], in iteration order. *)
Definition selected (net : Log) (senders : gset string) (instances : list string) : list string :=
  filter (λ id, id ∈ instances) (iter net senders).

Definition send_metadata_with_primary (host : string) (senders : gset string)
    (instances : list string) (net : Log) : Log :=
  snd (send_each ((λ id, (id, MMetadata {| primary_host := host |})) <$> selected net senders instances) net).

(** [send_metadata]: the primary must know its own host. *)
Definition send_metadata (host : option string) (senders : gset string)
    (instances : list string) (net : Log) : outcome Log :=
  h ← unwrap host;
  Val (send_metadata_with_primary h senders instances net).

(** ** Splitting a request file *)

Definition with_req (r : Req) (s : RequestSpecEnum Hir AST Conn) : Req :=
  {| name := name r; duration := duration r; target := target r; req := s; qps := qps r;
     concurrent_connection := concurrent_connection r;
     connection_keep_alive := connection_keep_alive r;
     histogram_buckets := histogram_buckets r; response_assertion := response_assertion r;
     generation_mode := generation_mode r |}.

(** [process_and_send_request]: every id it sent to is reported as an error. *)
Definition process_and_send_request (r : Req) (senders : gset string) (net : Log) :
    outcome (result (list string) unit * Log) :=
  '(error_instances, net) ←
    match req r with
    | RSSplitRequestFile f =>
        let '(got, f) := get_one net f in
        match got with
        | Err _ => Val ([], net)
        | Ok _ =>
            splits ← split_ranges (sf_size f) (Z.of_nat (size senders));
            let ids := iter net senders in
            let msgs := zip_with (λ id range,
              (id, MRequest (with_req r (RSSplitRequestFile (clone_with_new_range f range))))) ids splits in
            if len splits <? len ids then Panic
            else let '(_, net) := send_each msgs net in Val (ids, net)
        end
    | _ => Val ([], net)
    end;
  Val (match error_instances with [] => Ok tt | _ => Err error_instances end, net).

Definition send_request_to_secondary (r : Req) (senders : gset string) (instances : list string)
    (net : Log) : outcome (result (list string) unit * Log) :=
  match req r with
  | RSSplitRequestFile _ => process_and_send_request r senders net
  | _ =>
      let '(failed, net) := send_each ((λ id, (id, MRequest r)) <$> selected net senders instances) net in
      Val (match failed with [] => Ok tt | _ => Err failed end, net)
  end.

Definition send_end_msg (id : string) (stop : bool) (net : Log) : Log :=
  snd (send id (if stop then MStop else MFinished) net).

Definition require_reset (r : Req) : bool :=
  match req r with RSSplitRequestFile _ => true | _ => false end.

Definition reset_request (r : Req) (senders : gset string) (net : Log) : outcome Log :=
  let '(_, net) := send_each ((λ id, (id, MReset)) <$> iter net senders) net in
  '(_, net) ← process_and_send_request r senders net;
  Val net.

(** ** Rates *)

Definition send_rate_message_to_secondaries (senders : gset string) (qps connection_count : Z)
    (net : Log) : outcome (result (list string) unit * Log) :=
  '(qs, cs) ← calculate_req_per_secondary qps connection_count (Z.of_nat (size senders));
  let msgs := zip_with (λ id qc, (id, MRates {| rm_qps := fst qc; rm_connections := snd qc |}))
                (iter net senders) (zip qs cs) in
  let '(failed_senders, net) := send_each msgs net in
  Val (match failed_senders with [] => Ok tt | _ => Err failed_senders end, net).

(** ** Connecting to the secondaries *)

(** Where to connect to: the host and the port named [port_name]. *)
Definition secondary_address (n : Node) : option (string * Z) :=
  ports ← node_ports n;
  p ← head (filter (λ p, p.1 = Some port_name) ports);
  h ← node_host n;
  Some (h, wrap 16 p.2).

Definition get_sender_for_secondary (n : Node) (net : Log) : bool :=
  match secondary_address n with
  | Some (h, p) => connect_ok net h p
  | None => false
  end.

(** [create_senders_for_cluster_nodes]: the new instances, all senders, the log. *)
Fixpoint create_senders_loop (nodes : list Node) (senders : gset string) (net : Log) :
    outcome (list string * gset string * Log) :=
  match nodes with
  | [] => Val ([], senders, net)
  | n :: nodes' =>
      id ← unwrap (instance_id n);
      if decide (id ∈ senders) then create_senders_loop nodes' senders net
      else if get_sender_for_secondary n net then
        '(new_nodes, senders, net) ←
          create_senders_loop nodes' ({[ id ]} ∪ senders) (net ++ [Connected id]);
        Val (id :: new_nodes, senders, net)
      else create_senders_loop nodes' senders net
  end.

Definition create_senders_for_cluster_nodes (secondaries : option (list Node))
    (senders : gset string) (net : Log) : outcome (list string * gset string * Log) :=
  match secondaries with
  | Some nodes => create_senders_loop nodes senders net
  | None => Val ([], senders, net)
  end.

Definition init_senders (host : option string) (secondaries : option (list Node)) (r : Req)
    (senders : gset string) (net : Log) : outcome (gset string * Log) :=
  '(new_instances, senders, net) ← create_senders_for_cluster_nodes secondaries senders net;
  net ← send_metadata host senders new_instances net;
  '(_, net) ← send_request_to_secondary r senders new_instances net;
  Val (senders, net).

(** ** The primary's loop *)

Record PrimaryState := {
  p_senders : gset string;
  p_counter : Z;
  p_sender_dropped : bool;
  p_net : Log
}.

(** What a turn of the loop sees: the rates of the second, the job's status being
    [Stopped], and the secondaries of the cluster. *)
Record Tick := {
  t_rates : Z * Z;
  t_stopped : bool;
  t_secondaries : option (list Node)
}.

(** [counter % 5 == 0] and the job was stopped. *)
Definition must_stop (t : Tick) (st : PrimaryState) : bool :=
  (p_counter st mod 5 =? 0) && t_stopped t.

(** The periodic refresh of the senders. *)
Definition refresh_senders (host : option string) (r : Req) (t : Tick) (st : PrimaryState) :
    outcome PrimaryState :=
  if p_counter st =? 10 then
    '(new_nodes, senders, net) ←
      create_senders_for_cluster_nodes (t_secondaries t) (p_senders st) (p_net st);
    '(dropped, net) ←
      match new_nodes with
      | _ :: _ =>
          net ← send_metadata host senders new_nodes net;
          net ← (if require_reset r then reset_request r senders net
                 else '(_, net) ← send_request_to_secondary r senders new_nodes net; Val net);
          Val (p_sender_dropped st, net)
      | [] =>
          if require_reset r && p_sender_dropped st
          then net ← reset_request r senders net; Val (false, net)
          else Val (p_sender_dropped st, net)
      end;
    Val {| p_senders := senders; p_counter := 0; p_sender_dropped := dropped; p_net := net |}
  else Val {| p_senders := p_senders st; p_counter := p_counter st + 1;
              p_sender_dropped := p_sender_dropped st; p_net := p_net st |}.

(** One turn that is not stopped. *)
Definition primary_tick (host : option string) (r : Req) (t : Tick) (st : PrimaryState) :
    outcome PrimaryState :=
  st ← refresh_senders host r t st;
  if decide (p_senders st = ∅) then Val st
  else
    '(res, net) ← send_rate_message_to_secondaries (p_senders st) (fst (t_rates t)) (snd (t_rates t)) (p_net st);
    Val match res with
        | Ok _ => {| p_senders := p_senders st; p_counter := p_counter st;
                     p_sender_dropped := p_sender_dropped st; p_net := net |}
        | Err e => {| p_senders := p_senders st ∖ list_to_set e; p_counter := p_counter st;
                      p_sender_dropped := match e with [] => false | _ => true end; p_net := net |}
        end.

Fixpoint primary_loop (host : option string) (r : Req) (ticks : list Tick) (st : PrimaryState) :
    outcome PrimaryState :=
  match ticks with
  | [] => Val st
  | t :: ticks' =>
      if must_stop t st then Val st
      else st ← primary_tick host r t st; primary_loop host r ticks' st
  end.

(** [primary::handle_request], with the statuses it writes for the job, in order. *)
Definition primary_handle_request (host : option string) (secondaries : option (list Node))
    (r : Req) (ticks : list Tick) (net : Log) : outcome (list JobStatus * Log) :=
  _ ← unwrap (name r);
  '(senders, net) ← init_senders host secondaries r ∅ net;
  st ← primary_loop host r ticks {| p_senders := senders; p_counter := 0; p_sender_dropped := false; p_net := net |};
  let net := foldl (λ net id, send_end_msg id false net) (p_net st) (iter (p_net st) (p_senders st)) in
  Val ([Starting; InProgress; Completed], net).

(** ** The standalone executor *)

(** The loop of [standalone::handle_request]. *)
Fixpoint standalone_loop (ticks : list Tick) (counter : Z) (net : Log) : Log :=
  match ticks with
  | [] => net
  | t :: ticks' =>
      let counter := counter + 1 in
      if (counter mod 5 =? 0) && t_stopped t then net
      else
        let counter := if counter mod 5 =? 0 then 0 else counter in
        let '(_, net) := send "localhost" (MRates {| rm_qps := fst (t_rates t);
                                                      rm_connections := snd (t_rates t) |}) net in
        standalone_loop ticks' counter net
  end.

Definition standalone_handle_request (port : Z) (r : Req) (ticks : list Tick) (net : Log) :
    outcome (list JobStatus * Log) :=
  _ ← unwrap (name r);
  if connect_ok net "127.0.0.1" port then
    let senders : gset string := {[ "localhost"%string ]} in
    let net := net ++ [Connected "localhost"] in
    let net := send_metadata_with_primary "127.0.0.1" senders ["localhost"%string] net in
    '(_, net) ← send_request_to_secondary r senders ["localhost"%string] net;
    let net := standalone_loop ticks 0 net in
    Val ([Starting; InProgress; Completed], send_end_msg "localhost" false net)
  else Panic.

End Primary.

(** ** The protocol between primary and secondary

    What one secondary receives in a session: metadata, a request (after a reset when
    it joined a running job that replays a split file), then rates, and resets followed
    by a request, until the end. *)
Inductive phase := PIdle | PConnected | PMetadata | PReset | PRunning | PDone.

#[export] Instance phase_eq_dec : EqDecision phase.
Proof. solve_decision. Defined.

Section Protocol.
  Context {Compiled Hir AST Conn : Type}.

Local Abbreviation Req := (Request Compiled Hir AST Conn).
Local Abbreviation Msg := (MessageFromPrimary Compiled Hir AST Conn).
Local Abbreviation Log := (list (event Compiled Hir AST Conn)).

Definition proto_step (p : phase) (m : Msg) : option phase :=
  match p, m with
  | PConnected, MMetadata _ => Some PMetadata
  | PMetadata, MRequest _ => Some PRunning
  | PMetadata, MReset => Some PReset
  | PReset, MRequest _ => Some PRunning
  | PRunning, MRates _ | PRunning, MReset | PRunning, MRequest _ => Some PRunning
  | PRunning, MFinished | PRunning, MStop => Some PDone
  | _, _ => None
  end.

(** Connecting starts a new session. *)
Definition phase_event (id : string) (o : option phase) (e : event Compiled Hir AST Conn) : option phase :=
  p ← o;
  match e with
  | Connected j => Some (if decide (j = id) then PConnected else p)
  | Delivered j m => if decide (j = id) then proto_step p m else Some p
  end.

(** The phase of a secondary; [None] if it ever received a message out of order. *)
Definition phase_of (id : string) (net : Log) : option phase :=
  foldl (phase_event id) (Some PIdle) net.

Lemma phase_of_snoc id net e : phase_of id (net ++ [e]) = phase_event id (phase_of id net) e.
Proof. unfold phase_of. by rewrite foldl_app. Qed.

  Context (send_ok : Log → string → Msg → bool).
  Context (connect_ok : Log → string → Z → bool).
  Context (iter : Log → gset string → list string).
  Context (get_one : Log → SplitRequestFile Conn → result string (list HttpReq) * SplitRequestFile Conn).
  Context (port_name : string).

(** Nothing reaches [id] any more, unless it is connected again. *)
Definition broken (net : Log) (id : string) : Prop :=
  ∀ ext m, Connected id ∉ ext → send_ok (net ++ ext) id m = false.

(** A send fails because of the item (it cannot be serialised, or is too large for the
    channel) or for good; a map is iterated over each key once. *)
  Context (sendable : Msg → Prop).
  Context (send_closed : ∀ net id m, sendable m → send_ok net id m = false → broken net id).
  Context (iter_perm : ∀ net s, iter net s ≡ₚ elements s).

(** [id] is in phase [P], or its channel is closed. *)
Definition link (net : Log) (id : string) (P : phase) : Prop :=
  ∃ p, phase_of id net = Some p ∧ (p = P ∨ broken net id).

Definition expects (net : Log) (F : string → phase) : Prop := ∀ id, link net id (F id).

Lemma broken_snoc net id e : e ≠ Connected id → broken net id → broken (net ++ [e]) id.
Proof.
  intros He Hb ext m Hext. rewrite <- app_assoc. apply Hb. simpl.
  apply not_elem_of_cons. done.
Qed.

Lemma send_expects net F F' id m :
  sendable m → expects net F → proto_step (F id) m = Some (F' id) → (∀ j, j ≠ id → F' j = F j) →
  expects (snd (send send_ok id m net)) F'.
Proof.
  intros Hm He Hp HF j. destruct (He j) as (p & Hph & Hpb). unfold send.
  destruct (send_ok net id m) eqn:E; simpl.
  - exists (if decide (j = id) then F' id else p). rewrite phase_of_snoc, Hph. simpl.
    destruct (decide (j = id)) as [->|Hne]; [|rewrite decide_False by congruence].
    + rewrite decide_True by done. destruct Hpb as [->|Hb]; [auto|].
      specialize (Hb [] m). rewrite app_nil_r, E in Hb. set_solver.
    + split; [done|]. rewrite HF by done. destruct Hpb as [?|Hb]; [auto|right].
      by apply broken_snoc.
  - exists p. split; [done|]. destruct (decide (j = id)) as [->|Hne].
    + right. by eapply send_closed.
    + rewrite HF by done. done.
Qed.

Lemma send_each_expects l net F F' :
  NoDup (map fst l) → expects net F →
  (∀ id m, (id, m) ∈ l → sendable m ∧ proto_step (F id) m = Some (F' id)) →
  (∀ id, id ∉ map fst l → F' id = F id) →
  expects (snd (send_each send_ok l net)) F'.
Proof.
  revert net F. induction l as [|[id m] l IH]; intros net F Hnd He Hstep Hout; simpl.
  { intros j. destruct (He j) as (p & ? & ?). exists p. rewrite Hout by set_solver. done. }
  apply NoDup_cons in Hnd as [Hid Hnd].
  set (G := λ j, if decide (j = id) then F' id else F j).
  assert (HG : expects (snd (send send_ok id m net)) G).
  { apply send_expects with F; [eapply Hstep; left|done| |].
    - unfold G. rewrite decide_True by done. apply Hstep. left.
    - intros j Hj. unfold G. by rewrite decide_False. }
  destruct (send send_ok id m net) as [ok net1]. simpl in HG.
  specialize (IH net1 G Hnd HG). destruct (send_each send_ok l net1) as [failed net2]. simpl in *.
  apply IH.
  - intros j mj Hj. unfold G. rewrite decide_False.
    + apply Hstep. by right.
    + intros ->. apply Hid. by apply (list_elem_of_fmap_2 fst _ (id, mj)).
  - intros j Hj. unfold G. destruct (decide (j = id)) as [->|Hne]; [done|]. apply Hout.
    intros [?|?]%elem_of_cons; done.
Qed.

Lemma iter_nodup net s : NoDup (iter net s).
Proof. rewrite iter_perm. apply NoDup_elements. Qed.

Lemma elem_of_iter net s id : id ∈ iter net s ↔ id ∈ s.
Proof. rewrite iter_perm. apply elem_of_elements. Qed.

(** Messages that carry no request can be sent. *)
  Context (plain_sendable : ∀ m, match m with MRequest _ => False | _ => True end → sendable m).

(** Sending to each id of a list, once. *)
Lemma send_to_expects (f : string → Msg) ids net F F' :
  NoDup ids → (∀ id, sendable (f id)) → expects net F →
  (∀ id, id ∈ ids → proto_step (F id) (f id) = Some (F' id)) →
  (∀ id, id ∉ ids → F' id = F id) →
  expects (snd (send_each send_ok ((λ id, (id, f id)) <$> ids) net)) F'.
Proof.
  intros Hnd Hs He Hin Hout.
  assert (Hf : map fst ((λ id, (id, f id)) <$> ids) = ids).
  { clear. induction ids as [|x ids IH]; simpl; [done|]. by f_equal. }
  apply send_each_expects with F; rewrite ?Hf; try done.
  intros id m Hm. apply list_elem_of_fmap_1 in Hm as (x & [= -> ->] & Hx). auto.
Qed.

Lemma connected_expects net F id :
  expects net F → expects (net ++ [Connected id]) (λ j, if decide (j = id) then PConnected else F j).
Proof.
  intros He j. destruct (He j) as (p & Hp & Hb). unfold link. rewrite phase_of_snoc, Hp. simpl.
  destruct (decide (j = id)) as [->|Hne].
  - rewrite decide_True by done. eauto.
  - rewrite decide_False by congruence. exists p. split; [done|].
    destruct Hb as [?|Hb]; [auto|right]. apply broken_snoc; [congruence|done].
Qed.

(** New senders are connected, the others stay as they were. *)
Lemma create_senders_expects nodes senders net F news senders' net' :
  expects net F →
  create_senders_loop connect_ok port_name nodes senders net = Val (news, senders', net') →
  (∀ id, id ∈ senders' ↔ id ∈ senders ∨ id ∈ news) ∧ (∀ id, id ∈ news → id ∉ senders) ∧
  expects net' (λ id, if decide (id ∈ news) then PConnected else F id).
Proof.
  revert senders net F news. induction nodes as [|n nodes IH]; intros senders net F news He; simpl.
  { intros [= <- <- <-]. split_and!; set_solver. }
  destruct (instance_id n) as [id|]; simpl; [|done].
  case_decide as Hid; [by apply IH|].
  destruct (get_sender_for_secondary connect_ok port_name n net); [|by apply IH].
  destruct (create_senders_loop _ _ _ _ _) as [[[news1 s1] n1]|] eqn:E; simpl; [|done].
  intros [= <- <- <-]. apply (IH _ _ _ _ (connected_expects _ _ id He)) in E as (H1 & H2 & H3).
  split_and!; [set_solver|set_solver|].
  intros j. specialize (H3 j). simpl in H3.
  destruct (decide (j ∈ news1)); [rewrite decide_True by set_solver; done|].
  destruct (decide (j = id)) as [->|]; [by rewrite decide_True by set_solver|].
  by rewrite decide_False by set_solver.
Qed.

Lemma create_expects secondaries senders net F news senders' net' :
  expects net F →
  create_senders_for_cluster_nodes connect_ok port_name secondaries senders net = Val (news, senders', net') →
  (∀ id, id ∈ senders' ↔ id ∈ senders ∨ id ∈ news) ∧ (∀ id, id ∈ news → id ∉ senders) ∧
  expects net' (λ id, if decide (id ∈ news) then PConnected else F id).
Proof.
  destruct secondaries as [nodes|]; simpl; [apply create_senders_expects|].
  intros He [= <- <- <-]. split_and!; set_solver.
Qed.

Lemma elem_of_selected net senders instances id :
  id ∈ selected iter net senders instances ↔ id ∈ instances ∧ id ∈ senders.
Proof. unfold selected. by rewrite list_elem_of_filter, elem_of_iter. Qed.

Lemma selected_nodup net senders instances : NoDup (selected iter net senders instances).
Proof. apply NoDup_filter, iter_nodup. Qed.

(** Sending the metadata to the new senders. *)
Lemma metadata_expects host senders news net net' F :
  expects net F → (∀ id, id ∈ news → id ∈ senders ∧ F id = PConnected) →
  send_metadata send_ok iter host senders news net = Val net' →
  expects net' (λ id, if decide (id ∈ news) then PMetadata else F id).
Proof.
  intros He Hn. unfold send_metadata. destruct host as [h|]; simpl; [|done]. intros [= <-].
  apply (send_to_expects (λ _, MMetadata {| primary_host := h |}) _ _ F); [apply selected_nodup|by intros; apply plain_sendable|done|..].
  - intros id [Hi _]%elem_of_selected. destruct (Hn id Hi) as [_ ->]. by rewrite decide_True.
  - intros id Hid. rewrite decide_False; [done|]. intros Hi. apply Hid, elem_of_selected.
    split; [done|]. by apply Hn.
Qed.

(** The request file can be read whenever it is divided. *)
Definition file_readable (r : Req) : Prop :=
  ∀ net f, req r = RSSplitRequestFile f → ∃ rows f', get_one net f = (Ok rows, f').

(** The request can be sent, whatever part of its file it is about. *)
Definition request_sendable (r : Req) : Prop :=
  sendable (MRequest r) ∧ ∀ f, sendable (MRequest (with_req r (RSSplitRequestFile f))).

Definition request_ready (r : Req) : Prop := file_readable r ∧ request_sendable r.

(** Sending the parts of a split file starts (or keeps running) every sender. *)
Lemma process_expects r senders net net' res F :
  request_ready r → require_reset r = true → expects net F →
  (∀ id, id ∈ senders → F id ∈ [PMetadata; PReset; PRunning]) →
  process_and_send_request send_ok iter get_one r senders net = Val (res, net') →
  expects net' (λ id, if decide (id ∈ senders) then PRunning else F id).
Proof.
  unfold request_ready, file_readable, require_reset, process_and_send_request.
  intros [Hf [_ Hsend]] Hr He Hs.
  destruct (req r) as [| |f| |]; try done. destruct (Hf net f eq_refl) as (rows & f' & ->).
  destruct (split_ranges _ _) as [splits|] eqn:Es; simpl; [|done].
  case_match eqn:El; [done|]. bool_simp.
  match goal with |- context [send_each send_ok ?l net] => set (msgs := l) end.
  assert (Hfst : map fst msgs = iter net senders).
  { unfold msgs. clear -El. unfold len in El. revert El. generalize (iter net senders) as ids.
    induction splits as [|x splits IH]; intros [|id ids] Hl; simpl in *; try done.
    f_equal. apply IH. lia. }
  pose proof (send_each_expects msgs net F (λ id, if decide (id ∈ senders) then PRunning else F id)) as Hx.
  rewrite Hfst in Hx. destruct (send_each send_ok msgs net) as [fl n1]. intros [= _ <-].
  apply Hx; [apply iter_nodup|done|..].
  - intros id m Hm. assert (id ∈ senders) as Hid.
    { apply (elem_of_iter net). rewrite <- Hfst. by apply (list_elem_of_fmap_2 fst _ (id, m)). }
    rewrite decide_True by done.
    assert (∃ q, m = MRequest q ∧ sendable m) as (q & -> & Hq).
    { unfold msgs in Hm. apply elem_of_lookup_zip_with in Hm as (i & x & y & [= -> ->] & _). eauto. }
    split; [done|]. specialize (Hs id Hid). destruct (F id); simpl; try done; set_solver.
  - intros id Hid. rewrite decide_False; [done|]. by rewrite <- (elem_of_iter net).
Qed.

Lemma expects_ext net F G : (∀ id, F id = G id) → expects net F → expects net G.
Proof. intros H He id. by rewrite <- H. Qed.

(** Every sender is running. *)
Definition running (senders : gset string) (net : Log) : Prop :=
  ∃ F, expects net F ∧ ∀ id, id ∈ senders → F id = PRunning.

Lemma request_running r senders news net net' res F :
  request_ready r → expects net F →
  (∀ id, id ∈ news → id ∈ senders) →
  (∀ id, id ∈ senders → F id = if decide (id ∈ news) then PMetadata else PRunning) →
  send_request_to_secondary send_ok iter get_one r senders news net = Val (res, net') →
  running senders net'.
Proof.
  intros Hf He Hn HF. unfold send_request_to_secondary.
  assert (Hp : require_reset r = true →
    process_and_send_request send_ok iter get_one r senders net = Val (res, net') → running senders net').
  { intros Hr Hs. eexists. split; [eapply process_expects; [done..| |exact Hs]|].
    - intros id Hid. rewrite HF by done. case_decide; set_solver.
    - intros id Hid. simpl. by rewrite decide_True. }
  unfold require_reset in Hp. destruct (req r) eqn:Er; try (by apply Hp); clear Hp;
  (pose proof (send_to_expects (λ _, MRequest r) (selected iter net senders news) net F
     (λ id, if decide (id ∈ senders) then PRunning else F id)) as Hx;
   destruct (send_each _ _ _) as [fl n1]; intros [= _ <-];
   eexists; split; [apply Hx; [apply selected_nodup|intros _; apply Hf|done|..]|]; simpl;
   [intros id [Hi Hs]%elem_of_selected; rewrite HF, !decide_True by done; done
   |intros id Hid; case_decide as Hs; [|done]; rewrite HF by done; rewrite decide_False; [done|];
    intros Hi; apply Hid, elem_of_selected; done
   |intros id Hid; by rewrite decide_True]).
Qed.

Lemma reset_running r senders (news : list string) net net' F :
  request_ready r → require_reset r = true → expects net F →
  (∀ id, id ∈ senders → F id = if decide (id ∈ news) then PMetadata else PRunning) →
  reset_request send_ok iter get_one r senders net = Val net' →
  running senders net'.
Proof.
  intros Hf Hr He HF. unfold reset_request.
  set (G := λ id, if decide (id ∈ senders) then
                    (if decide (id ∈ news) then PReset else PRunning) else F id).
  pose proof (send_to_expects (λ _, MReset) (iter net senders) net F G (iter_nodup net senders)
    (λ _, plain_sendable MReset I) He) as Hx.
  destruct (send_each send_ok _ net) as [fl n1]. simpl in Hx.
  destruct (process_and_send_request _ _ _ _ _ _) as [[res n2]|] eqn:E; simpl; [|done].
  intros [= <-]. eexists. split; [eapply process_expects; [done|done| | |exact E]|].
  - apply Hx.
    + intros id Hid%elem_of_iter. unfold G. rewrite decide_True by done. rewrite HF by done.
      by destruct (decide (id ∈ news)).
    + intros id Hid. unfold G. rewrite decide_False; [done|]. by rewrite <- (elem_of_iter net).
  - intros id Hid. unfold G. rewrite decide_True by done. case_decide; set_solver.
  - intros id Hid. simpl. by rewrite decide_True.
Qed.

Lemma init_running host secondaries r senders net net' :
  request_ready r → (∃ F, expects net F) →
  init_senders send_ok connect_ok iter get_one port_name host secondaries r ∅ net = Val (senders, net') →
  running senders net'.
Proof.
  intros Hf [F He]. unfold init_senders.
  destruct (create_senders_for_cluster_nodes _ _ _ _ _) as [[[news s1] n1]|] eqn:Ec; simpl; [|done].
  apply (create_expects _ _ _ F) in Ec as (H1 & H2 & H3); [|done].
  destruct (send_metadata _ _ _ _ _ _) as [n2|] eqn:Em; simpl; [|done].
  apply (metadata_expects _ _ _ _ _ _ H3) in Em; [|intros id Hid; simpl; rewrite decide_True by done; set_solver].
  destruct (send_request_to_secondary _ _ _ _ _ _ _) as [[res n3]|] eqn:Er; simpl; [|done].
  intros [= <- <-]. eapply request_running; [done|exact Em|set_solver| |exact Er].
  intros id Hid. simpl. apply H1 in Hid as [?|Hid]; [set_solver|]. by rewrite !decide_True.
Qed.

Lemma refresh_running host r t st st' :
  request_ready r → running (p_senders st) (p_net st) →
  refresh_senders send_ok connect_ok iter get_one port_name host r t st = Val st' →
  running (p_senders st') (p_net st').
Proof.
  intros Hf (F & He & Hrun). unfold refresh_senders.
  destruct (p_counter st =? 10); [|intros [= <-]; by exists F].
  destruct (create_senders_for_cluster_nodes _ _ _ _ _) as [[[news s1] n1]|] eqn:Ec; simpl; [|done].
  apply (create_expects _ _ _ F) in Ec as (H1 & H2 & H3); [|done].
  destruct news as [|n0 news'] eqn:En.
  - assert (H4 : expects n1 F) by (eapply expects_ext; [|exact H3]; by intros id).
    assert (Hr1 : ∀ id, id ∈ s1 → F id = PRunning) by set_solver.
    destruct (require_reset r) eqn:Err; simpl; [|intros [= <-]; by exists F].
    destruct (p_sender_dropped st); simpl; [|intros [= <-]; by exists F].
    destruct (reset_request _ _ _ _ _ _) as [n2|] eqn:Er; simpl; [|done]. intros [= <-].
    eapply (reset_running _ _ []); [done..| |exact Er]. intros id Hid. by apply Hr1.
  - rewrite <- En in *. clear En.
    destruct (send_metadata _ _ _ _ _ _) as [n2|] eqn:Em; simpl; [|done].
    apply (metadata_expects _ _ _ _ _ _ H3) in Em; [|intros id Hid; simpl; rewrite decide_True by done; set_solver].
    set (G := λ id, if decide (id ∈ news) then PMetadata else
                      if decide (id ∈ news) then PConnected else F id) in *.
    assert (HG : ∀ id, id ∈ s1 → G id = if decide (id ∈ news) then PMetadata else PRunning).
    { intros id Hid. unfold G. case_decide; [done|]. apply H1 in Hid as [Hid|]; [auto|done]. }
    destruct (require_reset r) eqn:Err.
    + destruct (reset_request _ _ _ _ _ _) as [n3|] eqn:Er; simpl; [|done]. intros [= <-].
      by eapply (reset_running _ _ news _ _ G).
    + destruct (send_request_to_secondary _ _ _ _ _ _ _) as [[res n3]|] eqn:Er; simpl; [|done].
      intros [= <-]. eapply (request_running _ _ news _ _ _ G); try done. set_solver.
Qed.

Lemma rates_running senders q c net net' res :
  running senders net →
  send_rate_message_to_secondaries send_ok iter senders q c net = Val (res, net') →
  running senders net'.
Proof.
  intros (F & He & Hr). unfold send_rate_message_to_secondaries.
  destruct (calculate_req_per_secondary _ _ _) as [[qs cs]|]; simpl; [|done].
  match goal with |- context [send_each send_ok ?l net] => set (msgs := l) end.
  assert (Hnd : NoDup (map fst msgs) ∧ ∀ id m, (id, m) ∈ msgs → id ∈ senders ∧ ∃ x, m = MRates x).
  { unfold msgs. split.
    - eapply sublist_NoDup; [apply (iter_nodup net senders)|]. generalize (iter net senders) (zip qs cs).
      intros ids. induction ids as [|id ids IH]; intros [|x l]; simpl; try apply sublist_nil_l.
      by apply sublist_skip.
    - intros id m Hm. apply elem_of_lookup_zip_with in Hm as (i & x & y & [= -> ->] & Hx & _).
      split; [|eauto]. apply (elem_of_iter net). by eapply list_elem_of_lookup_2. }
  destruct Hnd as [Hnd Hin].
  pose proof (send_each_expects msgs net F F Hnd He) as Hx.
  destruct (send_each send_ok msgs net) as [fl n1]. intros [= _ <-].
  exists F. split; [|done]. apply Hx; [|done]. intros id m Hm.
  destruct (Hin id m Hm) as [Hid [x ->]]. rewrite Hr by done. split; [by apply plain_sendable|done].
Qed.

Lemma tick_running host r t st st' :
  request_ready r → running (p_senders st) (p_net st) →
  primary_tick send_ok connect_ok iter get_one port_name host r t st = Val st' →
  running (p_senders st') (p_net st').
Proof.
  intros Hf Hrun. unfold primary_tick.
  destruct (refresh_senders _ _ _ _ _ _ _ _ _) as [st1|] eqn:E; simpl; [|done].
  apply refresh_running in E; [|done|done].
  case_decide; [by intros [= <-]|].
  destruct (send_rate_message_to_secondaries _ _ _ _ _ _) as [[res n1]|] eqn:Es; simpl; [|done].
  apply rates_running in Es; [|done]. destruct Es as (F & He & Hr).
  intros [= <-]. destruct res; exists F; (split; [done|]); simpl; [done|set_solver].
Qed.

Lemma loop_running host r ticks st st' :
  request_ready r → running (p_senders st) (p_net st) →
  primary_loop send_ok connect_ok iter get_one port_name host r ticks st = Val st' →
  running (p_senders st') (p_net st').
Proof.
  intros Hf. revert st. induction ticks as [|t ticks IH]; intros st Hrun; simpl; [by intros [= <-]|].
  destruct (must_stop t st); [by intros [= <-]|].
  destruct (primary_tick _ _ _ _ _ _ _ _ _) as [st1|] eqn:E; simpl; [|done].
  apply IH. by eapply tick_running.
Qed.

Lemma finish_expects ids net F :
  NoDup ids → expects net F → (∀ id, id ∈ ids → F id = PRunning) →
  ∃ G, expects (foldl (λ net id, send_end_msg send_ok id false net) net ids) G ∧
    (∀ id, id ∈ ids → G id = PDone) ∧ ∀ id, id ∉ ids → G id = F id.
Proof.
  revert net F. induction ids as [|id ids IH]; intros net F Hnd He Hr; simpl; [exists F; set_solver|].
  apply NoDup_cons in Hnd as [Hid Hnd]. set (F' := λ j, if decide (j = id) then PDone else F j).
  destruct (IH (send_end_msg send_ok id false net) F') as (G & HG & Hin & Hout); [done| | |].
  - unfold send_end_msg. apply send_expects with F; unfold F'; [by apply plain_sendable|done| |].
    + rewrite Hr by left. by rewrite decide_True.
    + intros j Hj. by rewrite decide_False.
  - intros j Hj. unfold F'. rewrite decide_False by congruence. apply Hr. by right.
  - exists G. split; [done|]. unfold F' in Hout. split.
    + intros j [->|Hj]%elem_of_cons; [|by apply Hin]. rewrite Hout by done. by rewrite decide_True.
    + intros j [Hj1 Hj2]%not_elem_of_cons. rewrite Hout by done. by rewrite decide_False.
Qed.

(** Where the protocol has led when the job is over. *)
Lemma job_expects host secondaries r ticks statuses net :
  request_ready r →
  primary_handle_request send_ok connect_ok iter get_one port_name host secondaries r ticks [] =
    Val (statuses, net) →
  ∃ senders n1 st G,
    init_senders send_ok connect_ok iter get_one port_name host secondaries r ∅ [] = Val (senders, n1) ∧
    primary_loop send_ok connect_ok iter get_one port_name host r ticks
      {| p_senders := senders; p_counter := 0; p_sender_dropped := false; p_net := n1 |} = Val st ∧
    net = foldl (λ net id, send_end_msg send_ok id false net) (p_net st) (iter (p_net st) (p_senders st)) ∧
    expects net G ∧ ∀ id, id ∈ p_senders st → G id = PDone.
Proof.
  intros Hf. unfold primary_handle_request. destruct (name r) as [n|]; simpl; [|done].
  destruct (init_senders _ _ _ _ _ _ _ _ _ _) as [[senders n1]|] eqn:Ei; simpl; [|done].
  pose proof Ei as Ei'. apply init_running in Ei'; [|done|].
  2: { exists (λ _, PIdle). intros j. exists PIdle. split; [done|auto]. }
  destruct (primary_loop _ _ _ _ _ _ _ _ _) as [st|] eqn:El; simpl; [|done].
  pose proof El as El'. apply loop_running in El' as (F & He & Hr); [|done..]. intros [= <- <-].
  destruct (finish_expects (iter (p_net st) (p_senders st)) (p_net st) F) as (G & HG & Hin & _);
    [apply iter_nodup|done|intros j Hj; by eapply Hr, elem_of_iter|].
  exists senders, n1, st, G. split_and!; try done. intros id Hid. apply Hin. by apply elem_of_iter.
Qed.

End Protocol.

(** ** Properties *)

(** C10: Whichever sends and connects fail, a primary keeps to the protocol: every secondary
    receives, in each session, metadata, then a request, then rates and resets, then the
    end, and never a message out of that order.  A split request file has to be readable
    whenever it is divided, and a send fails only because of its item or for good, the
    items of the job being ones that can be sent. *)
Theorem primary_follows_protocol {Compiled Hir AST Conn}
    (send_ok : list (event Compiled Hir AST Conn) → string → MessageFromPrimary Compiled Hir AST Conn → bool)
    connect_ok iter get_one port_name (sendable : MessageFromPrimary Compiled Hir AST Conn → Prop)
    host secondaries r ticks statuses net id :
  (∀ net id m, sendable m → send_ok net id m = false → broken send_ok net id) →
  (∀ m, match m with MRequest _ => False | _ => True end → sendable m) → request_sendable sendable r →
  (∀ net s, iter net s ≡ₚ elements s) → file_readable get_one r →
  primary_handle_request send_ok connect_ok iter get_one port_name host secondaries r ticks [] =
    Val (statuses, net) →
  is_Some (phase_of id net).
Proof.
  intros Hclosed Hplain Hs Hiter Hf Hj.
  apply (job_expects send_ok connect_ok iter get_one port_name sendable Hclosed Hiter Hplain) in Hj
    as (senders & n1 & st & G & _ & _ & _ & HG & _); [|done].
  destruct (HG id) as (p & Hp & _). eauto.
Qed.

(** ** Messages without rates

    Whatever is kept by sending messages that carry no rate and by connecting to a new
    secondary is kept when senders are set up and refreshed. *)
Section Silent.
  Context {Compiled Hir AST Conn : Type}.

Local Abbreviation Req := (Request Compiled Hir AST Conn).
Local Abbreviation Msg := (MessageFromPrimary Compiled Hir AST Conn).
Local Abbreviation Log := (list (event Compiled Hir AST Conn)).

  Context (send_ok : Log → string → Msg → bool).
  Context (connect_ok : Log → string → Z → bool).
  Context (iter : Log → gset string → list string).
  Context (get_one : Log → SplitRequestFile Conn → result string (list HttpReq) * SplitRequestFile Conn).
  Context (port_name : string).

Definition no_rate (m : Msg) : Prop := match m with MRates _ => False | _ => True end.

  Context (Inv : gset string → Log → Prop).
  Context (inv_send : ∀ s l net, Inv s net → Forall (λ im, no_rate im.2) l → Inv s (snd (send_each send_ok l net))).
  Context (inv_connect : ∀ s id net, id ∉ s → Inv s net → Inv ({[ id ]} ∪ s) (net ++ [Connected id])).

Lemma no_rate_fmap (f : string → Msg) ids :
  (∀ id, no_rate (f id)) → Forall (λ im, no_rate im.2) ((λ id, (id, f id)) <$> ids).
Proof. intros Hf. apply Forall_fmap, Forall_forall. intros id _. apply Hf. Qed.

Lemma create_senders_inv nodes senders net news senders' net' :
  Inv senders net → create_senders_for_cluster_nodes connect_ok port_name nodes senders net = Val (news, senders', net') →
  Inv senders' net' ∧ senders ⊆ senders'.
Proof.
  destruct nodes as [nodes|]; simpl; [|by intros Hn [= <- <- <-]].
  revert senders net news. induction nodes as [|n nodes IH]; intros senders net news Hn; simpl.
  { by intros [= <- <- <-]. }
  destruct (instance_id n) as [id|]; simpl; [|done]. case_decide; [by apply IH|].
  destruct (get_sender_for_secondary _ _ _ _); [|by apply IH].
  destruct (create_senders_loop _ _ _ _ _) as [[[news1 s1] n1]|] eqn:E; simpl; [|done].
  intros [= <- <- <-]. apply IH in E as [H1 H2]; [split; [done|set_solver]|by apply inv_connect].
Qed.

Lemma metadata_inv host s senders news net net' :
  Inv s net → send_metadata send_ok iter host senders news net = Val net' → Inv s net'.
Proof.
  intros Hn. unfold send_metadata. destruct host as [h|]; simpl; [|done]. intros [= <-].
  apply inv_send; [done|]. by apply no_rate_fmap.
Qed.

Lemma process_inv s r senders net res net' :
  Inv s net → process_and_send_request send_ok iter get_one r senders net = Val (res, net') → Inv s net'.
Proof.
  intros Hn. unfold process_and_send_request.
  destruct (req r) as [| |f| |]; simpl; try (by intros [= <- <-]).
  destruct (get_one net f) as [[rows|e] f']; simpl; [|by intros [= <- <-]].
  destruct (split_ranges _ _) as [splits|]; simpl; [|done]. case_match; [done|].
  match goal with |- context [send_each send_ok ?l net] => set (msgs := l) end.
  assert (Hm : Forall (λ im, no_rate im.2) msgs).
  { apply Forall_forall. intros im Him. unfold msgs in Him.
    apply elem_of_lookup_zip_with in Him as (i & x & y & -> & _). done. }
  pose proof (inv_send s msgs net Hn Hm) as Hs. destruct (send_each send_ok msgs net) as [fl n1].
  simpl in *. by intros [= _ <-].
Qed.

Lemma request_inv s r senders news net res net' :
  Inv s net → send_request_to_secondary send_ok iter get_one r senders news net = Val (res, net') → Inv s net'.
Proof.
  intros Hn. unfold send_request_to_secondary.
  pose proof (inv_send s ((λ id, (id, MRequest r)) <$> selected iter net senders news) net Hn) as Hs.
  destruct (req r) eqn:Er; try (by apply process_inv);
    (destruct (send_each send_ok _ net) as [fl n1]; intros [= _ <-]; apply Hs, no_rate_fmap; done).
Qed.

Lemma reset_inv s r senders net net' :
  Inv s net → reset_request send_ok iter get_one r senders net = Val net' → Inv s net'.
Proof.
  intros Hn. unfold reset_request.
  pose proof (inv_send s ((λ id, (id, MReset)) <$> iter net senders) net Hn) as Hs.
  destruct (send_each send_ok _ net) as [fl n1]. simpl in Hs.
  destruct (process_and_send_request _ _ _ _ _ _) as [[res n2]|] eqn:E; simpl; [|done]. intros [= <-].
  apply (process_inv s) in E; [done|]. by apply Hs, no_rate_fmap.
Qed.

Lemma init_inv host secondaries r senders net net' :
  Inv ∅ net → init_senders send_ok connect_ok iter get_one port_name host secondaries r ∅ net = Val (senders, net') →
  Inv senders net'.
Proof.
  intros Hn. unfold init_senders.
  destruct (create_senders_for_cluster_nodes _ _ _ _ _) as [[[news s1] n1]|] eqn:Ec; simpl; [|done].
  apply create_senders_inv in Ec as [Ec _]; [|done].
  destruct (send_metadata _ _ _ _ _ _) as [n2|] eqn:Em; simpl; [|done]. apply (metadata_inv _ s1) in Em; [|done].
  destruct (send_request_to_secondary _ _ _ _ _ _ _) as [[res n3]|] eqn:Er; simpl; [|done].
  apply (request_inv s1) in Er; [|done]. by intros [= <- <-].
Qed.

Lemma refresh_inv host r t st st' :
  Inv (p_senders st) (p_net st) → refresh_senders send_ok connect_ok iter get_one port_name host r t st = Val st' →
  Inv (p_senders st') (p_net st') ∧ p_senders st ⊆ p_senders st'.
Proof.
  intros Hn. unfold refresh_senders. destruct (p_counter st =? 10); [|by intros [= <-]].
  destruct (create_senders_for_cluster_nodes _ _ _ _ _) as [[[news s1] n1]|] eqn:Ec; simpl; [|done].
  apply create_senders_inv in Ec as [Ec Hsub]; [|done].
  match goal with |- ?e ≫= _ = _ → _ => destruct e as [[dr n2]|] eqn:E end; simpl; [|done]. intros [= <-].
  split; [|done]. simpl. destruct news as [|n0 news].
  - destruct (require_reset r && p_sender_dropped st); simpl in E; [|by injection E as _ <-].
    destruct (reset_request _ _ _ _ _ _) as [n3|] eqn:E3; simpl in E; [|done]. injection E as _ <-. by eapply reset_inv.
  - destruct (send_metadata _ _ _ _ _ _) as [n3|] eqn:Em; simpl in E; [|done]. apply (metadata_inv _ s1) in Em; [|done].
    destruct (require_reset r).
    + destruct (reset_request _ _ _ _ _ _) as [n4|] eqn:E4; simpl in E; [|done]. injection E as _ <-. by eapply reset_inv.
    + destruct (send_request_to_secondary _ _ _ _ _ _ _) as [[res n4]|] eqn:E4; simpl in E; [|done].
      injection E as _ <-. by eapply request_inv.
Qed.

End Silent.

Section SendAll.
  Context {Compiled Hir AST Conn : Type}.
  Context (send_ok : list (event Compiled Hir AST Conn) → string → MessageFromPrimary Compiled Hir AST Conn → bool).

Lemma send_each_all l net :
  (∀ net id m, send_ok net id m = true) →
  send_each send_ok l net = ([], net ++ ((λ im, Delivered im.1 im.2) <$> l)).
Proof.
  intros Hok. revert net. induction l as [|[id m] l IH]; intros net; simpl; [by rewrite app_nil_r|].
  unfold send. rewrite Hok. rewrite IH. by rewrite <- app_assoc.
Qed.

(** What a loop of sends does when each id is sent to once: the ids it reports are those
    whose send was refused, and everything else is delivered, in order. *)
Lemma send_each_outcome l net :
  NoDup (map fst l) →
  let '(failed, net') := send_each send_ok l net in
  failed `sublist_of` map fst l ∧
  net' = net ++ ((λ im, Delivered im.1 im.2) <$> filter (λ im, im.1 ∉ failed) l) ∧
  ∀ id m, (id, m) ∈ l → ∃ ext, send_ok (net ++ ext) id m = negb (bool_decide (id ∈ failed)).
Proof.
  revert net. induction l as [|[id m] l IH]; intros net Hnd; simpl.
  { split_and!; [done|by rewrite app_nil_r|]. intros id m Hm. by apply elem_of_nil in Hm. }
  apply NoDup_cons in Hnd as [Hid Hnd]. unfold send.
  destruct (send_ok net id m) eqn:E; simpl.
  - specialize (IH (net ++ [Delivered id m]) Hnd).
    destruct (send_each send_ok l (net ++ [Delivered id m])) as [failed n1]. destruct IH as (H1 & -> & H3).
    assert (id ∉ failed) as Hf by (intros Hin; apply Hid; by eapply elem_of_submseteq, sublist_submseteq).
    split_and!; [by apply sublist_cons| |].
    + rewrite filter_cons_True by done. simpl. by rewrite <- app_assoc.
    + intros j mj [[= -> ->]|Hj]%elem_of_cons.
      * exists []. rewrite app_nil_r, E. by rewrite bool_decide_false.
      * destruct (H3 j mj Hj) as [ext He]. exists ([Delivered id m] ++ ext). by rewrite app_assoc.
  - specialize (IH net Hnd). destruct (send_each send_ok l net) as [failed n1]. destruct IH as (H1 & -> & H3).
    assert (Hne : ∀ j mj, (j, mj) ∈ l → j ≠ id).
    { intros j mj Hj ->. apply Hid. by apply (list_elem_of_fmap_2 fst _ (id, mj)). }
    split_and!; [by apply sublist_skip| |].
    + rewrite filter_cons_False by (simpl; set_solver). do 2 f_equal. apply filter_ext_in.
      intros [j mj] Hj. specialize (Hne j mj Hj). simpl. set_solver.
    + intros j mj [[= -> ->]|Hj]%elem_of_cons.
      * exists []. rewrite app_nil_r, E. rewrite bool_decide_true by left. done.
      * destruct (H3 j mj Hj) as [ext He]. exists ext. rewrite He. f_equal.
        apply bool_decide_ext. specialize (Hne j mj Hj). set_solver.
Qed.

(** The ids that failed are ids that were sent to. *)
Lemma send_each_failed l net id : id ∈ fst (send_each send_ok l net) → id ∈ map fst l.
Proof.
  revert net. induction l as [|[j m] l IH]; intros net; simpl; [done|].
  destruct (send send_ok j m net) as [ok n1]. specialize (IH n1).
  destruct (send_each send_ok l n1) as [failed n2]. simpl in *.
  destruct ok; set_solver.
Qed.

End SendAll.

(** What is asked of the secondaries in a second: each sender has its share, and the
    shares add up to the rate and to the connections. *)
Definition shares (ids : list string) (q c : Z) (l : list (string * RateMessage)) : Prop :=
  map fst l = ids ∧ sumZ (map (λ ir, rm_qps ir.2) l) = q ∧ sumZ (map (λ ir, rm_connections ir.2) l) = c.

Lemma zip_shares ids qs cs :
  length ids = length qs → length qs = length cs →
  shares ids (sumZ qs) (sumZ cs)
    (zip_with (λ id qc, (id, {| rm_qps := fst qc; rm_connections := snd qc |})) ids (zip qs cs)).
Proof.
  revert qs cs. induction ids as [|id ids IH]; intros [|q qs] [|c cs]; simpl; try done.
  intros [= H1] [= H2]. destruct (IH qs cs H1 H2) as (E1 & E2 & E3). unfold shares. simpl.
  split_and!; f_equal; done.
Qed.

(** C28: In a second the rates are divided over all senders, so that the shares add up to
    what the generator asked for, whichever sends fail: each sender whose send succeeds
    receives its share in exactly one message, and exactly the others are reported, to be
    dropped from the senders; when no send fails, everything asked for is delivered. *)
Theorem rates_delivered_add_up {Compiled Hir AST Conn}
    (send_ok : list (event Compiled Hir AST Conn) → string → MessageFromPrimary Compiled Hir AST Conn → bool)
    iter (senders : gset string) q c net :
  (∀ net s, iter net s ≡ₚ elements s) →
  senders ≠ ∅ → Z.of_nat (size senders) <= u32_MAX → 0 <= q <= u32_MAX → 0 <= c <= u32_MAX →
  ∃ (l : list (string * RateMessage)) (failed : list string),
    send_rate_message_to_secondaries send_ok iter senders q c net =
      Val (match failed with [] => Ok tt | _ => Err failed end,
           net ++ ((λ ir, Delivered ir.1 (MRates ir.2)) <$> filter (λ ir, ir.1 ∉ failed) l)) ∧
    shares (iter net senders) q c l ∧ failed `sublist_of` iter net senders ∧
    (∀ id x, (id, x) ∈ l → ∃ ext, send_ok (net ++ ext) id (MRates x) = negb (bool_decide (id ∈ failed))) ∧
    ((∀ net id x, send_ok net id (MRates x) = true) → failed = []).
Proof.
  intros Hiter Hne Hsz Hq Hc. unfold send_rate_message_to_secondaries.
  assert (0 < Z.of_nat (size senders)).
  { assert (size senders ≠ 0%nat); [|lia]. by intros Hs%size_empty_iff%leibniz_equiv. }
  destruct (calculate_req_shares q c (Z.of_nat (size senders))) as (qs & cs & -> & Lq & Lc & <- & <- & _);
    [lia..|].
  assert (Hl : length (iter net senders) = length qs).
  { rewrite (Permutation_length (Hiter net senders)). unfold len in Lq. unfold size, set_size in *. simpl in *. lia. }
  assert (length qs = length cs) as Hqc by (unfold len in *; lia). clear Lq Lc.
  pose proof (zip_shares (iter net senders) qs cs Hl Hqc) as Hsh.
  set (l := zip_with _ (iter net senders) (zip qs cs)) in Hsh.
  assert (El : zip_with (λ id qc, (id, MRates {| rm_qps := fst qc; rm_connections := snd qc |}))
    (iter net senders) (zip qs cs) = (λ ir, (ir.1, @MRates Compiled Hir AST Conn ir.2)) <$> l)
    by (unfold l; clear; generalize (iter net senders), (zip qs cs); intros ids x; revert x;
        induction ids as [|id ids IH]; intros [|y x]; simpl; [done..|by f_equal]).
  cbn [mbind outcome_bind]. rewrite El.
  assert (Hfst : map fst ((λ ir, (ir.1, @MRates Compiled Hir AST Conn ir.2)) <$> l) = iter net senders).
  { rewrite <- (proj1 Hsh). clearbody l. clear. induction l as [|x l IH]; simpl; [done|by f_equal]. }
  pose proof (send_each_outcome send_ok ((λ ir, (ir.1, MRates ir.2)) <$> l) net) as Ho.
  rewrite Hfst in Ho. specialize (Ho ltac:(rewrite Hiter; apply NoDup_elements)).
  destruct (send_each _ _ _) as [failed n1]. destruct Ho as (H1 & -> & H3).
  assert (H4 : ∀ id x, (id, x) ∈ l →
    ∃ ext, send_ok (net ++ ext) id (MRates x) = negb (bool_decide (id ∈ failed))).
  { intros id x Hx. apply H3. by apply (list_elem_of_fmap_2 (λ ir, (ir.1, MRates ir.2)) _ (id, x)). }
  exists l, failed. split_and!; [|done..|].
  - do 3 f_equal. clearbody l. clear. induction l as [|x l IH]; [done|]. rewrite fmap_cons, !filter_cons.
    simpl. case_decide; simpl; [by f_equal|done].
  - intros Hall. destruct failed as [|id failed]; [done|].
    assert (id ∈ map fst l) as Hid.
    { rewrite (proj1 Hsh). eapply elem_of_submseteq; [left|by apply sublist_submseteq]. }
    apply list_elem_of_fmap_1 in Hid as ([id' x] & -> & Hx). destruct (H4 id' x Hx) as [ext He].
    rewrite Hall, bool_decide_true in He by (simpl; left). done.
Qed.

(** A job that replays a split file panics, and stays in the status it has, when no
    secondary can be connected: the rows are divided by the number of senders, zero. *)
Theorem split_without_senders_panics {Compiled Hir AST Conn}
    (send_ok : list (event Compiled Hir AST Conn) → string → MessageFromPrimary Compiled Hir AST Conn → bool)
    connect_ok iter get_one port_name host h nodes r n f ticks net :
  (∀ net h p, connect_ok net h p = false) → (∀ net s, iter net s ≡ₚ elements s) →
  host = Some h → name r = Some n → Forall (λ x, is_Some (instance_id x)) nodes →
  req r = RSSplitRequestFile f → file_readable get_one r →
  primary_handle_request send_ok connect_ok iter get_one port_name host (Some nodes) r ticks net = Panic.
Proof.
  intros Hcon Hiter -> Hn Hids Hr Hf. unfold primary_handle_request. rewrite Hn. simpl.
  assert (Hcreate : create_senders_loop connect_ok port_name nodes ∅ net = Val ([], ∅, net)).
  { induction Hids as [|x nodes [id Hid] Hids IH]; simpl; [done|]. rewrite Hid. simpl.
    rewrite decide_False by set_solver. unfold get_sender_for_secondary.
    destruct (secondary_address port_name x) as [[a b]|]; [rewrite Hcon|]; done. }
  unfold init_senders. simpl. rewrite Hcreate. simpl. unfold send_request_to_secondary.
  rewrite Hr. unfold process_and_send_request. rewrite Hr.
  match goal with |- context [get_one ?n f] => by destruct (Hf n f Hr) as (rows & f' & ->) end.
Qed.

(** *** Stopping *)

Section Stop.
  Context {Compiled Hir AST Conn : Type}.
  Context (send_ok : list (event Compiled Hir AST Conn) → string → MessageFromPrimary Compiled Hir AST Conn → bool).
  Context (connect_ok : list (event Compiled Hir AST Conn) → string → Z → bool).
  Context (iter : list (event Compiled Hir AST Conn) → gset string → list string).
  Context (get_one : list (event Compiled Hir AST Conn) → SplitRequestFile Conn → result string (list HttpReq) * SplitRequestFile Conn).
  Context (port_name : string).

Lemma refresh_counter host r t st st' :
  refresh_senders send_ok connect_ok iter get_one port_name host r t st = Val st' →
  p_counter st' = if p_counter st =? 10 then 0 else p_counter st + 1.
Proof.
  unfold refresh_senders. destruct (p_counter st =? 10); [|by intros [= <-]].
  destruct (create_senders_for_cluster_nodes _ _ _ _ _) as [[[news s1] n1]|]; simpl; [|done].
  match goal with |- ?e ≫= _ = _ → _ => destruct e as [[d n2]|] end; simpl; [|done].
  by intros [= <-].
Qed.

Lemma tick_counter host r t st st' :
  primary_tick send_ok connect_ok iter get_one port_name host r t st = Val st' →
  p_counter st' = if p_counter st =? 10 then 0 else p_counter st + 1.
Proof.
  unfold primary_tick. destruct (refresh_senders _ _ _ _ _ _ _ _ _) as [st1|] eqn:E; simpl; [|done].
  apply refresh_counter in E. case_decide; [by intros [= <-]|].
  destruct (send_rate_message_to_secondaries _ _ _ _ _ _) as [[res n1]|]; simpl; [|done].
  intros [= <-]. by destruct res.
Qed.

(** From a counter that is [k] turns away from a check. *)
Lemma stopped_loop_take host r ticks st k :
  0 <= p_counter st <= 10 → (p_counter st + Z.of_nat k) mod 5 = 0 → p_counter st + Z.of_nat k <= 10 →
  Forall (λ t, t_stopped t = true) ticks →
  primary_loop send_ok connect_ok iter get_one port_name host r ticks st =
  primary_loop send_ok connect_ok iter get_one port_name host r (take k ticks) st.
Proof.
  revert ticks st. induction k as [|k IH]; intros ticks st Hc Hm Hle Hs.
  - rewrite Z.add_0_r in Hm. simpl. destruct Hs as [|t ticks Ht Hs]; [done|].
    cbn [primary_loop]. unfold must_stop. by rewrite Hm, Ht.
  - destruct Hs as [|t ticks Ht Hs]; [done|]. cbn [take primary_loop].
    destruct (must_stop t st); [done|].
    destruct (primary_tick _ _ _ _ _ _ _ _ _) as [st1|] eqn:E; simpl; [|done].
    apply tick_counter in E. destruct (Z.eqb_spec (p_counter st) 10); [lia|].
    rewrite Nat2Z.inj_succ in *. apply IH; [lia| |lia|done].
    rewrite E. rewrite <- Hm. f_equal. lia.
Qed.

(** The number of turns until the next check. *)
Lemma next_check c : 0 <= c <= 10 → ∃ k, (k <= 4)%nat ∧ (c + Z.of_nat k) mod 5 = 0 ∧ c + Z.of_nat k <= 10.
Proof.
  intros Hc. exists (Z.to_nat ((- c) mod 5)).
  pose proof (Z.mod_pos_bound (- c) 5 ltac:(lia)). pose proof (Z.div_mod (- c) 5 ltac:(lia)).
  rewrite Z2Nat.id by lia. split; [lia|]. split; [|lia].
  replace (c + (- c) mod 5) with ((- ((- c) / 5)) * 5) by lia. apply Z_mod_mult.
Qed.

Lemma stopped_loop_four host r ticks st :
  0 <= p_counter st <= 10 → Forall (λ t, t_stopped t = true) ticks →
  primary_loop send_ok connect_ok iter get_one port_name host r ticks st =
  primary_loop send_ok connect_ok iter get_one port_name host r (take 4 ticks) st.
Proof.
  intros Hc Hs. destruct (next_check _ Hc) as (k & Hk & Hm & Hle).
  rewrite (stopped_loop_take host r ticks st k) by done.
  rewrite (stopped_loop_take host r (take 4 ticks) st k); [|done..|by apply Forall_take].
  by rewrite take_take, Nat.min_l by lia.
Qed.

End Stop.

(** A job stops at most four seconds after its status was set to stopped: whatever the
    turns before, of the turns that see the job stopped only the first four can send
    anything. *)
Theorem stop_takes_four_seconds {Compiled Hir AST Conn}
    (send_ok : list (event Compiled Hir AST Conn) → string → MessageFromPrimary Compiled Hir AST Conn → bool)
    connect_ok iter get_one port_name host r before after st :
  0 <= p_counter st <= 10 → Forall (λ t, t_stopped t = true) after →
  primary_loop send_ok connect_ok iter get_one port_name host r (before ++ after) st =
  primary_loop send_ok connect_ok iter get_one port_name host r (before ++ take 4 after) st.
Proof.
  intros Hc Hs. revert st Hc. induction before as [|t before IH]; intros st Hc.
  { by apply stopped_loop_four. }
  cbn [app primary_loop]. destruct (must_stop t st); [done|].
  destruct (primary_tick _ _ _ _ _ _ _ _ _) as [st1|] eqn:E; simpl; [|done].
  apply tick_counter in E. apply IH. rewrite E. case_match; bool_simp; lia.
Qed.

(** The final status of a job is [Completed] also when it was stopped: the loop ends, the
    secondaries are told [Finished] and the table is overwritten. *)
Theorem stopped_job_reported_completed {Compiled Hir AST Conn}
    (send_ok : list (event Compiled Hir AST Conn) → string → MessageFromPrimary Compiled Hir AST Conn → bool)
    connect_ok iter get_one port_name host secondaries r ticks net statuses net' :
  primary_handle_request send_ok connect_ok iter get_one port_name host secondaries r ticks net =
    Val (statuses, net') →
  last statuses = Some Completed.
Proof.
  unfold primary_handle_request. destruct (name r); simpl; [|done].
  destruct (init_senders _ _ _ _ _ _ _ _ _ _) as [[snd1 n1]|]; simpl; [|done].
  destruct (primary_loop _ _ _ _ _ _ _ _ _) as [st|]; simpl; [|done]. by intros [= <- _].
Qed.

(** ** Concrete inputs *)

Definition demo_request : Request unit unit unit unit :=
  {| name := Some "job"%string; duration := 2; target := demo_target;
     req := RSSplitRequestFile {| sf_file_name := "f"; sf_inner := None; sf_size := 10;
       range_start_inclusive := 0; range_end_inclusive := 0; next_read_cursor := 0 |};
     qps := RateConstant {| cr_count_per_sec := 3 |};
     concurrent_connection := default_concurrent_connection;
     connection_keep_alive := keep_alive_default;
     histogram_buckets := default_histogram_bucket; response_assertion := None;
     generation_mode := default_generation_mode |}.

Definition demo_node (id : string) : Node :=
  {| instance_id := Some id; node_host := Some id; node_ports := Some [(Some "tcp-remoc"%string, 3031)] |}.

Definition demo_ticks : list Tick :=
  [{| t_rates := (7, 2); t_stopped := false; t_secondaries := None |};
   {| t_rates := (7, 2); t_stopped := false; t_secondaries := None |}].

Definition demo_get_one (net : list (event unit unit unit unit)) (f : SplitRequestFile unit) : result string (list HttpReq) * SplitRequestFile unit :=
  (Ok [], f).

(** A network on which [b] cannot be reached after it was connected. *)
Definition demo_send_ok (net : list (event unit unit unit unit)) (id : string)
    (m : MessageFromPrimary unit unit unit unit) : bool := negb (String.eqb id "b").

Definition demo_run : outcome (list JobStatus * list (event unit unit unit unit)) :=
  primary_handle_request demo_send_ok (λ _ _ _, true) (λ _, elements) demo_get_one "tcp-remoc"
    (Some "p"%string) (Some [demo_node "a"; demo_node "b"]) demo_request demo_ticks [].

Definition demo_log : list (event unit unit unit unit) :=
  match demo_run with Val (_, net) => net | Panic => [] end.

Lemma demo_closed net id m : demo_send_ok net id m = false → broken demo_send_ok net id.
Proof. intros H ext m' _. exact H. Qed.

Lemma demo_readable : file_readable demo_get_one demo_request.
Proof. intros net f _. by exists [], f. Qed.

Lemma primary_follows_protocol_witness : is_Some (phase_of "a" demo_log).
Proof.
  apply (primary_follows_protocol demo_send_ok (λ _ _ _, true) (λ _, elements) demo_get_one "tcp-remoc"
    (λ m, match m with MRequest q => q.(name) ≠ None | _ => True end)
    (Some "p"%string) (Some [demo_node "a"; demo_node "b"]) demo_request demo_ticks
    [Starting; InProgress; Completed] demo_log "a").
  - intros net id m _. apply demo_closed.
  - by intros [].
  - split; [discriminate|]. intros f. discriminate.
  - reflexivity.
  - exact demo_readable.
  - vm_compute. reflexivity.
Defined.

(** With [b] unreachable, [a] gets its share, and [b] is reported. *)
Lemma rates_delivered_add_up_witness :
  ∃ (l : list (string * RateMessage)) failed,
    send_rate_message_to_secondaries demo_send_ok
      (λ _, elements) {[ "a"%string; "b"%string ]} 7 2 [] =
      Val (match failed with [] => Ok tt | _ => Err failed end,
           [] ++ ((λ ir, Delivered ir.1 (MRates ir.2)) <$> filter (λ ir, ir.1 ∉ failed) l)) ∧
    sumZ (map (λ ir, rm_qps ir.2) l) = 7 ∧ failed `sublist_of` elements ({[ "a"%string; "b"%string ]} : gset string).
Proof.
  destruct (rates_delivered_add_up demo_send_ok (λ _, elements)
    {[ "a"%string; "b"%string ]} 7 2 []) as (l & failed & H1 & (_ & H2 & _) & H3 & _);
    [reflexivity|discriminate|vm_compute; discriminate|lia|lia|].
  exists l, failed. split; [exact H1|]. split; [exact H2|exact H3].
Defined.

Lemma split_without_senders_panics_witness :
  primary_handle_request demo_send_ok (λ _ _ _, false) (λ _, elements) demo_get_one "tcp-remoc"
    (Some "p"%string) (Some [demo_node "a"]) demo_request demo_ticks [] = Panic.
Proof.
  eapply (split_without_senders_panics demo_send_ok (λ _ _ _, false) (λ _, elements) demo_get_one "tcp-remoc"
    (Some "p"%string) "p" [demo_node "a"] demo_request "job" _ demo_ticks []);
    try reflexivity; [|exact demo_readable].
  apply Forall_cons_2; [|apply Forall_nil_2]. exists "a"%string. reflexivity.
Defined.

Lemma stop_takes_four_seconds_witness :
  let stopped := {| t_rates := (7, 2); t_stopped := true; t_secondaries := None |} in
  let st := {| p_senders := {[ "a"%string ]}; p_counter := 6; p_sender_dropped := false; p_net := [] |} in
  let run ticks := primary_loop demo_send_ok (λ _ _ _, true) (λ _, elements) demo_get_one "tcp-remoc"
                     (Some "p"%string) demo_request ticks st in
  run (replicate 9 stopped) = run (replicate 4 stopped).
Proof.
  intros stopped st run.
  refine (stop_takes_four_seconds demo_send_ok (λ _ _ _, true) (λ _, elements) demo_get_one "tcp-remoc"
    (Some "p"%string) demo_request [] (replicate 9 stopped) st _ _).
  - simpl. lia.
  - apply Forall_replicate. reflexivity.
Defined.

Lemma stopped_job_reported_completed_witness :
  last [Starting; InProgress; Completed] = Some Completed.
Proof.
  apply (stopped_job_reported_completed demo_send_ok (λ _ _ _, true) (λ _, elements) demo_get_one "tcp-remoc"
    (Some "p"%string) (Some [demo_node "a"]) demo_request
    [{| t_rates := (7, 2); t_stopped := true; t_secondaries := None |}] [] _
    (match primary_handle_request demo_send_ok (λ _ _ _, true) (λ _, elements) demo_get_one "tcp-remoc"
      (Some "p"%string) (Some [demo_node "a"]) demo_request
      [{| t_rates := (7, 2); t_stopped := true; t_secondaries := None |}] [] with
     | Val (_, net) => net | Panic => [] end)).
  vm_compute. reflexivity.
Defined.
