(* ===== verification/Cycle.v ===== *)
(** * Sending the requests of one second

    The sending half of [cluster-executor/src/secondary.rs], with the environment
    variables of [common-env/src/lib.rs]: [send_n_request_in_t_duration] (immediate mode),
    [send_multiple_requests] (batch mode), what both use, and the handlers of a rate
    message.

    Instants are nanoseconds of a monotonic clock.  A cycle is a list of [Turn]s, one per
    iteration of its loop: what the other tasks did to the pool, the results of the
    readiness checks and how long the steps of the iteration took beyond the time it
    sleeps.  A cycle that does not end within the turns, or does not return at all, is
    [None].  The pool is the transition system of [Pool]; requests come from any
    [RequestProvider]. *)
From Stdlib Require Import ZArith Lia.
From Corelib Require Import SpecFloat.
From stdpp Require Import base list gmap strings numbers sets relations.
From S2P Require Import Prelude Float32 Json DataGen Template HttpTypes Pool UrlParams Providers Primary.

Local Open Scope Z_scope.
Local Open Scope rust_scope.

(** ** Configuration *)

Definition request_bundle_size (env : string → option string) : Z :=
  default 50 (env "REQUEST_BUNDLE_SIZE"%string ≫= parse_unsigned u16_MAX).

Definition env_wait_on_no_connection (env : string → option string) : Z :=
  default 100 (env "WAIT_ON_NO_CONNECTION"%string ≫= parse_unsigned u64_MAX).

(** The trait [LoadGenerationLogic]; [unimplemented!()] panics. *)
Class LoadGenerationLogic (T : Type) := {
  interval_duration : T → Z → Z → outcome Z;
  bundle_size : T → outcome Z;
  wait_on_no_connection : T → Z
}.

#[export] Instance mode_logic : LoadGenerationLogic LoadGenerationMode := {|
  interval_duration self _ _ := match self with Batch _ => Panic | Immediate => Val 1 end;
  bundle_size self := match self with Batch _ => Panic | Immediate => Val u16_MAX end;
  wait_on_no_connection _ := 2
|}.

(** ** Time *)

Definition CYCLE_LENGTH_IN_MILLIS : Z := 1000.

(** [start.elapsed().as_millis()] *)
Definition elapsed_ms (start now : Z) : Z := Z.max 0 (now - start) / 1000000.

Definition time_remaining (start now : Z) : Z := CYCLE_LENGTH_IN_MILLIS - elapsed_ms start now.

(** The clock after sleeping for [ms] and [extra] nanoseconds more. *)
Definition after_sleep (ms : Z) (extra : N) (now : Z) : Z := now + ms * 1000000 + Z.of_N extra.

(** ** Filling up the requests of a batch *)

(** The loop of [fill_req_if_less_than_connections]. *)
Fixpoint fill_loop (fuel : nat) (available_req i need_to_insert : nat)
    (requests_to_send : list HttpReq) : option (outcome (list HttpReq)) :=
  match fuel with
  | O => None
  | S fuel' =>
      match need_to_insert with
      | O => Some (Val requests_to_send)
      | S need' =>
          if (i <? available_req)%nat then
            match requests_to_send !! i with
            | Some r => fill_loop fuel' available_req (S i) need' (requests_to_send ++ [r])
            | None => Some Panic
            end
          else fill_loop fuel' available_req O need_to_insert requests_to_send
      end
  end.

Definition fill_req_if_less_than_connections (fuel : nat) (available_connection available_req : nat)
    (requests_to_send : list HttpReq) : option (outcome (list HttpReq)) :=
  fill_loop fuel available_req 0 (available_connection - available_req) requests_to_send.

(** Iterations that are enough when there is a request to copy. *)
Definition fill_fuel (available_connection : nat) : nat := (2 * available_connection + 1)%nat.

(** ** The loop of a cycle *)

(** What one iteration meets: what other tasks do to the pool before [get_connections] and
    while it waits, the results of the readiness checks, and how long the steps take. *)
Record Turn := {
  tn_env : PoolSys → PoolSys;
  tn_between1 : PoolSys → PoolSys;
  tn_between2 : PoolSys → PoolSys;
  tn_complete : list HttpConnection → list (HttpConnection * bool);
  tn_get : N;
  tn_send : N;
  tn_over : N
}.

(** How a cycle ends: every request was sent, the time was up, or no requests could be
    generated. *)
Inductive cycle_end := AllSent | GaveUp | NoRequests.

Definition CycleBatch : Type := list (HttpConnection * HttpReq).

Section Loop.
  Context {Rng Spec : Type} `{!RequestProvider Rng Spec} {Sleep : Type}.
  Context (fuel : nat).

(** [sleep_time], the clock, the pool, the request spec, and the batches that were spawned. *)
Record CycleState := {
  cy_remaining : Z;
  cy_sleep : Sleep;
  cy_clock : Z;
  cy_sys : PoolSys;
  cy_spec : Spec;
  cy_rng : Rng;
  cy_sent : list CycleBatch
}.

(** What the two modes do differently: the size of a bundle, the wait when there is no
    connection, the new sleep time, its length, and whether an empty list of requests
    ends the cycle. *)
Record CycleMode := {
  cm_bundle : Z;
  cm_wait : Z;
  cm_resleep : Z → Z → outcome Sleep;
  cm_millis : Sleep → Z;
  cm_stop_on_empty : bool
}.

(** The requests of a batch: as many as there are connections, or the reason to stop. *)
Definition batch_requests (m : CycleMode) (available_connection : Z) (spec : Spec) (g : Rng) :
    option (outcome (option (list HttpReq) * Spec * Rng)) :=
  r ← get_n fuel available_connection spec g;
  match r with
  | Panic => Some Panic
  | Val (Err _, spec, g) => Some (Val (None, spec, g))
  | Val (Ok reqs, spec, g) =>
      let available_req := length reqs in
      if cm_stop_on_empty m && (available_req =? 0)%nat then Some (Val (None, spec, g))
      else
        let n := Z.to_nat available_connection in
        if (available_req <? n)%nat then
          r ← fill_req_if_less_than_connections (fill_fuel n) n available_req reqs;
          match r with Panic => Some Panic | Val reqs => Some (Val (Some reqs, spec, g)) end
        else Some (Val (Some reqs, spec, g))
  end.

(** [connections.drain(..)] paired with [requests_to_send.pop()]. *)
Definition pair_up (conns : list HttpConnection) (reqs : list HttpReq) : CycleBatch :=
  zip conns (reverse reqs).

(** One iteration: the cycle ends, or goes on. *)
Definition cycle_turn (m : CycleMode) (start : Z) (t : Turn) (st : CycleState) :
    option (outcome (cycle_end * CycleState + CycleState)) :=
  let remaining_t := time_remaining start (cy_clock st) in
  if remaining_t <? 0 then Some (Val (inl (GaveUp, st)))
  else
    let requested_connection := Z.min (wrap 32 (cm_bundle m)) (cy_remaining st) in
    let '(sys, conns) := get_connections (tn_between1 t) (tn_between2 t) (tn_complete t)
                           requested_connection (tn_env t (cy_sys st)) in
    let available_connection := len conns in
    let now := cy_clock st + Z.of_N (tn_get t) in
    if available_connection <? 1 then
      let now := after_sleep (cm_wait m) (tn_over t) now in
      match cm_resleep m (time_remaining start now) (cy_remaining st) with
      | Panic => Some Panic
      | Val sl =>
          Some (Val (inr {| cy_remaining := cy_remaining st; cy_sleep := sl; cy_clock := now;
                            cy_sys := sys; cy_spec := cy_spec st; cy_rng := cy_rng st;
                            cy_sent := cy_sent st |}))
      end
    else
      match (if available_connection <? requested_connection
             then cm_resleep m (time_remaining start now) (cy_remaining st)
             else Val (cy_sleep st)) with
      | Panic => Some Panic
      | Val sl =>
          r ← batch_requests m available_connection (cy_spec st) (cy_rng st);
          match r with
          | Panic => Some Panic
          | Val (None, spec, g) =>
              Some (Val (inl (NoRequests, {| cy_remaining := cy_remaining st; cy_sleep := sl;
                cy_clock := now; cy_sys := sys; cy_spec := spec; cy_rng := g;
                cy_sent := cy_sent st |})))
          | Val (Some reqs, spec, g) =>
              let now := now + Z.of_N (tn_send t) in
              let st' := {| cy_remaining := cy_remaining st -u32 available_connection; cy_sleep := sl;
                            cy_clock := now; cy_sys := sys; cy_spec := spec; cy_rng := g;
                            cy_sent := cy_sent st ++ [pair_up conns reqs] |} in
              Some (Val
                (if time_remaining start now <? 0 then inl (GaveUp, st')
                 else if cy_remaining st' =? 0 then inl (AllSent, st')
                 else inr {| cy_remaining := cy_remaining st'; cy_sleep := sl;
                             cy_clock := after_sleep (cm_millis m sl) (tn_over t) now;
                             cy_sys := sys; cy_spec := spec; cy_rng := g; cy_sent := cy_sent st' |}))
          end
      end.

Fixpoint cycle_loop (m : CycleMode) (start : Z) (turns : list Turn) (st : CycleState) :
    option (outcome (cycle_end * CycleState)) :=
  match turns with
  | [] => None
  | t :: turns' =>
      r ← cycle_turn m start t st;
      match r with
      | Panic => Some Panic
      | Val (inl e) => Some (Val e)
      | Val (inr st') => cycle_loop m start turns' st'
      end
  end.

End Loop.

Arguments CycleState : clear implicits.
Arguments CycleMode : clear implicits.

(** ** The two modes *)

Section Modes.
  Context {Rng Spec : Type} `{!RequestProvider Rng Spec}.
  Context (fuel : nat) (env : string → option string).

(** What a cycle leaves behind; [cr_end] is [None] when the loop was not entered. *)
Record CycleResult := {
  cr_end : option cycle_end;
  cr_clock : Z;
  cr_sys : PoolSys;
  cr_spec : Spec;
  cr_rng : Rng;
  cr_sent : list CycleBatch
}.

Definition nothing_sent (now : Z) (sys : PoolSys) (spec : Spec) (g : Rng) : CycleResult :=
  {| cr_end := None; cr_clock := now; cr_sys := sys; cr_spec := spec; cr_rng := g; cr_sent := [] |}.

Definition cycle_result {Sleep} (r : outcome (cycle_end * CycleState Rng Spec Sleep)) :
    outcome CycleResult :=
  '(e, st) ← r;
  Val {| cr_end := Some e; cr_clock := cy_clock st; cr_sys := cy_sys st; cr_spec := cy_spec st;
         cr_rng := cy_rng st; cr_sent := cy_sent st |}.

(** *** Immediate mode *)

Section Immediate.
  Context {T : Type} `{!LoadGenerationLogic T}.

Definition immediate_mode (logic : T) (b : Z) : CycleMode Z :=
  {| cm_bundle := b; cm_wait := wait_on_no_connection logic;
     cm_resleep left remaining := interval_duration logic (wrap 64 left) remaining;
     cm_millis sl := sl; cm_stop_on_empty := true |}.

(** [send_n_request_in_t_duration], entered at [now]. *)
Definition send_n_request_in_t_duration (rate : RateMessage) (logic : T) (start_of_cycle now : Z)
    (turns : list Turn) (sys : PoolSys) (spec : Spec) (g : Rng) : option (outcome CycleResult) :=
  let number_of_req := rm_qps rate in
  if time_remaining start_of_cycle now <? 10 then Some (Val (nothing_sent now sys spec g))
  else if number_of_req =? 0 then Some (Val (nothing_sent now sys spec g))
  else
    match bundle_size logic with
    | Panic => Some Panic
    | Val b =>
        match interval_duration logic (wrap 64 (time_remaining start_of_cycle now)) number_of_req with
        | Panic => Some Panic
        | Val sleep_time =>
            cycle_result <$>
              cycle_loop fuel (immediate_mode logic b) start_of_cycle turns
                {| cy_remaining := number_of_req; cy_sleep := sleep_time; cy_clock := now;
                   cy_sys := sys; cy_spec := spec; cy_rng := g; cy_sent := [] |}
        end
    end.

End Immediate.

(** *** Batch mode *)

(** [interval_between_requests] *)
Definition interval_between_requests (remaining_time_in_cycle remaining_requests : Z) : f32 :=
  if remaining_time_in_cycle <? 1 then f32_of_Z 0
  else f32_div (f32_of_Z remaining_time_in_cycle) (f32_of_Z remaining_requests).

(** The size of a bundle; an elastic pool has [connection_count] 0. *)
Definition batch_bundle_size (number_of_req connection_count : Z) : Z :=
  let request_bundle_size :=
    Z.max ((number_of_req / 100) +u32 1) (wrap 32 (request_bundle_size env)) in
  if connection_count =? 0 then Z.min number_of_req request_bundle_size
  else Z.min number_of_req (Z.min connection_count request_bundle_size).

Definition batch_mode (b : Z) : CycleMode f32 :=
  {| cm_bundle := b; cm_wait := env_wait_on_no_connection env;
     cm_resleep left remaining :=
       Val (f32_floor (f32_mul (interval_between_requests left remaining) (f32_of_Z b)));
     cm_millis := f32_as_u64; cm_stop_on_empty := false |}.

(** [send_multiple_requests], entered at [now]. *)
Definition send_multiple_requests (number_of_req connection_count start_of_cycle now : Z)
    (turns : list Turn) (sys : PoolSys) (spec : Spec) (g : Rng) : option (outcome CycleResult) :=
  if number_of_req =? 0 then Some (Val (nothing_sent now sys spec g))
  else
    let b := batch_bundle_size number_of_req connection_count in
    let sleep_time := f32_mul (interval_between_requests (time_remaining start_of_cycle now) number_of_req)
                        (f32_of_Z b) in
    let sleep_time := f32_floor (f32_sub sleep_time (f32_mul sleep_time f32_0_1)) in
    cycle_result <$>
      cycle_loop fuel (batch_mode b) start_of_cycle turns
        {| cy_remaining := number_of_req; cy_sleep := sleep_time; cy_clock := now;
           cy_sys := sys; cy_spec := spec; cy_rng := g; cy_sent := [] |}.

(** *** Handling a rate message *)

(** Resizing the pool when the number of connections changed, noting its use at [now]. *)
Definition apply_connections (prev_connection_count connections now : Z) (sys : PoolSys) : PoolSys :=
  sys_touch now
    (if prev_connection_count =? connections then sys
     else sys_size connections (sys_set connections sys)).

(** The start of the cycle, moved back when the previous cycle took too long. *)
Definition corrected_with_offset (start_of_cycle time_offset : Z) : outcome Z :=
  if 0 <? time_offset then
    let t := start_of_cycle - wrap 64 time_offset * 1000000 in
    if t <? 0 then Panic else Val t
  else Val start_of_cycle.

(** What a handler keeps from one message to the next. *)
Record ExecutionContext := {
  prev_connection_count : Z;
  time_offset : Z;
  ctx_sys : PoolSys;
  request_spec : Spec;
  ctx_rng : Rng
}.

(** The end of both handlers. *)
Definition end_of_cycle (start_of_cycle connections : Z) (r : CycleResult) : ExecutionContext :=
  {| prev_connection_count := connections;
     time_offset := elapsed_ms start_of_cycle (cr_clock r) - CYCLE_LENGTH_IN_MILLIS;
     ctx_sys := cr_sys r; request_spec := cr_spec r; ctx_rng := cr_rng r |}.

(** [handle_rate_msg_v2]: called at [now], resizing the pool takes [setup]. *)
Definition handle_rate_msg_v2 {T} `{!LoadGenerationLogic T} (logic : T) (rate : RateMessage)
    (now : Z) (setup : N) (turns : list Turn) (ctx : ExecutionContext) :
    option (outcome (ExecutionContext * CycleResult)) :=
  let start_of_cycle := now in
  let now := now + Z.of_N setup in
  let sys := apply_connections (prev_connection_count ctx) (rm_connections rate) now (ctx_sys ctx) in
  match corrected_with_offset start_of_cycle (time_offset ctx) with
  | Panic => Some Panic
  | Val start =>
      r ← send_n_request_in_t_duration rate logic start now turns sys (request_spec ctx) (ctx_rng ctx);
      match r with
      | Panic => Some Panic
      | Val r => Some (Val (end_of_cycle start_of_cycle (rm_connections rate) r, r))
      end
  end.

(** [handle_rate_msg] *)
Definition handle_rate_msg (rate : RateMessage) (now : Z) (setup : N) (turns : list Turn)
    (ctx : ExecutionContext) : option (outcome (ExecutionContext * CycleResult)) :=
  let start_of_cycle := now in
  let now := now + Z.of_N setup in
  let sys := apply_connections (prev_connection_count ctx) (rm_connections rate) now (ctx_sys ctx) in
  match corrected_with_offset start_of_cycle (time_offset ctx) with
  | Panic => Some Panic
  | Val start =>
      r ← send_multiple_requests (rm_qps rate) (rm_connections rate) start now turns sys
            (request_spec ctx) (ctx_rng ctx);
      match r with
      | Panic => Some Panic
      | Val r => Some (Val (end_of_cycle start_of_cycle (rm_connections rate) r, r))
      end
  end.

End Modes.

Arguments CycleResult : clear implicits.
Arguments ExecutionContext : clear implicits.

(** ** What is sent *)

Section Send.
  Context (header_name header_value : string → option string).
  Context (header_order : gmap string string → list (string * string)).
  Context {Uri : Type} (parse_uri : string → option Uri).

(** [HeaderName::from_str] and [HeaderValue::from_str] are parameters. *)
Definition try_add_header (hs : gmap string string) (k v : string) :
    gmap string string * option string :=
  match header_name k, header_value v with
  | Some n, Some v => (<[n := v]> hs, Some n)
  | _, _ => (hs, None)
  end.

(** What goes over the wire: method, uri, headers and body. *)
Record Outgoing := {
  out_method : string;
  out_uri : Uri;
  out_headers : gmap string string;
  out_body : option string
}.

(** [send_single_requests] up to handing the request to hyper; a url that is not a uri
    panics. *)
Definition outgoing (req : HttpReq) : outcome Outgoing :=
  request_uri ← unwrap (parse_uri (url req));
  Val {| out_method := method req; out_uri := request_uri;
         out_headers := foldl (λ hs kv, fst (try_add_header hs kv.1 kv.2)) ∅ (header_order (headers req));
         out_body := body req |}.

(** The task spawned for a batch: the requests it puts on the wire.  One panic ends the
    task, and with it the return of every connection of the batch. *)
Definition batch_task (b : CycleBatch) : outcome (list (HttpConnection * Outgoing)) :=
  mapM (λ cr, o ← outgoing cr.2; Val (cr.1, o)) b.

(** What a request becomes on the wire. *)
Definition sends (cr : HttpConnection * HttpReq) (co : HttpConnection * Outgoing) : Prop :=
  co.1 = cr.1 ∧ parse_uri (url cr.2) = Some (out_uri co.2) ∧ out_method co.2 = method cr.2 ∧ out_body co.2 = body cr.2.

Lemma outgoing_uri req :
  outgoing req = match parse_uri (url req) with
                 | Some u => Val {| out_method := method req; out_uri := u;
                     out_headers := foldl (λ hs kv, fst (try_add_header hs kv.1 kv.2)) ∅ (header_order (headers req));
                     out_body := body req |}
                 | None => Panic
                 end.
Proof. unfold outgoing. by destruct (parse_uri (url req)). Qed.

(** The task of a batch sends every request of the batch on the connection it was paired
    with, in order, with its method, URI and body, if all URLs are URIs; a single one that is
    not panics the task, and none of its connections comes back. *)
Theorem batch_task_all_or_none (b : CycleBatch) :
  (Forall (λ cr, is_Some (parse_uri (url cr.2))) b → ∃ l, batch_task b = Val l ∧ Forall2 sends b l) ∧
  (∀ cr, cr ∈ b → parse_uri (url cr.2) = None → batch_task b = Panic).
Proof.
  unfold batch_task. split.
  - induction 1 as [|[c r] b [u Hu] Hb (l & IH & Hl)]; simpl in *; [by exists []|].
    rewrite outgoing_uri, Hu. cbn [mbind outcome_bind]. rewrite IH. simpl.
    eexists. split; [done|]. by constructor.
  - intros cr Hin Hn. induction b as [|[c r] b IH]; [set_solver|]. simpl. rewrite outgoing_uri.
    apply elem_of_cons in Hin as [->|Hin]; simpl in *; [by rewrite Hn|].
    destruct (parse_uri (url r)); [|done]. cbn [mbind outcome_bind]. by rewrite IH.
Qed.

End Send.

(** ** Requests of a job *)

Section GetRequests.
  Context {Hir AST Conn Rng : Type} `{!RandomSource Hir Rng} `{!SqliteDb Conn}.
  Context (parse_regex : string → option Hir) (eval : AST → Rng → outcome (result string Value * Rng)).
  Context (order : gmap string AST → list (string * AST)) (show_json : Value → string).

(** Put the provider's new state back into the request. *)
Definition wrap_spec {T} (c : T → RequestSpecEnum Hir AST Conn)
    (r : option (outcome (result string (list HttpReq) * T * Rng))) :
    option (outcome (result string (list HttpReq) * RequestSpecEnum Hir AST Conn * Rng)) :=
  (λ o, '(l, self, g) ← o; Val (l, c self, g)) <$> r.

Definition get_requests (fuel : nat) (count : Z) (req_spec : RequestSpecEnum Hir AST Conn) (g : Rng) :
    option (outcome (result string (list HttpReq) * RequestSpecEnum Hir AST Conn * Rng)) :=
  match req_spec with
  | RSRequestList r => wrap_spec (RSRequestList (Hir := Hir) (AST := AST) (Conn := Conn))
      (get_n (RequestProvider := request_list_provider) fuel count r g)
  | RSRequestFile r => wrap_spec (RSRequestFile (Hir := Hir) (AST := AST))
      (get_n (RequestProvider := request_file_provider) fuel count r g)
  | RSRandomDataRequest r => wrap_spec (RSRandomDataRequest (AST := AST) (Conn := Conn))
      (get_n (RequestProvider := random_data_provider parse_regex show_json) fuel count r g)
  | RSSplitRequestFile r => wrap_spec (RSSplitRequestFile (Hir := Hir) (AST := AST))
      (get_n (RequestProvider := split_file_provider) fuel count r g)
  | RSJsonTemplateRequest r => wrap_spec (RSJsonTemplateRequest (Hir := Hir) (Conn := Conn))
      (get_n (RequestProvider := json_template_provider eval order show_json) fuel count r g)
  end.

(** A request spec as the provider a cycle draws from. *)
#[export] Instance spec_provider : RequestProvider Rng (RequestSpecEnum Hir AST Conn) := {|
  get_n := get_requests;
  size_hint s :=
    match s with
    | RSRequestList r => len (data r)
    | RSRequestFile r => rf_size r
    | RSSplitRequestFile r => sf_size r
    | _ => usize_MAX
    end;
  shared s := match s with RSRequestList _ => false | _ => true end
|}.

(** A request spec that a cycle can rely on. *)
Definition spec_ready (s : RequestSpecEnum Hir AST Conn) : Prop :=
  match s with
  | RSRequestList _ => True
  | RSRequestFile f => file_ready f
  | RSRandomDataRequest r => random_ready parse_regex r
  | RSSplitRequestFile f => split_ready f
  | RSJsonTemplateRequest t => template_ready eval order t
  end.

Lemma wrap_total {T} (c : T → RequestSpecEnum Hir AST Conn) (I : T → Prop) o :
  (∃ r self' g', o = Some (Val (r, self', g')) ∧ I self' ∧ ∀ l, r = Ok l → l ≠ []) →
  (∀ x, I x → spec_ready (c x)) →
  ∃ r self' g', wrap_spec c o = Some (Val (r, self', g')) ∧ spec_ready self' ∧ ∀ l, r = Ok l → l ≠ [].
Proof. intros (r & x & g' & -> & Hx & Hl) Hc. exists r, (c x), g'. split_and!; [done|by apply Hc|done]. Qed.

(** A request spec that has a request for every demand. *)
Definition spec_serving (s : RequestSpecEnum Hir AST Conn) : Prop :=
  match s with
  | RSRequestList l => data l ≠ []
  | RSRequestFile f => file_open f
  | RSRandomDataRequest r => random_ready parse_regex r
  | RSSplitRequestFile f => split_open f
  | RSJsonTemplateRequest t => template_ready eval order t
  end.

Lemma wrap_serves {T} (c : T → RequestSpecEnum Hir AST Conn) (I : T → Prop) o :
  (∃ l self' g', o = Some (Val (Ok l, self', g')) ∧ I self' ∧ l ≠ []) → (∀ x, I x → spec_serving (c x)) →
  ∃ l self' g', wrap_spec c o = Some (Val (Ok l, self', g')) ∧ spec_serving self' ∧ l ≠ [].
Proof. intros (l & x & g' & -> & Hx & Hl) Hc. exists l, (c x), g'. split_and!; [done|by apply Hc|done]. Qed.

#[export] Instance spec_serves `{!RandomSourceLaws Hir Rng} fuel :
  ProviderServes (Rng := Rng) fuel spec_serving.
Proof.
  intros n self g Hn Hf Hi. destruct self as [l|f|f|r|t]; cbn [get_n spec_provider get_requests].
  - eapply wrap_serves; [by apply request_list_serves|done].
  - eapply wrap_serves; [by apply request_file_serves|done].
  - eapply wrap_serves; [by apply split_file_serves|done].
  - eapply wrap_serves; [by apply random_data_serves|done].
  - eapply wrap_serves; [by apply json_template_serves|done].
Qed.

#[export] Instance spec_total `{!RandomSourceLaws Hir Rng} fuel :
  ProviderTotal (Rng := Rng) fuel spec_ready.
Proof.
  intros n self g Hn Hf Hi. destruct self as [l|f|f|r|t]; cbn [get_n spec_provider get_requests].
  - eapply wrap_total; [by apply request_list_total|done].
  - eapply wrap_total; [by apply request_file_total|done].
  - eapply wrap_total; [by apply split_file_total|done].
  - eapply wrap_total; [by apply random_data_total|done].
  - eapply wrap_total; [by apply json_template_total|done].
Qed.


End GetRequests.

(** ** Filling up *)

Lemma cyc_cons {A} (l : list A) i n x :
  l !! (i mod length l)%nat = Some x → cyc l i (S n) = x :: cyc l (S i) n.
Proof.
  intros Hx. unfold cyc. cbn [seq]. cbn [omap list_omap]. rewrite Nat.add_0_r, Hx. f_equal.
  rewrite <- fmap_S_seq, omap_fmap. apply omap_ext_in. intros j _. by rewrite Nat.add_succ_r.
Qed.

Lemma cyc_wrap {A} (l : list A) n : l ≠ [] → cyc l (length l) n = cyc l 0 n.
Proof.
  intros Hl. unfold cyc. apply omap_ext_in. intros j _.
  replace (length l + j)%nat with (j + 1 * length l)%nat by lia.
  by rewrite Nat.Div0.mod_add.
Qed.

(** The requests are copied in a circle. *)
Lemma fill_loop_spec reqs fuel i need extra :
  reqs ≠ [] → (i <= length reqs)%nat → (2 * need + 1 <= fuel)%nat →
  fill_loop fuel (length reqs) i need (reqs ++ extra) =
    Some (Val (reqs ++ extra ++ cyc reqs i need)).
Proof.
  intros Hne. assert (0 < length reqs)%nat by (destruct reqs; simpl; [done|lia]).
  assert (Hstep : ∀ need fuel i extra, (i < length reqs)%nat →
    (∀ fuel i extra, (i <= length reqs)%nat → (2 * need + 1 <= fuel)%nat →
      fill_loop fuel (length reqs) i need (reqs ++ extra) = Some (Val (reqs ++ extra ++ cyc reqs i need))) →
    (2 * need + 2 <= fuel)%nat →
    fill_loop fuel (length reqs) i (S need) (reqs ++ extra) =
      Some (Val (reqs ++ extra ++ cyc reqs i (S need)))).
  { clear need fuel i extra. intros need [|fuel] i extra Hi IH Hf; [lia|]. cbn [fill_loop].
    destruct (Nat.ltb_spec i (length reqs)); [|lia].
    destruct (lookup_lt_is_Some_2 reqs i Hi) as [x Hx].
    rewrite lookup_app_l, Hx by done. rewrite <- app_assoc, IH by lia.
    rewrite (cyc_cons reqs i need x) by (by rewrite Nat.mod_small). by rewrite <- app_assoc. }
  revert fuel i extra. induction need as [|need IH]; intros fuel i extra Hi Hf.
  { destruct fuel; [lia|]. cbn [fill_loop]. by rewrite app_nil_r. }
  destruct (decide (i < length reqs)%nat) as [Hlt|Hge]; [apply Hstep; [done|done|lia]|].
  assert (i = length reqs) as -> by lia. rewrite cyc_wrap by done.
  destruct fuel as [|fuel]; [lia|]. cbn [fill_loop]. destruct (Nat.ltb_spec (length reqs) (length reqs)); [lia|].
  apply Hstep; [lia|done|lia].
Qed.

(** With no request to copy the loop does not end. *)
Lemma fill_loop_empty fuel i need : fill_loop fuel 0 i (S need) [] = None.
Proof. revert i. induction fuel as [|fuel IH]; intros i; [done|]. simpl. apply IH. Qed.

Lemma get_connections_len between1 between2 complete n s s' vec :
  (∀ s, task_steps s (between1 s)) → (∀ s, task_steps s (between2 s)) →
  (∀ l, map fst (complete l) ≡ₚ l) → 0 <= n →
  get_connections between1 between2 complete n s = (s', vec) → len vec <= n.
Proof.
  intros H1 H2 Hc Hn. unfold get_connections.
  destruct (ps_get s); try (intros [= <- <-]; unfold len; simpl; lia).
  rewrite (task_steps_get _ _ (H1 _)). cbn [sys_claim get_claim claim_connections with_pool ps_get].
  rewrite (task_steps_get _ _ (H2 _)). unfold sys_check.
  destruct (get_check _ _ _ _) as [[[p m] [futures dropped]] ts] eqn:E. cbn [with_pool ps_get].
  apply get_check_spec in E as (_ & _ & _ & _ & _ & _ & Hlen & _).
  intros [= _ <-]. pose proof (len_submseteq _ _ (filter_results_submseteq _ _ (Hc futures))). lia.
Qed.

(** Connections that were handed out are in flight. *)
Lemma get_connections_taken between1 between2 complete n s s' vec :
  get_connections between1 between2 complete n s = (s', vec) → vec ≠ [] →
  ∃ s0, ps_in_flight s' = ps_in_flight s0 ++ vec ∧ ps_handed s' = ps_handed s0 ++ handles vec.
Proof.
  unfold get_connections. intros Hg Hne. repeat (case_match; simplify_eq; try done).
  unfold sys_finish in Hg. destruct (get_finish _ _ _ _) as [[[p m] v] ts]. simplify_eq. by eexists.
Qed.

(** ** A cycle *)

Section LoopFacts.
  Context {Rng Spec : Type} `{!RequestProvider Rng Spec} {Sleep : Type}.
  Context (fuel : nat) (m : CycleMode Sleep) (start : Z).

Local Abbreviation State := (CycleState Rng Spec Sleep).

(** The readiness checks are answered for the connections they are asked about, and the
    other tasks only return connections and run what the pool spawned. *)
Record turn_ok (t : Turn) : Prop := {
  turn_complete : ∀ l, map fst (tn_complete t l) ≡ₚ l;
  turn_env : ∀ s, task_steps s (tn_env t s);
  turn_between1 : ∀ s, task_steps s (tn_between1 t s);
  turn_between2 : ∀ s, task_steps s (tn_between2 t s)
}.

(** The number of requests sent. *)
Definition sent_count (l : list CycleBatch) : Z := sumZ (len <$> l).

Lemma fill_req_some n l :
  l ≠ [] → fill_req_if_less_than_connections (fill_fuel n) n (length l) l = Some (Val (l ++ cyc l 0 (n - length l))).
Proof.
  intros Hl. unfold fill_req_if_less_than_connections, fill_fuel.
  pose proof (fill_loop_spec l (2 * n + 1) 0 (n - length l) []) as E. rewrite app_nil_r in E. by rewrite E by (done || lia).
Qed.

(** What the provider gives is filled up. *)
Lemma batch_requests_some n spec g l spec' g' :
  get_n fuel n spec g = Some (Val (Ok l, spec', g')) → l ≠ [] →
  ∃ reqs, batch_requests fuel m n spec g = Some (Val (Some reqs, spec', g')).
Proof.
  intros Hg Hl. unfold batch_requests. rewrite Hg. cbn [mbind option_bind].
  replace (cm_stop_on_empty m && (length l =? 0)%nat) with false by (destruct l; [done|by rewrite andb_false_r]).
  destruct (_ <? _)%nat; [|by eexists]. rewrite fill_req_some by done. by eexists.
Qed.

Lemma batch_requests_len n spec g reqs spec' g' :
  batch_requests fuel m n spec g = Some (Val (Some reqs, spec', g')) → n <= len reqs.
Proof.
  unfold batch_requests. destruct (get_n fuel n spec g) as [[[[[l|e] s1] g1]|]|]; simpl; try done.
  destruct (cm_stop_on_empty m && (length l =? 0)%nat) eqn:E0; [done|].
  destruct (Nat.ltb_spec (length l) (Z.to_nat n)); simpl; [|intros [= <- <- <-]; unfold len; lia].
  destruct l as [|x l].
  { unfold fill_req_if_less_than_connections. rewrite Nat.sub_0_r. simpl length in *.
    destruct (Z.to_nat n) as [|k]; [lia|]. by rewrite fill_loop_empty. }
  rewrite fill_req_some by done. intros [= <- <- <-]. change (x :: l ++ ?k) with ((x :: l) ++ k). autorewrite with overload.
  unfold len. rewrite length_cyc by done. simpl in *. lia.
Qed.

Lemma pair_up_len conns reqs : len conns <= len reqs → len (pair_up conns reqs) = len conns.
Proof. unfold pair_up, len. rewrite length_zip_with, length_reverse. lia. Qed.

(** What is sent and what remains is the rate, in every iteration. *)
Record cycle_inv (q : Z) (st : State) : Prop := {
  ci_total : sent_count (cy_sent st) + cy_remaining st = q;
  ci_remaining : 0 <= cy_remaining st <= q;
  ci_batches : Forall (λ b, b ≠ []) (cy_sent st)
}.

Lemma cycle_turn_inv q t st r :
  q <= u32_MAX → turn_ok t → cycle_inv q st → cycle_turn fuel m start t st = Some (Val r) →
  match r with
  | inl (e, st') => cycle_inv q st' ∧ (e = AllSent → cy_remaining st' = 0) ∧
                    (e = GaveUp → time_remaining start (cy_clock st') < 0)
  | inr st' => cycle_inv q st'
  end.
Proof.
  intros Hq Ht [Htot Hrem Hb]. unfold cycle_turn.
  destruct (Z.ltb_spec (time_remaining start (cy_clock st)) 0) as [Hneg|Hpos].
  { intros [= <-]. split_and!; [by constructor|done|done]. }
  pose proof (wrap_range 32 (cm_bundle m)) as Hw.
  destruct (get_connections _ _ _ _ _) as [sys conns] eqn:Eg.
  apply get_connections_len in Eg as Hlen; [|apply Ht..|lia].
  destruct (Z.ltb_spec (len conns) 1) as [H0|H1].
  { destruct (cm_resleep _ _ _); intros [= <-]. by constructor. }
  match goal with |- context [match (if ?c then ?a else ?b) with _ => _ end] =>
    destruct (if c then a else b) as [sl|] eqn:Esl end; [|done].
  destruct (batch_requests _ _ _ _ _) as [[[[o spec'] g']|]|] eqn:Eb; simpl; try done.
  destruct o as [reqs|]; [|intros [= <-]; split_and!; [by constructor|done|done]].
  apply batch_requests_len in Eb. pose proof (pair_up_len conns reqs Eb) as Hp.
  assert (Hinv : ∀ sl c s sp g, cycle_inv q {| cy_remaining := cy_remaining st -u32 len conns;
    cy_sleep := sl; cy_clock := c; cy_sys := s; cy_spec := sp; cy_rng := g;
    cy_sent := cy_sent st ++ [pair_up conns reqs] |}).
  { intros. rewrite wrap_id by lia. constructor; simpl; [|lia|].
    - unfold sent_count in *. rewrite fmap_app, sumZ_app. simpl. lia.
    - apply Forall_app. split; [done|]. constructor; [|done]. intros E.
      rewrite E in Hp. unfold len at 1 in Hp. simpl in Hp. lia. }
  clear Esl. intros [= <-]. cases; split_and!; done || apply Hinv.
Qed.

Lemma cycle_loop_inv q turns st e st' :
  q <= u32_MAX → Forall turn_ok turns → cycle_inv q st →
  cycle_loop fuel m start turns st = Some (Val (e, st')) →
  cycle_inv q st' ∧ (e = AllSent → cy_remaining st' = 0) ∧
  (e = GaveUp → time_remaining start (cy_clock st') < 0).
Proof.
  intros Hq Hts. revert st. induction Hts as [|t turns Ht Hts IH]; intros st Hinv; [done|].
  cbn [cycle_loop]. destruct (cycle_turn _ _ _ _ _) as [[r|]|] eqn:Et; try done.
  apply (cycle_turn_inv q) in Et; [|done..]. cbn. destruct r as [[e0 st0]|st0]; [|by apply IH].
  by intros [= <- <-].
Qed.

(** Every iteration is a sequence of steps of the pool. *)
Lemma cycle_turn_steps t st r :
  0 <= cy_remaining st <= u32_MAX → turn_ok t → cycle_turn fuel m start t st = Some (Val r) →
  pool_steps (cy_sys st) (cy_sys (match r with inl (_, st') => st' | inr st' => st' end)).
Proof.
  intros Hrem Ht. unfold cycle_turn. pose proof (wrap_range 32 (cm_bundle m)) as Hw.
  case_match; [by intros [= <-]; simpl; apply rtc_refl|].
  destruct (get_connections _ _ _ _ _) as [sys conns] eqn:Eg.
  assert (pool_steps (cy_sys st) sys) as Hs.
  { etrans; [apply task_steps_pool, (turn_env _ Ht)|].
    change sys with (fst (sys, conns)). rewrite <- Eg. apply get_connections_steps; [apply Ht..|lia]. }
  intros Hr. repeat (first [case_match|done]; simplify_eq/=; try done).
  all: destruct (batch_requests _ _ _ _ _) as [[[[[reqs|] spec'] g']|]|]; simplify_eq/=; try done.
  all: repeat (case_match; simplify_eq/=; try done).
Qed.

Lemma cycle_loop_steps q turns st e st' :
  q <= u32_MAX → Forall turn_ok turns → cycle_inv q st →
  cycle_loop fuel m start turns st = Some (Val (e, st')) → pool_steps (cy_sys st) (cy_sys st').
Proof.
  intros Hq Hts. revert st. induction Hts as [|t turns Ht Hts IH]; intros st Hinv; [done|].
  cbn [cycle_loop]. destruct (cycle_turn _ _ _ _ _) as [[r|]|] eqn:Et; try done.
  pose proof (cycle_turn_inv q _ _ _ Hq Ht Hinv Et) as Hinv'.
  apply cycle_turn_steps in Et; [|destruct Hinv; lia|done]. cbn.
  destruct r as [[e0 st0]|st0]; [by intros [= <- <-]|]. intros Hl. etrans; [exact Et|by apply IH].
Qed.

(** *** Termination *)

Lemma elapsed_after_sleep now ms extra :
  start <= now → 0 <= ms → elapsed_ms start now + ms <= elapsed_ms start (after_sleep ms extra now).
Proof.
  intros Hs Hms. unfold elapsed_ms, after_sleep. rewrite <- Z.div_add by lia.
  apply Z.div_le_mono; lia.
Qed.

Lemma elapsed_nonneg now : 0 <= elapsed_ms start now.
Proof. unfold elapsed_ms. apply Z.div_pos; lia. Qed.

Lemma elapsed_mono now now' : now <= now' → elapsed_ms start now <= elapsed_ms start now'.
Proof. intros H. unfold elapsed_ms. apply Z.div_le_mono; lia. Qed.

(** [sleeps]: every iteration sleeps for at least a millisecond.  Then the time left bounds
    the number of iterations; otherwise the requests that remain do so as well. *)
Definition budget (sleeps : bool) (st : State) : Z :=
  (if sleeps then 0 else cy_remaining st) + Z.max 0 (1001 - elapsed_ms start (cy_clock st)).

Context (I : Spec → Prop) `{!ProviderTotal (Rng := Rng) fuel I} (sleeps : bool) (q : Z).

Definition sleep_ok (sl : Sleep) : Prop :=
  0 <= cm_millis m sl ∧ (sleeps = true → 1 <= cm_millis m sl).

Record mode_ok : Prop := {
  mo_bundle : 1 <= wrap 32 (cm_bundle m);
  mo_wait : 1 <= cm_wait m;
  mo_resleep : ∀ l r, ∃ sl, cm_resleep m l r = Val sl ∧ sleep_ok sl
}.

Record going (st : State) : Prop := {
  go_inv : cycle_inv q st;
  go_remaining : 1 <= cy_remaining st;
  go_clock : start <= cy_clock st;
  go_spec : I (cy_spec st);
  go_sleep : sleep_ok (cy_sleep st)
}.

Lemma batch_requests_total n spec g :
  1 <= n <= u32_MAX → n <= Z.of_nat fuel → I spec →
  ∃ o spec' g', batch_requests fuel m n spec g = Some (Val (o, spec', g')) ∧ I spec'.
Proof.
  intros Hn Hf Hi. unfold batch_requests.
  destruct (provider_total n spec g Hn Hf Hi) as (r & spec' & g' & -> & Hi' & Hne). cbn [mbind option_bind].
  destruct r as [l|e]; [|eauto]. destruct (cm_stop_on_empty m && (length l =? 0)%nat); [eauto|].
  specialize (Hne l eq_refl). destruct (Nat.ltb_spec (length l) (Z.to_nat n)); [|eauto].
  rewrite fill_req_some by done. eauto.
Qed.

Lemma cycle_turn_progress t st :
  q <= u32_MAX → q <= Z.of_nat fuel → mode_ok → turn_ok t → going st →
  ∃ r, cycle_turn fuel m start t st = Some (Val r) ∧
       match r with inl _ => True | inr st' => going st' ∧ budget sleeps st' + 1 <= budget sleeps st end.
Proof.
  intros Hq Hf Hm Ht [Hinv Hrem Hck Hsp Hsl].
  pose proof (λ r, cycle_turn_inv q t st r Hq Ht Hinv) as Hturn. revert Hturn.
  pose proof (ci_remaining _ _ Hinv). unfold cycle_turn.
  destruct (Z.ltb_spec (time_remaining start (cy_clock st)) 0) as [Hneg|Hpos]; [intros _; by eexists|].
  unfold time_remaining, CYCLE_LENGTH_IN_MILLIS in Hpos.
  pose proof (mo_bundle Hm) as Hb. pose proof (wrap_range 32 (cm_bundle m)) as Hw.
  destruct (get_connections _ _ _ _ _) as [sys conns] eqn:Eg.
  apply get_connections_len in Eg as Hlen; [|apply Ht..|lia].
  pose proof (elapsed_mono (cy_clock st) (cy_clock st + Z.of_N (tn_get t))) as He1.
  set (now := cy_clock st + Z.of_N (tn_get t)) in *.
  destruct (Z.ltb_spec (len conns) 1) as [H0|H1].
  { destruct (mo_resleep Hm (time_remaining start (after_sleep (cm_wait m) (tn_over t) now)) (cy_remaining st))
      as (sl & -> & Hsl'). intros Hturn. eexists. split; [done|].
    specialize (Hturn _ eq_refl). pose proof (mo_wait Hm).
    pose proof (elapsed_after_sleep now (cm_wait m) (tn_over t)).
    split; [constructor; simpl; try done; unfold after_sleep; lia|]. unfold budget; simpl.
    destruct sleeps; lia. }
  match goal with |- context [match (if ?c then ?a else ?b) with _ => _ end] =>
    assert (∃ sl, (if c then a else b) = Val sl ∧ sleep_ok sl)
      as (sl & -> & Hsl') by (case_match; [apply (mo_resleep Hm)|eauto]) end.
  destruct (batch_requests_total (len conns) (cy_spec st) (cy_rng st)) as (o & spec' & g' & -> & Hi');
    [lia..|done|]. cbn.
  destruct o as [reqs|]; [|intros _; by eexists]. intros Hturn. eexists. split; [done|].
  specialize (Hturn _ eq_refl). cbn [cy_remaining] in *.
  destruct (time_remaining _ _ <? 0); [done|].
  destruct (Z.eqb_spec (cy_remaining st -u32 len conns) 0) as [|Hne]; [done|].
  set (now2 := now + Z.of_N (tn_send t)) in *.
  destruct (Hsl') as [Hsl0 Hsl1]. pose proof (elapsed_after_sleep now2 (cm_millis m sl) (tn_over t)).
  pose proof (elapsed_mono now now2). pose proof (ci_remaining _ _ Hturn). simpl in *.
  split; [constructor; simpl; try done; try lia; unfold after_sleep; lia|].
  unfold budget; simpl. rewrite wrap_id in * by lia.
  destruct sleeps; [specialize (Hsl1 eq_refl)|]; lia.
Qed.

Lemma cycle_loop_total turns st :
  q <= u32_MAX → q <= Z.of_nat fuel → mode_ok → Forall turn_ok turns → going st →
  budget sleeps st < len turns →
  ∃ e st', cycle_loop fuel m start turns st = Some (Val (e, st')).
Proof.
  intros Hq Hf Hm Hts. revert st. induction Hts as [|t turns Ht Hts IH]; intros st Hgo Hb.
  { unfold budget, len in Hb. destruct Hgo. destruct sleeps; simpl in Hb; lia. }
  destruct (cycle_turn_progress t st Hq Hf Hm Ht Hgo) as (r & Hr & Hp).
  cbn [cycle_loop]. rewrite Hr. cbn. destruct r as [[e st']|st']; [eauto|].
  destruct Hp as [Hgo' Hb']. rewrite len_cons in Hb. apply IH; [done|lia].
Qed.

End LoopFacts.

(** ** Handling a rate message moves the pool by its own steps *)

Section ModeFacts.
  Context {Rng Spec : Type} `{!RequestProvider Rng Spec}.
  Context (fuel : nat) (env : string → option string).

Lemma cycle_start_inv {Sleep} q (sl : Sleep) now sys (spec : Spec) (g : Rng) :
  0 <= q → cycle_inv q {| cy_remaining := q; cy_sleep := sl; cy_clock := now; cy_sys := sys;
                          cy_spec := spec; cy_rng := g; cy_sent := [] |}.
Proof. intros Hq. constructor; simpl; [done|lia|constructor]. Qed.

Lemma apply_connections_steps prev n now sys :
  0 <= n <= u32_MAX → pool_steps sys (apply_connections prev n now sys).
Proof.
  intros Hn. unfold apply_connections. etrans; [|apply owner_steps, owner_touch].
  case_match; [done|]. etrans; [by apply owner_steps, owner_set|apply owner_steps, owner_size].
Qed.

(** What a cycle that started at [start] with rate [q] guarantees: it sends at most the
    rate, and exactly the rate when it says so; no batch is empty; it gives up only when
    the second is over; it uses the pool by the pool's own operations. *)
Record cycle_ok (q start : Z) (sys : PoolSys) (r : CycleResult Rng Spec) : Prop := {
  co_sent : sent_count (cr_sent r) <= q;
  co_batches : Forall (λ b, b ≠ []) (cr_sent r);
  co_steps : pool_steps sys (cr_sys r);
  co_all : cr_end r = Some AllSent → sent_count (cr_sent r) = q;
  co_late : cr_end r = Some GaveUp → CYCLE_LENGTH_IN_MILLIS < elapsed_ms start (cr_clock r)
}.

Lemma nothing_sent_ok q start now sys spec g :
  0 <= q → cycle_ok q start sys (nothing_sent now sys spec g).
Proof. intros Hq. constructor; simpl; done || constructor. Qed.

Lemma cycle_result_inv {Sleep} (m : CycleMode Sleep) start turns (st : CycleState Rng Spec Sleep) q r :
  q <= u32_MAX → Forall turn_ok turns → cycle_inv q st →
  cycle_result <$> cycle_loop fuel m start turns st = Some (Val r) →
  cycle_ok q start (cy_sys st) r.
Proof.
  intros Hq Hts Hinv. destruct (cycle_loop _ _ _ _ _) as [[[e st']|]|] eqn:E; simpl; try done.
  pose proof (cycle_loop_steps _ _ _ _ _ _ _ _ Hq Hts Hinv E) as Hs.
  apply (cycle_loop_inv _ _ _ q) in E as ([Ht Hr Hb] & Hall & Hgu); [|done..].
  intros [= <-]. constructor; simpl; [lia|done|done|intros [= ->]|intros [= ->]].
  - rewrite (Hall eq_refl) in Ht. lia.
  - specialize (Hgu eq_refl). unfold time_remaining in Hgu. lia.
Qed.

Lemma cycle_result_total {Sleep} (m : CycleMode Sleep) start (I : Spec → Prop)
    `{!ProviderTotal (Rng := Rng) fuel I} sleeps q turns (st : CycleState Rng Spec Sleep) :
  q <= u32_MAX → q <= Z.of_nat fuel → mode_ok m sleeps → Forall turn_ok turns →
  going m start I sleeps q st → budget start sleeps st < len turns →
  ∃ r, cycle_result <$> cycle_loop fuel m start turns st = Some (Val r) ∧ cycle_ok q start (cy_sys st) r.
Proof.
  intros Hq Hf Hm Hts Hgo Hb.
  destruct (cycle_loop_total fuel m start I sleeps q turns st Hq Hf Hm Hts Hgo Hb) as (e & st' & E).
  assert (∃ r, cycle_result <$> cycle_loop fuel m start turns st = Some (Val r)) as [r Hr]
    by (rewrite E; eexists; reflexivity).
  exists r. split; [done|]. eapply cycle_result_inv; try done. apply Hgo.
Qed.

(** A loop that was entered has an end. *)
Lemma loop_entered {Sleep} (o : option (outcome (cycle_end * CycleState Rng Spec Sleep)))
    (P Q : CycleResult Rng Spec → Prop) :
  (∃ r, cycle_result <$> o = Some (Val r) ∧ P r) →
  ∃ r, cycle_result <$> o = Some (Val r) ∧ P r ∧ (cr_end r = None → Q r).
Proof.
  intros (r & Hr & HP). exists r. split_and!; [done..|]. destruct o as [[[e st]|]|]; simpl in Hr; try done.
  by injection Hr as <-.
Qed.

(** A cycle that ended kept its guarantees, whether or not it had to end. *)
Lemma send_n_ok {T} `{!LoadGenerationLogic T} rate (logic : T) start now turns sys spec g r :
  0 <= rm_qps rate <= u32_MAX → Forall turn_ok turns →
  send_n_request_in_t_duration fuel rate logic start now turns sys spec g = Some (Val r) →
  cycle_ok (rm_qps rate) start sys r.
Proof.
  intros Hq Hts. unfold send_n_request_in_t_duration.
  repeat (case_match; try done); try (intros [= <-]; apply nothing_sent_ok; lia).
  intros Hr. eapply cycle_result_inv in Hr; [exact Hr|lia|done|apply cycle_start_inv; lia].
Qed.

Lemma send_multiple_ok q c start now turns sys spec g r :
  0 <= q <= u32_MAX → Forall turn_ok turns →
  send_multiple_requests fuel env q c start now turns sys spec g = Some (Val r) →
  cycle_ok q start sys r.
Proof.
  intros Hq Hts. unfold send_multiple_requests. case_match; [intros [= <-]; apply nothing_sent_ok; lia|].
  intros Hr. eapply cycle_result_inv in Hr; [exact Hr|lia|done|apply cycle_start_inv; lia].
Qed.

Definition rate_ok (rate : RateMessage) : Prop :=
  0 <= rm_qps rate <= u32_MAX ∧ 0 <= rm_connections rate <= u32_MAX.

Lemma handle_rate_msg_v2_steps {T} `{!LoadGenerationLogic T} (logic : T) rate now setup turns
    (ctx ctx' : ExecutionContext Rng Spec) r :
  rate_ok rate → Forall turn_ok turns →
  handle_rate_msg_v2 fuel logic rate now setup turns ctx = Some (Val (ctx', r)) →
  pool_steps (ctx_sys ctx) (ctx_sys ctx').
Proof.
  intros [Hq Hc] Hts. unfold handle_rate_msg_v2. destruct (corrected_with_offset _ _); [|done].
  destruct (send_n_request_in_t_duration _ _ _ _ _ _ _ _ _) as [[r'|]|] eqn:E; simpl; try done.
  intros [= <- <-]. etrans; [by apply apply_connections_steps|]. apply send_n_ok in E; [apply E|done..].
Qed.

Lemma handle_rate_msg_v2_sent {T} `{!LoadGenerationLogic T} (logic : T) rate now setup turns
    (ctx ctx' : ExecutionContext Rng Spec) r :
  0 <= rm_qps rate <= u32_MAX → Forall turn_ok turns →
  handle_rate_msg_v2 fuel logic rate now setup turns ctx = Some (Val (ctx', r)) →
  sent_count (cr_sent r) <= rm_qps rate.
Proof.
  intros Hq Hts. unfold handle_rate_msg_v2. destruct (corrected_with_offset _ _); [|done].
  destruct (send_n_request_in_t_duration _ _ _ _ _ _ _ _ _) as [[r'|]|] eqn:E; simpl; try done.
  intros [= <- <-]. apply send_n_ok in E; [apply E|done..].
Qed.

Lemma handle_rate_msg_steps rate now setup turns (ctx ctx' : ExecutionContext Rng Spec) r :
  rate_ok rate → Forall turn_ok turns →
  handle_rate_msg fuel env rate now setup turns ctx = Some (Val (ctx', r)) →
  pool_steps (ctx_sys ctx) (ctx_sys ctx').
Proof.
  intros [Hq Hc] Hts. unfold handle_rate_msg. destruct (corrected_with_offset _ _); [|done].
  destruct (send_multiple_requests _ _ _ _ _ _ _ _ _ _) as [[r'|]|] eqn:E; simpl; try done.
  intros [= <- <-]. etrans; [by apply apply_connections_steps|]. apply send_multiple_ok in E; [apply E|done..].
Qed.

Lemma handle_rate_msg_sent rate now setup turns (ctx ctx' : ExecutionContext Rng Spec) r :
  0 <= rm_qps rate <= u32_MAX → Forall turn_ok turns →
  handle_rate_msg fuel env rate now setup turns ctx = Some (Val (ctx', r)) →
  sent_count (cr_sent r) <= rm_qps rate.
Proof.
  intros Hq Hts. unfold handle_rate_msg. destruct (corrected_with_offset _ _); [|done].
  destruct (send_multiple_requests _ _ _ _ _ _ _ _ _ _) as [[r'|]|] eqn:E; simpl; try done.
  intros [= <- <-]. apply send_multiple_ok in E; [apply E|done..].
Qed.

(** The bundle of batch mode is never empty and fits in [u32]. *)
Lemma batch_bundle_range q c :
  1 <= q <= u32_MAX → 0 <= c <= u32_MAX → 1 <= batch_bundle_size env q c <= q.
Proof.
  intros Hq Hc. unfold batch_bundle_size. pose proof (Z.div_pos q 100).
  assert (q / 100 <= q) by (apply Z.div_le_upper_bound; lia).
  assert (q / 100 < u32_MAX) by (apply Z.div_lt_upper_bound; lia).
  rewrite (wrap_id 32 (q / 100 + 1)) by lia.
  destruct (Z.eqb_spec c 0); lia.
Qed.

End ModeFacts.

(** ** Properties *)

(** C11: In immediate mode a cycle whose source always answers ends, after at most 1002
    iterations, whatever the pool and the clock do: it never sends more than the rate, sends
    exactly the rate when it reports so, gives up in the loop only when the second is over,
    does not enter the loop, and sends nothing, only when the rate is zero or fewer than 10
    milliseconds are left, leaves out empty batches, and uses the pool only by the pool's own
    operations. *)
Theorem immediate_cycle_total {Rng Spec} `{!RequestProvider Rng Spec} fuel (I : Spec → Prop)
    `{!ProviderTotal (Rng := Rng) fuel I} rate start now turns sys spec (g : Rng) :
  0 <= rm_qps rate <= u32_MAX → rm_qps rate <= Z.of_nat fuel → start <= now →
  Forall turn_ok turns → 1002 <= len turns → I spec →
  ∃ r, send_n_request_in_t_duration fuel rate Immediate start now turns sys spec g = Some (Val r) ∧
    cycle_ok (rm_qps rate) start sys r ∧
    (cr_end r = None → cr_sent r = [] ∧ (rm_qps rate = 0 ∨ time_remaining start now < 10)).
Proof.
  intros Hq Hf Hs Hts Hlen Hi. unfold send_n_request_in_t_duration.
  do 2 (case_match; [bool_simp; eexists; split; [done|split; [apply nothing_sent_ok; lia|auto]]|]).
  bool_simp. cbn [bundle_size interval_duration mode_logic]. apply loop_entered.
  apply (cycle_result_total fuel _ _ I true); try done; try lia.
  - constructor; simpl; [vm_compute; discriminate|lia|].
    intros _ _. exists 1. split; [done|split; simpl; lia].
  - constructor; simpl; first [done|lia|apply cycle_start_inv; lia|split; simpl; lia].
  - unfold budget. simpl. pose proof (elapsed_nonneg start now). lia.
Qed.

(** C26: In batch mode a cycle ends as well, after at most one iteration per request and per
    millisecond, with the same guarantees: every iteration sends a request or waits.  The
    source must always answer, with an error or with at least one request (an empty list of
    requests makes the mode spin), and the time to wait for a connection must not be
    configured to zero. *)
Theorem batch_cycle_total {Rng Spec} `{!RequestProvider Rng Spec} fuel env (I : Spec → Prop)
    `{!ProviderTotal (Rng := Rng) fuel I} q c start now turns sys spec (g : Rng) :
  0 <= q <= u32_MAX → 0 <= c <= u32_MAX → q <= Z.of_nat fuel → start <= now →
  1 <= env_wait_on_no_connection env →
  Forall turn_ok turns → q + 1002 <= len turns → I spec →
  ∃ r, send_multiple_requests fuel env q c start now turns sys spec g = Some (Val r) ∧
    cycle_ok q start sys r ∧ (cr_end r = None → cr_sent r = [] ∧ q = 0).
Proof.
  intros Hq Hc Hf Hs Hw Hts Hlen Hi. unfold send_multiple_requests.
  case_match; [bool_simp; eexists; split; [done|split; [apply nothing_sent_ok; lia|auto]]|]. bool_simp.
  pose proof (batch_bundle_range env q c) as Hb.
  assert (Hm : ∀ sl, sleep_ok (batch_mode env (batch_bundle_size env q c)) false sl).
  { intros sl. split; [|done]. simpl. apply f32_as_unsigned_range. lia. }
  apply loop_entered. apply (cycle_result_total fuel _ _ I false); try done; try lia.
  - constructor; simpl; [rewrite wrap_id by lia; lia|done|eauto].
  - constructor; simpl; first [apply Hm|done|lia|apply cycle_start_inv; lia].
  - unfold budget. simpl. pose proof (elapsed_nonneg start now). lia.
Qed.

(** When a batch has fewer requests than connections the requests are repeated in a
    circle until every connection has one; with no request at all the loop never ends. *)
Theorem fill_in_circle (reqs : list HttpReq) (n fuel : nat) :
  (length reqs < n)%nat →
  (reqs ≠ [] → (2 * n + 1 <= fuel)%nat →
     fill_req_if_less_than_connections fuel n (length reqs) reqs =
       Some (Val (reqs ++ cyc reqs 0 (n - length reqs)))) ∧
  (reqs = [] → fill_req_if_less_than_connections fuel n (length reqs) reqs = None).
Proof.
  intros Hn. unfold fill_req_if_less_than_connections. split.
  - intros Hne Hf. pose proof (fill_loop_spec reqs fuel 0 (n - length reqs) []) as E.
    rewrite app_nil_r in E. apply E; done || lia.
  - intros ->. simpl. destruct n; [lia|]. apply fill_loop_empty.
Qed.

(** A cycle that finds no requests keeps the connections it took: they stay counted as
    busy, no batch carries them, and nothing returns them to the pool. *)
Theorem no_requests_loses_connections {Rng Spec Sleep} `{!RequestProvider Rng Spec} fuel
    (m : CycleMode Sleep) start t (st st' : CycleState Rng Spec Sleep) :
  cycle_turn fuel m start t st = Some (Val (inl (NoRequests, st'))) →
  let taken := get_connections (tn_between1 t) (tn_between2 t) (tn_complete t)
                 (Z.min (wrap 32 (cm_bundle m)) (cy_remaining st)) (tn_env t (cy_sys st)) in
  taken.2 ≠ [] ∧ cy_sys st' = taken.1 ∧ (∀ c, c ∈ taken.2 → c ∈ ps_in_flight (cy_sys st')) ∧
  cy_sent st' = cy_sent st ∧ cy_remaining st' = cy_remaining st.
Proof.
  unfold cycle_turn. case_match; [done|].
  destruct (get_connections _ _ _ _ _) as [sys conns] eqn:Eg.
  destruct (Z.ltb_spec (len conns) 1) as [|H1]; [by destruct (cm_resleep _ _ _)|].
  match goal with |- context [match (if ?c then ?a else ?b) with _ => _ end] =>
    destruct (if c then a else b) as [sl|] end; [|done].
  destruct (batch_requests _ _ _ _ _) as [[[[o spec'] g']|]|]; simpl; try done.
  destruct o; [by repeat case_match|]. intros [= <-].
  assert (Hne : conns ≠ []) by (intros ->; unfold len in H1; simpl in H1; lia).
  simpl. split_and!; try done. intros c Hc.
  apply get_connections_taken in Eg as (s & -> & _); [|done]. apply elem_of_app. by right.
Qed.

(** ** Concrete inputs *)

Definition demo_provider : RequestProvider unit (RequestSpecEnum unit unit (list HttpReq)) :=
  spec_provider (λ _, None) (λ _ g, Val (Ok Null, g)) (λ _, []) (λ _, ""%string).

Definition demo_ready : RequestSpecEnum unit unit (list HttpReq) → Prop :=
  spec_ready (λ _, None) (λ _ (g : unit), Val (Ok Null, g)) (λ _, []).

Definition demo_list : RequestSpecEnum unit unit (list HttpReq) := RSRequestList {| data := demo_rows |}.

(** An iteration in which nothing else happens. *)
Definition quiet_turn : Turn :=
  {| tn_env s := s; tn_between1 s := s; tn_between2 s := s; tn_complete := all_ready; tn_get := 0; tn_send := 0; tn_over := 0 |}.

Lemma quiet_turns_ok n : Forall turn_ok (replicate n quiet_turn).
Proof. apply Forall_replicate. split; [apply all_ready_perm|intros s; apply rtc_refl..]. Qed.

Lemma immediate_cycle_total_witness :
  ∃ r, send_n_request_in_t_duration (RequestProvider0 := demo_provider) 5
         {| rm_qps := 1; rm_connections := 1 |} Immediate 0 0 (replicate 1002 quiet_turn)
         demo_opened demo_list tt = Some (Val r) ∧
       cr_end r = Some AllSent ∧ sent_count (cr_sent r) = 1.
Proof.
  destruct (immediate_cycle_total (RequestProvider0 := demo_provider) 5 demo_ready
    {| rm_qps := 1; rm_connections := 1 |} 0 0 (replicate 1002 quiet_turn) demo_opened demo_list tt
    ltac:(simpl; lia) ltac:(simpl; lia) ltac:(lia) (quiet_turns_ok 1002)
    ltac:(vm_compute; discriminate) I) as (r & H1 & H2 & _).
  exists r. split; [exact H1|]. apply co_all in H2; [split; [|exact H2]|];
    vm_compute in H1; injection H1 as <-; reflexivity.
Defined.

Lemma batch_cycle_total_witness :
  ∃ r, send_multiple_requests (RequestProvider0 := demo_provider) 5 (λ _, None) 1 1 0 0
         (replicate 1003 quiet_turn) demo_opened demo_list tt = Some (Val r) ∧
       cycle_ok 1 0 demo_opened r.
Proof.
  destruct (batch_cycle_total (RequestProvider0 := demo_provider) 5 (λ _, None) demo_ready
    1 1 0 0 (replicate 1003 quiet_turn) demo_opened demo_list tt
    ltac:(lia) ltac:(lia) ltac:(lia) ltac:(lia) ltac:(vm_compute; discriminate)
    (quiet_turns_ok 1003) ltac:(vm_compute; discriminate) I) as (r & H1 & H2 & _).
  exists r. split; [exact H1|exact H2].
Defined.

Lemma fill_in_circle_witness :
  fill_req_if_less_than_connections 15 7 5 demo_rows =
    Some (Val (demo_rows ++ take 2 demo_rows)) ∧
  fill_req_if_less_than_connections 100 1 0 [] = None.
Proof.
  split.
  - exact (proj1 (fill_in_circle demo_rows 7 15 ltac:(simpl; lia)) ltac:(discriminate) ltac:(lia)).
  - exact (proj2 (fill_in_circle [] 1 100 ltac:(simpl; lia)) eq_refl).
Defined.

Lemma no_requests_loses_connections_witness :
  ∃ st', cycle_turn (RequestProvider0 := demo_provider) 5 (immediate_mode Immediate 65535) 0 quiet_turn
           {| cy_remaining := 1; cy_sleep := 1; cy_clock := 0; cy_sys := demo_opened;
              cy_spec := RSRequestList {| data := [] |}; cy_rng := tt; cy_sent := [] |} =
         Some (Val (inl (NoRequests, st'))) ∧ ps_in_flight (cy_sys st') ≠ [].
Proof.
  eexists. split; [vm_compute; reflexivity|].
  match goal with |- ps_in_flight (cy_sys ?st) ≠ [] =>
    destruct (no_requests_loses_connections (RequestProvider0 := demo_provider) 5
      (immediate_mode Immediate 65535) 0 quiet_turn
      {| cy_remaining := 1; cy_sleep := 1; cy_clock := 0; cy_sys := demo_opened;
         cy_spec := RSRequestList {| data := [] |}; cy_rng := tt; cy_sent := [] |} st
      ltac:(vm_compute; reflexivity)) as (Hne & _ & Hin & _) end.
  intros E. rewrite E in Hin. destruct (snd _) as [|c l]; [done|].
  specialize (Hin c). set_solver.
Defined.

(** A template that makes the URL. *)
Definition demo_url_template : JsonTemplate unit :=
  {| jt_method := "GET"; jt_url := Str "{{toStr(1)}}"; jt_headers := ∅; jt_body := Null;
     jt_url_template := {[ ""%string := tt ]}; jt_body_template := ∅ |}.

