(* ===== verification/Metrics.v ===== *)
(** * Metrics

    [overload-metrics/src/lib.rs]: the metrics of a job, and the factory that registers
    them with prometheus and removes them again.

    The prometheus registry is a parameter ([PromRegistry]): registering a metric fails
    when one with the same name and job is registered, unregistering fails when there is
    none.  An [Arc<Metrics>] is known by a number.  A histogram is the list of its
    observations. *)
From Stdlib Require Import ZArith Lia.
From stdpp Require Import base list gmap strings numbers sets relations.
From S2P Require Import Prelude Json HttpTypes Pool.

Local Open Scope Z_scope.

(** ** The metrics of a job *)

Record Metrics := {
  mt_request_count : Z;
  mt_status_count : gmap string Z;
  mt_response_time : list (string * Z);
  mt_pool : PoolMetrics;
  mt_assertion_failure : gmap (string * string) Z
}.

Definition metrics_empty : Metrics :=
  {| mt_request_count := 0; mt_status_count := ∅; mt_response_time := []; mt_pool := metrics_zero;
     mt_assertion_failure := ∅ |}.

(** A counter of a vector of counters. *)
Definition counter `{Countable K} (k : K) (m : gmap K Z) : Z := default 0 (m !! k).
Definition inc_by `{Countable K} (k : K) (n : Z) (m : gmap K Z) : gmap K Z := <[k := counter k m + n]> m.

Definition upstream_request_count (increment : Z) (m : Metrics) : Metrics :=
  {| mt_request_count := mt_request_count m + increment; mt_status_count := mt_status_count m;
     mt_response_time := mt_response_time m; mt_pool := mt_pool m;
     mt_assertion_failure := mt_assertion_failure m |}.

Definition upstream_request_status_count (increment : Z) (status : string) (m : Metrics) : Metrics :=
  {| mt_request_count := mt_request_count m;
     mt_status_count := inc_by status increment (mt_status_count m);
     mt_response_time := mt_response_time m; mt_pool := mt_pool m;
     mt_assertion_failure := mt_assertion_failure m |}.

Definition upstream_response_time (status : string) (elapsed : Z) (m : Metrics) : Metrics :=
  {| mt_request_count := mt_request_count m; mt_status_count := mt_status_count m;
     mt_response_time := mt_response_time m ++ [(status, elapsed)]; mt_pool := mt_pool m;
     mt_assertion_failure := mt_assertion_failure m |}.

Definition inc_assertion_failure (id reason : string) (m : Metrics) : Metrics :=
  {| mt_request_count := mt_request_count m; mt_status_count := mt_status_count m;
     mt_response_time := mt_response_time m; mt_pool := mt_pool m;
     mt_assertion_failure := inc_by (id, reason) 1 (mt_assertion_failure m) |}.

Definition assertion_parse_failure (reason : string) (m : Metrics) : Metrics :=
  inc_assertion_failure "parse_err" reason m.

Definition assertion_failure (id : Z) (reason : string) (m : Metrics) : Metrics :=
  inc_assertion_failure (show_unsigned id) reason m.

(** ** The factory *)

(** Registering and unregistering a metric of a job; [prom_has] is what is exported. *)
Class PromRegistry (Reg : Type) := {
  prom_register : string → string → Reg → option Reg;
  prom_unregister : string → string → Reg → option Reg;
  prom_has : Reg → string → string → bool
}.

(** The contract of prometheus' [Registry]. *)
Class PromRegistryLaws (Reg : Type) `{!PromRegistry Reg} : Prop := {
  prom_register_ok r n j : prom_has r n j = false →
    ∃ r', prom_register n j r = Some r' ∧
      ∀ n' j', prom_has r' n' j' = bool_decide ((n', j') = (n, j)) || prom_has r n' j';
  prom_register_dup r n j : prom_has r n j = true → prom_register n j r = None;
  prom_unregister_ok r n j : prom_has r n j = true →
    ∃ r', prom_unregister n j r = Some r' ∧
      ∀ n' j', prom_has r' n' j' = negb (bool_decide ((n', j') = (n, j))) && prom_has r n' j'
}.

(** The metrics of a job, in the order they are registered ... *)
Definition register_order : list string :=
  ["upstream_response_time"; "upstream_request_status_count"; "upstream_request_count";
   "connection_pool_new_connection_attempt"; "connection_pool_new_connection_success";
   "connection_pool_connection_broken"; "connection_pool_connection_dropped";
   "connection_pool_connection_idle"; "connection_pool_connection_busy"; "connection_pool_size";
   "assertion_failure"]%string.

(** ... and unregistered. *)
Definition unregister_order : list string :=
  ["connection_pool_size"; "connection_pool_connection_idle"; "upstream_request_count";
   "connection_pool_connection_busy"; "connection_pool_connection_dropped";
   "connection_pool_connection_broken"; "connection_pool_new_connection_success";
   "connection_pool_new_connection_attempt"; "upstream_request_status_count";
   "upstream_response_time"; "assertion_failure"]%string.

Section Factory.
  Context {Reg : Type} `{!PromRegistry Reg}.

Record MetricsFactory := {
  registry : Reg;
  metrics : gmap string Z;
  next_arc : Z
}.

(** [MetricsFactory::default], on a registry that has the process collector. *)
Definition factory_default (reg : Reg) : MetricsFactory :=
  {| registry := reg; metrics := ∅; next_arc := 0 |}.

(** [registry.register(metric).unwrap()] for each of them. *)
Fixpoint register_all (names : list string) (job_id : string) (reg : Reg) : outcome Reg :=
  match names with
  | [] => Val reg
  | n :: names' => reg ← unwrap (prom_register n job_id reg); register_all names' job_id reg
  end.

(** The second half of [metrics_with_buckets], under the write lock. *)
Definition metrics_create (job_id : string) (f : MetricsFactory) : outcome (Z * MetricsFactory) :=
  match metrics f !! job_id with
  | Some m => Val (m, f)
  | None =>
      reg ← register_all register_order job_id (registry f);
      Val (next_arc f, {| registry := reg; metrics := <[job_id := next_arc f]> (metrics f);
                          next_arc := next_arc f + 1 |})
  end.

(** [metrics_with_buckets]: [meanwhile] is what other tasks do between releasing the read
    lock and getting the write lock. *)
Definition metrics_with_buckets (meanwhile : MetricsFactory → MetricsFactory) (job_id : string)
    (f : MetricsFactory) : outcome (Z * MetricsFactory) :=
  match metrics f !! job_id with
  | Some m => Val (m, f)
  | None => metrics_create job_id (meanwhile f)
  end.

(** [unregister] of one metric, and of each; an error is only logged. *)
Definition unregister (job_id : string) (reg : Reg) (n : string) : Reg :=
  default reg (prom_unregister n job_id reg).

Definition unregister_all (names : list string) (job_id : string) (reg : Reg) : Reg :=
  foldl (unregister job_id) reg names.

Definition with_registry (reg : Reg) (f : MetricsFactory) : MetricsFactory :=
  {| registry := reg; metrics := metrics f; next_arc := next_arc f |}.

(** The first statement of [remove_metrics]; its lock is released again. *)
Definition remove_entry (job_id : string) (f : MetricsFactory) : option Z * MetricsFactory :=
  (metrics f !! job_id,
   {| registry := registry f; metrics := delete job_id (metrics f); next_arc := next_arc f |}).

Definition remove_metrics (job_id : string) (f : MetricsFactory) : MetricsFactory :=
  let '(m, f) := remove_entry job_id f in
  match m with
  | Some _ => with_registry (unregister_all unregister_order job_id (registry f)) f
  | None => f
  end.

(** The factory among concurrent tasks: [fs_removals] has, for each call of
    [remove_metrics] that is under way, the metrics it has still to unregister. *)
Record FactorySys := {
  fs_factory : MetricsFactory;
  fs_removals : gmap string (list string)
}.

(** The steps of tasks that do not ask for the metrics of a job while they are being
    removed. *)
Inductive factory_step : FactorySys → FactorySys → Prop :=
| factory_create f rs job_id m f' :
    rs !! job_id = None → metrics_create job_id f = Val (m, f') →
    factory_step {| fs_factory := f; fs_removals := rs |} {| fs_factory := f'; fs_removals := rs |}
| factory_remove f rs job_id m f' :
    remove_entry job_id f = (Some m, f') →
    factory_step {| fs_factory := f; fs_removals := rs |}
      {| fs_factory := f'; fs_removals := <[job_id := unregister_order]> rs |}
| factory_unregister f rs job_id n names :
    rs !! job_id = Some (n :: names) →
    factory_step {| fs_factory := f; fs_removals := rs |}
      {| fs_factory := with_registry (unregister job_id (registry f) n) f;
         fs_removals := <[job_id := names]> rs |}
| factory_removed f rs job_id :
    rs !! job_id = Some [] →
    factory_step {| fs_factory := f; fs_removals := rs |}
      {| fs_factory := f; fs_removals := delete job_id rs |}.

Definition factory_sys_init (reg : Reg) : FactorySys :=
  {| fs_factory := factory_default reg; fs_removals := ∅ |}.

Definition factory_reachable (reg : Reg) : FactorySys → Prop := rtc factory_step (factory_sys_init reg).

Lemma is_Some_None_iff {A} : is_Some (None : option A) ↔ False.
Proof. split; [apply is_Some_None|done]. Qed.

(** *** The registry exports the metrics of the jobs of the factory, and what is left of
    those being removed *)

  Context `{!PromRegistryLaws Reg}.

Definition left_of (rs : gmap string (list string)) (j : string) : list string := default [] (rs !! j).

Definition removals_ok (s : FactorySys) : Prop :=
  ∀ j names, fs_removals s !! j = Some names →
    metrics (fs_factory s) !! j = None ∧ NoDup names ∧ names ⊆ register_order.

Definition in_sync (s : FactorySys) : Prop :=
  removals_ok s ∧
  ∀ n j, n ∈ register_order →
    (prom_has (registry (fs_factory s)) n j = true ↔
     is_Some (metrics (fs_factory s) !! j) ∨ n ∈ left_of (fs_removals s) j).

Lemma register_all_ok names job_id reg :
  NoDup names → (∀ n, n ∈ names → prom_has reg n job_id = false) →
  ∃ reg', register_all names job_id reg = Val reg' ∧
    ∀ n j, prom_has reg' n j = true ↔ (n ∈ names ∧ j = job_id) ∨ prom_has reg n j = true.
Proof.
  revert reg. induction names as [|x names IH]; intros reg Hnd Hno.
  { exists reg. split; [done|]. set_solver. }
  apply NoDup_cons in Hnd as [Hx Hnd].
  destruct (prom_register_ok reg x job_id) as (r1 & E & Hhas); [apply Hno; left|].
  cbn [register_all]. rewrite E. cbn [unwrap mbind outcome_bind].
  destruct (IH r1 Hnd) as (r2 & E2 & Hhas2).
  { intros n Hn. rewrite Hhas, (Hno n) by (by right). rewrite bool_decide_eq_false_2; [done|]. set_solver. }
  exists r2. split; [done|]. intros n j. rewrite Hhas2, Hhas, orb_true_iff, bool_decide_eq_true.
  set_solver.
Qed.

Lemma register_all_dup names job_id reg n :
  n ∈ names → prom_has reg n job_id = true → register_all names job_id reg = Panic.
Proof.
  revert reg. induction names as [|x names IH]; intros reg Hn Hhas; [set_solver|]. cbn [register_all].
  destruct (prom_has reg x job_id) eqn:Ex; [by rewrite prom_register_dup|].
  destruct (prom_register_ok reg x job_id Ex) as (r1 & -> & Hr1). cbn [unwrap mbind outcome_bind].
  apply IH; [|by rewrite Hr1, Hhas, orb_true_r].
  apply list_elem_of_In in Hn as [->|Hn]; [congruence|by apply list_elem_of_In].
Qed.

Lemma unregister_ok job_id reg n :
  prom_has reg n job_id = true →
  ∀ n' j, prom_has (unregister job_id reg n) n' j = true ↔
          ¬ (n' = n ∧ j = job_id) ∧ prom_has reg n' j = true.
Proof.
  intros Hn n' j. unfold unregister. destruct (prom_unregister_ok reg n job_id Hn) as (r & -> & Hr).
  cbn [default]. rewrite Hr, andb_true_iff, negb_true_iff, bool_decide_eq_false. naive_solver.
Qed.

Lemma orders_perm : unregister_order ≡ₚ register_order.
Proof. apply (bool_decide_unpack _). vm_compute. exact I. Qed.

Lemma register_order_nodup : NoDup register_order.
Proof. apply (bool_decide_unpack _). vm_compute. exact I. Qed.

Lemma metrics_create_sync job_id f rs :
  in_sync {| fs_factory := f; fs_removals := rs |} → rs !! job_id = None →
  ∃ m f', metrics_create job_id f = Val (m, f') ∧ in_sync {| fs_factory := f'; fs_removals := rs |} ∧
    metrics f' !! job_id = Some m.
Proof.
  intros [Hr Hs] Hj. unfold metrics_create. destruct (metrics f !! job_id) as [m|] eqn:Em; [by exists m, f|].
  simpl in Hs. destruct (register_all_ok register_order job_id (registry f)) as (reg & -> & Hhas).
  { apply register_order_nodup. }
  { intros n Hn. apply not_true_iff_false. rewrite (Hs n _ Hn), Em. unfold left_of. rewrite Hj.
    intros [H|H]; [by apply is_Some_None in H|set_solver]. }
  do 2 eexists. split; [done|]. cbn [metrics]. rewrite lookup_insert_eq. split; [split|done].
  - intros j names Hn. simpl in Hn |- *. rewrite lookup_insert_ne by congruence. by apply Hr.
  - intros n j Hn. simpl. rewrite Hhas, (Hs n j Hn). destruct (decide (j = job_id)) as [->|Hne].
    + rewrite lookup_insert_eq. naive_solver.
    + rewrite lookup_insert_ne by done. naive_solver.
Qed.

Lemma remove_entry_sync job_id f rs m f' :
  in_sync {| fs_factory := f; fs_removals := rs |} → remove_entry job_id f = (Some m, f') →
  in_sync {| fs_factory := f'; fs_removals := <[job_id := unregister_order]> rs |}.
Proof.
  intros [Hr Hs] [= Em <-]. simpl in Hr, Hs. split.
  - intros j names. simpl. intros [[<- <-]|[Hne Hn]]%lookup_insert_Some.
    + rewrite lookup_delete_eq, orders_perm. split_and!; [done|apply register_order_nodup|done].
    + rewrite lookup_delete_ne by done. by apply Hr.
  - intros n j Hn. simpl. rewrite (Hs n j Hn). unfold left_of. destruct (decide (j = job_id)) as [->|Hne].
    + rewrite lookup_delete_eq, lookup_insert_eq, Em. simpl. rewrite orders_perm. naive_solver.
    + by rewrite lookup_delete_ne, lookup_insert_ne by done.
Qed.

Lemma unregister_sync job_id f rs n names :
  in_sync {| fs_factory := f; fs_removals := rs |} → rs !! job_id = Some (n :: names) →
  in_sync {| fs_factory := with_registry (unregister job_id (registry f) n) f;
             fs_removals := <[job_id := names]> rs |}.
Proof.
  intros [Hr Hs] Hj. simpl in Hs. destruct (Hr job_id _ Hj) as (Hnone & [Hx Hnd]%NoDup_cons & Hsub).
  simpl in Hnone. split.
  - intros j l. simpl. intros [[<- <-]|[_ Hn]]%lookup_insert_Some; [|by apply Hr]. split_and!; set_solver.
  - intros n' j Hn'. simpl. rewrite unregister_ok.
    2: { apply Hs; [set_solver|]. right. unfold left_of. rewrite Hj. simpl. set_solver. }
    rewrite (Hs n' j Hn'). unfold left_of. destruct (decide (j = job_id)) as [->|Hne].
    + rewrite lookup_insert_eq, Hj, Hnone. simpl. rewrite is_Some_None_iff. set_solver.
    + rewrite lookup_insert_ne by done. naive_solver.
Qed.

Lemma factory_reachable_sync reg s :
  (∀ n j, n ∈ register_order → prom_has reg n j = false) → factory_reachable reg s → in_sync s.
Proof.
  intros Hreg. unfold factory_reachable. revert s. apply (rtc_ind_r (λ s, in_sync s)); [|intros s s' _ Hs IH].
  - split; [by intros ? ?|]. intros n j Hn. simpl. rewrite (Hreg n j Hn), lookup_empty, is_Some_None_iff.
    unfold left_of. rewrite lookup_empty. set_solver.
  - destruct Hs as [f rs job_id m f' Hn Hc|f rs job_id m f' Hr|f rs job_id n names Hn|f rs job_id Hn].
    + destruct (metrics_create_sync job_id f rs IH Hn) as (m' & f'' & E & Hs & _). rewrite Hc in E. by simplify_eq.
    + by eapply remove_entry_sync.
    + by apply unregister_sync.
    + destruct IH as [Hr Hs]. split.
      * intros j names. simpl. intros [_ Hj]%lookup_delete_Some. by apply Hr.
      * intros n j Hn'. simpl in Hs |- *. rewrite (Hs n j Hn'). unfold left_of.
        destruct (decide (j = job_id)) as [->|Hne]; [by rewrite lookup_delete_eq, Hn|by rewrite lookup_delete_ne].
Qed.

End Factory.

(** ** Properties *)

(** C19: The registry stays in step with the factory, whatever tasks create and remove, as long
    as nobody asks for the metrics of a job while they are being removed: apart from
    removals under way, a metric of a job is exported exactly while the job has its metrics.
    So asking for the metrics of a job never panics on a double registration, also when
    another task is faster between the two locks, gives the metrics the job already has,
    and leaves the job with the metrics it returns. *)
Theorem metrics_registered_once {Reg} `{!PromRegistry Reg, !PromRegistryLaws Reg} (reg : Reg)
    s s' job_id :
  (∀ n j, n ∈ register_order → prom_has reg n j = false) → factory_reachable reg s →
  factory_reachable reg s' → fs_removals s' !! job_id = None →
  (∀ n j, n ∈ register_order → fs_removals s !! j = None →
     prom_has (registry (fs_factory s)) n j = true ↔ is_Some (metrics (fs_factory s) !! j)) ∧
  ∃ m f', metrics_with_buckets (λ _, fs_factory s') job_id (fs_factory s) = Val (m, f') ∧
    metrics f' !! job_id = Some m ∧
    (f' = fs_factory s ∨ factory_reachable reg {| fs_factory := f'; fs_removals := fs_removals s' |}) ∧
    (∀ m0, metrics (fs_factory s) !! job_id = Some m0 → m = m0 ∧ f' = fs_factory s).
Proof.
  intros Hreg Hs Hs' Hj. split.
  { intros n j Hn Hjn. destruct (factory_reachable_sync reg s Hreg Hs) as [_ H]. rewrite (H n j Hn).
    unfold left_of. rewrite Hjn. set_solver. }
  unfold metrics_with_buckets. destruct (metrics (fs_factory s) !! job_id) as [m|] eqn:Em.
  { exists m, (fs_factory s). naive_solver. }
  destruct s' as [f1 rs]. simpl in *.
  destruct (metrics_create_sync job_id f1 rs (factory_reachable_sync reg _ Hreg Hs') Hj) as (m & f' & E & _ & Hl).
  exists m, f'. split_and!; try done. right. eapply rtc_r; [done|by eapply factory_create].
Qed.

(** Asking for the metrics of a job while they are being removed panics, from the moment
    the job is forgotten until its last metric is unregistered: the lock is released
    between the two. *)
Theorem removal_race_panics {Reg} `{!PromRegistry Reg, !PromRegistryLaws Reg} (reg : Reg)
    s job_id n names :
  (∀ n j, n ∈ register_order → prom_has reg n j = false) → factory_reachable reg s →
  fs_removals s !! job_id = Some (n :: names) →
  metrics_with_buckets (λ f, f) job_id (fs_factory s) = Panic.
Proof.
  intros Hreg Hs Hj. destruct (factory_reachable_sync reg s Hreg Hs) as [Hr Hh].
  destruct (Hr _ _ Hj) as (Hnone & _ & Hsub).
  unfold metrics_with_buckets, metrics_create. rewrite Hnone.
  rewrite (register_all_dup _ _ _ n); [done|set_solver|]. apply Hh; [set_solver|].
  right. unfold left_of. rewrite Hj. simpl. set_solver.
Qed.

(** ** Concrete inputs *)

(** A registry as the set of what it exports. *)
#[export] Instance set_registry : PromRegistry (gset (string * string)) := {|
  prom_register n j r := if decide ((n, j) ∈ r) then None else Some ({[ (n, j) ]} ∪ r);
  prom_unregister n j r := if decide ((n, j) ∈ r) then Some (r ∖ {[ (n, j) ]}) else None;
  prom_has r n j := bool_decide ((n, j) ∈ r)
|}.

#[export] Instance set_registry_laws : PromRegistryLaws (gset (string * string)).
Proof.
  constructor; intros r n j; simpl.
  - intros H%bool_decide_eq_false. rewrite decide_False by done. eexists. split; [done|].
    intros n' j'. apply eq_bool_prop_intro. rewrite orb_True, !bool_decide_spec. set_solver.
  - intros H%bool_decide_eq_true. by rewrite decide_True.
  - intros H%bool_decide_eq_true. rewrite decide_True by done. eexists. split; [done|].
    intros n' j'. apply eq_bool_prop_intro. rewrite andb_True, negb_True, !bool_decide_spec. set_solver.
Qed.

Lemma empty_registry n j : prom_has (∅ : gset (string * string)) n j = false.
Proof. simpl. apply bool_decide_eq_false_2. set_solver. Qed.

(** The job has its metrics, and is then forgotten. *)
Definition demo_created : FactorySys (Reg := gset (string * string)) :=
  {| fs_factory := match metrics_create "job" (factory_default ∅) with
                   | Val (_, f) => f
                   | Panic => factory_default ∅
                   end;
     fs_removals := ∅ |}.

Definition demo_forgotten : FactorySys (Reg := gset (string * string)) :=
  {| fs_factory := snd (remove_entry "job" (fs_factory demo_created));
     fs_removals := {[ "job"%string := unregister_order ]} |}.

Lemma demo_created_steps :
  factory_reachable (∅ : gset (string * string)) demo_created ∧
  ∃ m, metrics (fs_factory demo_created) !! "job"%string = Some m.
Proof.
  destruct (metrics_create_sync "job" (factory_default (∅ : gset (string * string))) ∅) as (m & f & E & _ & Hl).
  { apply (factory_reachable_sync ∅ (factory_sys_init ∅)); [intros n j _; apply empty_registry|apply rtc_refl]. }
  { done. }
  unfold demo_created. rewrite E. split; [|by exists m].
  eapply rtc_once. by eapply factory_create.
Qed.

Lemma demo_forgotten_steps : factory_reachable (∅ : gset (string * string)) demo_forgotten.
Proof.
  destruct demo_created_steps as [H [m E]]. eapply rtc_r; [exact H|].
  unfold demo_forgotten. rewrite <- (insert_empty (M := gmap string) "job"%string unregister_order).
  eapply (factory_remove (fs_factory demo_created) ∅ "job" m). unfold remove_entry. by rewrite E.
Qed.

Lemma metrics_registered_once_witness :
  ∃ m f', metrics_with_buckets (λ _, fs_factory demo_created) "job"
            (fs_factory (factory_sys_init (∅ : gset (string * string)))) = Val (m, f') ∧
          metrics f' !! "job"%string = Some m.
Proof.
  destruct (metrics_registered_once (∅ : gset (string * string)) (factory_sys_init ∅) demo_created "job"
    (λ n j _, empty_registry n j) ltac:(apply rtc_refl) (proj1 demo_created_steps) eq_refl) as (_ & m & f' & H1 & H2 & _).
  exists m, f'. split; [exact H1|exact H2].
Defined.

Lemma removal_race_panics_witness :
  metrics_with_buckets (λ f, f) "job" (fs_factory demo_forgotten) = Panic.
Proof.
  exact (removal_race_panics (∅ : gset (string * string)) demo_forgotten "job" _ _
    (λ n j _, empty_registry n j) demo_forgotten_steps eq_refl).
Defined.
