(* ===== verification/RequestFuture.v ===== *)
(** * One request

    [HttpRequestFuture] of [cluster-executor/src/lib.rs]: the state machine that is polled
    until a request is answered, counted and checked.

    The futures it waits for are hyper's response, the body and the reply of the Lua task;
    what each of them gives when it is polled is part of the environment of a poll
    ([PollEnv]).  Decoding JSON and UTF-8 are parameters. *)
From Stdlib Require Import ZArith Lia.
From stdpp Require Import base list gmap strings numbers sets.
From S2P Require Import Prelude Json Assert HttpTypes Pool Metrics.

Local Open Scope Z_scope.

Inductive poll (A : Type) := Ready (a : A) | Pending.
Arguments Ready {A} a.
Arguments Pending {A}.

Inductive HttpRequestState := StInit | StInProgress | StResponseReceived.

Inductive OriginalRequest := ORequest (r : HttpReq) | OPlaceHolder.

(** What [timeout(50ms, one_shot_recv)] ends with. *)
Inductive LuaReply :=
| LuaReplied (r : result (list AssertionError) unit)
| LuaReceiverError
| LuaTimeout.

(** The name of a variant, [IntoStaticStr]. *)
Definition error_reason (e : AssertionError) : string :=
  match e with
  | InvalidExpectation _ _ => "InvalidExpectation"
  | FailedAssert _ _ => "FailedAssert"
  | InvalidActual _ _ => "InvalidActual"
  | LuaAssertionFailure _ _ => "LuaAssertionFailure"
  end.

Definition generate_metrics_on_failure (errors : list AssertionError) (m : Metrics) : Metrics :=
  foldl (λ m err, assertion_failure (get_id err) (error_reason err) m) m errors.

(** The end of [do_lua_assertion], once the timeout has a result. *)
Definition lua_finished (r : LuaReply) (m : Metrics) : Metrics :=
  match r with
  | LuaReplied (Err errors) => generate_metrics_on_failure errors m
  | _ => m
  end.

(** The message [do_lua_assertion] sends when it is first polled. *)
Definition lua_message (body_str : string) (req : HttpReq) : LuaMessageIn :=
  (body_str, method req, url req, body req, headers req).

Section RequestFuture.
  Context {Compiled : Type} (select : Compiled → Value → result string (list Value)).
  Context (from_json : string → result string Value) (from_utf8 : string → option string).

(** [hf_body]: the future of the body is there; [hf_lua_future]: the one of the Lua
    assertion is. *)
Record HttpRequestFuture := {
  hf_state : HttpRequestState;
  hf_timer : option Z;
  hf_body : bool;
  hf_status : option string;
  hf_assertion : ResponseAssertion Compiled;
  hf_request_uri : Uri;
  hf_original_request : OriginalRequest;
  hf_lua_executor_sender : bool;
  hf_lua_future : bool
}.

Definition do_simple_assertion (self : HttpRequestFuture) (body : string) (m : Metrics) :
    outcome Metrics :=
  match from_json body with
  | Err e => Val (generate_metrics_on_failure [] (assertion_parse_failure e m))
  | Ok json_resp =>
      r ← simple_assert select (hf_request_uri self) None json_resp (hf_assertion self);
      Val match r with Ok _ => m | Err errors => generate_metrics_on_failure errors m end
  end.

(** What the polled futures give: the response's status or an error text, the body, the
    reply of the Lua task; and the clock in milliseconds. *)
Record PollEnv := {
  pe_now : Z;
  pe_request : poll (result string string);
  pe_body : poll (result string string);
  pe_lua : poll LuaReply
}.

Definition set_lua (original : OriginalRequest) (lua : bool) (self : HttpRequestFuture) : HttpRequestFuture :=
  {| hf_state := hf_state self; hf_timer := hf_timer self; hf_body := negb lua && hf_body self;
     hf_status := hf_status self; hf_assertion := hf_assertion self;
     hf_request_uri := hf_request_uri self; hf_original_request := original;
     hf_lua_executor_sender := hf_lua_executor_sender self; hf_lua_future := lua |}.

(** The first block: counting the request and starting the timer. *)
Definition begin_request (now : Z) (self : HttpRequestFuture) (m : Metrics) : HttpRequestFuture * Metrics :=
  match hf_state self with
  | StInit =>
      ({| hf_state := StInProgress; hf_timer := Some now; hf_body := hf_body self;
          hf_status := hf_status self; hf_assertion := hf_assertion self;
          hf_request_uri := hf_request_uri self; hf_original_request := hf_original_request self;
          hf_lua_executor_sender := hf_lua_executor_sender self; hf_lua_future := hf_lua_future self |},
       upstream_request_count 1 m)
  | _ => (self, m)
  end.

(** Polling the Lua future. *)
Definition poll_lua (e : PollEnv) (self : HttpRequestFuture) (m : Metrics) :
    poll unit * HttpRequestFuture * Metrics :=
  match pe_lua e with
  | Ready r => (Ready tt, self, lua_finished r m)
  | Pending => (Pending, self, m)
  end.

(** The body is there: assertions, and the Lua task if there is one.  The messages sent
    to it are the last component. *)
Definition body_ready (e : PollEnv) (body : result string string) (self : HttpRequestFuture) (m : Metrics) :
    outcome (poll unit * HttpRequestFuture * Metrics * list LuaMessageIn) :=
  _ ← unwrap (hf_timer self);
  match body with
  | Err _ => Val (Ready tt, self, m, [])
  | Ok body =>
      m ← match simple_assertions (hf_assertion self) with
          | Some _ => do_simple_assertion self body m
          | None => Val m
          end;
      if hf_lua_executor_sender self then
        let original_request := hf_original_request self in
        let self := set_lua OPlaceHolder false self in
        match from_utf8 body, original_request with
        | Some body_str, ORequest req =>
            let self := set_lua OPlaceHolder true self in
            let '(p, self, m) := poll_lua e self m in
            Val (p, self, m, [lua_message body_str req])
        | _, _ => Val (Ready tt, self, m, [])
        end
      else Val (Ready tt, self, m, [])
  end.

(** Polling hyper's response future. *)
Definition poll_response (e : PollEnv) (self : HttpRequestFuture) (m : Metrics) :
    outcome (poll unit * HttpRequestFuture * Metrics * list LuaMessageIn) :=
  match pe_request e with
  | Pending => Val (Pending, self, m, [])
  | Ready val =>
      let received status body :=
        {| hf_state := StResponseReceived; hf_timer := hf_timer self; hf_body := body;
           hf_status := status; hf_assertion := hf_assertion self;
           hf_request_uri := hf_request_uri self; hf_original_request := hf_original_request self;
           hf_lua_executor_sender := hf_lua_executor_sender self; hf_lua_future := hf_lua_future self |} in
      match val with
      | Ok status =>
          timer ← unwrap (hf_timer self);
          let elapsed := Z.max 0 (pe_now e - timer) in
          Val (Pending, received (Some status) true,
               upstream_request_status_count 1 status (upstream_response_time status elapsed m), [])
      | Err err =>
          Val (Ready tt, received (hf_status self) (hf_body self), upstream_request_status_count 1 err m, [])
      end
  end.

Definition poll_future (e : PollEnv) (self : HttpRequestFuture) (m : Metrics) :
    outcome (poll unit * HttpRequestFuture * Metrics * list LuaMessageIn) :=
  let '(self, m) := begin_request (pe_now e) self m in
  if hf_lua_future self then Val (poll_lua e self m, [])
  else if hf_body self then
    match pe_body e with
    | Ready body => body_ready e body self m
    | Pending => Val (Pending, self, m, [])
    end
  else
    match hf_state self with
    | StResponseReceived => Val (Ready tt, self, m, [])
    | _ => poll_response e self m
    end.

(** The executor polls until the future is ready; [None]: it is not ready yet. *)
Fixpoint run_future (envs : list PollEnv) (self : HttpRequestFuture) (m : Metrics) :
    option (outcome (Metrics * list LuaMessageIn)) :=
  match envs with
  | [] => None
  | e :: envs' =>
      match poll_future e self m with
      | Panic => Some Panic
      | Val (Ready _, _, m, msgs) => Some (Val (m, msgs))
      | Val (Pending, self, m, msgs) =>
          match run_future envs' self m with
          | Some (Val (m, msgs')) => Some (Val (m, msgs ++ msgs'))
          | r => r
          end
      end
  end.

(** The future that [send_single_requests] builds. *)
Definition new_request_future (ra : ResponseAssertion Compiled) (uri : Uri) (req : HttpReq) (lua : bool) :
    HttpRequestFuture :=
  {| hf_state := StInit; hf_timer := None; hf_body := false; hf_status := None; hf_assertion := ra;
     hf_request_uri := uri; hf_original_request := ORequest req; hf_lua_executor_sender := lua;
     hf_lua_future := false |}.

End RequestFuture.

Arguments HttpRequestFuture : clear implicits.

(** ** Facts *)

(** All but the assertion failures is the same. *)
Definition same_upstream (m m' : Metrics) : Prop :=
  mt_request_count m' = mt_request_count m ∧ mt_status_count m' = mt_status_count m ∧
  mt_response_time m' = mt_response_time m ∧ mt_pool m' = mt_pool m.

Lemma same_upstream_refl m : same_upstream m m.
Proof. done. Qed.

#[export] Hint Resolve same_upstream_refl : overload.

Lemma generate_metrics_upstream errors m : same_upstream m (generate_metrics_on_failure errors m).
Proof.
  unfold generate_metrics_on_failure. revert m. induction errors as [|e errors IH]; intros m; [done|].
  simpl. destruct (IH (assertion_failure (get_id e) (error_reason e) m)) as (? & ? & ? & ?). done.
Qed.

Lemma lua_finished_upstream r m : same_upstream m (lua_finished r m).
Proof. destruct r as [[]| |]; try done. apply generate_metrics_upstream. Qed.

Section Facts.
  Context {Compiled : Type} (select : Compiled → Value → result string (list Value)).
  Context (from_json : string → result string Value) (from_utf8 : string → option string).

Local Abbreviation poll_it := (poll_future select from_json from_utf8).

Lemma simple_assertion_upstream (self : HttpRequestFuture Compiled) body m m' :
  do_simple_assertion select from_json self body m = Val m' → same_upstream m m'.
Proof.
  unfold do_simple_assertion. destruct (from_json body) as [v|e].
  - destruct (simple_assert _ _ _ _ _) as [[]|]; simpl; intros [= <-]; [done|].
    apply generate_metrics_upstream.
  - by intros [= <-].
Qed.

(** The request was counted once, with its status, and its time if it was answered. *)
Definition counted (m0 m : Metrics) : Prop :=
  mt_request_count m = mt_request_count m0 + 1 ∧ mt_pool m = mt_pool m0 ∧
  ∃ s, mt_status_count m = inc_by s 1 (mt_status_count m0) ∧
    (mt_response_time m = mt_response_time m0 ∨
     ∃ t, 0 <= t ∧ mt_response_time m = mt_response_time m0 ++ [(s, t)]).

Lemma counted_same m0 m m' : counted m0 m → same_upstream m m' → counted m0 m'.
Proof. unfold counted. by intros Hc (-> & -> & -> & ->). Qed.

(** The stages of a future that is not ready. *)
Inductive stage (m0 : Metrics) (req : HttpReq) : HttpRequestFuture Compiled → Metrics → Prop :=
| stage_init self :
    hf_state self = StInit → hf_body self = false → hf_lua_future self = false →
    hf_original_request self = ORequest req → stage m0 req self m0
| stage_waiting self :
    hf_state self = StInProgress → is_Some (hf_timer self) → hf_body self = false →
    hf_lua_future self = false → hf_original_request self = ORequest req →
    stage m0 req self (upstream_request_count 1 m0)
| stage_body self m :
    hf_state self = StResponseReceived → is_Some (hf_timer self) → hf_body self = true →
    hf_lua_future self = false → hf_original_request self = ORequest req →
    counted m0 m → stage m0 req self m.

(** ... and while it waits for the Lua task. *)
Inductive lua_stage (m0 : Metrics) : HttpRequestFuture Compiled → Metrics → Prop :=
| lua_stage_intro self m :
    hf_state self = StResponseReceived → hf_lua_future self = true → counted m0 m →
    lua_stage m0 self m.

Definition msgs_of (req : HttpReq) (msgs : list LuaMessageIn) : Prop :=
  msgs = [] ∨ ∃ b, msgs = [lua_message b req].

Lemma begin_waiting m0 req self m now :
  stage m0 req self m → hf_body self = false →
  ∃ self', begin_request now self m = (self', upstream_request_count 1 m0) ∧
    stage m0 req self' (upstream_request_count 1 m0) ∧ hf_state self' = StInProgress ∧
    hf_assertion self' = hf_assertion self ∧ hf_request_uri self' = hf_request_uri self.
Proof.
  intros Hst Hb. unfold begin_request. inversion Hst as [? Hs|? Hs|? ? Hs ? Hb']; subst; rewrite Hs.
  - eexists. split; [done|]. split_and!; simpl; first [done|by apply stage_waiting].
  - exists self. split_and!; first [done|by apply stage_waiting].
  - congruence.
Qed.

Lemma poll_response_stage m0 req self e r :
  stage m0 req self (upstream_request_count 1 m0) → hf_state self = StInProgress →
  poll_response e self (upstream_request_count 1 m0) = r →
  match r with
  | Val (Ready _, _, m', msgs) => counted m0 m' ∧ msgs = []
  | Val (Pending, self', m', msgs) =>
      stage m0 req self' m' ∧ msgs = [] ∧ hf_assertion self' = hf_assertion self ∧
      hf_request_uri self' = hf_request_uri self ∧
      (∀ v, pe_request e = Ready v → hf_body self' = true)
  | Panic => False
  end.
Proof.
  intros Hst Hs <-. inversion Hst as [? Hs'|? ? [t Ht] Hb Hl Ho|? ? Hs']; subst; try congruence.
  unfold poll_response. destruct (pe_request e) as [[status|err]|]; simpl.
  - rewrite Ht. simpl. split_and!; try done. apply stage_body; simpl; try done.
    split_and!; simpl; try done. exists status. split; [done|]. right. eexists. split; [|done]. lia.
  - split; [|done]. split_and!; simpl; try done. exists err. split; [done|by left].
  - split_and!; done.
Qed.

Lemma body_ready_stage m0 req self m e b r :
  stage m0 req self m → hf_body self = true → body_ready select from_json from_utf8 e b self m = Val r →
  match r with
  | (Ready _, _, m', msgs) => counted m0 m' ∧ msgs_of req msgs
  | (Pending, self', m', msgs) =>
      lua_stage m0 self' m' ∧ msgs_of req msgs ∧ pe_lua e = Pending
  end.
Proof.
  intros Hst Hb. inversion Hst as [? ? Hb'|? ? ? Hb'|? ? Hs [t Ht] _ Hl Ho Hc]; subst; try congruence.
  unfold body_ready. rewrite Ht. simpl.
  destruct b as [b|err]; [|intros [= <-]; split; [done|by left]].
  match goal with |- context [mbind _ ?o] => destruct o as [m1|] eqn:Em end; [|done].
  assert (counted m0 m1) as Hc1.
  { destruct (simple_assertions _); [|by simplify_eq].
    apply simple_assertion_upstream in Em. by eapply counted_same. }
  simpl. destruct (hf_lua_executor_sender self); [|intros [= <-]; split; [done|by left]].
  rewrite Ho. destruct (from_utf8 b) as [s|]; [|intros [= <-]; split; [done|by left]].
  unfold poll_lua. destruct (pe_lua e) as [rep|]; intros [= <-].
  - split; [eapply counted_same; [done|apply lua_finished_upstream]|right; eauto].
  - split_and!; [|right; eauto|done]. by constructor.
Qed.

Lemma poll_future_stage m0 req e self m r :
  stage m0 req self m → poll_it e self m = Val r →
  match r with
  | (Ready _, _, m', msgs) => counted m0 m' ∧ msgs_of req msgs
  | (Pending, self', m', msgs) =>
      (stage m0 req self' m' ∧ msgs = []) ∨ (lua_stage m0 self' m' ∧ msgs_of req msgs)
  end.
Proof.
  intros Hst. unfold poll_future. destruct (hf_body self) eqn:Hb.
  - assert (begin_request (pe_now e) self m = (self, m)) as ->.
    { inversion Hst as [? Hs|? Hs|? ? Hs]; subst; unfold begin_request; rewrite Hs; congruence. }
    assert (hf_lua_future self = false) as -> by (by inversion Hst). rewrite Hb.
    destruct (pe_body e) as [b|]; [|intros [= <-]; by left].
    intros Hr. eapply body_ready_stage in Hr; [|done..]. destruct r as [[[[[]|] ?] ?] ?]; naive_solver.
  - destruct (begin_waiting m0 req self m (pe_now e) Hst Hb) as (self' & -> & Hst' & Hs & _ & _).
    assert (hf_lua_future self' = false ∧ hf_body self' = false) as [-> ->].
    { inversion Hst'; subst; first [done|congruence]. }
    rewrite Hs. intros Hr. pose proof (poll_response_stage _ _ _ _ _ Hst' Hs Hr) as Hp.
    destruct r as [[[[[]|] ?] ?] ?]; unfold msgs_of; naive_solver.
Qed.

Lemma lua_stage_poll m0 e self m r :
  lua_stage m0 self m → poll_it e self m = Val r →
  match r with
  | (Ready _, _, m', msgs) => counted m0 m' ∧ msgs = []
  | (Pending, self', m', msgs) => lua_stage m0 self' m' ∧ msgs = []
  end.
Proof.
  intros [self' m' Hs Hl Hc]. unfold poll_future, begin_request. rewrite Hs, Hl.
  unfold poll_lua. destruct (pe_lua e); intros [= <-].
  - split; [eapply counted_same; [done|apply lua_finished_upstream]|done].
  - split; [by constructor|done].
Qed.

Lemma run_lua_stage m0 envs self m m' msgs :
  lua_stage m0 self m → run_future select from_json from_utf8 envs self m = Some (Val (m', msgs)) →
  counted m0 m' ∧ msgs = [].
Proof.
  revert self m m' msgs. induction envs as [|e envs IH]; intros self m m' msgs Hl; [done|].
  cbn [run_future]. destruct (poll_future _ _ _ e self m) as [r|] eqn:E; [|done].
  eapply lua_stage_poll in E; [|done]. destruct r as [[[[[]|] self1] m1] msgs1].
  { intros [= <- <-]. done. }
  destruct E as [Hl1 ->]. destruct (run_future _ _ _ envs self1 m1) as [[[m2 msgs2]|]|] eqn:E2; try done.
  intros [= <- <-]. by eapply IH.
Qed.

Lemma run_stage m0 req envs self m m' msgs :
  stage m0 req self m → run_future select from_json from_utf8 envs self m = Some (Val (m', msgs)) →
  counted m0 m' ∧ msgs_of req msgs.
Proof.
  revert self m m' msgs. induction envs as [|e envs IH]; intros self m m' msgs Hst; [done|].
  cbn [run_future]. destruct (poll_future _ _ _ e self m) as [r|] eqn:E; [|done].
  eapply poll_future_stage in E; [|done]. destruct r as [[[[[]|] self1] m1] msgs1].
  { intros [= <- <-]. done. }
  destruct (run_future _ _ _ envs self1 m1) as [[[m2 msgs2]|]|] eqn:E2; try done.
  intros [= <- <-]. destruct E as [[Hst1 ->]|[Hl1 Hm]]; [by eapply IH|].
  eapply run_lua_stage in E2 as [? ->]; [|done]. by rewrite app_nil_r.
Qed.

(** *** Progress *)

(** Everything the future waits for is there. *)
Definition all_done (e : PollEnv) : bool :=
  match pe_request e, pe_body e, pe_lua e with Ready _, Ready _, Ready _ => true | _, _, _ => false end.

(** How many such polls are still needed. *)
Definition rank (self : HttpRequestFuture Compiled) : nat :=
  if hf_body self || hf_lua_future self then 1 else 2.

  Context (ra : ResponseAssertion Compiled) (uri : Uri).
  Context (no_panic : ∀ json, simple_assert select uri None json ra ≠ Panic).

Lemma body_ready_no_panic self e b m :
  is_Some (hf_timer self) → hf_assertion self = ra → hf_request_uri self = uri →
  ∃ r, body_ready select from_json from_utf8 e b self m = Val r.
Proof.
  intros [t Ht] Ha Hu. unfold body_ready. rewrite Ht. simpl. destruct b as [b|err]; [|eauto].
  assert (∃ m1, do_simple_assertion select from_json self b m = Val m1) as [m1 Hm1].
  { unfold do_simple_assertion. destruct (from_json b); [|eauto]. rewrite Ha, Hu.
    destruct (simple_assert _ _ _ _ _) eqn:E; simpl; [eauto|]. by apply no_panic in E. }
  assert (∃ m2, match simple_assertions (hf_assertion self) with
                | Some _ => do_simple_assertion select from_json self b m | None => Val m end = Val m2)
    as [m2 ->] by (case_match; eauto).
  simpl. repeat case_match; eauto.
Qed.

Lemma poll_progress m0 req e self m :
  stage m0 req self m → hf_assertion self = ra → hf_request_uri self = uri →
  ∃ p self' m' msgs, poll_it e self m = Val (p, self', m', msgs) ∧
    (p = Pending →
       (rank self' <= rank self)%nat ∧ (all_done e = true → rank self = 2%nat ∧ rank self' = 1%nat) ∧
       (lua_stage m0 self' m' ∨
        (stage m0 req self' m' ∧ hf_assertion self' = ra ∧ hf_request_uri self' = uri))).
Proof.
  intros Hst Ha Hu. unfold poll_future. destruct (hf_body self) eqn:Hb.
  - assert (begin_request (pe_now e) self m = (self, m)) as ->.
    { inversion Hst as [? Hs|? Hs|? ? Hs]; subst; unfold begin_request; rewrite Hs; congruence. }
    assert (hf_lua_future self = false) as -> by (by inversion Hst). rewrite Hb.
    assert (is_Some (hf_timer self)) as Ht by (inversion Hst; congruence || done).
    destruct (pe_body e) as [b|] eqn:Eb.
    + destruct (body_ready_no_panic self e b m Ht Ha Hu) as [[[[p self'] m'] msgs] Hr].
      rewrite Hr. eapply body_ready_stage in Hr; [|done..].
      do 4 eexists. split; [done|]. intros ->. destruct Hr as (Hl & _ & Hp).
      destruct Hl as [self' m' Hs Hl Hc]. unfold rank. rewrite Hb, Hl, orb_true_r. simpl.
      split_and!; [done| |by left; constructor]. unfold all_done. rewrite Hp.
      by destruct (pe_request e), (pe_body e).
    + do 4 eexists. split; [done|]. intros _. split_and!; [done| |by right].
      unfold all_done. rewrite Eb. by destruct (pe_request e).
  - destruct (begin_waiting m0 req self m (pe_now e) Hst Hb) as (self' & -> & Hst' & Hs & Ha' & Hu').
    assert (hf_lua_future self' = false ∧ hf_body self' = false) as [-> ->].
    { inversion Hst'; subst; first [done|congruence]. }
    assert (hf_lua_future self = false) as Hl by (by inversion Hst).
    rewrite Hs. destruct (poll_response e self' _) as [[[[p self2] m2] msgs]|] eqn:E;
      pose proof (poll_response_stage _ _ _ _ _ Hst' Hs E) as Hp; [|done].
    do 4 eexists. split; [done|]. intros ->. destruct Hp as (Hst2 & -> & Ha2 & Hu2 & Hb2).
    unfold rank. rewrite Hb, Hl. simpl. split_and!; [case_match; lia| |right; split_and!; congruence || done].
    unfold all_done. destruct (pe_request e); [|done]. intros _. by erewrite Hb2.
Qed.

Lemma run_lua_done m0 envs self m :
  lua_stage m0 self m → existsb all_done envs = true →
  ∃ m' msgs, run_future select from_json from_utf8 envs self m = Some (Val (m', msgs)).
Proof.
  revert self m. induction envs as [|e envs IH]; intros self m Hl; [done|]. simpl existsb.
  cbn [run_future]. assert (hf_state self = StResponseReceived ∧ hf_lua_future self = true) as [Hs Hlf] by (by destruct Hl).
  unfold poll_future, begin_request. rewrite Hs, Hlf.
  unfold poll_lua, all_done. destruct (pe_lua e); [eauto|].
  intros H. destruct (IH self m) as (m' & msgs & ->); [done| |eauto].
  by destruct (pe_request e), (pe_body e).
Qed.

Lemma run_done m0 req envs self m :
  stage m0 req self m → hf_assertion self = ra → hf_request_uri self = uri →
  (rank self <= length (filter (λ e, all_done e = true) envs))%nat →
  ∃ m' msgs, run_future select from_json from_utf8 envs self m = Some (Val (m', msgs)).
Proof.
  revert self m. induction envs as [|e envs IH]; intros self m Hst Ha Hu Hn.
  { unfold rank in Hn. destruct (_ || _); simpl in Hn; lia. }
  destruct (poll_progress m0 req e self m Hst Ha Hu) as (p & self' & m' & msgs & Hp & Hnext).
  cbn [run_future]. rewrite Hp. destruct p as [[]|]; [eauto|].
  destruct (Hnext eq_refl) as (Hle & Hdone & Hs'). clear Hnext. rewrite filter_cons in Hn.
  assert (rank self' <= length (filter (λ e, all_done e = true) envs))%nat as Hn'.
  { case_decide as He; [destruct (Hdone He); simpl in Hn; lia|lia]. }
  destruct Hs' as [Hl|(Hst' & Ha' & Hu')].
  - destruct (run_lua_done m0 envs self' m' Hl) as (m2 & msgs2 & ->); [|eauto].
    destruct (filter _ envs) as [|x l] eqn:Ef; [unfold rank in Hn'; destruct (_ || _); simpl in Hn'; lia|].
    apply existsb_exists. exists x. rewrite <- list_elem_of_In.
    assert (x ∈ filter (λ e, all_done e = true) envs) as [??]%list_elem_of_filter by (rewrite Ef; left). done.
  - destruct (IH self' m' Hst' Ha' Hu' Hn') as (m2 & msgs2 & ->). eauto.
Qed.

End Facts.

Lemma new_future_stage {Compiled} m0 (ra : ResponseAssertion Compiled) uri req lua :
  stage m0 req (new_request_future ra uri req lua) m0.
Proof. by apply stage_init. Qed.

(** ** Properties *)

(** C14: However often it is polled and whatever the server, the body and the Lua task do, a
    request that completes is counted exactly once as sent and exactly once under one
    status (the answer's, or the error's), its response time is observed at most once and
    under that status, the Lua task gets at most one message, about this request, and the
    pool metrics are untouched. *)
Theorem request_counted_once {Compiled} select from_json from_utf8
    (ra : ResponseAssertion Compiled) uri req lua envs m0 m msgs :
  run_future select from_json from_utf8 envs (new_request_future ra uri req lua) m0 = Some (Val (m, msgs)) →
  mt_request_count m = mt_request_count m0 + 1 ∧ mt_pool m = mt_pool m0 ∧
  (∃ s, mt_status_count m = inc_by s 1 (mt_status_count m0) ∧
    (mt_response_time m = mt_response_time m0 ∨
     ∃ t, 0 <= t ∧ mt_response_time m = mt_response_time m0 ++ [(s, t)])) ∧
  (msgs = [] ∨ ∃ b, msgs = [lua_message b req]).
Proof.
  intros Hr. eapply run_stage in Hr as [(H1 & H2 & H3) H4]; [done|apply new_future_stage].
Qed.

(** C33: A request completes: two polls in which everything it waits for is there are enough,
    in any order with other polls, and it does not panic unless checking the response
    does. *)
Theorem request_completes {Compiled} select from_json from_utf8
    (ra : ResponseAssertion Compiled) uri req lua envs m0 :
  (∀ json, simple_assert select uri None json ra ≠ Panic) →
  (2 <= length (filter (λ e, all_done e = true) envs))%nat →
  ∃ m msgs, run_future select from_json from_utf8 envs (new_request_future ra uri req lua) m0 =
              Some (Val (m, msgs)).
Proof.
  intros Hnp Hn. eapply (run_done select from_json from_utf8 ra uri Hnp m0 req); try done.
  apply new_future_stage.
Qed.

(** An expectation on the request body can never hold: the response is checked without
    the body, so every answer that is JSON is counted as a failed assertion. *)
Theorem request_body_never_available {Compiled} select from_json
    (self : HttpRequestFuture Compiled) a p body json m :
  simple_assertions (hf_assertion self) = Some [a] → expectation a = RequestBody p →
  from_json body = Ok json →
  do_simple_assertion select from_json self body m =
    Val (assertion_failure (assertion_id a) "InvalidExpectation" m).
Proof.
  intros Ha Hp Hj. unfold do_simple_assertion. rewrite Hj. unfold simple_assert. rewrite Ha. simpl.
  unfold assert_one, eval_expectation. by rewrite Hp.
Qed.

(** ** Concrete inputs *)

Definition done_poll (now : Z) : PollEnv :=
  {| pe_now := now; pe_request := Ready (Ok "200"%string); pe_body := Ready (Ok "{}"%string);
     pe_lua := Ready (LuaReplied (Ok tt)) |}.

Definition waiting_poll (now : Z) : PollEnv :=
  {| pe_now := now; pe_request := Pending; pe_body := Pending; pe_lua := Pending |}.

Definition demo_future : HttpRequestFuture nat :=
  new_request_future (mk_response_assertion None None) (demo_uri "x=1") (mk_http_req "" "GET" "/" None ∅) true.

Lemma request_counted_once_witness :
  ∃ m msgs, run_future demo_select (λ _, Ok Null) Some [waiting_poll 3; done_poll 10; waiting_poll 11; done_poll 12]
              demo_future metrics_empty = Some (Val (m, msgs)) ∧
            mt_request_count m = 1 ∧ mt_response_time m = [("200"%string, 7)].
Proof.
  eexists _, _. split; [vm_compute; reflexivity|].
  match goal with |- context [mt_request_count ?m] =>
    destruct (request_counted_once demo_select (λ _, Ok Null) Some (mk_response_assertion None None)
      (demo_uri "x=1") (mk_http_req "" "GET" "/" None ∅) true
      [waiting_poll 3; done_poll 10; waiting_poll 11; done_poll 12] metrics_empty m
      [lua_message "{}" (mk_http_req "" "GET" "/" None ∅)] ltac:(vm_compute; reflexivity)) as (H & _) end.
  split; [exact H|reflexivity].
Defined.

Lemma request_completes_witness :
  ∃ m msgs, run_future demo_select (λ _, Ok Null) Some [waiting_poll 3; done_poll 10; waiting_poll 11; done_poll 12]
              demo_future metrics_empty = Some (Val (m, msgs)).
Proof.
  apply (request_completes demo_select (λ _, Ok Null) Some).
  - intros json. discriminate.
  - vm_compute. lia.
Defined.

Lemma request_body_never_available_witness :
  do_simple_assertion demo_select (λ _, Ok Null)
    (new_request_future (mk_response_assertion (Some [mk_assertion 5 (RequestBody (mk_path "$" 0%nat))
      (ActualConstant Null)]) None) (demo_uri "x=1") (mk_http_req "" "POST" "/" (Some "{}"%string) ∅) false)
    "{}" metrics_empty = Val (assertion_failure 5 "InvalidExpectation" metrics_empty).
Proof.
  exact (request_body_never_available demo_select (λ _, Ok Null)
    (new_request_future (mk_response_assertion (Some [mk_assertion 5 (RequestBody (mk_path "$" 0%nat))
      (ActualConstant Null)]) None) (demo_uri "x=1") (mk_http_req "" "POST" "/" (Some "{}"%string) ∅) false)
    _ _ "{}" Null metrics_empty eq_refl eq_refl eq_refl).
Defined.
