(* ===== verification/Secondary.v ===== *)
(** * The executor on a secondary

    The receiving half of [cluster-executor/src/secondary.rs]: the handshake, the message
    loop of a session ([handle_connection_from_primary] and its [_v2]), the pools that
    outlive a session, and fetching request files from the primary.

    Several sessions share [CONNECTION_POOLS], [CONNECTION_POOLS_USAGE_LISTENER], the
    metrics and the data directory; they are one record ([Secondary]) that sessions change
    when they begin and when they end.  The oneshot channel by which an old session tells
    a new one that its pool is back is known by a number.  What is received is a list of
    [recv]: the next message, two seconds without one, or the end of the channel. *)
From Stdlib Require Import ZArith Lia Ascii.
From stdpp Require Import base list gmap strings numbers sets relations.
From S2P Require Import Prelude RateSpec Json Assert HttpTypes Pool Providers Jobs Primary Cycle Metrics.

Local Open Scope Z_scope.

(** ** Receiving *)

(** What a cycle meets when a rate message is handled. *)
Record RateEnv := { re_now : Z; re_setup : N; re_turns : list Turn }.

(** The result of [timeout(.., rx.recv())]. *)
Inductive recv (M : Type) :=
| RTimeout
| RErr
| RClosed
| RMsg (m : M) (e : RateEnv).
Arguments RTimeout {M}.
Arguments RErr {M}.
Arguments RClosed {M}.
Arguments RMsg {M} m e.

Section Handshake.
  Context {Compiled Hir AST Conn : Type}.

Local Abbreviation Req := (Request Compiled Hir AST Conn).
Local Abbreviation Msg := (MessageFromPrimary Compiled Hir AST Conn).

(** [msg??.ok_or(..)?]: the message, if one came in time. *)
Definition received (r : recv Msg) : result string Msg :=
  match r with
  | RTimeout => Err "deadline has elapsed"%string
  | RErr => Err "receive error"%string
  | RClosed => Err "No message received"%string
  | RMsg m _ => Ok m
  end.

(** Both take the next items of the inbox and give the rest; [None]: nothing came yet. *)
Definition check_for_metadata_msg (inbox : list (recv Msg)) :
    option (result string Metadata * list (recv Msg)) :=
  match inbox with
  | [] => None
  | r :: inbox =>
      Some (match received r with
            | Ok (MMetadata metadata) => Ok metadata
            | Ok _ => Err "Expected MessageFromPrimary::Metadata, but didn't receive"%string
            | Err e => Err e
            end, inbox)
  end.

(** [n] more tries. *)
Fixpoint request_tries (n : nat) (inbox : list (recv Msg)) : option (result string Req * list (recv Msg)) :=
  match n with
  | O => Some (Err "No message received"%string, inbox)
  | S n' =>
      match inbox with
      | [] => None
      | r :: inbox =>
          match received r with
          | Ok (MRequest request) => Some (Ok request, inbox)
          | Ok MReset => request_tries n' inbox
          | Ok _ => Some (Err "Expected MessageFromPrimary::Request|Reset, but didn't receive"%string, inbox)
          | Err e => Some (Err e, inbox)
          end
      end
  end.

(** A request may come after a reset, so it tries twice. *)
Definition check_for_request_msg (inbox : list (recv Msg)) : option (result string Req * list (recv Msg)) :=
  request_tries 2 inbox.

(** Metadata, then the request. *)
Definition handshake (inbox : list (recv Msg)) :
    option (result string (Metadata * Req) * list (recv Msg)) :=
  '(md, inbox) ← check_for_metadata_msg inbox;
  match md with
  | Err e => Some (Err e, inbox)
  | Ok md =>
      '(r, inbox) ← check_for_request_msg inbox;
      Some (r ← r; Ok (md, r), inbox)
  end.

End Handshake.

(** ** Fetching request files *)

(** [Path::file_name] *)
Definition path_file_name (p : string) : option string :=
  f ← last (filter (λ c, c ≠ ""%string ∧ c ≠ "."%string) (split_char "/" p));
  if decide (f = ".."%string) then None else Some f.

Section Files.
  Context {Compiled Hir AST Conn : Type}.
  Context (create_ok : string → bool) (fetch_ok : string → string → bool).

(** [download_request_file_from_primary]: [files] are the paths that exist; [create_ok] and
    [fetch_ok] decide whether creating a file and downloading it from a host succeed. *)
Definition download_request_file_from_primary (file_path primary_uri : string) (files : gset string) :
    outcome (result string unit * gset string) :=
  if decide (file_path ∈ files) then Val (Ok tt, files)
  else if create_ok file_path then
    let files := {[ file_path ]} ∪ files in
    filename ← unwrap (path_file_name file_path);
    Val (if fetch_ok primary_uri filename then Ok tt else Err "download failed"%string, files)
  else Val (Err "filed to create file"%string, files).

(** [initiator_for_request_from_primary]: only requests from a file need one. *)
Definition prepare (request : Request Compiled Hir AST Conn) (primary_uri : string) (files : gset string) :
    outcome (result string unit * gset string) :=
  match req request with
  | RSRequestFile r => download_request_file_from_primary (rf_file_name r) primary_uri files
  | RSSplitRequestFile r => download_request_file_from_primary (sf_file_name r) primary_uri files
  | RSRandomDataRequest _ | RSRequestList _ | RSJsonTemplateRequest _ => Val (Ok tt, files)
  end.

End Files.

(** ** The pools that outlive a session *)

(** A oneshot channel: waiting, notified, its sender is gone, or its receiver has reported
    that it is gone. *)
Inductive chan_state := ChOpen | ChSent | ChClosed | ChDone.

#[export] Instance chan_state_eq_dec : EqDecision chan_state.
Proof. solve_decision. Defined.

Section Pools.
  Context {Reg : Type} `{!PromRegistry Reg}.

Record Secondary := {
  sc_pools : gmap string PoolSys;
  sc_listeners : gmap string nat;
  sc_channels : gmap nat chan_state;
  sc_next : nat;
  sc_metrics : MetricsFactory (Reg := Reg);
  sc_files : gset string
}.

Definition with_pools (pools : gmap string PoolSys) (listeners : gmap string nat) (s : Secondary) : Secondary :=
  {| sc_pools := pools; sc_listeners := listeners; sc_channels := sc_channels s; sc_next := sc_next s;
     sc_metrics := sc_metrics s; sc_files := sc_files s |}.

Definition with_metrics (f : MetricsFactory (Reg := Reg)) (s : Secondary) : Secondary :=
  {| sc_pools := sc_pools s; sc_listeners := sc_listeners s; sc_channels := sc_channels s;
     sc_next := sc_next s; sc_metrics := f; sc_files := sc_files s |}.

Definition with_files (files : gset string) (s : Secondary) : Secondary :=
  {| sc_pools := sc_pools s; sc_listeners := sc_listeners s; sc_channels := sc_channels s;
     sc_next := sc_next s; sc_metrics := sc_metrics s; sc_files := files |}.

(** The sender of channel [c] sends, or goes away; only the first of the two counts. *)
Definition signal (c : nat) (st : chan_state) (s : Secondary) : Secondary :=
  {| sc_pools := sc_pools s; sc_listeners := sc_listeners s;
     sc_channels := (if decide (sc_channels s !! c = Some ChOpen) then <[c := st]> (sc_channels s)
                     else sc_channels s);
     sc_next := sc_next s; sc_metrics := sc_metrics s; sc_files := sc_files s |}.

(** The receiver of channel [c] has reported that the sender is gone. *)
Definition receiver_done (c : nat) (s : Secondary) : Secondary :=
  {| sc_pools := sc_pools s; sc_listeners := sc_listeners s; sc_channels := <[c := ChDone]> (sc_channels s);
     sc_next := sc_next s; sc_metrics := sc_metrics s; sc_files := sc_files s |}.

(** The new channel of a session, with its receiver under the job's id. *)
Definition new_listener (job_id : string) (s : Secondary) : nat * Secondary :=
  (sc_next s,
   {| sc_pools := sc_pools s; sc_listeners := <[job_id := sc_next s]> (sc_listeners s);
      sc_channels := <[sc_next s := ChOpen]> (sc_channels s); sc_next := Datatypes.S (sc_next s);
      sc_metrics := sc_metrics s; sc_files := sc_files s |}).

Definition get_new_queue_pool (host_port : string) (ka : ConnectionKeepAlive) (elastic_pool : bool) (now : Z) : PoolSys :=
  pool_sys_init host_port ka elastic_pool now.

Definition get_existing_queue_pool (job_id : string) (s : Secondary) : option PoolSys * Secondary :=
  (sc_pools s !! job_id, with_pools (delete job_id (sc_pools s)) (sc_listeners s) s).

Definition target_host_port (t : Target) : string := (host t +:+ ":" +:+ show_unsigned (port t))%string.

(** [init_connection_pool]: [meanwhile] is what other sessions do while this one waits for
    the old pool, for up to 9.7 seconds; [repoll] is what tokio does when a receiver that
    has reported its error is polled again: it reports an error, or panics. *)
Definition init_connection_pool (repoll : outcome unit) (meanwhile : Secondary → Secondary) (t : Target) (job_id : string)
    (ka : ConnectionKeepAlive) (elastic_pool : bool) (now : Z) (s : Secondary) :
    outcome (option (PoolSys * nat) * Secondary) :=
  match sc_listeners s !! job_id with
  | Some rx =>
      let s := meanwhile (with_pools (sc_pools s) (delete job_id (sc_listeners s)) s) in
      let put_back s := Val (None, with_pools (sc_pools s) (<[job_id := rx]> (sc_listeners s)) s) in
      match sc_channels s !! rx with
      | Some ChSent =>
          let '(pool, s) := get_existing_queue_pool job_id s in
          pool ← unwrap pool;
          let '(tx, s) := new_listener job_id s in
          Val (Some (pool, tx), s)
      | Some ChDone => _ ← repoll; put_back s
      | Some ChClosed => put_back (receiver_done rx s)
      | _ => put_back s
      end
  | None =>
      let pool := get_new_queue_pool (target_host_port t) ka elastic_pool now in
      let '(tx, s) := new_listener job_id s in
      Val (Some (pool, tx), s)
  end.

End Pools.

Arguments Secondary : clear implicits.

(** ** A session *)

(** How the message loop ends: [Stop], [Finished], an error of the receiver, a closed
    channel, or a request that could not be prepared. *)
Inductive session_exit := ExitStop | ExitFinished | ExitError | ExitClosed | ExitPrepareFailed.

Section Session.
  Context {Compiled Hir AST Conn Rng Reg : Type} `{!PromRegistry Reg}.
  Context `{!RequestProvider Rng (RequestSpecEnum Hir AST Conn)}.
  Context (fuel : nat) (env : string → option string).
  Context (create_ok : string → bool) (fetch_ok : string → string → bool) (repoll : outcome unit).

Local Abbreviation Req := (Request Compiled Hir AST Conn).
Local Abbreviation Msg := (MessageFromPrimary Compiled Hir AST Conn).
Local Abbreviation Ctx := (ExecutionContext Rng (RequestSpecEnum Hir AST Conn)).

(** The local variables of a session; [ss_results] are the cycles it ran. *)
Record SessionState := {
  ss_ctx : Ctx;
  ss_reset : bool;
  ss_files : gset string;
  ss_results : list (CycleResult Rng (RequestSpecEnum Hir AST Conn))
}.

Definition with_spec (spec : RequestSpecEnum Hir AST Conn) (c : Ctx) : Ctx :=
  {| prev_connection_count := prev_connection_count c; time_offset := time_offset c;
     ctx_sys := ctx_sys c; request_spec := spec; ctx_rng := ctx_rng c |}.

(** The handler of a rate message for the mode of the job. *)
Definition rate_handler (mode : LoadGenerationMode) (rate : RateMessage) (e : RateEnv) (c : Ctx) :
    option (outcome (Ctx * CycleResult Rng (RequestSpecEnum Hir AST Conn))) :=
  match mode with
  | Immediate => handle_rate_msg_v2 fuel Immediate rate (re_now e) (re_setup e) (re_turns e) c
  | Batch _ => handle_rate_msg fuel env rate (re_now e) (re_setup e) (re_turns e) c
  end.

(** The loop over the messages; [None]: the session is still waiting. *)
Fixpoint message_loop (mode : LoadGenerationMode) (primary_uri : string) (inbox : list (recv Msg))
    (st : SessionState) : option (outcome (session_exit * SessionState)) :=
  match inbox with
  | [] => None
  | r :: inbox =>
      match r with
      | RTimeout => message_loop mode primary_uri inbox st
      | RErr => Some (Val (ExitError, st))
      | RClosed => Some (Val (ExitClosed, st))
      | RMsg (MMetadata _) _ => message_loop mode primary_uri inbox st
      | RMsg (MRates rate) e =>
          o ← rate_handler mode rate e (ss_ctx st);
          match o with
          | Panic => Some Panic
          | Val (ctx, result) =>
              message_loop mode primary_uri inbox
                {| ss_ctx := ctx; ss_reset := ss_reset st; ss_files := ss_files st;
                   ss_results := ss_results st ++ [result] |}
          end
      | RMsg MStop _ => Some (Val (ExitStop, st))
      | RMsg MFinished _ => Some (Val (ExitFinished, st))
      | RMsg MReset _ =>
          message_loop mode primary_uri inbox
            {| ss_ctx := ss_ctx st; ss_reset := true; ss_files := ss_files st; ss_results := ss_results st |}
      | RMsg (MRequest r) _ =>
          match prepare create_ok fetch_ok r primary_uri (ss_files st) with
          | Panic => Some Panic
          | Val (Err _, files) =>
              Some (Val (ExitPrepareFailed,
                {| ss_ctx := ss_ctx st; ss_reset := ss_reset st; ss_files := files; ss_results := ss_results st |}))
          | Val (Ok _, files) =>
              message_loop mode primary_uri inbox
                {| ss_ctx := with_spec (req r) (ss_ctx st); ss_reset := false; ss_files := files;
                   ss_results := ss_results st |}
          end
      end
  end.

(** The block after the loop: an error keeps the pool for the next session, the end of the
    job removes all that is kept for it; in the other cases only the sender goes away. *)
Definition session_end (exit : session_exit) (job_id : string) (tx : nat) (pool : PoolSys)
    (s : Secondary Reg) : Secondary Reg :=
  match exit with
  | ExitError =>
      signal tx ChSent (with_pools (<[job_id := pool]> (sc_pools s)) (sc_listeners s) s)
  | ExitStop | ExitFinished =>
      let s := with_pools (delete job_id (sc_pools s)) (delete job_id (sc_listeners s)) s in
      signal tx ChClosed (with_metrics (remove_metrics job_id (sc_metrics s)) s)
  | ExitClosed | ExitPrepareFailed => signal tx ChClosed s
  end.

(** What a session that began holds. *)
Record Session := {
  se_job_id : string;
  se_tx : nat;
  se_mode : LoadGenerationMode;
  se_primary : string;
  se_state : SessionState
}.

Definition is_elastic (r : Req) : bool :=
  match concurrent_connection r with ConnElastic _ => true | _ => false end.

(** The id of the job: batch mode makes one up when the name is not an id. *)
Definition session_job_id (uuid : string) (r : Req) : outcome string :=
  match generation_mode r with
  | Immediate => unwrap (name r)
  | Batch _ => Val (job_id uuid (name r))
  end.

(** From the handshake to the start of the message loop. *)
Definition session_begin (meanwhile : Secondary Reg → Secondary Reg) (uuid : string) (now : Z) (g : Rng)
    (md : Metadata) (r : Req) (s : Secondary Reg) : outcome (result string Session * Secondary Reg) :=
  job ← session_job_id uuid r;
  '(_, f) ← metrics_with_buckets (λ f, f) job (sc_metrics s);
  let s := with_metrics f s in
  '(prepared, files) ← prepare create_ok fetch_ok r (primary_host md) (sc_files s);
  let s := with_files files s in
  match prepared with
  | Err e => Val (Err e, s)
  | Ok _ =>
      '(pool, s) ← init_connection_pool repoll meanwhile (target r) job (connection_keep_alive r) (is_elastic r) now s;
      Val match pool with
          | None => (Err "Unable to create connection pool"%string, s)
          | Some (pool, tx) =>
              (Ok {| se_job_id := job; se_tx := tx; se_mode := generation_mode r;
                     se_primary := primary_host md;
                     se_state := {| ss_ctx := {| prev_connection_count := 0; time_offset := 0;
                                                 ctx_sys := pool; request_spec := req r; ctx_rng := g |};
                                    ss_reset := false; ss_files := sc_files s; ss_results := [] |} |}, s)
          end
  end.

(** Running the message loop to its end and cleaning up. *)
Definition session_finish (se : Session) (inbox : list (recv Msg)) (s : Secondary Reg) :
    option (outcome (session_exit * Secondary Reg * list (CycleResult Rng (RequestSpecEnum Hir AST Conn)))) :=
  o ← message_loop (se_mode se) (se_primary se) inbox (se_state se);
  match o with
  | Panic => Some Panic
  | Val (exit, st) =>
      Some (Val (exit,
        session_end exit (se_job_id se) (se_tx se) (ctx_sys (ss_ctx st)) (with_files (ss_files st ∪ sc_files s) s),
        ss_results st))
  end.

(** [handle_connection_from_primary], with its [_v2] for the immediate mode: the handshake,
    the session and its end.  [meanwhile] and [others] are what other sessions do to the
    shared state while this one waits for its pool and while it runs; [None]: it is still
    waiting for a message. *)
Definition handle_connection_from_primary (meanwhile others : Secondary Reg → Secondary Reg) (uuid : string) (now : Z)
    (g : Rng) (inbox : list (recv Msg)) (s : Secondary Reg) :
    option (outcome (result string (session_exit * list (CycleResult Rng (RequestSpecEnum Hir AST Conn))) *
                     Secondary Reg)) :=
  '(h, inbox) ← handshake inbox;
  match h with
  | Err e => Some (Val (Err e, s))
  | Ok (metadata, request) =>
      match session_begin meanwhile uuid now g metadata request s with
      | Panic => Some Panic
      | Val (Err e, s) => Some (Val (Err e, s))
      | Val (Ok se, s) =>
          o ← session_finish se inbox (others s);
          Some ('(exit, s, results) ← o; Val (Ok (exit, results), s))
      end
  end.

(** What the listener gets next: accepting fails, the connection cannot be set up, or there
    is a channel with this inbox. *)
Inductive accepted := AcceptFailed | ConnectError | AcceptConnection (inbox : list (recv Msg)).

(** The loop of [primary_listener]: the sessions it starts, each in a task of its own, and
    whether it is still there; an error of a session is only logged. *)
Fixpoint primary_listener (connections : list accepted) : list (list (recv Msg)) * bool :=
  match connections with
  | [] => ([], true)
  | AcceptFailed :: _ => ([], false)
  | ConnectError :: connections' => primary_listener connections'
  | AcceptConnection inbox :: connections' =>
      let '(sessions, alive) := primary_listener connections' in (inbox :: sessions, alive)
  end.

End Session.

Arguments SessionState : clear implicits.
Arguments Session : clear implicits.

(** ** What a primary's messages look like to a secondary *)

Section Inbox.
  Context {Compiled Hir AST Conn : Type}.

Local Abbreviation Req := (Request Compiled Hir AST Conn).
Local Abbreviation Msg := (MessageFromPrimary Compiled Hir AST Conn).
Local Abbreviation Log := (list (event Compiled Hir AST Conn)).

(** The messages of the current session of [id]: those since it was last connected. *)
Definition session_step (id : string) (msgs : list Msg) (e : event Compiled Hir AST Conn) : list Msg :=
  match e with
  | Connected j => if decide (j = id) then [] else msgs
  | Delivered j m => if decide (j = id) then msgs ++ [m] else msgs
  end.

Definition session_msgs (id : string) (net : Log) : list Msg := foldl (session_step id) [] net.

Definition as_inbox (e : RateEnv) (msgs : list Msg) : list (recv Msg) := (λ m, RMsg m e) <$> msgs.

(** Messages in the middle of a session. *)
Definition running_msg (m : Msg) : Prop :=
  match m with MRates _ | MReset | MRequest _ => True | _ => False end.

Definition end_msg (m : Msg) : Prop := match m with MStop | MFinished => True | _ => False end.

(** The messages of a session in each phase. *)
Definition opening (msgs rest : list Msg) : Prop :=
  ∃ md r, msgs = MMetadata md :: MRequest r :: rest ∨ msgs = MMetadata md :: MReset :: MRequest r :: rest.

Definition phase_msgs (p : phase) (msgs : list Msg) : Prop :=
  match p with
  | PIdle | PConnected => msgs = []
  | PMetadata => ∃ md, msgs = [MMetadata md]
  | PReset => ∃ md, msgs = [MMetadata md; MReset]
  | PRunning => ∃ rest, opening msgs rest ∧ Forall running_msg rest
  | PDone => ∃ rest m, opening msgs (rest ++ [m]) ∧ Forall running_msg rest ∧ end_msg m
  end.

Lemma opening_snoc msgs rest m : opening msgs rest → opening (msgs ++ [m]) (rest ++ [m]).
Proof. intros (md & r & [-> | ->]); exists md, r; [left|right]; done. Qed.

Lemma running_snoc msgs rest m :
  opening msgs rest → Forall running_msg rest → running_msg m → phase_msgs PRunning (msgs ++ [m]).
Proof.
  intros Ho Hr Hm. exists (rest ++ [m]). split; [by apply opening_snoc|].
  apply Forall_app. split; [done|]. by constructor.
Qed.

Lemma phase_msgs_step p p' msgs m :
  phase_msgs p msgs → proto_step p m = Some p' → phase_msgs p' (msgs ++ [m]).
Proof.
  destruct p; simpl; try (by destruct m).
  - intros ->. destruct m; try done. intros [= <-]. by eexists.
  - intros [md ->]. destruct m; try done; intros [= <-]; simpl.
    + exists []. split; [eexists _, _; by left|constructor].
    + by eexists.
  - intros [md ->]. destruct m; try done; intros [= <-]. exists []. split; [eexists _, _; by right|constructor].
  - intros (rest & Ho & Hr). destruct m; try done; intros [= <-]; try (by eapply running_snoc).
    + exists rest, MStop. split_and!; [by apply opening_snoc|done|done].
    + exists rest, MFinished. split_and!; [by apply opening_snoc|done|done].
Qed.

Lemma phase_of_msgs id net p : phase_of id net = Some p → phase_msgs p (session_msgs id net).
Proof.
  revert p. induction net as [|e net IH] using rev_ind; intros p.
  { intros [= <-]. done. }
  rewrite phase_of_snoc. unfold session_msgs. rewrite foldl_app. fold (session_msgs id net).
  unfold phase_event. destruct (phase_of id net) as [p0|]; [|done]. specialize (IH p0 eq_refl). simpl.
  destruct e as [j|j m]; simpl.
  - intros [= <-]. by case_decide.
  - case_decide; [|by intros [= <-]]. intros Hp. by eapply phase_msgs_step.
Qed.

(** The messages [msgs] arrive in time, each at a moment of its own. *)
Definition arrives (inbox : list (recv Msg)) (msgs : list Msg) : Prop := Forall2 (λ x m, ∃ e, x = RMsg m e) inbox msgs.

Lemma as_inbox_arrives e msgs : arrives (as_inbox e msgs) msgs.
Proof. induction msgs as [|m msgs IH]; [constructor|]. constructor; [by exists e|exact IH]. Qed.

Lemma handshake_opening inbox msgs rest :
  arrives inbox msgs → opening msgs rest →
  ∃ md r inbox', handshake inbox = Some (Ok (md, r), inbox') ∧ arrives inbox' rest ∧
    (msgs = MMetadata md :: MRequest r :: rest ∨ msgs = MMetadata md :: MReset :: MRequest r :: rest).
Proof.
  intros Ha (md & r & Hm). exists md, r. destruct Hm as [-> | ->]; unfold arrives in Ha;
    repeat match goal with
    | H : Forall2 _ _ (_ :: _) |- _ => apply Forall2_cons_inv_r in H as (? & ? & [? ->] & ? & ->)
    end; (eexists; split; [reflexivity|split; [done|auto]]).
Qed.

(** Before the request has come, the handshake waits. *)
Lemma handshake_waits inbox msgs p :
  arrives inbox msgs → phase_msgs p msgs → p ∉ [PRunning; PDone] → handshake inbox = None.
Proof.
  intros Ha Hp Hn. unfold arrives in Ha. destruct p; simpl in Hp; try (by destruct Hn; set_solver).
  - subst. by apply Forall2_nil_inv_r in Ha as ->.
  - subst. by apply Forall2_nil_inv_r in Ha as ->.
  - destruct Hp as [md ->]. apply Forall2_cons_inv_r in Ha as (? & ? & [? ->] & Ha & ->). by apply Forall2_nil_inv_r in Ha as ->.
  - destruct Hp as [md ->]. do 2 (apply Forall2_cons_inv_r in Ha as (? & ? & [? ->] & Ha & ->)).
    by apply Forall2_nil_inv_r in Ha as ->.
Qed.

End Inbox.

(** ** The pools of a secondary *)

(** A pool that came about by the pool's own operations. *)
Definition pool_sound (p : PoolSys) : Prop :=
  ∃ host ka el, 1 <= ka_max_request_per_connection ka ∧ pool_reachable host ka el p.

Lemma pool_sound_steps p p' : pool_sound p → pool_steps p p' → pool_sound p'.
Proof. intros (host & ka & el & Hk & Hr) Hs. exists host, ka, el. split; [done|]. by eapply pool_steps_reachable. Qed.

Lemma pool_sound_uses p h : pool_sound p → uses (ps_handed p) h <= initial_reuse (keep_alive (ps_pool p)).
Proof.
  intros (host & ka & el & Hk & Hr). pose proof (pool_reachable_inv _ _ _ _ Hk Hr) as Hinv.
  rewrite (inv_keep_alive _ _ Hinv). apply (inv_uses _ _ Hinv).
Qed.

Section PoolFacts.
  Context {Reg : Type} `{!PromRegistry Reg}.

Definition pools_ok (s : Secondary Reg) : Prop := ∀ j p, sc_pools s !! j = Some p → pool_sound p.

Lemma init_connection_pool_ok repoll meanwhile t job ka el now s p tx s' :
  (∀ s, pools_ok s → pools_ok (meanwhile s)) → pools_ok s → 1 <= ka_max_request_per_connection ka →
  init_connection_pool repoll meanwhile t job ka el now s = Val (Some (p, tx), s') → pool_sound p ∧ pools_ok s'.
Proof.
  intros Hm Hs Hka. unfold init_connection_pool. destruct (sc_listeners s !! job) as [rx|].
  - set (s1 := meanwhile _). assert (pools_ok s1) as Hs1 by (by apply Hm).
    destruct (sc_channels s1 !! rx) as [[]|]; try done; [|by destruct repoll].
    cbn [get_existing_queue_pool].
    destruct (sc_pools s1 !! job) as [p0|] eqn:Ep; [|done]. simpl. intros [= <- <- <-].
    split; [by eapply Hs1|]. intros j q. simpl. intros [_ Hq]%lookup_delete_Some. by eapply Hs1.
  - simpl. intros [= <- <- <-]. split; [|done].
    exists (target_host_port t), ka, el. split; [done|]. eexists. apply rtc_refl.
Qed.

Lemma session_end_ok exit job tx p s : pools_ok s → pool_sound p → pools_ok (session_end exit job tx p s).
Proof.
  intros Hs Hp j q. destruct exit; simpl; try (intros [_ Hq]%lookup_delete_Some; by eapply Hs); try apply Hs.
  intros [[<- <-]|[_ Hq]]%lookup_insert_Some; [done|by eapply Hs].
Qed.

End PoolFacts.

Section LoopFacts.
  Context {Compiled Hir AST Conn Rng : Type} `{!RequestProvider Rng (RequestSpecEnum Hir AST Conn)}.
  Context (fuel : nat) (env : string → option string).
  Context (create_ok : string → bool) (fetch_ok : string → string → bool).

Local Abbreviation Msg := (MessageFromPrimary Compiled Hir AST Conn).

(** The rates fit in [u32] and the cycles meet well-behaved tasks. *)
Definition recv_ok (r : recv Msg) : Prop :=
  match r with RMsg (MRates rate) e => rate_ok rate ∧ Forall turn_ok (re_turns e) | _ => True end.

Lemma rate_handler_steps mode rate e c c' r :
  rate_ok rate → Forall turn_ok (re_turns e) →
  rate_handler fuel env mode rate e c = Some (Val (c', r)) →
  pool_steps (ctx_sys c) (ctx_sys c') ∧ ctx_sys c' = cr_sys r.
Proof.
  intros Hr Ht Hh. split.
  - destruct mode; simpl in Hh; [by eapply handle_rate_msg_steps|by eapply handle_rate_msg_v2_steps].
  - destruct mode; simpl in Hh; [unfold handle_rate_msg in Hh|unfold handle_rate_msg_v2 in Hh];
      (destruct (corrected_with_offset _ _); [|done]).
    + destruct (send_multiple_requests _ _ _ _ _ _ _ _ _ _) as [[]|]; simpl in Hh; by simplify_eq.
    + destruct (send_n_request_in_t_duration _ _ _ _ _ _ _ _ _) as [[]|]; simpl in Hh; by simplify_eq.
Qed.

Lemma rate_handler_sent mode rate e c c' r :
  0 <= rm_qps rate <= u32_MAX → Forall turn_ok (re_turns e) →
  rate_handler fuel env mode rate e c = Some (Val (c', r)) → sent_count (cr_sent r) <= rm_qps rate.
Proof.
  intros Hr Ht Hh. destruct mode; simpl in Hh; [by eapply handle_rate_msg_sent|by eapply handle_rate_msg_v2_sent].
Qed.

Lemma message_loop_ok mode uri inbox st exit st' :
  Forall recv_ok inbox → pool_sound (ctx_sys (ss_ctx st)) →
  Forall (λ r, pool_sound (cr_sys r)) (ss_results st) →
  message_loop fuel env create_ok fetch_ok mode uri inbox st = Some (Val (exit, st')) →
  pool_sound (ctx_sys (ss_ctx st')) ∧ Forall (λ r, pool_sound (cr_sys r)) (ss_results st').
Proof.
  intros Hin. revert st. induction Hin as [|r inbox Hr Hin IH]; intros st Hp Hres; [done|]. cbn [message_loop].
  destruct r as [| | |m e]; [by apply IH|by intros [= <- <-]|by intros [= <- <-]|].
  destruct m as [md|r|rate| | |]; [by apply IH| | |by apply IH|by intros [= <- <-]|by intros [= <- <-]].
  - destruct (prepare _ _ r uri (ss_files st)) as [[[|] files]|]; [by apply IH|by intros [= <- <-]|done].
  - destruct Hr as [Hr Ht]. destruct (rate_handler _ _ _ _ _ _) as [[[c res]|]|] eqn:E; simpl; try done.
    apply rate_handler_steps in E as [Hs He]; [|done..].
    assert (pool_sound (ctx_sys c)) by (by eapply pool_sound_steps).
    apply IH; simpl; [done|]. apply Forall_app. split; [done|]. constructor; [by rewrite <- He|done].
Qed.

(** Every cycle of the loop returns, and no request makes [prepare] panic. *)
Fixpoint cycles_return (mode : LoadGenerationMode) (uri : string) (inbox : list (recv Msg))
    (st : SessionState Hir AST Conn Rng) : Prop :=
  match inbox with
  | RMsg (MRates rate) e :: inbox => ∃ ctx res, rate_handler fuel env mode rate e (ss_ctx st) = Some (Val (ctx, res)) ∧
      cycles_return mode uri inbox
        {| ss_ctx := ctx; ss_reset := ss_reset st; ss_files := ss_files st; ss_results := ss_results st ++ [res] |}
  | RMsg (MRequest r) _ :: inbox => ∃ res files, prepare create_ok fetch_ok r uri (ss_files st) = Val (res, files) ∧
      (res = Ok tt → cycles_return mode uri inbox
        {| ss_ctx := with_spec (req r) (ss_ctx st); ss_reset := false; ss_files := files; ss_results := ss_results st |})
  | RMsg MReset _ :: inbox =>
      cycles_return mode uri inbox
        {| ss_ctx := ss_ctx st; ss_reset := true; ss_files := ss_files st; ss_results := ss_results st |}
  | _ => True
  end.

(** A request among [msgs] that could not be prepared. *)
Definition unprepared (uri : string) (msgs : list Msg) : Prop :=
  ∃ r files e files', MRequest r ∈ msgs ∧ prepare create_ok fetch_ok r uri files = Val (Err e, files').

Lemma unprepared_tail uri m msgs : unprepared uri msgs → unprepared uri (m :: msgs).
Proof. intros (r & files & e & files' & Hr & Hp). exists r, files, e, files'. split; [by right|done]. Qed.

(** Messages of a running session are worked off, and the loop goes on with what follows;
    or a request cannot be prepared. *)
Lemma session_loop_running mode uri inbox (rest : list Msg) tail st :
  arrives inbox rest → Forall running_msg rest → cycles_return mode uri (inbox ++ tail) st →
  (∃ st', message_loop fuel env create_ok fetch_ok mode uri (inbox ++ tail) st =
     message_loop fuel env create_ok fetch_ok mode uri tail st') ∨
  unprepared uri rest ∧
  ∃ st', message_loop fuel env create_ok fetch_ok mode uri (inbox ++ tail) st = Some (Val (ExitPrepareFailed, st')).
Proof.
  intros Ha. revert st. induction Ha as [|x m inbox rest [e ->] Ha IH]; intros st Hr Hc; [left; by exists st|].
  apply Forall_cons_1 in Hr as [Hm Hr]. cbn [app message_loop cycles_return] in *.
  assert (Hstep : ∀ st1, cycles_return mode uri (inbox ++ tail) st1 →
    (∃ st', message_loop fuel env create_ok fetch_ok mode uri (inbox ++ tail) st1 =
       message_loop fuel env create_ok fetch_ok mode uri tail st') ∨
    unprepared uri (m :: rest) ∧
    ∃ st', message_loop fuel env create_ok fetch_ok mode uri (inbox ++ tail) st1 = Some (Val (ExitPrepareFailed, st'))).
  { intros st1 Hc1. destruct (IH st1 Hr Hc1) as [?|[? ?]]; [by left|right]. split; [by apply unprepared_tail|done]. }
  destruct m as [md|r|rate| | |]; try done; [| |by apply Hstep].
  - destruct Hc as ([[]|err] & files & Hp & Hc); rewrite Hp; [by apply Hstep, Hc|right].
    split; [|by eexists]. exists r, (ss_files st), err, files. split; [left|done].
  - destruct Hc as (ctx & res & -> & Hc). by apply Hstep.
Qed.

(** What the end of a session is for the loop. *)
Definition end_exit (m : Msg) : session_exit := match m with MStop => ExitStop | _ => ExitFinished end.

End LoopFacts.

(** ** Properties *)


(** C8: Over any session, connections keep to their limit: a session begins with a pool that
    is new or was kept by an earlier session of the job, every cycle it runs leaves a pool
    in which no connection was used more often than its keep-alive allows, and what it
    leaves behind for later sessions is such a pool again. *)
Theorem sessions_keep_pools_sound {Compiled Hir AST Conn Rng Reg} `{!PromRegistry Reg}
    `{!RequestProvider Rng (RequestSpecEnum Hir AST Conn)} fuel env create_ok fetch_ok repoll
    meanwhile uuid now g md (r : Request Compiled Hir AST Conn) (s s1 s2 s3 : Secondary Reg)
    (se : Session Hir AST Conn Rng) inbox exit results :
  (∀ s, pools_ok s → pools_ok (meanwhile s)) → pools_ok s →
  1 <= ka_max_request_per_connection (connection_keep_alive r) →
  session_begin create_ok fetch_ok repoll meanwhile uuid now g md r s = Val (Ok se, s1) →
  pools_ok s2 → Forall (recv_ok (Compiled := Compiled)) inbox →
  session_finish fuel env create_ok fetch_ok se inbox s2 = Some (Val (exit, s3, results)) →
  pools_ok s1 ∧ pools_ok s3 ∧
  Forall (λ c, ∀ h, uses (ps_handed (cr_sys c)) h <= initial_reuse (keep_alive (ps_pool (cr_sys c)))) results.
Proof.
  intros Hm Hs Hka Hb Hs2 Hin Hf. unfold session_begin in Hb.
  destruct (session_job_id uuid r) as [job|]; [|done]. simpl in Hb.
  destruct (metrics_with_buckets _ _ _) as [[mt f]|]; [|done]. simpl in Hb.
  destruct (prepare _ _ r _ _) as [[[] files]|]; simpl in Hb; [|done..].
  destruct (init_connection_pool _ _ _ _ _ _ _ _) as [[[[pool tx]|] s1']|] eqn:Ei; simpl in Hb; [|done..].
  apply init_connection_pool_ok in Ei as [Hp Hs1]; [|done..]. injection Hb as <- <-.
  unfold session_finish in Hf. simpl in Hf.
  destruct (message_loop _ _ _ _ _ _ _ _) as [[[ex st]|]|] eqn:El; simpl in Hf; [|done..].
  apply message_loop_ok in El as [Hpool Hres]; [|done|done|constructor].
  simplify_eq. split_and!; [done|by apply session_end_ok|].
  eapply Forall_impl; [exact Hres|]. intros c Hc h. by apply pool_sound_uses.
Qed.

(** C18: A session that is cut off hands its pool on: the next session of the job gets exactly
    that pool, whether the old session had already noticed or notices while the new one
    waits; the pool is taken, not copied, and the new session is announced to the next. *)
Theorem reconnect_reuses_pool {Reg} `{!PromRegistry Reg} (s : Secondary Reg) repoll t job ka el now tx pool :
  sc_listeners s !! job = Some tx → sc_channels s !! tx = Some ChOpen →
  let cut_off := session_end ExitError job tx pool in
  (∃ s', init_connection_pool repoll (λ s, s) t job ka el now (cut_off s) = Val (Some (pool, sc_next s), s') ∧
     sc_pools s' !! job = None ∧ sc_listeners s' !! job = Some (sc_next s)) ∧
  (∃ s', init_connection_pool repoll cut_off t job ka el now s = Val (Some (pool, sc_next s), s') ∧
     sc_pools s' !! job = None ∧ sc_listeners s' !! job = Some (sc_next s)).
Proof.
  intros Hl Hc cut_off.
  assert (Hsent : ∀ s0 : Secondary Reg, sc_channels s0 !! tx = Some ChOpen →
    sc_channels (cut_off s0) !! tx = Some ChSent ∧ sc_pools (cut_off s0) !! job = Some pool ∧
    sc_listeners (cut_off s0) = sc_listeners s0 ∧ sc_next (cut_off s0) = sc_next s0).
  { intros s0 H0. unfold cut_off, session_end, signal. simpl. rewrite H0.
    split_and!; [|by rewrite lookup_insert_eq|done|done].
    by rewrite decide_True, lookup_insert_eq. }
  clearbody cut_off. split; unfold init_connection_pool.
  - destruct (Hsent s Hc) as (H1 & H2 & H3 & H4). rewrite H3, Hl. cbn [with_pools sc_channels].
    rewrite H1. cbn [get_existing_queue_pool with_pools sc_pools]. rewrite H2. simpl.
    rewrite H4. eexists. split; [done|]. simpl. split; [apply lookup_delete_eq|apply lookup_insert_eq].
  - rewrite Hl. set (s0 := with_pools _ _ s).
    destruct (Hsent s0 Hc) as (H1 & H2 & H3 & H4). rewrite H1.
    cbn [get_existing_queue_pool]. rewrite H2. simpl. rewrite H4.
    eexists. split; [done|]. simpl. split; [apply lookup_delete_eq|apply lookup_insert_eq].
Qed.

(** The end of a job cleans up: its pool, its listener and its metrics are gone, what
    belongs to other jobs stays, and a later session of the same job starts with a new
    pool. *)
Theorem job_end_cleans_up {Reg} `{!PromRegistry Reg} (s : Secondary Reg) exit job tx pool :
  exit = ExitStop ∨ exit = ExitFinished →
  let s' := session_end exit job tx pool s in
  sc_pools s' !! job = None ∧ sc_listeners s' !! job = None ∧ metrics (sc_metrics s') !! job = None ∧
  (∀ j, j ≠ job → sc_pools s' !! j = sc_pools s !! j ∧ sc_listeners s' !! j = sc_listeners s !! j ∧
                  metrics (sc_metrics s') !! j = metrics (sc_metrics s) !! j) ∧
  (∀ repoll meanwhile t ka el now, ∃ tx' s'', init_connection_pool repoll meanwhile t job ka el now s' =
     Val (Some (pool_sys_init (target_host_port t) ka el now, tx'), s'')).
Proof.
  intros Hex s'. assert (Hrm : metrics (remove_metrics job (sc_metrics s)) = delete job (metrics (sc_metrics s))).
  { unfold remove_metrics, remove_entry. by destruct (metrics (sc_metrics s) !! job). }
  assert (Hs' : sc_pools s' = delete job (sc_pools s) ∧ sc_listeners s' = delete job (sc_listeners s) ∧
                metrics (sc_metrics s') = delete job (metrics (sc_metrics s))) by (by destruct Hex as [-> | ->]).
  clearbody s'. destruct Hs' as (H1 & H2 & H3). rewrite H1, H2, H3.
  split_and!; try apply lookup_delete_eq.
  - intros j Hj. by rewrite !lookup_delete_ne.
  - intros repoll meanwhile t ka el now. unfold init_connection_pool. rewrite H2, lookup_delete_eq. simpl. eauto.
Qed.

(** C40: A session that ends because its channel was closed or because a new request could not
    be prepared blocks its job: the listener stays although nobody will notify it, so the
    next session of the job fails for want of a pool and leaves things as they are; the one
    after it polls the finished receiver again, and fails or panics, as tokio decides. *)
Theorem lost_session_blocks_job {Reg} `{!PromRegistry Reg} (s : Secondary Reg) exit job tx pool repoll
    t ka el now :
  exit = ExitClosed ∨ exit = ExitPrepareFailed →
  sc_listeners s !! job = Some tx → sc_channels s !! tx = Some ChOpen →
  let s1 := session_end exit job tx pool s in
  let s2 := receiver_done tx s1 in
  init_connection_pool repoll (λ s, s) t job ka el now s1 = Val (None, s2) ∧
  init_connection_pool repoll (λ s, s) t job ka el now s2 = (_ ← repoll; Val (None, s2)).
Proof.
  intros Hex Hl Hc s1 s2.
  assert (H1 : s1 = signal tx ChClosed s) by (by destruct Hex as [-> | ->]).
  assert (sc_listeners s1 = sc_listeners s) as Hl1 by (by rewrite H1).
  assert (sc_channels s1 !! tx = Some ChClosed) as Hc1.
  { rewrite H1. simpl. by rewrite decide_True, lookup_insert_eq. }
  clearbody s1. clear H1. split; unfold init_connection_pool.
  - rewrite Hl1, Hl. simpl. rewrite Hc1. unfold with_pools, s2, receiver_done. simpl.
    do 3 f_equal. rewrite Hl1. by apply insert_delete_id.
  - simpl. rewrite Hl1, Hl, lookup_insert_eq. destruct repoll; [|done]. simpl.
    unfold with_pools, s2, receiver_done. simpl. do 3 f_equal. rewrite Hl1. by apply insert_delete_id.
Qed.

(** A request file whose download failed is taken for complete the next time: the file
    was created before the download, so a second attempt finds it and succeeds without
    asking the primary. *)
Theorem failed_download_accepted_later {Compiled Hir AST Conn} create_ok fetch_ok fetch_ok'
    (r : Request Compiled Hir AST Conn) f primary files filename :
  req r = RSRequestFile f → rf_file_name f ∉ files → create_ok (rf_file_name f) = true →
  path_file_name (rf_file_name f) = Some filename → fetch_ok primary filename = false →
  ∃ e files', prepare create_ok fetch_ok r primary files = Val (Err e, files') ∧
    prepare create_ok fetch_ok' r primary files' = Val (Ok tt, files').
Proof.
  intros Hr Hf Hc Hn Hfetch. unfold prepare. rewrite Hr. unfold download_request_file_from_primary.
  rewrite decide_False, Hc, Hn by done. simpl. rewrite Hfetch. do 2 eexists. split; [done|].
  by rewrite decide_True by set_solver.
Qed.

(** ** Concrete inputs *)

(** A registry that accepts everything, for examples. *)
Definition open_registry : PromRegistry unit :=
  {| prom_register _ _ r := Some r; prom_unregister _ _ r := Some r; prom_has _ _ _ := false |}.

Definition fresh_secondary : Secondary unit :=
  {| sc_pools := ∅; sc_listeners := ∅; sc_channels := ∅; sc_next := 0;
     sc_metrics := factory_default tt; sc_files := ∅ |}.

Definition list_request : Request unit unit unit (list HttpReq) :=
  {| name := Some "job"%string; duration := 1;
     target := {| host := "h"; port := 80; protocol := HTTP |}; req := demo_list;
     qps := RateConstant {| cr_count_per_sec := 1 |};
     concurrent_connection := ConnConstant {| cr_count_per_sec := 1 |};
     connection_keep_alive := demo_ka; histogram_buckets := []; response_assertion := None;
     generation_mode := Immediate |}.

Definition quiet_rate : RateEnv := {| re_now := 0; re_setup := 0; re_turns := replicate 1002 quiet_turn |}.

Definition demo_session_log : list (event unit unit unit (list HttpReq)) :=
  [Connected "a"; Delivered "a" (MMetadata {| primary_host := "p" |}); Delivered "a" (MRequest list_request);
   Delivered "a" (MRates {| rm_qps := 1; rm_connections := 1 |}); Delivered "a" MFinished].

(** A session of [list_request] that sizes the pool and is then cut off. *)
Definition cut_off_inbox : list (recv (MessageFromPrimary unit unit unit (list HttpReq))) :=
  [RTimeout; RMsg (MRates {| rm_qps := 0; rm_connections := 1 |}) quiet_rate; RErr].

Lemma cut_off_inbox_ok : Forall recv_ok cut_off_inbox.
Proof.
  apply Forall_cons_2; [done|]. apply Forall_cons_2; [|by repeat constructor].
  split; [split; simpl; lia|apply (quiet_turns_ok 1002)].
Qed.

Definition demo_session : Session unit unit (list HttpReq) unit :=
  {| se_job_id := "job"; se_tx := 0; se_mode := Immediate; se_primary := "p";
     se_state := {| ss_ctx := {| prev_connection_count := 0; time_offset := 0;
                                 ctx_sys := pool_sys_init "h:80" demo_ka false 0; request_spec := demo_list;
                                 ctx_rng := tt |};
                    ss_reset := false; ss_files := ∅; ss_results := [] |} |}.

Definition demo_session_rest : list (recv (MessageFromPrimary unit unit unit (list HttpReq))) :=
  as_inbox quiet_rate [MRates {| rm_qps := 1; rm_connections := 1 |}; MFinished].

Lemma demo_session_returns :
  cycles_return (RequestProvider0 := demo_provider) 5 (λ _, None) (λ _, true) (λ _ _, true) Immediate "p" demo_session_rest
    (se_state demo_session).
Proof. cbn [demo_session_rest as_inbox fmap list_fmap cycles_return]. eexists _, _. split; [vm_compute; reflexivity|done]. Qed.


Lemma sessions_keep_pools_sound_witness :
  ∃ s1 s3 results,
    session_begin (PromRegistry0 := open_registry) (λ _, true) (λ _ _, true) Panic (λ s, s) "" 0 tt
      {| primary_host := "p" |} list_request fresh_secondary = Val (Ok demo_session, s1) ∧
    session_finish (PromRegistry0 := open_registry) (RequestProvider0 := demo_provider) 5 (λ _, None)
      (λ _, true) (λ _ _, true) demo_session cut_off_inbox s1 = Some (Val (ExitError, s3, results)) ∧
    pools_ok s3 ∧ is_Some (sc_pools s3 !! "job"%string).
Proof.
  assert (Hb : ∃ s1, session_begin (PromRegistry0 := open_registry) (λ _, true) (λ _ _, true) Panic (λ s, s) "" 0 tt
      {| primary_host := "p" |} list_request fresh_secondary = Val (Ok demo_session, s1) ∧ sc_pools s1 = ∅)
    by (eexists; split; reflexivity).
  destruct Hb as (s1 & Hb & Hp).
  assert (Hf : ∃ s3 results, session_finish (PromRegistry0 := open_registry) (RequestProvider0 := demo_provider)
      5 (λ _, None) (λ _, true) (λ _ _, true) demo_session cut_off_inbox s1 =
      Some (Val (ExitError, s3, results)) ∧ is_Some (sc_pools s3 !! "job"%string)).
  { eexists _, _. split; [reflexivity|]. simpl. rewrite lookup_insert_eq. eauto. }
  destruct Hf as (s3 & results & Hf & Hs).
  exists s1, s3, results. split; [exact Hb|]. split; [exact Hf|]. split; [|exact Hs].
  assert (H0 : ∀ s : Secondary unit, sc_pools s = ∅ → pools_ok s).
  { intros s E j p. rewrite E, lookup_empty. done. }
  exact (proj1 (proj2 (sessions_keep_pools_sound (PromRegistry0 := open_registry)
    (RequestProvider0 := demo_provider) 5 (λ _, None) (λ _, true) (λ _ _, true) Panic (λ s, s) "" 0 tt
    {| primary_host := "p" |} list_request fresh_secondary s1 s1 s3 demo_session cut_off_inbox ExitError results
    (λ _ H, H) (H0 fresh_secondary eq_refl) ltac:(simpl; lia) Hb (H0 _ Hp) cut_off_inbox_ok Hf))).
Defined.

(** The secondary during [demo_session]. *)
Definition busy_secondary : Secondary unit :=
  {| sc_pools := ∅; sc_listeners := {[ "job"%string := 0%nat ]}; sc_channels := {[ 0%nat := ChOpen ]}; sc_next := 1;
     sc_metrics := factory_default tt; sc_files := ∅ |}.

Lemma reconnect_reuses_pool_witness :
  ∃ s', init_connection_pool Panic (session_end (PromRegistry0 := open_registry) ExitError "job" 0 demo_opened)
          {| host := "h"; port := 80; protocol := HTTP |} "job" demo_ka false 5 busy_secondary =
        Val (Some (demo_opened, 1%nat), s').
Proof.
  destruct (reconnect_reuses_pool (PromRegistry0 := open_registry) busy_secondary Panic
    {| host := "h"; port := 80; protocol := HTTP |} "job" demo_ka false 5 0 demo_opened eq_refl eq_refl)
    as [_ (s' & H & _)]. exists s'. exact H.
Defined.

Lemma job_end_cleans_up_witness :
  sc_listeners (session_end (PromRegistry0 := open_registry) ExitFinished "job" 0 demo_opened busy_secondary)
    !! "job"%string = None.
Proof.
  exact (proj1 (proj2 (job_end_cleans_up (PromRegistry0 := open_registry) busy_secondary ExitFinished
    "job" 0 demo_opened (or_intror eq_refl)))).
Defined.

Lemma lost_session_blocks_job_witness :
  let s1 := session_end (PromRegistry0 := open_registry) ExitPrepareFailed "job" 0 demo_opened busy_secondary in
  init_connection_pool Panic (λ s, s)
    {| host := "h"; port := 80; protocol := HTTP |} "job" demo_ka false 5 s1 = Val (None, receiver_done 0 s1).
Proof.
  exact (proj1 (lost_session_blocks_job (PromRegistry0 := open_registry) busy_secondary ExitPrepareFailed
    "job" 0 demo_opened Panic _ _ _ _ (or_intror eq_refl) eq_refl eq_refl)).
Defined.

Definition data_file_request : Request unit unit unit unit :=
  with_req (Compiled := unit) demo_request (RSRequestFile {| rf_file_name := "/tmp/a.sqlite"; rf_inner := None; rf_size := 0 |}).

Lemma failed_download_accepted_later_witness :
  ∃ e files', prepare (λ _, true) (λ _ _, false) data_file_request "p" ∅ = Val (Err e, files') ∧
    prepare (λ _, true) (λ _ _, false) data_file_request "p" files' = Val (Ok tt, files').
Proof.
  exact (failed_download_accepted_later (λ _, true) (λ _ _, false) (λ _ _, false) data_file_request
    {| rf_file_name := "/tmp/a.sqlite"; rf_inner := None; rf_size := 0 |} "p" ∅ "a.sqlite"
    eq_refl ltac:(set_solver) eq_refl eq_refl eq_refl).
Defined.
