(* ===== verification/Sessions.v ===== *)
(** * The sessions of a job on one secondary

    A job may have several sessions on a secondary at the same time: the primary connects
    again while the old session has not noticed that it was cut off.  They share the maps
    [CONNECTION_POOLS] and [CONNECTION_POOLS_USAGE_LISTENER] of
    [cluster-executor/src/secondary.rs].  Here every session is a program of the steps it
    takes between two awaits, one per lock, and the steps of all sessions interleave.

    [Secondary] has the same code as single functions ([init_connection_pool],
    [session_end]); [init_is_steps] and [end_is_steps] say that they are runs of the steps. *)
From Stdlib Require Import ZArith Lia Ascii.
From stdpp Require Import base list gmap strings numbers sets relations.
From S2P Require Import Prelude RateSpec Json Assert HttpTypes Pool Jobs Primary Cycle Metrics Secondary.

Local Open Scope Z_scope.

(** ** Stages of a session *)

(** From taking the listener of the job to the end: it waits on the receiver [rx] of an older
    session, has been notified, gave up waiting, has a pool but no channel of its own yet,
    runs with the sender [tx] of its channel, has put its pool back, or has removed the pool,
    and then the listener, of a job that is over. *)
Inductive stage :=
| SWaiting (rx : nat)
| SNotified
| SGivingUp (rx : nat)
| SChosen (pool : PoolSys)
| SRunning (tx : nat) (pool : PoolSys)
| SReturning (tx : nat)
| SRemoving (tx : nat)
| SRemoved (tx : nat).

(** Inside [init_connection_pool]. *)
Definition initialising (p : stage) : bool :=
  match p with SWaiting _ | SNotified | SGivingUp _ | SChosen _ => true | _ => false end.

Definition holds_rx (p : stage) : option nat :=
  match p with SWaiting rx | SGivingUp rx => Some rx | _ => None end.

Definition holds_tx (p : stage) : option nat :=
  match p with SRunning tx _ | SReturning tx | SRemoving tx | SRemoved tx => Some tx | _ => None end.

Definition holds_pool (p : stage) : option PoolSys :=
  match p with SChosen pool | SRunning _ pool => Some pool | _ => None end.

Section Sessions.
  Context {Reg : Type} `{!PromRegistry Reg}.
  (** The job, and the pools that may be made for it. *)
  Context (job : string) (fresh_pool : PoolSys → Prop).

(** The shared state, the channels of this job's sessions, and the sessions. *)
Record JobSessions := mk_sessions {
  js_state : Secondary Reg;
  js_ours : gset nat;
  js_sessions : gmap nat stage
}.

Definition stored (s : JobSessions) : option PoolSys := sc_pools (js_state s) !! job.
Definition listener (s : JobSessions) : option nat := sc_listeners (js_state s) !! job.
Definition channel (s : JobSessions) (c : nat) : option chan_state := sc_channels (js_state s) !! c.

Definition moves (i : nat) (p : stage) (st : Secondary Reg) (s : JobSessions) : JobSessions :=
  mk_sessions st (js_ours s) (<[i := p]> (js_sessions s)).

Definition leaves (i : nat) (st : Secondary Reg) (s : JobSessions) : JobSessions :=
  mk_sessions st (js_ours s) (delete i (js_sessions s)).

(** Nothing has come on channel [c]. *)
Definition silent (s : JobSessions) (c : nat) : bool :=
  match channel s c with Some ChOpen | None => true | _ => false end.

(** No session of the job is inside [init_connection_pool]. *)
Definition nobody_initialising (s : JobSessions) : Prop :=
  map_Forall (λ _ p, initialising p = false) (js_sessions s).

(** One step of session [i].  With [serial] a session begins only when no other one of the
    job is initialising: the primary connects again after 10 seconds, and a session waits for
    at most 9.7.  Besides the steps of init and end, a session runs cycles on its pool
    ([step_cycle]), is lost with its channel ([step_lost]), and other jobs do what they do
    ([step_others]). *)
Inductive job_step (serial : bool) : JobSessions → JobSessions → Prop :=
| step_take_listener s i rx :
    js_sessions s !! i = None → (serial = true → nobody_initialising s) → listener s = Some rx →
    job_step serial s
      (moves i (SWaiting rx) (with_pools (sc_pools (js_state s)) (delete job (sc_listeners (js_state s))) (js_state s)) s)
| step_new_pool s i pool :
    js_sessions s !! i = None → (serial = true → nobody_initialising s) → listener s = None → fresh_pool pool →
    job_step serial s
      (moves i (SChosen pool) (with_pools (sc_pools (js_state s)) (delete job (sc_listeners (js_state s))) (js_state s)) s)
| step_notified s i rx :
    js_sessions s !! i = Some (SWaiting rx) → channel s rx = Some ChSent →
    job_step serial s (moves i SNotified (js_state s) s)
| step_timeout s i rx :
    js_sessions s !! i = Some (SWaiting rx) → silent s rx = true →
    job_step serial s (moves i (SGivingUp rx) (js_state s) s)
| step_sender_gone s i rx :
    js_sessions s !! i = Some (SWaiting rx) → channel s rx = Some ChClosed →
    job_step serial s (moves i (SGivingUp rx) (receiver_done rx (js_state s)) s)
| step_poll_again s i rx :
    js_sessions s !! i = Some (SWaiting rx) → channel s rx = Some ChDone →
    job_step serial s (moves i (SGivingUp rx) (js_state s) s)
| step_poll_panics s i rx :
    js_sessions s !! i = Some (SWaiting rx) → channel s rx = Some ChDone →
    job_step serial s (leaves i (js_state s) s)
| step_put_back s i rx :
    js_sessions s !! i = Some (SGivingUp rx) →
    job_step serial s
      (leaves i (with_pools (sc_pools (js_state s)) (<[job := rx]> (sc_listeners (js_state s))) (js_state s)) s)
| step_take_pool s i pool :
    js_sessions s !! i = Some SNotified → stored s = Some pool →
    job_step serial s (moves i (SChosen pool) (snd (get_existing_queue_pool job (js_state s))) s)
| step_unwrap_panics s i :
    js_sessions s !! i = Some SNotified → stored s = None →
    job_step serial s (leaves i (snd (get_existing_queue_pool job (js_state s))) s)
| step_register s i pool :
    js_sessions s !! i = Some (SChosen pool) →
    job_step serial s
      (let '(tx, st) := new_listener job (js_state s) in
       mk_sessions st ({[tx]} ∪ js_ours s) (<[i := SRunning tx pool]> (js_sessions s)))
| step_cycle s i tx pool pool' :
    js_sessions s !! i = Some (SRunning tx pool) → pool_steps pool pool' →
    job_step serial s (moves i (SRunning tx pool') (js_state s) s)
| step_error_exit s i tx pool :
    js_sessions s !! i = Some (SRunning tx pool) →
    job_step serial s
      (moves i (SReturning tx) (with_pools (<[job := pool]> (sc_pools (js_state s))) (sc_listeners (js_state s)) (js_state s)) s)
| step_send s i tx :
    js_sessions s !! i = Some (SReturning tx) →
    job_step serial s (leaves i (signal tx ChSent (js_state s)) s)
| step_stop s i tx pool :
    js_sessions s !! i = Some (SRunning tx pool) →
    job_step serial s
      (moves i (SRemoving tx) (with_pools (delete job (sc_pools (js_state s))) (sc_listeners (js_state s)) (js_state s)) s)
| step_remove_listener s i tx :
    js_sessions s !! i = Some (SRemoving tx) →
    job_step serial s
      (moves i (SRemoved tx) (with_pools (sc_pools (js_state s)) (delete job (sc_listeners (js_state s))) (js_state s)) s)
| step_remove_metrics s i tx :
    js_sessions s !! i = Some (SRemoved tx) →
    job_step serial s
      (leaves i (signal tx ChClosed (with_metrics (remove_metrics job (sc_metrics (js_state s))) (js_state s))) s)
| step_lost s i tx pool :
    js_sessions s !! i = Some (SRunning tx pool) →
    job_step serial s (leaves i (signal tx ChClosed (js_state s)) s)
| step_others s st :
    sc_pools st !! job = stored s → sc_listeners st !! job = listener s →
    (∀ c, c ∈ js_ours s → sc_channels st !! c = channel s c) → (sc_next (js_state s) <= sc_next st)%nat →
    job_step serial s (mk_sessions st (js_ours s) (js_sessions s)).

Definition no_sessions (st : Secondary Reg) : JobSessions := mk_sessions st ∅ ∅.

(** ** The invariant *)

(** The receiver of the job's current channel: under the job's id, or held by a session that
    took it from there. *)
Definition is_rx (s : JobSessions) (c : nat) : Prop :=
  listener s = Some c ∨ ∃ i p, js_sessions s !! i = Some p ∧ holds_rx p = Some c.

(** A session whose channel is the current one. *)
Definition current (p : stage) : bool :=
  match p with SRunning _ _ | SReturning _ | SRemoving _ => true | _ => false end.

Record sessions_inv (s : JobSessions) : Prop := {
  inv_one_init i k p q : js_sessions s !! i = Some p → js_sessions s !! k = Some q →
    initialising p = true → initialising q = true → i = k;
  inv_listener c i p : listener s = Some c → js_sessions s !! i = Some p → initialising p = false;
  inv_tx i p c : js_sessions s !! i = Some p → holds_tx p = Some c → c ∈ js_ours s ∧ channel s c = Some ChOpen;
  inv_tx_one i k p q c : js_sessions s !! i = Some p → js_sessions s !! k = Some q →
    holds_tx p = Some c → holds_tx q = Some c → i = k;
  inv_rx c : is_rx s c → c ∈ js_ours s;
  inv_ours c : c ∈ js_ours s → (c < sc_next (js_state s))%nat;
  inv_current i p c : js_sessions s !! i = Some p → current p = true → holds_tx p = Some c → is_rx s c;
  inv_sent c : is_rx s c → channel s c = Some ChSent → is_Some (stored s);
  inv_notified i : js_sessions s !! i = Some SNotified → is_Some (stored s);
  inv_returning i c : js_sessions s !! i = Some (SReturning c) → is_Some (stored s);
  inv_stored : is_Some (stored s) →
    (∃ i c, js_sessions s !! i = Some (SReturning c)) ∨ (∃ i, js_sessions s !! i = Some SNotified) ∨
    (∃ c, is_rx s c ∧ channel s c = Some ChSent)
}.

(** ** Lemmas *)

Section Facts.
  Context (s : JobSessions) (Hs : sessions_inv s).

Lemma rx_unique c d : is_rx s c → is_rx s d → c = d.
Proof.
  intros [Hc|(i & p & Hi & Hp)] [Hd|(k & q & Hk & Hq)]; [congruence|..].
  - pose proof (inv_listener s Hs c k q Hc Hk). by destruct q.
  - pose proof (inv_listener s Hs d i p Hd Hi). by destruct p.
  - assert (i = k) as -> by (by eapply (inv_one_init s Hs); [..|destruct p|destruct q]). congruence.
Qed.

(** A session that initialises without a receiver leaves none to others. *)
Lemma no_rx i p c : js_sessions s !! i = Some p → initialising p = true → holds_rx p = None → ¬ is_rx s c.
Proof.
  intros Hi Hp Hr [Hc|(k & q & Hk & Hq)].
  - pose proof (inv_listener s Hs c i p Hc Hi). congruence.
  - assert (i = k) as -> by (by eapply (inv_one_init s Hs); [..|destruct q]). congruence.
Qed.

(** At most one session has the current channel. *)
Lemma current_unique i k p q :
  js_sessions s !! i = Some p → js_sessions s !! k = Some q → current p = true → current q = true → i = k.
Proof.
  intros Hi Hk Hp Hq.
  assert (∃ c, holds_tx p = Some c) as [c Hc] by (destruct p; naive_solver).
  assert (∃ d, holds_tx q = Some d) as [d Hd] by (destruct q; naive_solver).
  pose proof (rx_unique c d (inv_current s Hs i p c Hi Hp Hc) (inv_current s Hs k q d Hk Hq Hd)) as ->.
  by eapply (inv_tx_one s Hs).
Qed.

(** While a session has a pool, none is stored. *)
Lemma current_not_stored i p tx :
  js_sessions s !! i = Some p → current p = true → holds_tx p = Some tx → p ≠ SReturning tx → stored s = None.
Proof.
  intros Hi Hp Ht Hne. destruct (stored s) eqn:E; [|done]. exfalso.
  pose proof (inv_current s Hs i _ tx Hi Hp Ht) as Hrx.
  destruct (inv_stored s Hs) as [(k & c & Hk)|[(k & Hk)|(c & Hc & Hsent)]]; [by eexists|..].
  - pose proof (current_unique i k _ _ Hi Hk Hp eq_refl) as ->. rewrite Hi in Hk. by simplify_eq/=.
  - by apply (no_rx k _ tx Hk).
  - pose proof (rx_unique c tx Hc Hrx) as ->. destruct (inv_tx s Hs i _ tx Hi Ht). congruence.
Qed.

Lemma chosen_not_stored i pool : js_sessions s !! i = Some (SChosen pool) → stored s = None.
Proof.
  intros Hi. destruct (stored s) eqn:E; [|done]. exfalso.
  assert (Hno : ∀ c, ¬ is_rx s c) by (intros c; by apply (no_rx i _ c Hi)).
  destruct (inv_stored s Hs) as [(k & c & Hk)|[(k & Hk)|(c & Hc & _)]]; [by eexists| |..].
  - apply (Hno c). by eapply (inv_current s Hs).
  - pose proof (inv_one_init s Hs i k _ _ Hi Hk eq_refl eq_refl) as ->. congruence.
  - by apply (Hno c).
Qed.

(** At most one session has a pool. *)
Lemma pool_holder_unique i k p q x y :
  js_sessions s !! i = Some p → js_sessions s !! k = Some q → holds_pool p = Some x → holds_pool q = Some y → i = k.
Proof.
  assert (Hcr : ∀ i k x tx y, js_sessions s !! i = Some (SChosen x) → js_sessions s !! k = Some (SRunning tx y) → False).
  { intros i' k' x' tx y' Hi Hk. apply (no_rx i' _ tx Hi eq_refl eq_refl). by eapply (inv_current s Hs). }
  intros Hi Hk Hx Hy. destruct p, q; try done; try (exfalso; by eauto).
  - by eapply (inv_one_init s Hs).
  - by eapply current_unique.
Qed.

End Facts.

(** A receiver that a session other than [i] holds. *)
Definition elsewhere (s : JobSessions) (i c : nat) : Prop :=
  ∃ k q, k ≠ i ∧ js_sessions s !! k = Some q ∧ holds_rx q = Some c.

Lemma is_rx_here s i c :
  is_rx s c ↔ listener s = Some c ∨ (js_sessions s !! i ≫= holds_rx) = Some c ∨ elsewhere s i c.
Proof.
  unfold is_rx, elsewhere. split.
  - intros [Hc|(k & q & Hk & Hq)]; [by left|right]. destruct (decide (k = i)) as [->|]; [left; by rewrite Hk|right; eauto].
  - intros [Hc|[Hc|(k & q & _ & Hk & Hq)]]; [by left| |right; eauto].
    destruct (js_sessions s !! i) eqn:E; [|done]. right. eauto.
Qed.

Lemma is_rx_moves s i p st c :
  is_rx (moves i p st s) c ↔ sc_listeners st !! job = Some c ∨ holds_rx p = Some c ∨ elsewhere s i c.
Proof.
  rewrite (is_rx_here _ i). unfold listener, elsewhere. simpl. rewrite lookup_insert_eq. simpl.
  do 2 f_equiv. split; intros (k & q & Hne & Hk & Hq); exists k, q; (split; [done|split; [|done]]).
  - by rewrite lookup_insert_ne in Hk.
  - by rewrite lookup_insert_ne.
Qed.

Lemma is_rx_leaves s i st c :
  is_rx (leaves i st s) c ↔ sc_listeners st !! job = Some c ∨ elsewhere s i c.
Proof.
  rewrite (is_rx_here _ i). unfold listener, elsewhere. simpl. rewrite lookup_delete_eq. simpl.
  assert (None = Some c ↔ False) as -> by (by split). rewrite (left_id False or).
  f_equiv. split; intros (k & q & Hne & Hk & Hq); exists k, q; (split; [done|split; [|done]]).
  - by rewrite lookup_delete_ne in Hk.
  - by rewrite lookup_delete_ne.
Qed.

Lemma inv_start st : sc_pools st !! job = None → sc_listeners st !! job = None → sessions_inv (no_sessions st).
Proof.
  intros Hp Hl.
  assert (Hrx : ∀ c, ¬ is_rx (no_sessions st) c).
  { intros c [H|(i & p & H & _)]; unfold listener in *; simpl in *; [congruence|by rewrite lookup_empty in H]. }
  assert (Hno : ∀ i p, js_sessions (no_sessions st) !! i ≠ Some p) by (intros i p; simpl; by rewrite lookup_empty).
  split; intros; try (exfalso; naive_solver).
  - by apply not_elem_of_empty in H.
  - unfold stored in *. simpl in *. rewrite Hp in *. by destruct H.
Qed.

Lemma init_nobody s :
  nobody_initialising s → ∀ k q, js_sessions s !! k = Some q → initialising q = true → False.
Proof. intros H k q Hk Hq. specialize (H k q Hk). simpl in H. congruence. Qed.

Ltac session_facts :=
  repeat match goal with
  | H : <[_ := _]> _ !! _ = Some _ |- _ => apply lookup_insert_Some in H as [[? ?]|[? H]]; simplify_eq/=
  | H : delete _ _ !! _ = Some _ |- _ => apply lookup_delete_Some in H as [? H]
  end.

(** The clauses of the invariant that follow from the same clause before the step; [Er]
    says what becomes of the receivers. *)
Ltac inv_auto Hs Er :=
  destruct Hs as [Hone Hlis Htx Htxo Hrx Hours Hcur Hsent Hnot Hret Hstored]; split; intros; rewrite ?Er in *;
  unfold listener, stored, channel in *; simpl in *; session_facts;
  try (by eauto); try congruence; try (by exfalso; eauto).

(** Where the stored pool comes from, when the step does not change that. *)
Ltac stored_auto Hstored Er :=
  let k := fresh "k" in let c := fresh "c" in let Hk := fresh "Hk" in let Hc := fresh "Hc" in
  match goal with Hx : is_Some _ |- _ => specialize (Hstored Hx) end;
  destruct Hstored as [(k & c & Hk)|[(k & Hk)|(c & Hk & Hc)]];
  [left; exists k, c|right; left; exists k|right; right; exists c];
  [first [rewrite lookup_insert_ne by congruence|rewrite lookup_delete_ne by congruence|idtac]; exact Hk..
  |rewrite Er; split; [done|first [done|rewrite lookup_insert_ne by (intros ->; congruence); done]]].

(** A sender that another session has is still open. *)
Ltac tx_auto Htx :=
  match goal with H : js_sessions _ !! _ = Some ?p, H' : holds_tx ?p = Some ?c |- ?c ∈ _ ∧ _ =>
    destruct (Htx _ _ _ H H') as [? ?]; split;
    [first [done|by apply elem_of_union_r]
    |first [done|rewrite lookup_insert_ne by (intros ->; first [congruence|by eauto]); done]] end.

(** The steps of a session that waits: its receiver is the only one. *)
Lemma waiting_rx s i p rx :
  sessions_inv s → js_sessions s !! i = Some p → holds_rx p = Some rx →
  is_rx s rx ∧ listener s = None ∧ (∀ c, ¬ elsewhere s i c) ∧
  (∀ k q, k ≠ i → js_sessions s !! k = Some q → initialising q = true → False).
Proof.
  intros Hs Hi Hp. assert (Hinit : initialising p = true) by (by destruct p). split_and!.
  - right. eauto.
  - destruct (listener s) as [c|] eqn:E; [|done]. pose proof (inv_listener s Hs c i p E Hi). congruence.
  - intros c (k & q & Hne & Hk & Hq). apply Hne. by eapply (inv_one_init s Hs); [..|destruct q|].
  - intros k q Hne Hk Hq. apply Hne. by eapply (inv_one_init s Hs).
Qed.

(** When the current channel is not open any more, no session has it. *)
Lemma not_open_no_current s rx :
  sessions_inv s → is_rx s rx → channel s rx ≠ Some ChOpen →
  ∀ k q, js_sessions s !! k = Some q → current q = true → False.
Proof.
  intros Hs Hrx Hc k q Hk Hq. assert (∃ c, holds_tx q = Some c) as [c Ht] by (destruct q; naive_solver).
  pose proof (rx_unique s Hs c rx (inv_current s Hs k q c Hk Hq Ht) Hrx) as ->.
  by destruct (inv_tx s Hs k q rx Hk Ht).
Qed.

Lemma take_listener_inv s i rx st :
  sessions_inv s → js_sessions s !! i = None → nobody_initialising s → listener s = Some rx →
  st = with_pools (sc_pools (js_state s)) (delete job (sc_listeners (js_state s))) (js_state s) →
  sessions_inv (moves i (SWaiting rx) st s).
Proof.
  intros Hs Hi Hser Hl ->. assert (Hno := init_nobody s Hser).
  assert (Er : ∀ c, is_rx (moves i (SWaiting rx) (with_pools (sc_pools (js_state s))
    (delete job (sc_listeners (js_state s))) (js_state s)) s) c ↔ is_rx s c).
  { intros c. rewrite is_rx_moves, (is_rx_here s i), Hi, Hl. simpl. rewrite lookup_delete_eq. naive_solver. }
  inv_auto Hs Er. stored_auto Hstored Er.
Qed.

Lemma new_pool_inv s i pool st :
  sessions_inv s → js_sessions s !! i = None → nobody_initialising s → listener s = None →
  st = with_pools (sc_pools (js_state s)) (delete job (sc_listeners (js_state s))) (js_state s) →
  sessions_inv (moves i (SChosen pool) st s).
Proof.
  intros Hs Hi Hser Hl ->. assert (Hno := init_nobody s Hser).
  assert (Hnrx : ∀ c, ¬ is_rx s c).
  { intros c [Hc|(k & q & Hk & Hq)]; [congruence|]. apply (Hno k q Hk). by destruct q. }
  assert (Er : ∀ c, is_rx (moves i (SChosen pool) (with_pools (sc_pools (js_state s))
    (delete job (sc_listeners (js_state s))) (js_state s)) s) c ↔ is_rx s c).
  { intros c. rewrite is_rx_moves, (is_rx_here s i), Hi, Hl. simpl. rewrite lookup_delete_eq. naive_solver. }
  inv_auto Hs Er. stored_auto Hstored Er.
Qed.

Lemma notified_inv s i rx :
  sessions_inv s → js_sessions s !! i = Some (SWaiting rx) → channel s rx = Some ChSent →
  sessions_inv (moves i SNotified (js_state s) s).
Proof.
  intros Hs Hi Hc. destruct (waiting_rx s i _ rx Hs Hi eq_refl) as (Hr & Hl & Hel & Hone').
  pose proof (inv_sent s Hs rx Hr Hc) as Hst.
  assert (Hcf := not_open_no_current s rx Hs Hr ltac:(congruence)).
  assert (Er : ∀ c, is_rx (moves i SNotified (js_state s) s) c ↔ False).
  { intros c. rewrite is_rx_moves. unfold listener in Hl. rewrite Hl. naive_solver. }
  inv_auto Hs Er. right. left. exists i. by rewrite lookup_insert_eq.
Qed.

(** Giving up: the receiver is kept, and may have reported that the sender is gone. *)
Lemma give_up_inv s i rx st :
  sessions_inv s → js_sessions s !! i = Some (SWaiting rx) →
  st = js_state s ∨ channel s rx = Some ChClosed ∧ st = receiver_done rx (js_state s) →
  sessions_inv (moves i (SGivingUp rx) st s).
Proof.
  intros Hs Hi Hst. destruct (waiting_rx s i _ rx Hs Hi eq_refl) as (Hr & Hl & Hel & Hone').
  assert (Er : ∀ c, is_rx (moves i (SGivingUp rx) st s) c ↔ is_rx s c).
  { intros c. rewrite is_rx_moves, (is_rx_here s i), Hi. simpl.
    assert (sc_listeners st !! job = listener s) as -> by (by destruct Hst as [->|[_ ->]]). done. }
  destruct Hst as [->|[Hc ->]].
  { inv_auto Hs Er. stored_auto Hstored Er. }
  pose proof (not_open_no_current s rx Hs Hr ltac:(congruence)) as Hcf.
  inv_auto Hs Er; [tx_auto Htx|stored_auto Hstored Er].
Qed.

Lemma poll_panics_inv s i rx :
  sessions_inv s → js_sessions s !! i = Some (SWaiting rx) → channel s rx = Some ChDone →
  sessions_inv (leaves i (js_state s) s).
Proof.
  intros Hs Hi Hc. destruct (waiting_rx s i _ rx Hs Hi eq_refl) as (Hr & Hl & Hel & Hone').
  assert (Hcf := not_open_no_current s rx Hs Hr ltac:(congruence)).
  assert (Er : ∀ c, is_rx (leaves i (js_state s) s) c ↔ False).
  { intros c. rewrite is_rx_leaves. unfold listener in Hl. rewrite Hl. naive_solver. }
  assert (Hns : is_Some (stored s) → False).
  { intros E. destruct (inv_stored s Hs E) as [(k & c & Hk)|[(k & Hk)|(c & Hk & Hch)]]; [by eauto| |].
    - apply (Hone' k _ ltac:(congruence) Hk eq_refl).
    - pose proof (rx_unique s Hs c rx Hk Hr) as ->. congruence. }
  inv_auto Hs Er.
Qed.

Lemma put_back_inv s i rx st :
  sessions_inv s → js_sessions s !! i = Some (SGivingUp rx) →
  st = with_pools (sc_pools (js_state s)) (<[job := rx]> (sc_listeners (js_state s))) (js_state s) →
  sessions_inv (leaves i st s).
Proof.
  intros Hs Hi ->. destruct (waiting_rx s i _ rx Hs Hi eq_refl) as (Hr & Hl & Hel & Hone').
  assert (Er : ∀ c, is_rx (leaves i (with_pools (sc_pools (js_state s))
    (<[job := rx]> (sc_listeners (js_state s))) (js_state s)) s) c ↔ is_rx s c).
  { intros c. rewrite is_rx_leaves, (is_rx_here s i), Hi, Hl. simpl. rewrite lookup_insert_eq. naive_solver. }
  inv_auto Hs Er.
  - destruct (initialising p) eqn:E; [exfalso; eauto|done].
  - stored_auto Hstored Er.
Qed.

Lemma take_pool_inv s i pool :
  sessions_inv s → js_sessions s !! i = Some SNotified →
  sessions_inv (moves i (SChosen pool) (snd (get_existing_queue_pool job (js_state s))) s).
Proof.
  intros Hs Hi. assert (Hnrx : ∀ c, is_rx s c → False) by (intros c; by apply (no_rx s Hs i _ c Hi)).
  assert (Hone' : ∀ k q, k ≠ i → js_sessions s !! k = Some q → initialising q = true → False).
  { intros k q Hne Hk Hq. apply Hne. by eapply (inv_one_init s Hs). }
  assert (Hcf : ∀ k q, js_sessions s !! k = Some q → current q = true → False).
  { intros k q Hk Hq. assert (∃ c, holds_tx q = Some c) as [c Ht] by (destruct q; naive_solver).
    by eapply (Hnrx c), (inv_current s Hs). }
  assert (Er : ∀ c, is_rx (moves i (SChosen pool) (snd (get_existing_queue_pool job (js_state s))) s) c ↔ False).
  { intros c. rewrite is_rx_moves. simpl. pose proof (Hnrx c) as Hn. rewrite (is_rx_here s i) in Hn.
    unfold listener in Hn. naive_solver. }
  inv_auto Hs Er.
  - exfalso. apply (Hnrx c). by left.
  - rewrite lookup_delete_eq in H. by destruct H.
Qed.

Lemma register_inv s i pool tx st :
  sessions_inv s → js_sessions s !! i = Some (SChosen pool) → new_listener job (js_state s) = (tx, st) →
  sessions_inv (mk_sessions st ({[tx]} ∪ js_ours s) (<[i := SRunning tx pool]> (js_sessions s))).
Proof.
  intros Hs Hi [= <- <-]. assert (Hnrx : ∀ c, is_rx s c → False) by (intros c; by apply (no_rx s Hs i _ c Hi)).
  assert (Hone' : ∀ k q, k ≠ i → js_sessions s !! k = Some q → initialising q = true → False).
  { intros k q Hne Hk Hq. apply Hne. by eapply (inv_one_init s Hs). }
  assert (Hcf : ∀ k q, js_sessions s !! k = Some q → current q = true → False).
  { intros k q Hk Hq. assert (∃ c, holds_tx q = Some c) as [c Ht] by (destruct q; naive_solver).
    by eapply (Hnrx c), (inv_current s Hs). }
  assert (Hnew : ∀ c, c ∈ js_ours s → c ≠ sc_next (js_state s)).
  { intros c Hc%(inv_ours s Hs). lia. }
  pose proof (chosen_not_stored s Hs i pool Hi) as Hns.
  assert (Er : ∀ c, is_rx (mk_sessions (snd (new_listener job (js_state s))) ({[sc_next (js_state s)]} ∪ js_ours s)
     (<[i := SRunning (sc_next (js_state s)) pool]> (js_sessions s))) c ↔ c = sc_next (js_state s)).
  { intros c. pose proof (is_rx_moves s i (SRunning (sc_next (js_state s)) pool) (snd (new_listener job (js_state s))) c) as H.
    unfold is_rx, listener in H |- *. simpl in *. rewrite H, lookup_insert_eq. split; [|intros ->; by left].
    intros [?|[?|(k & q & Hne & Hk & Hq)]]; [congruence|done|]. exfalso. apply (Hone' k q Hne Hk). by destruct q. }
  assert (Hfresh : ∀ k q, js_sessions s !! k = Some q → holds_tx q = Some (sc_next (js_state s)) → False).
  { intros k q Hk Hq. by destruct (Hnew _ (proj1 (inv_tx s Hs k q _ Hk Hq))). }
  simpl in Er. inv_auto Hs Er.
  - destruct (initialising p) eqn:E; [exfalso; eauto|done].
  - split; [set_solver|by rewrite lookup_insert_eq].
  - destruct (Htx _ _ _ H H0) as [Hin Ho]. split; [by apply elem_of_union_r|].
    rewrite lookup_insert_ne; [done|intros <-; by eapply Hfresh].
  - set_solver.
  - apply elem_of_union in H as [->%elem_of_singleton|Hc%Hours]; lia.
  - destruct H as [x H]. congruence.
Qed.

Lemma cycle_inv s i tx pool pool' :
  sessions_inv s → js_sessions s !! i = Some (SRunning tx pool) → sessions_inv (moves i (SRunning tx pool') (js_state s) s).
Proof.
  intros Hs Hi.
  assert (Er : ∀ c, is_rx (moves i (SRunning tx pool') (js_state s) s) c ↔ is_rx s c).
  { intros c. by rewrite is_rx_moves, (is_rx_here s i), Hi. }
  inv_auto Hs Er. stored_auto Hstored Er.
Qed.

(** A session with the current channel that keeps it while the stored pool may change. *)
Lemma error_exit_inv s i tx pool st :
  sessions_inv s → js_sessions s !! i = Some (SRunning tx pool) →
  st = with_pools (<[job := pool]> (sc_pools (js_state s))) (sc_listeners (js_state s)) (js_state s) →
  sessions_inv (moves i (SReturning tx) st s).
Proof.
  intros Hs Hi ->.
  assert (Er : ∀ c, is_rx (moves i (SReturning tx) (with_pools (<[job := pool]> (sc_pools (js_state s)))
    (sc_listeners (js_state s)) (js_state s)) s) c ↔ is_rx s c).
  { intros c. by rewrite is_rx_moves, (is_rx_here s i), Hi. }
  assert (Hp : is_Some (<[job := pool]> (sc_pools (js_state s)) !! job)) by (rewrite lookup_insert_eq; by eexists).
  inv_auto Hs Er. left. exists i, tx. by rewrite lookup_insert_eq.
Qed.

Lemma signalled s c st d :
  channel s c = Some ChOpen →
  sc_channels (signal c st (js_state s)) !! d = if decide (d = c) then Some st else channel s d.
Proof.
  unfold channel, signal. intros H. simpl. rewrite decide_True by done. case_decide; subst;
    [by rewrite lookup_insert_eq|by rewrite lookup_insert_ne].
Qed.

Lemma send_inv s i tx :
  sessions_inv s → js_sessions s !! i = Some (SReturning tx) → sessions_inv (leaves i (signal tx ChSent (js_state s)) s).
Proof.
  intros Hs Hi. destruct (inv_tx s Hs i _ tx Hi eq_refl) as [Ho Hc].
  pose proof (inv_current s Hs i _ tx Hi eq_refl eq_refl) as Hr. pose proof (inv_returning s Hs i tx Hi) as Hst.
  assert (Hcu := λ k q Hk Hq, current_unique s Hs k i q _ Hk Hi Hq eq_refl).
  assert (Er : ∀ c, is_rx (leaves i (signal tx ChSent (js_state s)) s) c ↔ is_rx s c).
  { intros c. rewrite is_rx_leaves, (is_rx_here s i), Hi. simpl. unfold listener. naive_solver. }
  assert (Hch := λ d, signalled s tx ChSent d Hc). inv_auto Hs Er.
  - destruct (Htx _ _ _ H H0) as [Hin Ho']. split; [done|]. rewrite Hch, decide_False; [done|]. intros ->. eauto.
  - right. right. exists tx. by rewrite Er, Hch, decide_True.
Qed.

(** Stopping: nobody else has the current channel, so no pool is left in the map. *)
Lemma stop_inv s i tx pool st :
  sessions_inv s → js_sessions s !! i = Some (SRunning tx pool) →
  st = with_pools (delete job (sc_pools (js_state s))) (sc_listeners (js_state s)) (js_state s) →
  sessions_inv (moves i (SRemoving tx) st s).
Proof.
  intros Hs Hi ->. pose proof (current_not_stored s Hs i _ tx Hi eq_refl eq_refl ltac:(done)) as Hns.
  assert (Er : ∀ c, is_rx (moves i (SRemoving tx) (with_pools (delete job (sc_pools (js_state s)))
    (sc_listeners (js_state s)) (js_state s)) s) c ↔ is_rx s c).
  { intros c. by rewrite is_rx_moves, (is_rx_here s i), Hi. }
  assert (Hd : delete job (sc_pools (js_state s)) = sc_pools (js_state s)) by (by apply delete_id).
  unfold with_pools, moves in *. simpl in *. rewrite Hd in *. inv_auto Hs Er.
  match goal with Hx : is_Some _ |- _ => destruct Hx; congruence end.
Qed.

Lemma remove_listener_inv s i tx st :
  sessions_inv s → js_sessions s !! i = Some (SRemoving tx) →
  st = with_pools (sc_pools (js_state s)) (delete job (sc_listeners (js_state s))) (js_state s) →
  sessions_inv (moves i (SRemoved tx) st s).
Proof.
  intros Hs Hi ->. pose proof (current_not_stored s Hs i _ tx Hi eq_refl eq_refl ltac:(done)) as Hns.
  assert (Hcu := λ k q Hk Hq, current_unique s Hs k i q _ Hk Hi Hq eq_refl).
  assert (Hel : ∀ c, elsewhere s i c → is_rx s c) by (intros c Hc; rewrite (is_rx_here s i); by right; right).
  assert (Er : ∀ c, is_rx (moves i (SRemoved tx) (with_pools (sc_pools (js_state s))
    (delete job (sc_listeners (js_state s))) (js_state s)) s) c ↔ elsewhere s i c).
  { intros c. rewrite is_rx_moves. simpl. rewrite lookup_delete_eq. naive_solver. }
  inv_auto Hs Er.
  - by destruct H2; rewrite (Hcu i0 p).
  - destruct H; congruence.
Qed.

(** A session goes away and drops its sender. *)
Lemma closes_inv s i p tx st :
  sessions_inv s → js_sessions s !! i = Some p → holds_tx p = Some tx → p ≠ SReturning tx →
  sc_pools st = sc_pools (js_state s) → sc_listeners st = sc_listeners (js_state s) →
  sc_next st = sc_next (js_state s) → sc_channels st = sc_channels (signal tx ChClosed (js_state s)) →
  sessions_inv (leaves i st s).
Proof.
  intros Hs Hi Ht Hne Ep El En Ec. destruct (inv_tx s Hs i _ tx Hi Ht) as [Ho Hc].
  assert (Hch := λ d, signalled s tx ChClosed d Hc). rewrite <- Ec in Hch.
  assert (Er : ∀ c, is_rx (leaves i st s) c ↔ is_rx s c).
  { intros c. rewrite is_rx_leaves, (is_rx_here s i), Hi, El. unfold listener. simpl.
    assert (holds_rx p = None) as -> by (by destruct p). naive_solver. }
  clear Ec. inv_auto Hs Er; rewrite ?Ep, ?El, ?En, ?Hch in *; try (by eauto).
  - destruct (Htx _ _ _ H H0) as [Hin Ho']. split; [done|]. rewrite decide_False; [done|]. intros ->. eauto.
  - case_decide; [done|eauto].
  - destruct (Hstored H) as [(k & c & Hk)|[(k & Hk)|(c & Hk & Hcc)]].
    + left. exists k, c. rewrite lookup_delete_ne; [done|]. intros ->. rewrite Hi in Hk. by simplify_eq/=.
    + right. left. exists k. rewrite lookup_delete_ne; [done|]. intros ->. rewrite Hi in Hk. by simplify_eq/=.
    + right. right. exists c. rewrite Er, Hch, decide_False; [done|]. intros ->. congruence.
Qed.

(** What other jobs do does not matter. *)
Lemma others_inv s st :
  sessions_inv s → sc_pools st !! job = stored s → sc_listeners st !! job = listener s →
  (∀ c, c ∈ js_ours s → sc_channels st !! c = channel s c) → (sc_next (js_state s) <= sc_next st)%nat →
  sessions_inv (mk_sessions st (js_ours s) (js_sessions s)).
Proof.
  intros Hs Ep El Ec En.
  assert (Er : ∀ c, is_rx (mk_sessions st (js_ours s) (js_sessions s)) c ↔ is_rx s c).
  { intros c. unfold is_rx at 1. unfold listener at 1. simpl. by rewrite El. }
  inv_auto Hs Er; rewrite ?Ep, ?El in *; try (by eauto).
  - destruct (Htx _ _ _ H H0). split; [done|]. by rewrite Ec.
  - specialize (Hours c H). lia.
  - apply (Hsent c H). by rewrite <- Ec by eauto.
  - destruct (Hstored H) as [Hl|[Hl|(c & Hk & Hcc)]]; [by left|by right; left|]. right. right. exists c.
    rewrite Er, Ec by eauto. done.
Qed.

Lemma step_inv s s' : sessions_inv s → job_step true s s' → sessions_inv s'.
Proof.
  intros Hs Hstep. destruct Hstep.
  - by eapply take_listener_inv; eauto.
  - by eapply new_pool_inv; eauto.
  - by eapply notified_inv.
  - by eapply give_up_inv; eauto.
  - by eapply give_up_inv; eauto.
  - by eapply give_up_inv; eauto.
  - by eapply poll_panics_inv.
  - by eapply put_back_inv.
  - by eapply take_pool_inv.
  - destruct (inv_notified s Hs i H). congruence.
  - by eapply register_inv.
  - by eapply cycle_inv.
  - by eapply error_exit_inv.
  - by eapply send_inv.
  - by eapply stop_inv.
  - by eapply remove_listener_inv.
  - by eapply closes_inv.
  - by eapply closes_inv.
  - by eapply others_inv.
Qed.

Lemma steps_inv s s' : sessions_inv s → rtc (job_step true) s s' → sessions_inv s'.
Proof. intros Hs Hr. induction Hr; eauto using step_inv. Qed.

(** ** The functions of [Secondary] as runs *)

(** A session that waits: the rest of [init_connection_pool]. *)
Definition after_wait (repoll : outcome unit) (rx : nat) (s : Secondary Reg) :
    outcome (option (PoolSys * nat) * Secondary Reg) :=
  let put_back s := Val (None, with_pools (sc_pools s) (<[job := rx]> (sc_listeners s)) s) in
  match sc_channels s !! rx with
  | Some ChSent =>
      let '(pool, s) := get_existing_queue_pool job s in
      pool ← unwrap pool;
      let '(tx, s) := new_listener job s in
      Val (Some (pool, tx), s)
  | Some ChDone => _ ← repoll; put_back s
  | Some ChClosed => put_back (receiver_done rx s)
  | _ => put_back s
  end.

Lemma give_up_steps serial s i rx st :
  job_step serial s (moves i (SGivingUp rx) st s) →
  ∃ s', rtc (job_step serial) s s' ∧
    js_state s' = with_pools (sc_pools st) (<[job := rx]> (sc_listeners st)) st ∧ js_sessions s' !! i = None.
Proof.
  intros Hst. eexists. split; [eapply rtc_l; [exact Hst|apply rtc_once, (step_put_back serial _ i rx)]|split; [done|]]; simpl.
  - by rewrite lookup_insert_eq.
  - by rewrite lookup_delete_eq.
Qed.

Lemma register_steps serial s i pool st :
  job_step serial s (moves i (SChosen pool) st s) →
  ∃ s', rtc (job_step serial) s s' ∧ js_state s' = snd (new_listener job st) ∧
    js_sessions s' !! i = Some (SRunning (sc_next st) pool).
Proof.
  intros Hst. eexists. split; [eapply rtc_l; [exact Hst|apply rtc_once, (step_register serial _ i pool)]|split; [done|]]; simpl.
  - by rewrite lookup_insert_eq.
  - by rewrite lookup_insert_eq.
Qed.

Definition running_as (r : option (PoolSys * nat)) : option stage :=
  '(pool, tx) ← r; Some (SRunning tx pool).

Lemma after_wait_steps serial repoll s i rx r st :
  js_sessions s !! i = Some (SWaiting rx) → after_wait repoll rx (js_state s) = Val (r, st) →
  ∃ s', rtc (job_step serial) s s' ∧ js_state s' = st ∧ js_sessions s' !! i = running_as r.
Proof.
  intros Hi. unfold after_wait. destruct (sc_channels (js_state s) !! rx) as [[]|] eqn:Ec.
  - intros [= <- <-]. by apply give_up_steps, step_timeout; [|unfold silent, channel; rewrite Ec].
  - simpl. destruct (sc_pools (js_state s) !! job) as [pool|] eqn:Ep; [|done]. intros [= <- <-].
    set (s1 := moves i SNotified (js_state s) s).
    assert (H1 : job_step serial s s1) by (by eapply step_notified).
    destruct (register_steps serial s1 i pool (snd (get_existing_queue_pool job (js_state s1)))) as (s' & Hr & He & Hs).
    { apply step_take_pool; [simpl; by rewrite lookup_insert_eq|done]. }
    exists s'. split_and!; [by eapply rtc_l|by rewrite He|by rewrite Hs].
  - intros [= <- <-]. by apply (give_up_steps serial s i rx (receiver_done rx (js_state s))), step_sender_gone.
  - destruct repoll; [|done]. intros [= <- <-]. by apply give_up_steps, step_poll_again.
  - intros [= <- <-]. by apply give_up_steps, step_timeout; [|unfold silent, channel; rewrite Ec].
Qed.

(** What the sequential functions do is one of the runs, [meanwhile] standing for the steps
    that others take. *)
Lemma init_is_steps serial repoll meanwhile t ka elastic now s i r st :
  js_sessions s !! i = None → (serial = true → nobody_initialising s) →
  fresh_pool (get_new_queue_pool (target_host_port t) ka elastic now) →
  (∀ s1 rx, js_sessions s1 !! i = Some (SWaiting rx) → ∃ ours ses,
     rtc (job_step serial) s1 (mk_sessions (meanwhile (js_state s1)) ours ses) ∧ ses !! i = Some (SWaiting rx)) →
  init_connection_pool repoll meanwhile t job ka elastic now (js_state s) = Val (r, st) →
  ∃ s', rtc (job_step serial) s s' ∧ js_state s' = st ∧ js_sessions s' !! i = running_as r.
Proof.
  intros Hi Hser Hf Hmean Hinit. unfold init_connection_pool in Hinit.
  destruct (sc_listeners (js_state s) !! job) as [rx|] eqn:El.
  - pose proof (step_take_listener serial s i rx Hi Hser El) as Hst.
    match type of Hst with job_step _ _ ?s1 => destruct (Hmean s1 rx) as (ours & ses & Hrun & Hses) end.
    { simpl. by rewrite lookup_insert_eq. }
    match type of Hrun with rtc _ _ ?s2 =>
      destruct (after_wait_steps serial repoll s2 i rx r st Hses Hinit) as (s' & Hr & Hs') end.
    exists s'. split; [|done]. eapply rtc_l; [exact Hst|]. by etrans.
  - injection Hinit as <- <-.
    pose proof (step_new_pool serial s i _ Hi Hser El Hf) as Hst.
    destruct (register_steps serial s i _ _ Hst) as (s' & Hr & He & Hs). exists s'. split_and!; [done| |done].
    rewrite He. simpl. by rewrite delete_id.
Qed.

Lemma end_is_steps serial exit tx pool s i :
  js_sessions s !! i = Some (SRunning tx pool) →
  ∃ s', rtc (job_step serial) s s' ∧ js_state s' = session_end exit job tx pool (js_state s) ∧ js_sessions s' !! i = None.
Proof.
  intros Hi. destruct exit; simpl.
  1,2: eexists; split; [eapply rtc_l; [by eapply (step_stop serial s i)|];
    eapply rtc_l; [eapply (step_remove_listener serial _ i tx); simpl; by rewrite lookup_insert_eq|];
    apply rtc_once, (step_remove_metrics serial _ i tx); simpl; by rewrite lookup_insert_eq
    |split; [done|simpl; by rewrite lookup_delete_eq]].
  2,3: eexists; split; [by eapply rtc_once, (step_lost serial s i)|split; [done|simpl; by rewrite lookup_delete_eq]].
  eexists. split; [eapply rtc_l; [by eapply (step_error_exit serial s i)|];
    apply rtc_once, (step_send serial _ i tx); simpl; by rewrite lookup_insert_eq
    |split; [done|simpl; by rewrite lookup_delete_eq]].
Qed.

(** ** Properties *)

(** C9: A job has one pool on a secondary.  In whatever order its sessions take their steps,
    while only one of them initialises at a time, at most one session has a pool, none is
    left in [CONNECTION_POOLS] meanwhile, and a session that was notified finds one there:
    the [unwrap] of [get_existing_queue_pool] does not panic, and no session has another
    pool by then. *)
Theorem one_pool_per_job (st : Secondary Reg) s :
  sc_pools st !! job = None → sc_listeners st !! job = None → rtc (job_step true) (no_sessions st) s →
  (∀ i k p q, js_sessions s !! i = Some p → js_sessions s !! k = Some q →
     is_Some (holds_pool p) → is_Some (holds_pool q) → i = k) ∧
  (∀ i p, js_sessions s !! i = Some p → is_Some (holds_pool p) → stored s = None) ∧
  (∀ i, js_sessions s !! i = Some SNotified →
     is_Some (stored s) ∧ ∀ k p, js_sessions s !! k = Some p → holds_pool p = None).
Proof.
  intros Hp Hl Hr. pose proof (steps_inv _ _ (inv_start st Hp Hl) Hr) as Hs.
  assert (Hnone : ∀ i p, js_sessions s !! i = Some p → is_Some (holds_pool p) → stored s = None).
  { intros i p Hi [x Hx]. destruct p; try done.
    - by eapply chosen_not_stored. - by eapply current_not_stored. }
  split_and!; [|done|].
  - intros i k p q Hi Hk [x Hx] [y Hy]. by eapply pool_holder_unique.
  - intros i Hi. pose proof (inv_notified s Hs i Hi) as Hn. split; [done|].
    intros k p Hk. destruct (holds_pool p) eqn:E; [|done].
    rewrite (Hnone k p Hk) in Hn by (by eexists). by destruct Hn.
Qed.

(** That is so only because of the times: a session that begins while another one waits finds
    no listener and makes a second pool, next to the one that is in use. *)
Theorem begin_while_waiting_makes_second_pool (st : Secondary Reg) pool pool' :
  sc_listeners st !! job = None → fresh_pool pool → fresh_pool pool' →
  ∃ s tx tx', rtc (job_step false) (no_sessions st) s ∧
    js_sessions s !! 0%nat = Some (SRunning tx pool) ∧ js_sessions s !! 2%nat = Some (SRunning tx' pool').
Proof.
  intros Hl Hf Hf'. do 3 eexists. split; [|split].
  - eapply rtc_l; [exact (step_new_pool false (no_sessions st) 0 pool (lookup_empty _) ltac:(done) Hl Hf)|].
    eapply rtc_l; [apply (step_register false _ 0 pool); apply lookup_insert_eq|].
    eapply rtc_l; [eapply (step_take_listener false _ 1); [|done|apply lookup_insert_eq]|].
    { simpl. by rewrite !lookup_insert_ne by done. }
    eapply rtc_l; [apply (step_new_pool false _ 2 pool'); [|done| |done]|].
    { simpl. by rewrite !lookup_insert_ne by done. }
    { unfold listener. simpl. by rewrite lookup_delete_eq. }
    apply rtc_once, (step_register false _ 2 pool'). apply lookup_insert_eq.
  - simpl. rewrite !lookup_insert_ne by done. apply lookup_insert_eq.
  - simpl. apply lookup_insert_eq.
Qed.

End Sessions.

(** ** Concrete inputs *)

Definition demo_pool (now : Z) : PoolSys := get_new_queue_pool "h:80" demo_ka false now.

(** A first session, cut off while the second one waits: the second takes its pool. *)
Lemma demo_handover :
  ∃ s, rtc (job_step (Reg := unit) (PromRegistry0 := open_registry) "job" (λ _, True) true) (no_sessions fresh_secondary) s ∧
    js_sessions s !! 1%nat = Some SNotified.
Proof.
  set (step := job_step _ _ _). eexists. split.
  - eapply rtc_l; [apply (step_new_pool (PromRegistry0 := open_registry) "job" (λ _, True) true _ 0 (demo_pool 0)); [done|by intros _ ? ? ?|done|done]|].
    eapply rtc_l; [apply (step_register (PromRegistry0 := open_registry) "job" (λ _, True) true _ 0 (demo_pool 0)); done|].
    eapply rtc_l; [eapply (step_take_listener (PromRegistry0 := open_registry) "job" (λ _, True) true _ 1); [done| |done]|].
    { intros _ k q Hk. simpl in Hk.
      rewrite insert_insert_eq in Hk. apply lookup_insert_Some in Hk as [[_ <-]|[_ Hk]]; [done|].
      by rewrite lookup_empty in Hk. }
    eapply rtc_l; [eapply (step_error_exit (PromRegistry0 := open_registry) "job" (λ _, True) true _ 0); done|].
    eapply rtc_l; [eapply (step_send (PromRegistry0 := open_registry) "job" (λ _, True) true _ 0); done|].
    apply rtc_once. eapply (step_notified (PromRegistry0 := open_registry) "job" (λ _, True) true _ 1); done.
  - done.
Qed.

Lemma one_pool_per_job_witness :
  ∃ s, rtc (job_step (Reg := unit) (PromRegistry0 := open_registry) "job" (λ _, True) true) (no_sessions fresh_secondary) s ∧
    js_sessions s !! 1%nat = Some SNotified ∧ is_Some (stored "job" s).
Proof.
  destruct demo_handover as (s & Hr & Hn). exists s. split; [exact Hr|]. split; [exact Hn|].
  destruct (one_pool_per_job (PromRegistry0 := open_registry) "job" (λ _, True) fresh_secondary s eq_refl eq_refl Hr)
    as (_ & _ & H). destruct (H 1%nat Hn) as [Hs _]. exact Hs.
Defined.
