(* ===== verification/Job.v ===== *)
(** * A job from end to end

    How the generator ([RateSpec]), the primary ([Primary]) and the sessions of the
    secondaries ([Secondary], [Cycle]) work together: what a whole job can send.

    The messages delivered to a secondary are cut into sessions where it was connected; each
    session is one run of [handle_connection_from_primary] on what it received of them. *)
From Stdlib Require Import ZArith Lia.
From stdpp Require Import base list gmap strings numbers sets relations.
From S2P Require Import Prelude RateSpec Split Json Assert HttpTypes Pool Providers Jobs Primary Cycle Metrics Secondary.

Local Open Scope Z_scope.

Section Load.
  Context {Compiled Hir AST Conn : Type}.

Local Abbreviation Req := (Request Compiled Hir AST Conn).
Local Abbreviation Msg := (MessageFromPrimary Compiled Hir AST Conn).
Local Abbreviation Log := (list (event Compiled Hir AST Conn)).

(** ** What the primary delivers *)

Definition msg_qps (m : Msg) : Z := match m with MRates r => rm_qps r | _ => 0 end.

Definition entry_qps (im : string * Msg) : Z := msg_qps im.2.

Definition event_qps (e : event Compiled Hir AST Conn) : Z :=
  match e with Delivered _ m => msg_qps m | Connected _ => 0 end.

(** The requests asked for by all rate messages of a log. *)
Definition delivered_qps (net : Log) : Z := sumZ (event_qps <$> net).

Definition qps_ok (m : Msg) : Prop := 0 <= msg_qps m <= u32_MAX.

Definition log_ok (net : Log) : Prop :=
  Forall (λ e, match e with Delivered _ m => qps_ok m | Connected _ => True end) net.

(** What sending adds at most. *)
Definition adds (net : Log) (q : Z) (net' : Log) : Prop :=
  log_ok net' ∧ delivered_qps net' <= delivered_qps net + q.

Lemma adds_refl net : log_ok net → adds net 0 net.
Proof. intros H. split; [done|lia]. Qed.

Lemma adds_trans net q net1 q' net2 : adds net q net1 → adds net1 q' net2 → adds net (q + q') net2.
Proof. intros [_ H1] [H2 H3]. split; [done|lia]. Qed.

Lemma adds_zero_trans net net1 q net2 : adds net 0 net1 → adds net1 q net2 → adds net q net2.
Proof. intros H1 H2. exact (adds_trans _ 0 _ q _ H1 H2). Qed.

Lemma delivered_snoc net e : delivered_qps (net ++ [e]) = delivered_qps net + event_qps e.
Proof. unfold delivered_qps. rewrite fmap_app, sumZ_app. simpl. lia. Qed.

  Context (send_ok : Log → string → Msg → bool).
  Context (connect_ok : Log → string → Z → bool).
  Context (iter : Log → gset string → list string).
  Context (get_one : list (event Compiled Hir AST Conn) → SplitRequestFile Conn → result string (list HttpReq) * SplitRequestFile Conn).
  Context (port_name : string).

Lemma send_adds id m net : log_ok net → qps_ok m → adds net (msg_qps m) (snd (send send_ok id m net)).
Proof.
  intros Hn Hm. unfold send. destruct (send_ok net id m); simpl.
  - split; [|rewrite delivered_snoc; simpl; lia]. apply Forall_app. split; [done|]. by constructor.
  - split; [done|]. destruct Hm. lia.
Qed.

Lemma send_each_adds l net :
  log_ok net → Forall (λ im, qps_ok im.2) l → adds net (sumZ (entry_qps <$> l)) (snd (send_each send_ok l net)).
Proof.
  intros Hn Hl. revert net Hn. induction Hl as [|[id m] l Hm Hl IH]; intros net Hn; simpl; [by apply adds_refl|].
  pose proof (send_adds id m net Hn Hm) as Hs. destruct (send send_ok id m net) as [ok net1]. simpl in *.
  specialize (IH net1 (proj1 Hs)). destruct (send_each send_ok l net1) as [failed net2]. simpl in *.
  by eapply adds_trans.
Qed.

(** Messages that carry no rate. *)
Lemma send_each_silent l net :
  log_ok net → Forall (λ im, no_rate im.2) l → adds net 0 (snd (send_each send_ok l net)).
Proof.
  intros Hn Hl. assert (Hz : Forall (λ im : string * Msg, msg_qps im.2 = 0) l).
  { eapply Forall_impl; [exact Hl|]. by intros [id []]. }
  assert (sumZ (entry_qps <$> l) = 0) as E.
  { clear Hl. induction Hz as [|im l Him Hl IH]; [done|]. rewrite fmap_cons, sumZ_cons. unfold entry_qps at 1. lia. }
  rewrite <- E. apply send_each_adds; [done|]. eapply Forall_impl; [exact Hz|]. intros im H.
  unfold qps_ok. rewrite H. lia.
Qed.

(** Nothing is added to [net0] by what carries no rate. *)
Lemma adds_send net0 l net :
  adds net0 0 net → Forall (λ im, no_rate im.2) l → adds net0 0 (snd (send_each send_ok l net)).
Proof. intros Hn Hl. eapply adds_zero_trans; [exact Hn|]. apply send_each_silent; [apply Hn|done]. Qed.

Lemma adds_connect net0 id net : adds net0 0 net → adds net0 0 (net ++ [Connected id]).
Proof.
  intros [H1 H2]. split; [|rewrite delivered_snoc; simpl; lia].
  apply Forall_app. split; [done|]. by constructor.
Qed.

(** The shares of a rate add up to it. *)
Lemma shares_sum q c n qs cs :
  0 <= q <= u32_MAX → 0 <= c <= u32_MAX → 0 <= n <= u32_MAX → calculate_req_per_secondary q c n = Val (qs, cs) →
  sumZ qs = q ∧ Forall (λ x, 0 <= x) qs.
Proof.
  intros Hq Hc Hn H. destruct (Z.eqb_spec n 0) as [->|H0]; [done|].
  destruct (calculate_req_shares q c n) as (qs' & cs' & H1 & _ & _ & Hs & _ & Hf & _); [lia..|].
  rewrite H1 in H. injection H as <- <-. split; [done|]. eapply Forall_impl; [exact Hf|].
  assert (0 <= q / n) by (apply Z.div_pos; lia). intros x [-> | ->]; lia.
Qed.

Lemma sumZ_elem_le (l : list Z) x : Forall (λ x, 0 <= x) l → x ∈ l → x <= sumZ l.
Proof.
  induction 1 as [|y l Hy Hl IH]; [set_solver|].
  pose proof (sumZ_nonneg l Hl). rewrite sumZ_cons. intros [->|Hx]%elem_of_cons; [lia|]. specialize (IH Hx). lia.
Qed.

Lemma zip_qps_le (ids : list string) (qs cs : list Z) :
  Forall (λ x, 0 <= x) qs →
  sumZ (entry_qps <$>
    zip_with (λ id qc, (id, MRates {| rm_qps := fst qc; rm_connections := snd qc |})) ids (zip qs cs)) <= sumZ qs.
Proof.
  intros Hq. revert ids cs. induction Hq as [|q qs Hq Hqs IH]; intros ids cs; [by destruct ids|].
  pose proof (sumZ_nonneg qs Hqs). rewrite sumZ_cons. destruct ids as [|id ids], cs as [|c cs]; try (change (0 <= q + sumZ qs); lia).
  specialize (IH ids cs).
  change (q + sumZ (entry_qps <$>
    zip_with (λ id qc, (id, MRates {| rm_qps := fst qc; rm_connections := snd qc |})) ids (zip qs cs)) <= q + sumZ qs). lia.
Qed.

Lemma rates_adds senders q c net res net' :
  log_ok net → 0 <= q <= u32_MAX → 0 <= c <= u32_MAX → Z.of_nat (size senders) <= u32_MAX →
  send_rate_message_to_secondaries send_ok iter senders q c net = Val (res, net') → adds net q net'.
Proof.
  intros Hn Hq Hc Hsz. unfold send_rate_message_to_secondaries.
  destruct (calculate_req_per_secondary q c _) as [[qs cs]|] eqn:E; simpl; [|done].
  apply shares_sum in E as [Hs Hf]; [|done|done|lia].
  match goal with |- context [send_each send_ok ?l net] => set (msgs := l) end.
  pose proof (zip_qps_le (iter net senders) qs cs Hf) as Hle. fold msgs in Hle.
  assert (Hm : Forall (λ im, qps_ok im.2) msgs).
  { apply Forall_forall. intros im Him. unfold msgs in Him.
    apply elem_of_lookup_zip_with in Him as (i & x & [y z] & -> & _ & Hy). unfold qps_ok. simpl.
    apply list_elem_of_lookup_2, elem_of_zip_l in Hy.
    pose proof (sumZ_elem_le qs y Hf Hy). rewrite Forall_forall in Hf. specialize (Hf y Hy). lia. }
  pose proof (send_each_adds msgs net Hn Hm) as [H1 H2]. destruct (send_each send_ok msgs net) as [fl n1].
  intros [= _ <-]. simpl in *. split; [done|lia].
Qed.

(** The secondaries that the cluster knows are among [U], which is not too large. *)
  Context (U : gset string) (HU : Z.of_nat (size U) <= u32_MAX).

Definition nodes_in (nodes : option (list Node)) : Prop :=
  ∀ l n id, nodes = Some l → n ∈ l → instance_id n = Some id → id ∈ U.

Lemma create_senders_in nodes senders net news senders' net' :
  nodes_in nodes → senders ⊆ U →
  create_senders_for_cluster_nodes connect_ok port_name nodes senders net = Val (news, senders', net') →
  senders' ⊆ U.
Proof.
  intros Hin. destruct nodes as [nodes|]; simpl; [|by intros ? [= <- <- <-]].
  assert (∀ n id, n ∈ nodes → instance_id n = Some id → id ∈ U) as Hl by (intros n id; by apply Hin). clear Hin.
  revert senders net news Hl. induction nodes as [|n nodes IH]; intros senders net news Hl Hs; simpl.
  { by intros [= <- <- <-]. }
  destruct (instance_id n) as [id|] eqn:Eid; simpl; [|done].
  assert (id ∈ U) by (apply (Hl n id); [left|done]).
  assert (∀ n id, n ∈ nodes → instance_id n = Some id → id ∈ U) as Hl' by (intros n' id' Hn'; apply Hl; by right).
  case_decide; [by apply IH|].
  destruct (get_sender_for_secondary _ _ _ _); [|by apply IH].
  destruct (create_senders_loop _ _ _ _ _) as [[[news1 s1] n1]|] eqn:E; simpl; [|done].
  intros [= <- <- <-]. apply IH in E; [done|done|set_solver].
Qed.

Lemma init_senders_in host secondaries r senders net net' :
  nodes_in secondaries →
  init_senders send_ok connect_ok iter get_one port_name host secondaries r ∅ net = Val (senders, net') → senders ⊆ U.
Proof.
  intros Hin. unfold init_senders.
  destruct (create_senders_for_cluster_nodes _ _ _ _ _) as [[[news s1] n1]|] eqn:Ec; simpl; [|done].
  apply create_senders_in in Ec; [|done|set_solver].
  destruct (send_metadata _ _ _ _ _ _) as [n2|]; simpl; [|done].
  destruct (send_request_to_secondary _ _ _ _ _ _ _) as [[res n3]|]; simpl; [|done]. by intros [= <- <-].
Qed.

Lemma refresh_senders_in host r t st st' :
  nodes_in (t_secondaries t) → p_senders st ⊆ U →
  refresh_senders send_ok connect_ok iter get_one port_name host r t st = Val st' → p_senders st' ⊆ U.
Proof.
  intros Hin Hs. unfold refresh_senders. destruct (p_counter st =? 10); [|by intros [= <-]].
  destruct (create_senders_for_cluster_nodes _ _ _ _ _) as [[[news s1] n1]|] eqn:Ec; simpl; [|done].
  apply create_senders_in in Ec; [|done|done].
  match goal with |- ?e ≫= _ = _ → _ => destruct e as [[d n2]|] end; simpl; [|done]. by intros [= <-].
Qed.

Lemma metadata_adds host senders news net net' :
  log_ok net → send_metadata send_ok iter host senders news net = Val net' → adds net 0 net'.
Proof.
  intros Hn. apply (metadata_inv _ _ (λ _, adds net 0) ltac:(by intros; apply adds_send) _ ∅). by apply adds_refl.
Qed.

Lemma request_adds r senders news net res net' :
  log_ok net → send_request_to_secondary send_ok iter get_one r senders news net = Val (res, net') → adds net 0 net'.
Proof.
  intros Hn. apply (request_inv _ _ _ (λ _, adds net 0) ltac:(by intros; apply adds_send) ∅). by apply adds_refl.
Qed.

Lemma init_adds host secondaries r senders net net' :
  log_ok net → init_senders send_ok connect_ok iter get_one port_name host secondaries r ∅ net = Val (senders, net') →
  adds net 0 net'.
Proof.
  intros Hn. apply (init_inv _ _ _ _ _ (λ _, adds net 0)); [by intros; apply adds_send|by intros; apply adds_connect|].
  by apply adds_refl.
Qed.

Lemma refresh_adds host r t st st' :
  log_ok (p_net st) → refresh_senders send_ok connect_ok iter get_one port_name host r t st = Val st' →
  adds (p_net st) 0 (p_net st').
Proof.
  intros Hn H. eapply (refresh_inv _ _ _ _ _ (λ _, adds (p_net st) 0)); [..|exact H].
  - intros. by apply adds_send.
  - intros. by apply adds_connect.
  - by apply adds_refl.
Qed.

(** The rates of a turn fit in [u32]. *)
Definition tick_ok (t : Tick) : Prop :=
  0 <= fst (t_rates t) <= u32_MAX ∧ 0 <= snd (t_rates t) <= u32_MAX ∧ nodes_in (t_secondaries t).

Lemma tick_adds host r t st st' :
  log_ok (p_net st) → p_senders st ⊆ U → tick_ok t →
  primary_tick send_ok connect_ok iter get_one port_name host r t st = Val st' →
  adds (p_net st) (fst (t_rates t)) (p_net st') ∧ p_senders st' ⊆ U.
Proof.
  intros Hn Hs (Hq & Hc & Hin). unfold primary_tick.
  destruct (refresh_senders _ _ _ _ _ _ _ _ _) as [st1|] eqn:E; simpl; [|done].
  pose proof (refresh_senders_in _ _ _ _ _ Hin Hs E) as Hs1. apply refresh_adds in E; [|done].
  case_decide.
  - intros [= <-]. destruct E as [H1 H2]. split; [|done]. split; [done|lia].
  - destruct (send_rate_message_to_secondaries _ _ _ _ _ _) as [[res n1]|] eqn:Es; simpl; [|done].
    apply rates_adds in Es; [|apply E|done|done|pose proof (subseteq_size _ _ Hs1); lia]. intros [= <-].
    assert (adds (p_net st) (fst (t_rates t)) n1) by (by eapply adds_zero_trans).
    destruct res; (split; [done|]); simpl; set_solver.
Qed.

Lemma loop_adds host r ticks st st' :
  log_ok (p_net st) → p_senders st ⊆ U → Forall tick_ok ticks →
  primary_loop send_ok connect_ok iter get_one port_name host r ticks st = Val st' →
  adds (p_net st) (sumZ (map (λ t, fst (t_rates t)) ticks)) (p_net st').
Proof.
  intros Hn Hs Ht. revert st Hn Hs. induction Ht as [|t ticks Ht Hts IH]; intros st Hn Hs; cbn [primary_loop map].
  { intros [= <-]. by apply adds_refl. }
  rewrite sumZ_cons. destruct (must_stop t st).
  { intros [= <-]. split; [done|]. assert (0 <= sumZ (map (λ t, fst (t_rates t)) ticks)).
    { apply sumZ_nonneg. rewrite List.Forall_map. eapply Forall_impl; [exact Hts|]. intros x (Hx & _). lia. }
    destruct Ht as (Ht & _). lia. }
  destruct (primary_tick _ _ _ _ _ _ _ _ _) as [st1|] eqn:E; simpl; [|done].
  apply tick_adds in E as [E Hs1]; [|done|done|done]. intros Hl. eapply adds_trans; [exact E|].
  apply IH; [apply E|done|done].
Qed.

Lemma end_adds ids net :
  log_ok net → adds net 0 (foldl (λ net id, send_end_msg send_ok id false net) net ids).
Proof.
  revert net. induction ids as [|id ids IH]; intros net Hn; simpl; [by apply adds_refl|].
  assert (adds net 0 (send_end_msg send_ok id false net)) as H1.
  { unfold send_end_msg. apply (send_adds id MFinished); [done|]. unfold qps_ok. simpl. lia. }
  eapply adds_zero_trans; [exact H1|]. by apply IH, H1.
Qed.

(** All rate messages of a job ask for no more than the rates of its seconds. *)
Lemma job_delivers host secondaries r ticks statuses net :
  nodes_in secondaries → Forall tick_ok ticks →
  primary_handle_request send_ok connect_ok iter get_one port_name host secondaries r ticks [] = Val (statuses, net) →
  log_ok net ∧ delivered_qps net <= sumZ (map (λ t, fst (t_rates t)) ticks).
Proof.
  intros Hin Ht. unfold primary_handle_request. destruct (name r); simpl; [|done].
  destruct (init_senders _ _ _ _ _ _ _ _ _ _) as [[senders n1]|] eqn:Ei; simpl; [|done].
  pose proof (init_senders_in _ _ _ _ _ _ Hin Ei) as Hs. apply init_adds in Ei; [|constructor].
  destruct (primary_loop _ _ _ _ _ _ _ _ _) as [st|] eqn:El; simpl; [|done].
  apply loop_adds in El; [|apply Ei|done|done]. intros [= _ <-].
  destruct (end_adds (iter (p_net st) (p_senders st)) (p_net st)) as [H1 H2]; [apply El|]. split; [done|].
  destruct Ei as [_ H3], El as [_ H4]. simpl in H4. change (delivered_qps []) with 0 in H3. lia.
Qed.

Lemma standalone_loop_adds ticks counter net :
  log_ok net → Forall tick_ok ticks →
  adds net (sumZ (map (λ t, fst (t_rates t)) ticks)) (standalone_loop send_ok ticks counter net).
Proof.
  intros Hn Ht. revert counter net Hn. induction Ht as [|t ticks Hr Ht IH]; intros counter net Hn; [by apply adds_refl|].
  cbn [standalone_loop map]. rewrite sumZ_cons. set (rates := sumZ (map (λ t, fst (t_rates t)) ticks)) in *.
  assert (0 <= rates).
  { apply sumZ_nonneg, Forall_fmap. eapply Forall_impl; [exact Ht|]. intros x Hx. apply Hx. }
  assert (0 <= fst (t_rates t)) by apply Hr. case_match; [split; [done|lia]|].
  match goal with |- context [send send_ok ?i ?m net] => pose proof (send_adds i m net Hn) as Hs end.
  destruct (send send_ok _ _ net) as [ok n1]. eapply adds_trans; [apply Hs|apply IH, Hs].
  all: unfold qps_ok; simpl; apply Hr.
Qed.

(** The same for the executor of a standalone process. *)
Lemma standalone_delivers port r ticks statuses net :
  Forall tick_ok ticks →
  standalone_handle_request send_ok connect_ok iter get_one port r ticks [] = Val (statuses, net) →
  log_ok net ∧ delivered_qps net <= sumZ (map (λ t, fst (t_rates t)) ticks).
Proof.
  intros Ht. unfold standalone_handle_request. destruct (name r); simpl; [|done].
  destruct (connect_ok _ _ _); [|done]. set (n0 := [Connected "localhost"] : Log).
  assert (H0 : adds [] 0 n0) by (split; [by constructor|done]).
  pose proof (metadata_adds (Some "127.0.0.1"%string) {[ "localhost"%string ]} ["localhost"%string] n0 _ (proj1 H0) eq_refl) as H1.
  set (n1 := send_metadata_with_primary _ _ _ _ _ _) in *.
  destruct (send_request_to_secondary _ _ _ _ _ _ _) as [[res n2]|] eqn:Er; simpl; [|done].
  apply request_adds in Er; [|apply H1]. intros [= _ <-].
  pose proof (standalone_loop_adds ticks 0 n2 (proj1 Er) Ht) as H3.
  pose proof (end_adds ["localhost"%string] _ (proj1 H3)) as H4. simpl in H4.
  destruct H0 as [_ H0], H1 as [_ H1], Er as [_ H2], H3 as [_ H3], H4 as [H4 H5].
  change (delivered_qps []) with 0 in H0. split; [done|lia].
Qed.

(** A job of the executor, on a cluster or on a single process, and what it delivered. *)
Inductive job_ran (r : Req) (ticks : list Tick) (net : Log) : Prop :=
| cluster_job host secondaries statuses :
    nodes_in secondaries →
    primary_handle_request send_ok connect_ok iter get_one port_name host secondaries r ticks [] = Val (statuses, net) →
    job_ran r ticks net
| standalone_job port statuses :
    standalone_handle_request send_ok connect_ok iter get_one port r ticks [] = Val (statuses, net) →
    job_ran r ticks net.

Lemma job_ran_delivers r ticks net :
  Forall tick_ok ticks → job_ran r ticks net →
  log_ok net ∧ delivered_qps net <= sumZ (map (λ t, fst (t_rates t)) ticks).
Proof. intros Ht [host secondaries st Hin H|port st H]; [by eapply job_delivers|by eapply standalone_delivers]. Qed.

(** ** Sessions *)

(** The messages a secondary was sent, cut where it was connected; [cur] are those of the
    current session so far. *)
Fixpoint sessions_from (id : string) (cur : list Msg) (net : Log) : list (list Msg) :=
  match net with
  | [] => [cur]
  | Connected j :: net' => if decide (j = id) then cur :: sessions_from id [] net' else sessions_from id cur net'
  | Delivered j m :: net' =>
      if decide (j = id) then sessions_from id (cur ++ [m]) net' else sessions_from id cur net'
  end.

(** What came before it was connected for the first time is no session. *)
Definition sessions_of (id : string) (net : Log) : list (list Msg) := tail (sessions_from id [] net).

Definition event_to (id : string) (e : event Compiled Hir AST Conn) : option Msg :=
  match e with Delivered j m => if decide (j = id) then Some m else None | Connected _ => None end.

Definition msgs_qps (msgs : list Msg) : Z := sumZ (map msg_qps msgs).

Lemma msgs_qps_app l k : msgs_qps (l ++ k) = msgs_qps l + msgs_qps k.
Proof. unfold msgs_qps. by rewrite map_app, sumZ_app. Qed.

Lemma msgs_qps_nonneg l : Forall qps_ok l → 0 <= msgs_qps l.
Proof.
  intros Hl. apply sumZ_nonneg. rewrite List.Forall_map. eapply Forall_impl; [exact Hl|]. intros m [? _]. done.
Qed.

Lemma sessions_join id cur net : mjoin (sessions_from id cur net) = cur ++ omap (event_to id) net.
Proof.
  revert cur. induction net as [|[j|j m] net IH]; intros cur; cbn [sessions_from omap list_omap event_to].
  - done.
  - case_decide; [|apply IH]. change (cur ++ mjoin (sessions_from id [] net) = cur ++ omap (event_to id) net).
    by rewrite IH.
  - case_decide; rewrite IH; [by rewrite <- app_assoc|done].
Qed.

Lemma log_ok_to id net : log_ok net → Forall qps_ok (omap (event_to id) net).
Proof.
  intros Hn. apply Forall_forall. intros m ([j|j x] & He & Hx)%list_elem_of_omap; simpl in Hx; [done|].
  case_decide; [|done]. injection Hx as ->. unfold log_ok in Hn. rewrite Forall_forall in Hn. exact (Hn _ He).
Qed.

Lemma join_qps (ls : list (list Msg)) : sumZ (map msgs_qps ls) = msgs_qps (mjoin ls).
Proof.
  induction ls as [|l ls IH]; [done|]. cbn [map]. rewrite sumZ_cons, IH.
  change (mjoin (l :: ls)) with (l ++ mjoin ls). by rewrite msgs_qps_app.
Qed.

Lemma sessions_ok id net : log_ok net → Forall (Forall qps_ok) (sessions_of id net).
Proof.
  intros Hn. pose proof (log_ok_to id net Hn) as Ho. pose proof (sessions_join id [] net) as Hj. simpl in Hj.
  rewrite <- Hj in Ho. apply Forall_forall. intros l Hl. apply Forall_forall. intros m Hm.
  rewrite Forall_forall in Ho. apply Ho, list_elem_of_join. exists l. split; [done|].
  unfold sessions_of in Hl. destruct (sessions_from id [] net); [set_solver|]. by right.
Qed.

Lemma sessions_qps id net :
  log_ok net → sumZ (map msgs_qps (sessions_of id net)) <= msgs_qps (omap (event_to id) net).
Proof.
  intros Hn. pose proof (sessions_join id [] net) as Hj. simpl in Hj.
  pose proof (log_ok_to id net Hn) as Ho. rewrite <- Hj in Ho |- *. rewrite <- join_qps. unfold sessions_of.
  destruct (sessions_from id [] net) as [|l ls]; [done|]. cbn [tail map]. rewrite sumZ_cons.
  change (mjoin (l :: ls)) with (l ++ mjoin ls) in Ho. apply Forall_app in Ho as [Ho _].
  pose proof (msgs_qps_nonneg l Ho). lia.
Qed.

(** Every rate goes to one secondary. *)
Lemma one_receiver (ids : list string) j q :
  NoDup ids → 0 <= q → sumZ (map (λ id, if decide (j = id) then q else 0) ids) <= q.
Proof.
  intros Hnd Hq. induction Hnd as [|id ids Hid Hnd IH]; [done|]. cbn [map]. rewrite sumZ_cons.
  case_decide as Hj; [|lia]. subst j.
  assert (sumZ (map (λ id0, if decide (id = id0) then q else 0) ids) = 0); [|lia].
  clear -Hid. induction ids as [|x ids IH]; [done|]. cbn [map]. rewrite sumZ_cons, IH by set_solver.
  rewrite decide_False by set_solver. done.
Qed.

Lemma delivered_to_qps id j m (net : Log) :
  msgs_qps (omap (event_to id) (Delivered j m :: net)) =
  (if decide (j = id) then msg_qps m else 0) + msgs_qps (omap (event_to id) net).
Proof. cbn [omap list_omap event_to]. by case_decide. Qed.

Lemma receivers_qps ids net :
  NoDup ids → log_ok net → sumZ (map (λ id, msgs_qps (omap (event_to id) net)) ids) <= delivered_qps net.
Proof.
  intros Hnd Hn. induction Hn as [|e net He Hn IH].
  { change (delivered_qps []) with 0. clear Hnd. induction ids as [|id ids IH]; [done|].
    cbn [map]. rewrite sumZ_cons. change (msgs_qps (omap (event_to id) [])) with 0. lia. }
  unfold delivered_qps. rewrite fmap_cons, sumZ_cons. fold (delivered_qps net).
  destruct e as [j|j m]; cbn [event_qps].
  - exact IH.
  - transitivity (sumZ (map (λ id, if decide (j = id) then msg_qps m else 0) ids) +
                  sumZ (map (λ id, msgs_qps (omap (event_to id) net)) ids)).
    + clear. induction ids as [|id ids IH]; [done|]. cbn [map]. rewrite !sumZ_cons, delivered_to_qps. lia.
    + pose proof (one_receiver ids j (msg_qps m) Hnd (proj1 He)). lia.
Qed.

(** ** What a session sends *)

(** The messages it received. *)
Definition inbox_msgs (inbox : list (recv Msg)) : list Msg :=
  omap (λ r, match r with RMsg m _ => Some m | _ => None end) inbox.

(** Its cycles meet well-behaved tasks. *)
Definition turns_ok (r : recv Msg) : Prop := match r with RMsg _ e => Forall turn_ok (re_turns e) | _ => True end.

  Context {Rng Reg : Type} `{!PromRegistry Reg} `{!RequestProvider Rng (RequestSpecEnum Hir AST Conn)}.
  Context (fuel : nat) (env : string → option string).
  Context (create_ok : string → bool) (fetch_ok : string → string → bool) (repoll : outcome unit).

Definition total_sent (results : list (CycleResult Rng (RequestSpecEnum Hir AST Conn))) : Z :=
  sumZ (map (λ r, sent_count (cr_sent r)) results).

Lemma message_loop_sent mode uri inbox st exit st' :
  Forall turns_ok inbox → Forall qps_ok (inbox_msgs inbox) →
  message_loop fuel env create_ok fetch_ok mode uri inbox st = Some (Val (exit, st')) →
  total_sent (ss_results st') <= total_sent (ss_results st) + msgs_qps (inbox_msgs inbox).
Proof.
  intros Ht. revert st. induction Ht as [|r inbox Hr Ht IH]; intros st Hq; [done|]. cbn [message_loop].
  destruct r as [| | |m e]; cbn [inbox_msgs omap list_omap] in *.
  - by apply IH.
  - intros [= <- <-]. pose proof (msgs_qps_nonneg _ Hq). unfold inbox_msgs in *. lia.
  - intros [= <- <-]. pose proof (msgs_qps_nonneg _ Hq). unfold inbox_msgs in *. lia.
  - fold (inbox_msgs inbox) in *. apply Forall_cons_1 in Hq as [Hm Hq].
    pose proof (msgs_qps_nonneg _ Hq) as Hpos.
    assert (E : msgs_qps (m :: inbox_msgs inbox) = msg_qps m + msgs_qps (inbox_msgs inbox)) by done. rewrite E.
    destruct m as [md|r|rate| | |]; cbn [msg_qps] in *.
    + intros Hl. apply IH in Hl; [lia|done].
    + destruct (prepare _ _ r uri (ss_files st)) as [[[|] files]|]; [|by intros [= <- <-]; cbn [ss_results]; lia|done].
      intros Hl. apply IH in Hl; [cbn [ss_results] in Hl; lia|done].
    + destruct (rate_handler _ _ _ _ _ _) as [[[c res]|]|] eqn:Eh; simpl; try done.
      apply rate_handler_sent in Eh; [|exact Hm|exact Hr].
      intros Hl. apply IH in Hl; [|done]. cbn [ss_results] in Hl. unfold total_sent in Hl at 2.
      rewrite map_app, sumZ_app in Hl. cbn [map] in Hl. rewrite sumZ_cons in Hl.
      unfold total_sent in *. change (sumZ []) with 0 in Hl. lia.
    + intros Hl. apply IH in Hl; [cbn [ss_results] in Hl; lia|done].
    + intros [= <- <-]. lia.
    + intros [= <- <-]. lia.
Qed.

Lemma request_tries_suffix n (inbox rest : list (recv Msg)) r :
  request_tries n inbox = Some (r, rest) → ∃ pre, inbox = pre ++ rest.
Proof.
  revert inbox. induction n as [|n IH]; intros inbox; simpl; [intros [= _ <-]; by exists []|].
  destruct inbox as [|x inbox]; [done|].
  assert (Hone : Some (r, inbox) = Some (r, rest) → ∃ pre, x :: inbox = pre ++ rest)
    by (intros [= <-]; by exists [x]).
  destruct (received x) as [[]|]; try (intros [= <- <-]; by apply Hone).
  intros (pre & ->)%IH. by exists (x :: pre).
Qed.

Lemma handshake_suffix (inbox rest : list (recv Msg)) h :
  handshake inbox = Some (h, rest) → ∃ pre, inbox = pre ++ rest.
Proof.
  unfold handshake, check_for_metadata_msg. destruct inbox as [|x inbox]; simpl; [done|].
  destruct (match received x with Ok (MMetadata metadata) => Ok metadata | _ => _ end) as [md|e].
  - unfold check_for_request_msg. destruct (request_tries 2 inbox) as [[r rest']|] eqn:E; simpl; [|done].
    intros [= _ <-]. apply request_tries_suffix in E as [pre ->]. by exists (x :: pre).
  - intros [= _ <-]. by exists [x].
Qed.

(** A session that ran: it received the first of the messages it was sent (all of them, or
    those before the connection broke), and these are the cycles it ran. *)
Definition session_ran (msgs : list Msg) (results : list (CycleResult Rng (RequestSpecEnum Hir AST Conn))) : Prop :=
  ∃ inbox meanwhile others uuid now g (s s' : Secondary Reg),
    inbox_msgs inbox `prefix_of` msgs ∧ Forall turns_ok inbox ∧
    ((∃ exit, handle_connection_from_primary fuel env create_ok fetch_ok repoll meanwhile others uuid now g inbox s =
                Some (Val (Ok (exit, results), s'))) ∨
     (∃ e, handle_connection_from_primary fuel env create_ok fetch_ok repoll meanwhile others uuid now g inbox s =
             Some (Val (Err e, s')) ∧ results = [])).

Lemma inbox_msgs_app l k : inbox_msgs (l ++ k) = inbox_msgs l ++ inbox_msgs k.
Proof. apply omap_app. Qed.

Lemma handle_connection_sent meanwhile others uuid now g inbox (s s' : Secondary Reg) exit results :
  Forall turns_ok inbox → Forall qps_ok (inbox_msgs inbox) →
  handle_connection_from_primary fuel env create_ok fetch_ok repoll meanwhile others uuid now g inbox s =
    Some (Val (Ok (exit, results), s')) →
  total_sent results <= msgs_qps (inbox_msgs inbox).
Proof.
  intros Ht Hq. unfold handle_connection_from_primary.
  destruct (handshake inbox) as [[h rest]|] eqn:Eh; simpl; [|done].
  apply handshake_suffix in Eh as [pre ->]. rewrite inbox_msgs_app in *.
  apply Forall_app in Ht as [_ Ht]. apply Forall_app in Hq as [Hq1 Hq2].
  destruct h as [[md r]|e]; [|done].
  destruct (session_begin _ _ _ _ _ _ _ _ _ _) as [[[se|e] s1]|] eqn:Eb; [|done..].
  unfold session_finish. destruct (message_loop _ _ _ _ _ _ _ _) as [[[ex st]|]|] eqn:El; simpl; [|done..].
  intros [= <- <- <-]. apply message_loop_sent in El; [|done..].
  assert (ss_results (se_state se) = []) as E0.
  { unfold session_begin in Eb. destruct (session_job_id uuid r) as [job|]; [|done]. simpl in Eb.
    destruct (metrics_with_buckets _ _ _) as [[mt f]|]; [|done]. simpl in Eb.
    destruct (prepare _ _ r _ _) as [[[] files]|]; simpl in Eb; [|done..].
    destruct (init_connection_pool _ _ _ _ _ _ _ _) as [[[[pool tx]|] s2]|]; simpl in Eb; [|done..].
    by injection Eb as <- <-. }
  rewrite E0 in El. change (total_sent []) with 0 in El.
  rewrite msgs_qps_app. pose proof (msgs_qps_nonneg _ Hq1). lia.
Qed.

Lemma session_ran_sent msgs results :
  Forall qps_ok msgs → session_ran msgs results → total_sent results <= msgs_qps msgs.
Proof.
  intros Hq (inbox & mw & ot & uuid & now & g & s & s' & [rest ->] & Ht & Hrun).
  apply Forall_app in Hq as [Hq1 Hq2]. rewrite msgs_qps_app. pose proof (msgs_qps_nonneg _ Hq2).
  destruct Hrun as [[exit Hrun]|(e & _ & ->)].
  - apply handle_connection_sent in Hrun; [lia|done..].
  - pose proof (msgs_qps_nonneg _ Hq1). change (total_sent []) with 0. lia.
Qed.

(** All sessions of a job, [runs id] those of the secondary [id], send no more than the log
    delivered. *)
Lemma sessions_sent ids net (runs : string → list (list (CycleResult Rng (RequestSpecEnum Hir AST Conn)))) :
  NoDup ids → log_ok net → (∀ id, id ∈ ids → Forall2 session_ran (sessions_of id net) (runs id)) →
  sumZ (map (λ id, sumZ (map total_sent (runs id))) ids) <= delivered_qps net.
Proof.
  intros Hnd Hn Hruns. etrans; [|by apply (receivers_qps ids net)].
  apply sumZ_map_le. intros id Hid. etrans; [|by apply sessions_qps].
  specialize (Hruns id Hid). pose proof (sessions_ok id net Hn) as Hok. revert Hok.
  induction Hruns as [|msgs results ms rs Hr Hrs IH]; [done|]. intros [H1 H2]%Forall_cons_1.
  cbn [map]. rewrite !sumZ_cons. specialize (IH H2). apply session_ran_sent in Hr; [lia|done].
Qed.

Lemma job_load r ticks net ids
    (runs : string → list (list (CycleResult Rng (RequestSpecEnum Hir AST Conn)))) :
  Forall tick_ok ticks → job_ran r ticks net → NoDup ids → (∀ id, id ∈ ids → Forall2 session_ran (sessions_of id net) (runs id)) →
  sumZ (map (λ id, sumZ (map total_sent (runs id))) ids) <= sumZ (map (λ t, fst (t_rates t)) ticks).
Proof.
  intros Ht Hp Hnd Hruns. apply job_ran_delivers in Hp as [Hn Hle]; [|done].
  etrans; [by apply (sessions_sent ids net)|done].
Qed.

(** C4: A job never sends more than its rates, on a cluster or on a single process: whatever
    fails on the network, however often secondaries are connected again, and whatever the pools, the providers and the clocks
    do, all requests sent in all sessions of all secondaries together are at most the sum
    of the rates that the generator gave for its seconds. *)
Theorem job_load_bounded r ticks net ids
    (runs : string → list (list (CycleResult Rng (RequestSpecEnum Hir AST Conn)))) :
  Forall tick_ok ticks → job_ran r ticks net → NoDup ids → (∀ id, id ∈ ids → Forall2 session_ran (sessions_of id net) (runs id)) →
  sumZ (map (λ id, sumZ (map total_sent (runs id))) ids) <= sumZ (map (λ t, fst (t_rates t)) ticks).
Proof. apply job_load. Qed.

(** [Into<RequestGenerator> for Request] *)
Definition request_into_generator (r : Req) : RequestGenerator :=
  request_generator_new (duration r) (shared (req r)) (box_qps (qps r)) (box_connections (concurrent_connection r)).

(** A constant rate, second by second. *)
Lemma constant_rates k n t : rates_from (box_rate {| cr_count_per_sec := k |}) t n = replicate n k.
Proof. revert t. induction n as [|n IH]; intros t; [done|]. simpl. f_equal. apply IH. Qed.

(** A test of [d] seconds at a constant rate of [k] requests per second sends at most
    [d * k] requests, on all secondaries together, when its seconds get the rates that the
    generator of the test gives. *)
Theorem constant_test_bounded r k ticks net ids
    (runs : string → list (list (CycleResult Rng (RequestSpecEnum Hir AST Conn)))) :
  qps r = RateConstant {| cr_count_per_sec := k |} → 0 <= duration r <= u32_MAX →
  map t_rates ticks = fst (poll_n (length ticks) (request_into_generator r)) →
  Forall tick_ok ticks → job_ran r ticks net → NoDup ids → (∀ id, id ∈ ids → Forall2 session_ran (sessions_of id net) (runs id)) →
  0 <= k → sumZ (map (λ id, sumZ (map total_sent (runs id))) ids) <= duration r * k.
Proof.
  intros Hqps Hd Hgen Ht Hp Hnd Hruns Hk. etrans; [by eapply job_load|].
  rewrite <- (map_map t_rates fst), Hgen. unfold request_into_generator. rewrite Hqps. cbn [box_qps].
  match goal with |- context [poll_n _ ?g] => set (g0 := g) end.
  assert (E : rg_total g0 = duration r) by (unfold g0; simpl; rewrite Z.mul_1_r; apply wrap_id; lia).
  destruct (poll_n_zip (length ticks) g0) as [-> _]; [rewrite E; change (rg_current_count g0) with 0; lia|lia|].
  rewrite E.
  match goal with |- context [rates_from (rg_qps_scheme g0) _ ?m] => set (n := m) end.
  assert (Hz : map fst (zip (rates_from (rg_qps_scheme g0) (rg_current_count g0) n)
    (rates_from (rg_concurrent_connection g0) (rg_current_count g0) n)) = replicate n k).
  { change (map fst) with (fmap (M := list) (@fst Z Z)). rewrite fst_zip by (rewrite !rates_from_length; lia).
    apply constant_rates. }
  rewrite Hz, sumZ_replicate. assert (Z.of_nat n <= duration r).
  { unfold n. change (rg_current_count g0) with 0. lia. }
  nia.
Qed.

End Load.

(** ** Concrete inputs *)

Definition job_ticks : list Tick := [{| t_rates := (1, 1); t_stopped := false; t_secondaries := None |}].

Definition job_run : outcome (list JobStatus * list (event unit unit unit (list HttpReq))) :=
  primary_handle_request (λ _ _ _, true) (λ _ _ _, true) (λ _, elements) (λ _ f, (Err ""%string, f)) "tcp-remoc"
    (Some "p"%string) (Some [demo_node "a"]) list_request job_ticks [].

Definition job_log : list (event unit unit unit (list HttpReq)) :=
  match job_run with Val (_, net) => net | Panic => [] end.

(** Another task runs: the oldest one spawned makes a step, and the very first attempt to
    open a connection succeeds. *)
Definition first_handle (t : PoolTask) (issued : list Z) : list (option Z) :=
  match issued with [] => if 1 <=? attempts t then [Some 0] else [] | _ => [] end.

Definition first_task (s : PoolSys) : PoolSys :=
  match ps_tasks s with
  | [] => s
  | t :: l2 =>
      let hs := first_handle t (ps_issued s) in
      let '(p, m, ts) := run_pool_task t (open_connection (keep_alive (ps_pool s)) 0 <$> hs) (ps_pool s) (ps_metrics s) in
      if (len hs <=? attempts t) && (len (ps_issued s ++ omap id hs) <=? i64_MAX) then
        {| ps_pool := p; ps_metrics := m; ps_get := ps_get s; ps_in_flight := ps_in_flight s;
           ps_tasks := [] ++ ts ++ l2; ps_issued := ps_issued s ++ omap id hs; ps_handed := ps_handed s |}
      else s
  end.

Definition busy_turn : Turn :=
  {| tn_env := first_task; tn_between1 s := s; tn_between2 s := s; tn_complete := all_ready;
     tn_get := 0; tn_send := 0; tn_over := 0 |}.

Lemma first_task_steps s : task_steps s (first_task s).
Proof.
  unfold first_task. destruct (ps_tasks s) as [|t l2] eqn:Et; [apply rtc_refl|]. simpl.
  destruct (run_pool_task _ _ _ _) as [[p m] ts] eqn:Er.
  destruct (Z.leb_spec (len (first_handle t (ps_issued s))) (attempts t)) as [Ha|]; simpl; [|apply rtc_refl].
  destruct (Z.leb_spec (len (ps_issued s ++ omap id (first_handle t (ps_issued s)))) i64_MAX) as [Hl|];
    simpl; [|apply rtc_refl].
  apply rtc_once. refine (task_run s t [] l2 0 (first_handle t (ps_issued s)) p m ts Et Ha _ _ Hl Er).
  all: unfold first_handle; destruct (ps_issued s); [case_match|]; simpl; try set_solver.
  - apply NoDup_singleton.
  - apply NoDup_nil_2.
  - apply NoDup_nil_2.
Qed.

Definition busy_rate : RateEnv := {| re_now := 0; re_setup := 0; re_turns := replicate 1002 busy_turn |}.

Lemma busy_turns_ok : Forall turn_ok (re_turns busy_rate).
Proof.
  apply Forall_replicate. split; [apply all_ready_perm|apply first_task_steps|intros s; apply rtc_refl..].
Qed.

(** The session of [a] in which every message of the log arrived, and what it sent. *)
Definition job_session :
    option (outcome (result string (session_exit * list (CycleResult unit (RequestSpecEnum unit unit (list HttpReq)))) *
                     Secondary unit)) :=
  handle_connection_from_primary (PromRegistry0 := open_registry) (RequestProvider0 := demo_provider) 5 (λ _, None)
    (λ _, true) (λ _ _, true) Panic (λ s, s) (λ s, s) "" 0 tt
    (as_inbox busy_rate (default [] (head (sessions_of "a" job_log)))) fresh_secondary.

Definition job_results : list (CycleResult unit (RequestSpecEnum unit unit (list HttpReq))) :=
  match job_session with Some (Val (Ok (_, results), _)) => results | _ => [] end.

Lemma job_session_ends : ∃ exit s', job_session = Some (Val (Ok (exit, job_results), s')).
Proof. eexists _, _. vm_compute. reflexivity. Qed.

Lemma as_inbox_msgs (e : RateEnv) (msgs : list (MessageFromPrimary unit unit unit (list HttpReq))) :
  inbox_msgs (as_inbox e msgs) = msgs.
Proof. induction msgs as [|m msgs IH]; [done|]. simpl. f_equal. exact IH. Qed.

Lemma job_sessions_ran :
  Forall2 (session_ran (Reg := unit) (PromRegistry0 := open_registry) (RequestProvider0 := demo_provider) 5 (λ _, None)
             (λ _, true) (λ _ _, true) Panic) (sessions_of "a" job_log) [job_results].
Proof.
  assert (E : sessions_of "a" job_log = [default [] (head (sessions_of "a" job_log))]) by (vm_compute; reflexivity).
  rewrite E. constructor; [|constructor]. destruct job_session_ends as (exit & s' & H).
  eexists _, (λ s, s), (λ s, s), ""%string, 0, tt, fresh_secondary, s'.
  split; [|split; [|left; exists exit; exact H]].
  - rewrite as_inbox_msgs. exists []. by rewrite app_nil_r.
  - apply Forall_fmap, Forall_true. intros m. exact busy_turns_ok.
Qed.

Lemma job_nodes_in : nodes_in {["a"%string]} (Some [demo_node "a"]).
Proof. intros l n id [= <-] ->%list_elem_of_singleton [= <-]. set_solver. Qed.

Lemma job_ticks_ok : Forall (tick_ok {["a"%string]}) job_ticks.
Proof. constructor; [|constructor]. split; [simpl; lia|]. split; [simpl; lia|]. intros l n id [=]. Qed.

Lemma job_size : Z.of_nat (size ({["a"%string]} : gset string)) <= u32_MAX.
Proof. by rewrite size_singleton. Qed.

Lemma job_ids_nodup : NoDup ["a"%string].
Proof. apply NoDup_singleton. Qed.

Lemma job_log_ran :
  job_ran (λ _ _ _, true) (λ _ _ _, true) (λ _, elements) (λ _ f, (Err ""%string, f)) "tcp-remoc" {["a"%string]}
    list_request job_ticks job_log.
Proof.
  apply (cluster_job _ _ _ _ _ _ _ _ _ (Some "p"%string) (Some [demo_node "a"]) [Starting; InProgress; Completed]
           job_nodes_in). vm_compute. reflexivity.
Qed.

(** One request was asked for, and one was sent. *)
Lemma job_load_bounded_witness :
  total_sent job_results = 1 ∧ sumZ (map (λ _, sumZ (map total_sent [job_results])) ["a"%string]) <=
    sumZ (map (λ t, fst (t_rates t)) job_ticks).
Proof.
  split; [vm_compute; reflexivity|].
  refine (job_load_bounded (λ _ _ _, true) (λ _ _ _, true) (λ _, elements) (λ _ f, (Err ""%string, f)) "tcp-remoc"
    {["a"%string]} job_size (PromRegistry0 := open_registry) (RequestProvider0 := demo_provider) 5
    (λ _, None) (λ _, true) (λ _ _, true) Panic list_request job_ticks job_log ["a"%string] (λ _, [job_results])
    job_ticks_ok job_log_ran job_ids_nodup _).
  intros id ->%list_elem_of_singleton. exact job_sessions_ran.
Defined.

Lemma constant_test_bounded_witness :
  sumZ (map (λ _, sumZ (map total_sent [job_results])) ["a"%string]) <= duration list_request * 1.
Proof.
  refine (constant_test_bounded (λ _ _ _, true) (λ _ _ _, true) (λ _, elements) (λ _ f, (Err ""%string, f)) "tcp-remoc"
    {["a"%string]} job_size (PromRegistry0 := open_registry) (RequestProvider0 := demo_provider) 5
    (λ _, None) (λ _, true) (λ _ _, true) Panic list_request 1 job_ticks job_log ["a"%string] (λ _, [job_results])
    eq_refl _ _ job_ticks_ok job_log_ran job_ids_nodup _ _).
  - simpl. lia.
  - vm_compute. reflexivity.
  - intros id ->%list_elem_of_singleton. exact job_sessions_ran.
  - lia.
Defined.
