(* ===== verification/Health.v ===== *)
(** * A job in full health

    [Job] bounds what a job sends from above, whatever goes wrong.  Here is the other
    direction, in both modes of generation: when nothing goes wrong a job sends all that its
    rates ask for.

    The loop of a second gets enough connections when the pool's supply, as the other tasks
    leave it at the beginning of each iteration, adds up to the rate ([turns_supply]).  A
    session is healthy when each second is ([healthy_loop]), and so is a job. *)
From Stdlib Require Import ZArith Lia.
From stdpp Require Import base list gmap strings numbers sets relations.
From S2P Require Import Prelude Float32 RateSpec Split Json Assert DataGen Template HttpTypes.
From S2P Require Import Pool UrlParams Providers Jobs Primary Cycle Metrics Secondary Job.

Local Open Scope Z_scope.
Local Open Scope rust_scope.

(** ** The supply of a second *)

Lemma pool_inv_steps ka s s' :
  1 <= ka_max_request_per_connection ka → pool_inv ka s → pool_steps s s' → pool_inv ka s'.
Proof. intros Hka Hi Hs. induction Hs; eauto using pool_inv_step. Qed.

(** An iteration in which nothing intervenes while connections are handed out, every
    connection is ready, and which takes at most [d] nanoseconds beyond its sleep. *)
Record calm (d : Z) (t : Turn) : Prop := {
  calm_env : ∀ s, task_steps s (tn_env t s);
  calm_between1 : ∀ s, tn_between1 t s = s;
  calm_between2 : ∀ s, tn_between2 t s = s;
  calm_complete : ready_complete (tn_complete t);
  calm_time : Z.of_N (tn_get t) + Z.of_N (tn_send t) + Z.of_N (tn_over t) <= d
}.

Lemma calm_turn_ok d t : calm d t → turn_ok t.
Proof.
  intros [He H1 H2 Hc _]. split; [|done|..].
  - intros l. change (map fst) with (fmap (M := list) (@fst HttpConnection bool)).
    rewrite (Hc l). apply all_ready_perm.
  - intros s. rewrite H1. apply rtc_refl.
  - intros s. rewrite H2. apply rtc_refl.
Qed.

Section Supply.
  Context {Rng Spec : Type} `{!RequestProvider Rng Spec} {Sleep : Type}.
  Context (fuel : nat) (m : CycleMode Sleep) (start : Z).

Local Abbreviation State := (CycleState Rng Spec Sleep).

(** What the pool can hand out in each of the iterations, at most a bundle at a time. *)
Fixpoint turns_supply (turns : list Turn) (st : State) : Z :=
  match turns with
  | [] => 0
  | t :: turns' =>
      Z.min (wrap 32 (cm_bundle m)) (supply (tn_env t (cy_sys st))) +
      match cycle_turn fuel m start t st with
      | Some (Val (inr st')) => turns_supply turns' st'
      | _ => 0
      end
  end.

(** Every iteration ends, up to its sleep, within the second when it takes [d]. *)
Fixpoint turns_in_time (d : Z) (turns : list Turn) (st : State) : Prop :=
  match turns with
  | [] => True
  | t :: turns' =>
      cy_clock st + d - start < 1001 * 1000000 ∧
      match cycle_turn fuel m start t st with
      | Some (Val (inr st')) => turns_in_time d turns' st'
      | _ => True
      end
  end.

Context (I : Spec → Prop) `{!ProviderServes (Rng := Rng) fuel I} (q d w : Z) (ka : ConnectionKeepAlive).

(** No wait of the loop is longer than [w] milliseconds. *)
Record waits_at_most : Prop := {
  wm_wait : 0 <= cm_wait m <= w;
  wm_resleep : ∀ l r, ∃ sl, cm_resleep m l r = Val sl ∧ 0 <= cm_millis m sl <= w
}.

Record healthy_state (st : State) : Prop := {
  hs_inv : cycle_inv q st;
  hs_remaining : 1 <= cy_remaining st;
  hs_clock : start <= cy_clock st;
  hs_spec : I (cy_spec st);
  hs_pool : pool_inv ka (cy_sys st);
  hs_sleep : 0 <= cm_millis m (cy_sleep st) <= w
}.

Lemma in_time now : now - start < 1001 * 1000000 → (time_remaining start now <? 0) = false.
Proof.
  intros H. unfold time_remaining, elapsed_ms, CYCLE_LENGTH_IN_MILLIS. apply Z.ltb_ge.
  assert (Z.max 0 (now - start) / 1000000 < 1001); [|lia]. apply Z.div_lt_upper_bound; lia.
Qed.

(** An iteration in time sends the rest, or at least what the pool can supply. *)
Lemma cycle_turn_supplies t st :
  q <= u32_MAX → q <= Z.of_nat fuel → 1 <= ka_max_request_per_connection ka → 1 <= wrap 32 (cm_bundle m) →
  waits_at_most → calm d t → healthy_state st → cy_clock st + d - start < 1001 * 1000000 →
  ∃ r, cycle_turn fuel m start t st = Some (Val r) ∧
    match r with
    | inl (e, st') => e = AllSent ∧ cycle_inv q st' ∧ cy_remaining st' = 0 ∧ cy_clock st' <= cy_clock st + d ∧
                      I (cy_spec st') ∧ pool_inv ka (cy_sys st')
    | inr st' => healthy_state st' ∧ cy_clock st' <= cy_clock st + d + w * 1000000 ∧
        cy_remaining st' <= cy_remaining st - Z.min (wrap 32 (cm_bundle m)) (supply (tn_env t (cy_sys st)))
    end.
Proof.
  intros Hq Hf Hka Hb [Hw Hrs] Hc [Hinv Hrem Hck Hsp Hp Hsl] Ht.
  pose proof (calm_turn_ok d t Hc) as Hok. pose proof (λ r, cycle_turn_inv fuel m start q t st r Hq Hok Hinv) as Hturn.
  pose proof (ci_remaining _ _ Hinv) as Hr.
  pose proof (λ r, cycle_turn_steps fuel m start t st r ltac:(lia) Hok) as Hsteps.
  pose proof (λ s, pool_inv_steps ka (cy_sys st) s Hka Hp) as Hpool.
  assert (Hserve : supply (tn_env t (cy_sys st)) = 0 ∨
    ∀ n, 0 <= n → len (snd (get_connections (tn_between1 t) (tn_between2 t) (tn_complete t) n (tn_env t (cy_sys st)))) =
      Z.min n (supply (tn_env t (cy_sys st)))).
  { unfold supply. case_decide as Ho; [right|by left]. intros n Hn.
    apply (get_connections_serves ka); try apply Hc; try done. apply Hpool, task_steps_pool, Hc. }
  revert Hturn Hsteps. unfold cycle_turn. pose proof (calm_time _ _ Hc) as Hd.
  rewrite in_time by lia. pose proof (wrap_range 32 (cm_bundle m)) as Hwr.
  destruct (get_connections _ _ _ _ _) as [sys conns] eqn:Eg.
  apply get_connections_len in Eg as Hlen; [|apply Hok..|lia].
  assert (Hs : Z.min (Z.min (wrap 32 (cm_bundle m)) (cy_remaining st)) (supply (tn_env t (cy_sys st))) <= len conns).
  { pose proof (len_nonneg conns). destruct Hserve as [-> | Hserve]; [lia|].
    specialize (Hserve (Z.min (wrap 32 (cm_bundle m)) (cy_remaining st)) ltac:(lia)). rewrite Eg in Hserve. simpl in Hserve. lia. }
  set (now := cy_clock st + Z.of_N (tn_get t)) in *.
  destruct (Z.ltb_spec (len conns) 1) as [H0|H1].
  { destruct (Hrs (time_remaining start (after_sleep (cm_wait m) (tn_over t) now)) (cy_remaining st)) as (sl & -> & Hsl').
    intros Hturn Hsteps. eexists. split; [done|]. specialize (Hturn _ eq_refl). specialize (Hsteps _ eq_refl).
    split_and!; [constructor; simpl; try done|simpl..]; try (unfold after_sleep; lia). by apply Hpool. }
  match goal with |- context [match (if ?c then ?a else ?b) with _ => _ end] =>
    assert (∃ sl, (if c then a else b) = Val sl ∧ 0 <= cm_millis m sl <= w)
      as (sl & -> & Hsl') by (case_match; [apply Hrs|eauto]) end.
  destruct (provider_serves (len conns) (cy_spec st) (cy_rng st)) as (l & spec' & g' & Hg & Hi' & Hne); [lia..|done|].
  destruct (batch_requests_some fuel m _ _ _ _ _ _ Hg Hne) as [reqs ->]. cbn.
  intros Hturn Hsteps. eexists. split; [done|]. specialize (Hturn _ eq_refl). specialize (Hsteps _ eq_refl).
  rewrite in_time in * by lia. rewrite wrap_id in * by lia. cbn [cy_remaining] in *.
  destruct (Z.eqb_spec (cy_remaining st - len conns) 0) as [E|Hn].
  - destruct Hturn as (Hi & Ha & _). split_and!; [done|done|by apply Ha|simpl; lia|done|by apply Hpool].
  - split_and!; [constructor; simpl; try done|simpl..]; try (unfold after_sleep; lia). by apply Hpool.
Qed.

(** Enough supply in time: everything is sent. *)
Lemma cycle_loop_in_time turns extra st :
  q <= u32_MAX → q <= Z.of_nat fuel → 1 <= ka_max_request_per_connection ka → 1 <= wrap 32 (cm_bundle m) →
  waits_at_most → Forall (calm d) turns → healthy_state st → turns_in_time d turns st →
  cy_remaining st <= turns_supply turns st →
  ∃ st', cycle_loop fuel m start (turns ++ extra) st = Some (Val (AllSent, st')) ∧ cycle_inv q st' ∧
    cy_remaining st' = 0 ∧ I (cy_spec st') ∧ pool_inv ka (cy_sys st') ∧ cy_clock st' - start < 1001 * 1000000.
Proof.
  intros Hq Hf Hka Hb Hw Hts. revert st. induction Hts as [|t turns Ht Hts IH]; intros st Hst Hck Hsup.
  { simpl in Hsup. destruct Hst. lia. }
  cbn [turns_in_time turns_supply app cycle_loop] in *. destruct Hck as [Hc Hck].
  destruct (cycle_turn_supplies t st) as (r & Hr & Hm); try done.
  rewrite Hr in *. cbn. destruct r as [[e st']|st'].
  - destruct Hm as (-> & Hi & Hz & Hc' & Hsp & Hp). exists st'. split_and!; done || lia.
  - destruct Hm as (Hst' & Hc' & Hrem). apply IH; done || lia.
Qed.

(** The same with a bound on the number of iterations instead, for short waits. *)
Lemma cycle_loop_supplies turns extra st :
  q <= u32_MAX → q <= Z.of_nat fuel → 1 <= ka_max_request_per_connection ka → 1 <= wrap 32 (cm_bundle m) →
  waits_at_most → 0 <= d → Forall (calm d) turns → healthy_state st →
  cy_clock st - start + len turns * (w * 1000000 + d) < 1001 * 1000000 → cy_remaining st <= turns_supply turns st →
  ∃ st', cycle_loop fuel m start (turns ++ extra) st = Some (Val (AllSent, st')) ∧ cycle_inv q st' ∧
    cy_remaining st' = 0 ∧ I (cy_spec st') ∧ pool_inv ka (cy_sys st') ∧
    cy_clock st' <= cy_clock st + len turns * (w * 1000000 + d).
Proof.
  intros Hq Hf Hka Hb Hw Hd Hts. revert st. induction Hts as [|t turns Ht Hts IH]; intros st Hst Hck Hsup.
  { simpl in Hsup. destruct Hst. lia. }
  rewrite len_cons in *. assert (0 <= w) by (destruct Hw as [? _]; lia).
  pose proof (len_nonneg turns) as Hl. assert (0 <= len turns * (w * 1000000 + d)) by (apply Z.mul_nonneg_nonneg; lia).
  destruct (cycle_turn_supplies t st) as (r & Hr & Hm); try done; [lia|].
  cbn [turns_supply app cycle_loop] in *. rewrite Hr in *. cbn. destruct r as [[e st']|st'].
  - destruct Hm as (-> & Hi & Hz & Hc & Hsp & Hp). exists st'. split_and!; done || lia.
  - destruct Hm as (Hst' & Hc & Hrem).
    destruct (IH st' Hst') as (st2 & E2 & Hi & Hz & Hsp & Hp & Hc2); [lia|lia|].
    exists st2. split_and!; done || lia.
Qed.

End Supply.

(** ** A second *)

Section Second.
  Context {Rng Spec : Type} `{!RequestProvider Rng Spec}.
  Context (fuel : nat) (I : Spec → Prop) `{!ProviderServes (Rng := Rng) fuel I} (d : Z) (ka : ConnectionKeepAlive).

(** The state in which the loop of a second begins, at [now]. *)
Definition second_begin (q now : Z) (sys : PoolSys) (spec : Spec) (g : Rng) : CycleState Rng Spec Z :=
  {| cy_remaining := q; cy_sleep := 1; cy_clock := now; cy_sys := sys; cy_spec := spec; cy_rng := g; cy_sent := [] |}.

(** What the pool supplies in the iterations of a second in immediate mode. *)
Definition second_supply (q start now : Z) (turns : list Turn) (sys : PoolSys) (spec : Spec) (g : Rng) : Z :=
  turns_supply fuel (immediate_mode Immediate u16_MAX) start turns (second_begin q now sys spec g).

(** Calm iterations, at most two milliseconds of sleep and [d] each, that are over within the
    second and whose supply is the rate. *)
Record second_healthy (q start now : Z) (turns : list Turn) (sys : PoolSys) (spec : Spec) (g : Rng) : Prop := {
  sh_turns : Forall (calm d) turns;
  sh_start : start <= now;
  sh_begin : 10 <= time_remaining start now;
  sh_end : now - start + len turns * (2 * 1000000 + d) < 1001 * 1000000;
  sh_supply : q <= second_supply q start now turns sys spec g
}.

Lemma second_sends_all rate start now turns extra sys spec (g : Rng) :
  0 <= d → 1 <= ka_max_request_per_connection ka → 1 <= rm_qps rate <= u32_MAX → rm_qps rate <= Z.of_nat fuel →
  I spec → pool_inv ka sys → second_healthy (rm_qps rate) start now turns sys spec g →
  ∃ r, send_n_request_in_t_duration fuel rate Immediate start now (turns ++ extra) sys spec g = Some (Val r) ∧
    cr_end r = Some AllSent ∧ sent_count (cr_sent r) = rm_qps rate ∧ I (cr_spec r) ∧ pool_inv ka (cr_sys r) ∧
    cr_clock r <= now + len turns * (2 * 1000000 + d).
Proof.
  intros Hd Hka Hq Hf Hi Hp [Hts Hs Hb He Hsup]. unfold send_n_request_in_t_duration.
  destruct (Z.ltb_spec (time_remaining start now) 10); [lia|]. destruct (Z.eqb_spec (rm_qps rate) 0); [lia|].
  cbn [bundle_size interval_duration mode_logic]. fold (second_begin (rm_qps rate) now sys spec g).
  destruct (cycle_loop_supplies fuel (immediate_mode Immediate u16_MAX) start I (rm_qps rate) d 2 ka turns extra
    (second_begin (rm_qps rate) now sys spec g)) as (st & -> & Hinv & Hz & Hsp & Hp' & Hc); try done; try lia.
  - split; simpl; [lia|]. intros _ _. exists 1. split; [done|lia].
  - constructor; simpl; try done; try lia. apply cycle_start_inv. lia.
  - eexists. split; [done|]. simpl in *. destruct Hinv as [Ht _ _]. split_and!; done || lia.
Qed.

(** *** Batch mode *)

Context (env : string → option string).

(** The state in which the loop of a second in batch mode begins, at [now]. *)
Definition batch_begin (q c start now : Z) (sys : PoolSys) (spec : Spec) (g : Rng) : CycleState Rng Spec f32 :=
  let sleep_time := f32_mul (interval_between_requests (time_remaining start now) q) (f32_of_Z (batch_bundle_size env q c)) in
  {| cy_remaining := q; cy_sleep := f32_floor (f32_sub sleep_time (f32_mul sleep_time f32_0_1)); cy_clock := now;
     cy_sys := sys; cy_spec := spec; cy_rng := g; cy_sent := [] |}.

(** Calm iterations that are, with the sleeps between them, in time, and whose supply is
    the rate. *)
Record batch_healthy (q c start now : Z) (turns : list Turn) (sys : PoolSys) (spec : Spec) (g : Rng) : Prop := {
  bh_turns : Forall (calm d) turns;
  bh_start : start <= now;
  bh_time : turns_in_time fuel (batch_mode env (batch_bundle_size env q c)) start d turns (batch_begin q c start now sys spec g);
  bh_supply : q <= turns_supply fuel (batch_mode env (batch_bundle_size env q c)) start turns (batch_begin q c start now sys spec g)
}.

Lemma env_wait_range : 0 <= env_wait_on_no_connection env <= u64_MAX.
Proof.
  unfold env_wait_on_no_connection. destruct (env _) as [v|]; simpl; [|lia].
  destruct (parse_unsigned u64_MAX v) as [n|] eqn:E; simpl; [|lia]. apply parse_unsigned_range in E; lia.
Qed.

Lemma batch_sends_all q c start now turns extra sys spec (g : Rng) :
  1 <= ka_max_request_per_connection ka → 1 <= q <= u32_MAX → 0 <= c <= u32_MAX → q <= Z.of_nat fuel →
  I spec → pool_inv ka sys → batch_healthy q c start now turns sys spec g →
  ∃ r, send_multiple_requests fuel env q c start now (turns ++ extra) sys spec g = Some (Val r) ∧
    cr_end r = Some AllSent ∧ sent_count (cr_sent r) = q ∧ I (cr_spec r) ∧ pool_inv ka (cr_sys r) ∧
    cr_clock r - start < 1001 * 1000000.
Proof.
  intros Hka Hq Hc Hf Hi Hp [Hts Hs Ht Hsup]. unfold send_multiple_requests.
  destruct (Z.eqb_spec q 0); [lia|]. fold (batch_begin q c start now sys spec g).
  pose proof (batch_bundle_range env q c Hq Hc) as Hb. set (b := batch_bundle_size env q c) in *.
  assert (Hm : ∀ sl, 0 <= f32_as_u64 sl <= u64_MAX) by (intros sl; apply f32_as_unsigned_range; lia).
  destruct (cycle_loop_in_time fuel (batch_mode env b) start I q d u64_MAX ka turns extra
    (batch_begin q c start now sys spec g)) as (st & -> & Hinv & Hz & Hsp & Hp' & Hck); try done; try lia.
  - simpl. rewrite wrap_id; lia.
  - split; simpl; [apply env_wait_range|]. intros l r. eexists. by split.
  - constructor; simpl; try done; try lia. apply cycle_start_inv. lia.
  - eexists. split; [done|]. simpl in *. destruct Hinv as [Htot _ _]. split_and!; done || lia.
Qed.

End Second.

(** C12: In immediate mode a second in full health sends its whole rate: when, over the
    iterations that fit into the second, the connections that the other tasks leave in the
    pool add up to the rate, nothing intervenes while they are handed out, they are all
    ready, and the source has requests, then the cycle ends in time with every request
    sent, however many iterations it needs and however many of them find an empty pool. *)
Theorem immediate_cycle_sends_all {Rng Spec} `{!RequestProvider Rng Spec} fuel (I : Spec → Prop)
    `{!ProviderServes (Rng := Rng) fuel I} d host ka el rate start now turns extra sys spec (g : Rng) :
  0 <= d → 1 <= ka_max_request_per_connection ka → 1 <= rm_qps rate <= u32_MAX → rm_qps rate <= Z.of_nat fuel →
  I spec → pool_reachable host ka el sys → second_healthy fuel d (rm_qps rate) start now turns sys spec g →
  ∃ r, send_n_request_in_t_duration fuel rate Immediate start now (turns ++ extra) sys spec g = Some (Val r) ∧
    cr_end r = Some AllSent ∧ sent_count (cr_sent r) = rm_qps rate ∧
    cr_clock r <= now + len turns * (2 * 1000000 + d).
Proof.
  intros Hd Hka Hq Hf Hi Hr Hh. pose proof (pool_reachable_inv _ _ _ _ Hka Hr) as Hp.
  destruct (second_sends_all fuel I d ka rate start now turns extra sys spec g) as (r & H1 & H2 & H3 & _ & _ & H4);
    [done..|]. by exists r.
Qed.

(** ** The sessions of a log *)

Section Logs.
  Context {Compiled Hir AST Conn : Type}.

Local Abbreviation Msg := (MessageFromPrimary Compiled Hir AST Conn).
Local Abbreviation Log := (list (event Compiled Hir AST Conn)).

(** The secondaries that were connected, one entry per connection. *)
Definition connects (net : Log) : list string :=
  omap (λ e, match e with Connected j => Some j | Delivered _ _ => None end) net.

Lemma phase_connected id net p m :
  phase_of id net = Some p → Delivered id m ∈ net → id ∈ connects net.
Proof.
  revert p. induction net as [|e net IH] using rev_ind; intros p; [set_solver|].
  rewrite phase_of_snoc. unfold connects. rewrite omap_app. fold (connects net). intros Hp Hd.
  destruct (phase_of id net) as [p0|] eqn:E0; [|done]. apply elem_of_app. apply elem_of_app in Hd as [Hd|Hd].
  { left. by eapply IH. }
  apply list_elem_of_singleton in Hd as <-. simpl in Hp. rewrite decide_True in Hp by done. left.
  destruct (decide (p0 = PIdle)) as [->|Hn]; [by destruct m|].
  clear -E0 Hn. revert p0 E0 Hn. induction net as [|e net IH] using rev_ind; intros p0; [by intros [= <-]|].
  rewrite phase_of_snoc. unfold connects. rewrite omap_app. fold (connects net). intros Hp Hn.
  destruct (phase_of id net) as [p1|] eqn:E1; [|done]. apply elem_of_app.
  destruct e as [j|j m]; simpl in *.
  - case_decide as Hj; [right; set_solver|left]. apply (IH p1); [done|by injection Hp as <-].
  - left. apply (IH p1); [done|]. case_decide; [|by injection Hp as <-]. intros ->. by destruct m.
Qed.

Lemma not_connected id net :
  id ∉ connects net → is_Some (phase_of id net) → sessions_of id net = [] ∧ omap (event_to id) net = [].
Proof.
  intros Hid [p Hp].
  assert (Hnone : ∀ m, Delivered id m ∉ net) by (intros m Hm; apply Hid; by eapply phase_connected).
  assert (Hs : sessions_from id [] net = [[]] ∧ omap (event_to id) net = []).
  { clear Hp. induction net as [|[j|j m] net IH]; [done|..].
    - apply not_elem_of_cons in Hid as [Hj Hid]. destruct IH as [IH1 IH2]; [done|intros m Hm; by apply (Hnone m); right|].
      simpl. rewrite decide_False by congruence. by split.
    - destruct IH as [IH1 IH2]; [done|intros m' Hm; by apply (Hnone m'); right|].
      assert (j ≠ id) by (intros ->; apply (Hnone m); left). simpl. by rewrite !decide_False. }
  unfold sessions_of. destruct Hs as [-> ->]. done.
Qed.

(** A secondary that was connected once has one session. *)
Lemma sessions_from_none id cur net : id ∉ connects net → sessions_from id cur net = [foldl (session_step id) cur net].
Proof.
  revert cur. induction net as [|[j|j m] net IH]; intros cur Hid; [done|..]; simpl.
  - apply not_elem_of_cons in Hid as [Hj Hid]. rewrite !decide_False by congruence. by apply IH.
  - destruct (decide (j = id)); by apply IH.
Qed.

Lemma connected_once id net p :
  NoDup (connects net) → id ∈ connects net → phase_of id net = Some p →
  sessions_of id net = [session_msgs id net] ∧ omap (event_to id) net = session_msgs id net.
Proof.
  intros Hnd Hid Hp.
  assert (∃ l1 l2, net = l1 ++ Connected id :: l2 ∧ id ∉ connects l1 ∧ id ∉ connects l2) as (l1 & l2 & -> & H1 & H2).
  { clear Hp. induction net as [|[j|j m] net IH]; [by apply elem_of_nil in Hid|..].
    - unfold connects in Hnd, Hid. simpl in Hnd, Hid. fold (connects net) in Hnd, Hid.
      apply NoDup_cons in Hnd as [Hj Hnd]. apply elem_of_cons in Hid as [->|Hid].
      + exists [], net. split_and!; [done|apply not_elem_of_nil|done].
      + destruct IH as (l1 & l2 & -> & H1 & H2); [done..|]. exists (Connected j :: l1), l2. split_and!; [done| |done].
        apply not_elem_of_cons. split; [|done]. intros ->. apply Hj. unfold connects. rewrite omap_app. set_solver.
    - destruct IH as (l1 & l2 & -> & H1 & H2); [done..|]. by exists (Delivered j m :: l1), l2. }
  unfold phase_of in Hp. rewrite foldl_app in Hp. fold (phase_of id l1) in Hp.
  assert (is_Some (phase_of id l1)) as Hs.
  { destruct (phase_of id l1) as [p1|]; [done|]. exfalso. clear -Hp. simpl in Hp.
    induction l2 as [|e l2 IH]; [done|]. by apply IH. }
  destruct (not_connected id l1 H1 Hs) as [_ He].
  assert (Hf : ∀ k, sessions_from id [] (l1 ++ k) = sessions_from id [] k).
  { intros k. clear -H1 He. induction l1 as [|[j|j m] l1 IH]; [done|..]; simpl in *.
    - apply not_elem_of_cons in H1 as [Hj H1]. rewrite decide_False by congruence. by apply IH.
    - case_decide; [done|by apply IH]. }
  unfold session_msgs. rewrite foldl_app. simpl. rewrite decide_True by done.
  split; [|rewrite omap_app, He; simpl].
  - unfold sessions_of. rewrite Hf. simpl. rewrite decide_True by done. simpl. by apply sessions_from_none.
  - pose proof (sessions_join id [] l2) as Hj. rewrite sessions_from_none in Hj by done. simpl in Hj.
    by rewrite app_nil_r in Hj.
Qed.

(** All rates go to the secondaries that were connected. *)
Lemma receivers_exact (ids : list string) net :
  NoDup ids → (∀ id, is_Some (phase_of id net)) → (∀ id, id ∈ connects net → id ∈ ids) →
  sumZ (map (λ id, msgs_qps (omap (event_to id) net)) ids) = delivered_qps net.
Proof.
  intros Hnd Hph Hids.
  assert (Hall : ∀ j m, Delivered j m ∈ net → j ∈ ids).
  { intros j m Hj. destruct (Hph j) as [p Hp]. eapply Hids, phase_connected; done. }
  clear Hph Hids. induction net as [|e net IH].
  { clear. change (delivered_qps []) with 0. induction ids as [|id ids IH]; [done|].
    cbn [map]. rewrite sumZ_cons, IH. done. }
  specialize (IH ltac:(intros j m H; apply (Hall j m); by right)).
  unfold delivered_qps. rewrite fmap_cons, sumZ_cons. fold (delivered_qps net). rewrite <- IH.
  destruct e as [j|j m]; cbn [event_qps]; [done|].
  transitivity (sumZ (map (λ id, if decide (j = id) then msg_qps m else 0) ids) +
                sumZ (map (λ id, msgs_qps (omap (event_to id) net)) ids)).
  - clear. induction ids as [|id ids IH]; [done|]. cbn [map]. rewrite !sumZ_cons, delivered_to_qps. lia.
  - f_equal. specialize (Hall j m (list_elem_of_here _ _)). clear -Hnd Hall.
    induction Hnd as [|id ids Hid Hnd IH]; [by apply elem_of_nil in Hall|]. cbn [map]. rewrite sumZ_cons.
    destruct (decide (j = id)) as [->|Hj].
    + assert (E : ∀ l, id ∉ l → sumZ (map (λ id0, if decide (id = id0) then msg_qps m else 0) l) = 0).
      { clear. induction l as [|x l IH]; intros Hl; [done|]. apply not_elem_of_cons in Hl as [Hx Hl].
        cbn [map]. rewrite sumZ_cons, IH by done. by rewrite decide_False. }
      rewrite E by done. lia.
    + rewrite IH; [lia|]. by apply elem_of_cons in Hall as [->|].
Qed.

End Logs.

(** ** A network without failures *)

Section Network.
  Context {Compiled Hir AST Conn : Type}.

Local Abbreviation Req := (Request Compiled Hir AST Conn).
Local Abbreviation Msg := (MessageFromPrimary Compiled Hir AST Conn).
Local Abbreviation Log := (list (event Compiled Hir AST Conn)).

  Context (send_ok : Log → string → Msg → bool).
  Context (connect_ok : Log → string → Z → bool).
  Context (iter : Log → gset string → list string).
  Context (get_one : list (event Compiled Hir AST Conn) → SplitRequestFile Conn → result string (list HttpReq) * SplitRequestFile Conn).
  Context (port_name : string).
  Context (send_all : ∀ net id m, send_ok net id m = true) (iter_perm : ∀ net s, iter net s ≡ₚ elements s).

(** Each sender was connected once, and [total] requests were asked for. *)
Record ledger (total : Z) (senders : gset string) (net : Log) : Prop := {
  ld_once : connects net ≡ₚ elements senders;
  ld_total : delivered_qps net = total
}.

Lemma ledger_send total s l net :
  ledger total s net → ledger (total + sumZ (entry_qps <$> l)) s (snd (send_each send_ok l net)).
Proof.
  intros [H1 H2]. rewrite send_each_all by done. simpl. split.
  - unfold connects. rewrite omap_app. replace (omap _ (_ <$> l)) with (@nil string); [by rewrite app_nil_r|].
    clear. by induction l as [|[id m] l IH].
  - unfold delivered_qps in *. rewrite fmap_app, sumZ_app, H2. f_equal. clear. induction l as [|[id m] l IH]; [done|].
    rewrite !fmap_cons, !sumZ_cons. f_equal. exact IH.
Qed.

Lemma ledger_silent total s l net :
  ledger total s net → Forall (λ im, no_rate im.2) l → ledger total s (snd (send_each send_ok l net)).
Proof.
  intros Hd Hl. apply (ledger_send _ _ l) in Hd. replace (sumZ (entry_qps <$> l)) with 0 in Hd; [by rewrite Z.add_0_r in Hd|].
  clear Hd. induction Hl as [|[id m] l Hm Hl IH]; [done|]. rewrite fmap_cons, sumZ_cons, <- IH. by destruct m.
Qed.

Lemma ledger_connect total s id net : id ∉ s → ledger total s net → ledger total ({[ id ]} ∪ s) (net ++ [Connected id]).
Proof.
  intros Hid [H1 H2]. split; [|rewrite delivered_snoc; simpl; lia].
  unfold connects. rewrite omap_app. simpl. fold (connects net). rewrite H1, elements_union_singleton by done.
  by rewrite Permutation_app_comm.
Qed.

(** A rate message is delivered in full. *)
Lemma rates_ledger total senders q c net res net' :
  senders ≠ ∅ → Z.of_nat (size senders) <= u32_MAX → 0 <= q <= u32_MAX → 0 <= c <= u32_MAX → ledger total senders net →
  send_rate_message_to_secondaries send_ok iter senders q c net = Val (res, net') →
  ledger (total + q) senders net' ∧ res = Ok tt.
Proof.
  intros Hne Hsz Hq Hc Hd. unfold send_rate_message_to_secondaries.
  assert (0 < Z.of_nat (size senders)).
  { assert (size senders ≠ 0%nat); [|lia]. by intros Hs%size_empty_iff%leibniz_equiv. }
  destruct (calculate_req_shares q c (Z.of_nat (size senders))) as (qs & cs & -> & Lq & Lc & Sq & Sc & _); [lia..|].
  cbn [mbind outcome_bind].
  match goal with |- context [send_each send_ok ?l net] => set (msgs := l) end.
  assert (E : sumZ (entry_qps <$> msgs) = q).
  { rewrite <- Sq. assert (Hl : length (iter net senders) = length qs).
    { rewrite (Permutation_length (iter_perm net senders)). unfold len in Lq. unfold size, set_size in *. simpl in *. lia. }
    assert (length qs = length cs) as Hqc by (unfold len in *; lia). unfold msgs. clear -Hl Hqc. revert Hl Hqc.
    generalize (iter net senders) as ids. intros ids. revert qs cs.
    induction ids as [|id ids IH]; intros [|x qs] [|y cs] Hl Hqc; try done. cbn [zip zip_with].
    rewrite fmap_cons, !sumZ_cons. simpl in Hl, Hqc. f_equal. apply IH; lia. }
  pose proof (ledger_send total senders msgs net Hd) as Hs. rewrite E in Hs.
  rewrite send_each_all in * by done. intros [= <- <-]. by split.
Qed.

  Context (U : gset string) (HU : Z.of_nat (size U) <= u32_MAX).

Lemma loop_ledger host r ticks st st' total :
  ledger total (p_senders st) (p_net st) → p_senders st ≠ ∅ → p_senders st ⊆ U → Forall (tick_ok U) ticks →
  Forall (λ t, t_stopped t = false) ticks →
  primary_loop send_ok connect_ok iter get_one port_name host r ticks st = Val st' →
  ledger (total + sumZ (map (λ t, fst (t_rates t)) ticks)) (p_senders st') (p_net st') ∧ p_senders st' ⊆ U.
Proof.
  revert st total. induction ticks as [|t ticks IH]; intros st total Hd Hne Hsub Ht Hst; cbn [primary_loop map].
  { intros [= <-]. by rewrite Z.add_0_r. }
  apply Forall_cons_1 in Ht as [Ht Hts]. apply Forall_cons_1 in Hst as [Hs Hst]. pose proof Ht as (Hq & Hc & Hin).
  unfold must_stop. rewrite Hs, andb_false_r, sumZ_cons. unfold primary_tick.
  destruct (refresh_senders _ _ _ _ _ _ _ _ _) as [st1|] eqn:Er; simpl; [|done].
  assert (p_senders st1 ⊆ U) as Hsub1 by (eapply refresh_senders_in; [exact HU|exact Hin|exact Hsub|exact Er]).
  eapply (refresh_inv _ _ _ _ _ (ledger total)) in Er as [Hd1 Hmore]; [|intros; by apply ledger_silent|intros; by apply ledger_connect|done].
  rewrite decide_False by set_solver.
  destruct (send_rate_message_to_secondaries _ _ _ _ _ _) as [[res n1]|] eqn:Es; simpl; [|done].
  apply (rates_ledger total) in Es as [Hd2 ->]; [|set_solver|pose proof (subseteq_size _ _ Hsub1); lia|done..].
  intros Hl. rewrite Z.add_assoc. eapply IH; [..|exact Hl]; simpl; try done. set_solver.
Qed.

Lemma end_ledger total s ids net :
  ledger total s net → ledger total s (foldl (λ net id, send_end_msg send_ok id false net) net ids).
Proof.
  revert net. induction ids as [|id ids IH]; intros net Hd; simpl; [done|]. apply IH.
  apply (ledger_silent total s [(id, MFinished)]) in Hd; [|by repeat constructor].
  unfold send_end_msg. simpl in Hd. unfold send in *. rewrite send_all in *. done.
Qed.

End Network.

(** ** Sessions *)

Section Sessions.
  Context {Compiled Hir AST Conn Rng Reg : Type} `{!PromRegistry Reg}.
  Context `{!RequestProvider Rng (RequestSpecEnum Hir AST Conn)}.
  Context (fuel : nat) (env : string → option string).
  Context (create_ok : string → bool) (fetch_ok : string → string → bool) (repoll : outcome unit).
  Context (I : RequestSpecEnum Hir AST Conn → Prop) `{!ProviderServes (Rng := Rng) fuel I} (d : Z) (Hd : 0 <= d).

Local Abbreviation Req := (Request Compiled Hir AST Conn).
Local Abbreviation Msg := (MessageFromPrimary Compiled Hir AST Conn).
Local Abbreviation Ctx := (ExecutionContext Rng (RequestSpecEnum Hir AST Conn)).
Local Abbreviation Results := (list (CycleResult Rng (RequestSpecEnum Hir AST Conn))).

(** A rate message that asks for nothing, or whose second, in the mode of the job, is
    healthy in its first iterations; [ctx] is the state before it. *)
Record rate_healthy (mode : LoadGenerationMode) (rate : RateMessage) (e : RateEnv) (ctx : Ctx) : Prop := {
  rh_rate : rate_ok rate;
  rh_fuel : rm_qps rate <= Z.of_nat fuel;
  rh_turns : Forall turn_ok (re_turns e);
  rh_setup : Z.of_N (re_setup e) < 1001 * 1000000;
  rh_second : rm_qps rate = 0 ∨ ∃ n, let now := re_now e + Z.of_N (re_setup e) in
    let sys := apply_connections (prev_connection_count ctx) (rm_connections rate) now (ctx_sys ctx) in
    match mode with
    | Immediate =>
        second_healthy fuel d (rm_qps rate) (re_now e) now (take n (re_turns e)) sys (request_spec ctx) (ctx_rng ctx)
    | Batch _ =>
        batch_healthy fuel d env (rm_qps rate) (rm_connections rate) (re_now e) now (take n (re_turns e)) sys
          (request_spec ctx) (ctx_rng ctx)
    end
}.

(** What a context keeps from one healthy second to the next. *)
Record ctx_healthy (ctx : Ctx) : Prop := {
  ch_offset : time_offset ctx <= 0;
  ch_spec : I (request_spec ctx);
  ch_pool : pool_sound (ctx_sys ctx)
}.

Lemma elapsed_in_time start now : now - start < 1001 * 1000000 → elapsed_ms start now - CYCLE_LENGTH_IN_MILLIS <= 0.
Proof.
  intros H. unfold elapsed_ms, CYCLE_LENGTH_IN_MILLIS.
  assert (Z.max 0 (now - start) / 1000000 < 1001); [|lia]. apply Z.div_lt_upper_bound; lia.
Qed.

(** A second of either mode sends its rate, and ends in time. *)
Lemma second_served mode rate start now turns n sys spec (g : Rng) :
  0 <= now - start < 1001 * 1000000 → Cycle.rate_ok rate → rm_qps rate <= Z.of_nat fuel → I spec → pool_sound sys →
  rm_qps rate = 0 ∨
    match mode with
    | Immediate => second_healthy fuel d (rm_qps rate) start now (take n turns) sys spec g
    | Batch _ => batch_healthy fuel d env (rm_qps rate) (rm_connections rate) start now (take n turns) sys spec g
    end →
  ∃ r, match mode with
       | Immediate => send_n_request_in_t_duration fuel rate Immediate start now turns sys spec g
       | Batch _ => send_multiple_requests fuel env (rm_qps rate) (rm_connections rate) start now turns sys spec g
       end = Some (Val r) ∧
    sent_count (cr_sent r) = rm_qps rate ∧ cr_clock r - start < 1001 * 1000000 ∧ I (cr_spec r).
Proof.
  intros Hnow [Hq Hc] Hf Hi (host & ka & el & Hka & Hreach) Hsec. pose proof (pool_reachable_inv _ _ _ _ Hka Hreach) as Hp.
  destruct (Z.eqb_spec (rm_qps rate) 0) as [E|Hne].
  { exists (nothing_sent now sys spec g). unfold send_n_request_in_t_duration, send_multiple_requests. rewrite E. simpl.
    split_and!; [|done|lia|done]. destruct mode; [done|]. by destruct (time_remaining _ _ <? 10). }
  destruct Hsec as [?|Hsec]; [done|]. rewrite <- (take_drop n turns). destruct mode.
  - destruct (batch_sends_all fuel I d ka env (rm_qps rate) (rm_connections rate) start now (take n turns) (drop n turns)
      sys spec g) as (r & H1 & _ & H2 & H3 & _ & H4); try done; [lia|]. by exists r.
  - destruct (second_sends_all fuel I d ka rate start now (take n turns) (drop n turns) sys spec g)
      as (r & H1 & _ & H2 & H3 & _ & H4); try done; [lia|].
    exists r. destruct Hsec as [_ _ _ Hend _]. split_and!; done || lia.
Qed.

Lemma rate_served mode rate e ctx :
  ctx_healthy ctx → rate_healthy mode rate e ctx →
  ∃ ctx' r, rate_handler fuel env mode rate e ctx = Some (Val (ctx', r)) ∧
    sent_count (cr_sent r) = rm_qps rate ∧ ctx_healthy ctx'.
Proof.
  intros [Ho Hi Hp] [Hr Hf Hts Hset Hsec].
  set (now := re_now e + Z.of_N (re_setup e)) in *.
  set (sys := apply_connections (prev_connection_count ctx) (rm_connections rate) now (ctx_sys ctx)) in *.
  assert (pool_sound sys) as Hps by (eapply pool_sound_steps; [exact Hp|by apply apply_connections_steps, Hr]).
  assert (∃ n, rm_qps rate = 0 ∨
    match mode with
    | Immediate => second_healthy fuel d (rm_qps rate) (re_now e) now (take n (re_turns e)) sys (request_spec ctx) (ctx_rng ctx)
    | Batch _ => batch_healthy fuel d env (rm_qps rate) (rm_connections rate) (re_now e) now (take n (re_turns e)) sys
                   (request_spec ctx) (ctx_rng ctx)
    end) as [n Hn] by (destruct Hsec as [E|[n Hn]]; [exists 0%nat; by left|exists n; by right]).
  destruct (second_served mode rate (re_now e) now (re_turns e) n sys (request_spec ctx) (ctx_rng ctx))
    as (r & Hrun & Hsent & Hclock & Hi'); try done; [unfold now; lia|].
  assert (Hh : rate_handler fuel env mode rate e ctx =
    Some (Val (end_of_cycle (re_now e) (rm_connections rate) r, r))).
  { destruct mode; simpl; unfold handle_rate_msg_v2, handle_rate_msg, corrected_with_offset;
      (destruct (Z.ltb_spec 0 (time_offset ctx)); [lia|]); fold now; fold sys; by rewrite Hrun. }
  eexists _, r. split; [exact Hh|]. split; [done|]. apply rate_handler_steps in Hh as [Hs _]; [|done..].
  split; simpl; [by apply elapsed_in_time|done|exact (pool_sound_steps _ _ Hp Hs)].
Qed.

(** A message loop without failures, all of whose rate messages are healthy in the state in
    which they arrive. *)
Fixpoint healthy_loop (mode : LoadGenerationMode) (uri : string) (inbox : list (recv Msg)) (st : SessionState Hir AST Conn Rng) : Prop :=
  match inbox with
  | [] => True
  | RTimeout :: inbox => healthy_loop mode uri inbox st
  | RErr :: _ | RClosed :: _ => False
  | RMsg m e :: inbox =>
      match m with
      | MMetadata _ => healthy_loop mode uri inbox st
      | MReset =>
          healthy_loop mode uri inbox
            {| ss_ctx := ss_ctx st; ss_reset := true; ss_files := ss_files st; ss_results := ss_results st |}
      | MStop | MFinished => True
      | MRequest r => I (req r) ∧ ∃ files, prepare create_ok fetch_ok r uri (ss_files st) = Val (Ok tt, files) ∧
          healthy_loop mode uri inbox
            {| ss_ctx := with_spec (req r) (ss_ctx st); ss_reset := false; ss_files := files; ss_results := ss_results st |}
      | MRates rate => rate_healthy mode rate e (ss_ctx st) ∧ ∀ ctx res,
          rate_handler fuel env mode rate e (ss_ctx st) = Some (Val (ctx, res)) →
          healthy_loop mode uri inbox
            {| ss_ctx := ctx; ss_reset := ss_reset st; ss_files := ss_files st; ss_results := ss_results st ++ [res] |}
      end
  end.

(** What each second sent, and what the rate messages ask for. *)
Definition sent_each (l : Results) : list Z := map (λ r, sent_count (cr_sent r)) l.

Definition msg_rates (msgs : list Msg) : list Z :=
  omap (λ m, match m with MRates rate => Some (rm_qps rate) | _ => None end) msgs.

Lemma sent_each_snoc (l : Results) r : sent_each (l ++ [r]) = sent_each l ++ [sent_count (cr_sent r)].
Proof. unfold sent_each. by rewrite map_app. Qed.

Lemma msg_rates_sum msgs : sumZ (msg_rates msgs) = msgs_qps msgs.
Proof.
  induction msgs as [|m msgs IH]; [done|]. change (msgs_qps (m :: msgs)) with (msg_qps m + msgs_qps msgs). rewrite <- IH.
  by destruct m.
Qed.

Lemma healthy_loop_sends mode uri inbox st rest m :
  inbox_msgs inbox = rest ++ [m] → Forall running_msg rest → end_msg m → ctx_healthy (ss_ctx st) →
  healthy_loop mode uri inbox st →
  ∃ exit st', message_loop fuel env create_ok fetch_ok mode uri inbox st = Some (Val (exit, st')) ∧
    sent_each (ss_results st') = sent_each (ss_results st) ++ msg_rates (rest ++ [m]).
Proof.
  intros Hm Hr He. revert rest Hr Hm st. induction inbox as [|x inbox IH]; intros rest Hr Hm st Hc Hh.
  { by destruct rest. }
  destruct x as [| | |y e]; [by apply IH|done|done|]. cbn [inbox_msgs omap list_omap] in Hm. fold (inbox_msgs inbox) in Hm.
  destruct rest as [|x rest]; simpl in Hm; injection Hm as -> Hm.
  { destruct m; try done; cbn [message_loop]; (do 2 eexists; split; [done|by rewrite app_nil_r]). }
  apply Forall_cons_1 in Hr as [Hx Hr]. cbn [message_loop app].
  destruct x as [|r|rate| | |]; try done; cbn [healthy_loop] in *.
  - destruct Hh as (Hi & files & -> & Hh). refine (IH rest Hr Hm _ _ Hh).
    destruct Hc. by split.
  - destruct Hh as [Hh Hnext]. destruct (rate_served mode rate e (ss_ctx st) Hc Hh) as (ctx & res & Hrun & Hsent & Hc').
    rewrite Hrun. cbn [mbind option_bind].
    pose proof (Hnext ctx res Hrun) as Hl.
    match type of Hl with healthy_loop _ _ _ ?st1 => destruct (IH rest Hr Hm st1 Hc' Hl) as (exit & st' & -> & Hsum) end.
    cbn [ss_results] in Hsum.
    exists exit, st'. split; [done|]. rewrite Hsum, sent_each_snoc, <- app_assoc, Hsent. done.
  - by match type of Hh with healthy_loop _ _ _ ?st1 => exact (IH rest Hr Hm st1 Hc Hh) end.
Qed.

(** A session: what it receives, what the other sessions do meanwhile, and the secondary as
    it finds it. *)
Record SessionRun := {
  sr_inbox : list (recv Msg);
  sr_meanwhile : Secondary Reg → Secondary Reg;
  sr_others : Secondary Reg → Secondary Reg;
  sr_uuid : string;
  sr_now : Z;
  sr_rng : Rng;
  sr_before : Secondary Reg
}.

Definition run_session (x : SessionRun) :
    option (outcome (result string (session_exit * Results) * Secondary Reg)) :=
  handle_connection_from_primary fuel env create_ok fetch_ok repoll (sr_meanwhile x) (sr_others x) (sr_uuid x)
    (sr_now x) (sr_rng x) (sr_inbox x) (sr_before x).

Definition session_results (x : SessionRun) : Results :=
  match run_session x with Some (Val (Ok (_, results), _)) => results | _ => [] end.

(** It receives all messages [msgs], gets a pool, and its message loop is healthy. *)
Definition session_healthy (msgs : list Msg) (x : SessionRun) : Prop :=
  inbox_msgs (sr_inbox x) = msgs ∧ pools_ok (sr_before x) ∧ (∀ s, pools_ok s → pools_ok (sr_meanwhile x s)) ∧
  ∃ md r rest se s1, handshake (sr_inbox x) = Some (Ok (md, r), rest) ∧
    session_begin create_ok fetch_ok repoll (sr_meanwhile x) (sr_uuid x) (sr_now x) (sr_rng x) md r (sr_before x) =
      Val (Ok se, s1) ∧
    1 <= ka_max_request_per_connection (connection_keep_alive r) ∧ I (req r) ∧
    healthy_loop (generation_mode r) (se_primary se) rest (se_state se).

Lemma handshake_msgs (inbox rest : list (recv Msg)) md r :
  handshake inbox = Some (Ok (md, r), rest) →
  inbox_msgs inbox = MMetadata md :: MRequest r :: inbox_msgs rest ∨
  inbox_msgs inbox = MMetadata md :: MReset :: MRequest r :: inbox_msgs rest.
Proof.
  unfold handshake, check_for_metadata_msg, check_for_request_msg. destruct inbox as [|[| | |[] e1] inbox]; try done. simpl.
  destruct inbox as [|[| | |[] e2] inbox]; try done; simpl.
  - intros [= <- <- <-]. by left.
  - destruct inbox as [|[| | |[] e3] inbox]; try done; simpl. intros [= <- <- <-]. by right.
Qed.

Lemma session_sends msgs x :
  phase_msgs PDone msgs → session_healthy msgs x →
  (∃ exit s', run_session x = Some (Val (Ok (exit, session_results x), s'))) ∧ sent_each (session_results x) = msg_rates msgs.
Proof.
  intros (rest0 & m & Ho & Hr & Hm) (Hin & Hp0 & Hmw & md & r & rest & se & s1 & Hh & Hb & Hka & Hi & Hl).
  assert (E : inbox_msgs rest = rest0 ++ [m] ∧ msg_rates msgs = msg_rates (rest0 ++ [m])).
  { subst msgs. destruct Ho as (md' & r' & Ho). apply handshake_msgs in Hh as [Hh|Hh]; rewrite Hh in Ho |- *;
      destruct Ho as [Ho|Ho]; try done; injection Ho as -> -> ->; done. }
  destruct E as [Er ->].
  assert (Hse : se_mode se = generation_mode r ∧ ctx_healthy (ss_ctx (se_state se)) ∧ ss_results (se_state se) = []).
  { unfold session_begin in Hb. destruct (session_job_id _ r) as [job|]; [|done]. simpl in Hb.
    destruct (metrics_with_buckets _ _ _) as [[mt f]|]; [|done]. simpl in Hb.
    destruct (prepare _ _ r _ _) as [[[] files]|]; simpl in Hb; [|done..].
    destruct (init_connection_pool _ _ _ _ _ _ _ _) as [[[[pool tx]|] s2]|] eqn:Ei; simpl in Hb; [|done..].
    apply init_connection_pool_ok in Ei as [Hpool _]; [|done..]. injection Hb as <- <-. by split_and!. }
  destruct Hse as (Emode & Hc & Eres).
  destruct (healthy_loop_sends (generation_mode r) (se_primary se) rest (se_state se) rest0 m) as (exit & st' & Hrun & Hsum); try done.
  rewrite Eres in Hsum.
  assert (Hall : ∃ s', run_session x = Some (Val (Ok (exit, ss_results st'), s'))).
  { unfold run_session, handle_connection_from_primary. rewrite Hh. cbn [mbind option_bind]. rewrite Hb.
    unfold session_finish. rewrite Emode, Hrun. by eexists. }
  destruct Hall as [s' Hall]. unfold session_results. rewrite Hall. split; [by eexists _, _|done].
Qed.

Lemma session_total msgs x :
  phase_msgs PDone msgs → session_healthy msgs x → total_sent (session_results x) = msgs_qps msgs.
Proof. intros Hp Hx. destruct (session_sends msgs x Hp Hx) as [_ He]. by rewrite <- msg_rates_sum, <- He. Qed.

End Sessions.

(** ** Jobs *)

Section Jobs.
  Context {Compiled Hir AST Conn : Type}.

Local Abbreviation Req := (Request Compiled Hir AST Conn).
Local Abbreviation Msg := (MessageFromPrimary Compiled Hir AST Conn).
Local Abbreviation Log := (list (event Compiled Hir AST Conn)).

  Context (send_ok : Log → string → Msg → bool).
  Context (connect_ok : Log → string → Z → bool).
  Context (iter : Log → gset string → list string).
  Context (get_one : list (event Compiled Hir AST Conn) → SplitRequestFile Conn → result string (list HttpReq) * SplitRequestFile Conn).
  Context (port_name : string).
  Context (send_all : ∀ net id m, send_ok net id m = true) (iter_perm : ∀ net s, iter net s ≡ₚ elements s).
  Context (connect_all : ∀ net h p, connect_ok net h p = true).
  Context (U : gset string) (HU : Z.of_nat (size U) <= u32_MAX).

(** A log in which every secondary had one complete session, and all rates were delivered to
    secondaries of [U]. *)
Record complete (total : Z) (net : Log) : Prop := {
  cp_once : NoDup (connects net);
  cp_known : ∀ id, id ∈ connects net → id ∈ U;
  cp_phases : ∀ id, is_Some (phase_of id net);
  cp_done : ∀ id, id ∈ connects net → phase_of id net = Some PDone;
  cp_total : delivered_qps net = total
}.

Lemma never_broken net id : ¬ broken send_ok net id.
Proof. intros Hb. specialize (Hb [] MStop). rewrite send_all in Hb. by discriminate Hb; set_solver. Qed.

Lemma always_closed net id m : True → send_ok net id m = false → broken send_ok net id.
Proof. by rewrite send_all. Qed.

Lemma always_sendable (m : Msg) : match m with MRequest _ => False | _ => True end → True.
Proof. done. Qed.

Lemma readable_ready r : file_readable get_one r → request_ready get_one (λ _, True) r.
Proof. by split. Qed.

Lemma expects_phase net F id : expects send_ok net F → phase_of id net = Some (F id).
Proof. intros He. destruct (He id) as (p & -> & [->|Hb]); [done|by apply never_broken in Hb]. Qed.

Lemma create_nonempty nodes senders net news senders' net' :
  (senders ≠ ∅ ∨ ∃ n, n ∈ nodes ∧ is_Some (secondary_address port_name n)) →
  create_senders_loop connect_ok port_name nodes senders net = Val (news, senders', net') → senders' ≠ ∅.
Proof.
  revert senders net news. induction nodes as [|n nodes IH]; intros senders net news Hn; simpl.
  { intros [= <- <- <-]. destruct Hn as [Hn|(n & Hn & _)]; [done|by apply elem_of_nil in Hn]. }
  destruct (instance_id n) as [id|]; simpl; [|done]. case_decide; [apply IH; left; set_solver|].
  unfold get_sender_for_secondary. destruct (secondary_address port_name n) as [[h p]|] eqn:Ea.
  - rewrite connect_all. destruct (create_senders_loop _ _ _ _ _) as [[[news1 s1] n1]|] eqn:E; simpl; [|done].
    intros [= <- <- <-]. apply IH in E; [done|]. left. set_solver.
  - apply IH. destruct Hn as [Hn|(x & Hx & Hs)]; [by left|right]. apply elem_of_cons in Hx as [->|Hx]; [|eauto].
    rewrite Ea in Hs. by destruct Hs.
Qed.

Lemma ledger_complete total senders net G :
  ledger total senders net → senders ⊆ U → expects send_ok net G → (∀ id, id ∈ senders → G id = PDone) → complete total net.
Proof.
  intros [H1 H2] Hsub He Hdone.
  assert (Hin : ∀ id, id ∈ connects net ↔ id ∈ senders) by (intros id; by rewrite H1, elem_of_elements).
  split; [rewrite H1; apply NoDup_elements|intros id ?%Hin; set_solver| | |done].
  - intros id. rewrite (expects_phase net G id He). by eexists.
  - intros id ?%Hin. rewrite (expects_phase net G id He). f_equal. by apply Hdone.
Qed.

Lemma cluster_complete host nodes r ticks statuses net :
  file_readable get_one r → nodes_in U (Some nodes) → (∃ n, n ∈ nodes ∧ is_Some (secondary_address port_name n)) →
  Forall (tick_ok U) ticks → Forall (λ t, t_stopped t = false) ticks →
  primary_handle_request send_ok connect_ok iter get_one port_name host (Some nodes) r ticks [] = Val (statuses, net) →
  complete (sumZ (map (λ t, fst (t_rates t)) ticks)) net.
Proof.
  intros Hf Hin Hn Ht Hst Hj.
  apply (job_expects send_ok connect_ok iter get_one port_name (λ _, True) always_closed iter_perm always_sendable) in Hj
    as (senders & n1 & st & G & Ei & El & -> & HG & Hdone); [|by apply readable_ready].
  assert (senders ⊆ U) by (eapply init_senders_in; [exact HU|exact Hin|exact Ei]).
  assert (senders ≠ ∅).
  { unfold init_senders in Ei. simpl in Ei. destruct (create_senders_loop _ _ _ _ _) as [[[news s1] n2]|] eqn:Ec; simpl in Ei; [|done].
    apply create_nonempty in Ec; [|by right]. destruct (send_metadata _ _ _ _ _ _); simpl in Ei; [|done].
    destruct (send_request_to_secondary _ _ _ _ _ _ _) as [[]|]; simpl in Ei; [|done]. by injection Ei as <- <-. }
  eapply (init_inv _ _ _ _ _ (ledger 0)) in Ei; [|intros; by apply ledger_silent|intros; by apply ledger_connect|by split].
  eapply (loop_ledger _ _ _ _ _ send_all iter_perm U HU _ _ _ _ _ 0) in El as [Hd Hsub]; [|done..].
  rewrite Z.add_0_l in Hd. eapply ledger_complete; [|done..]. by apply end_ledger.
Qed.

Lemma standalone_loop_complete ticks counter net total F :
  Forall (λ t, t_stopped t = false) ticks → ledger total {[ "localhost"%string ]} net → expects send_ok net F →
  F "localhost"%string = PRunning →
  ledger (total + sumZ (map (λ t, fst (t_rates t)) ticks)) {[ "localhost"%string ]} (standalone_loop send_ok ticks counter net) ∧
  expects send_ok (standalone_loop send_ok ticks counter net) F.
Proof.
  intros Hst. revert counter net total. induction Hst as [|t ticks Hs Hst IH]; intros counter net total Hd He HF.
  { simpl. by rewrite Z.add_0_r. }
  cbn [standalone_loop map]. rewrite Hs, andb_false_r, sumZ_cons, Z.add_assoc.
  set (m := MRates {| rm_qps := fst (t_rates t); rm_connections := snd (t_rates t) |}).
  apply (ledger_send send_ok send_all _ _ [("localhost"%string, m)]) in Hd.
  pose proof (send_expects send_ok connect_ok iter get_one (λ _, True) always_closed iter_perm net F F "localhost" m Logic.I He) as Hx. rewrite HF in Hx.
  specialize (Hx eq_refl (λ _ _, eq_refl)). cbn [send_each] in Hd. destruct (send send_ok _ m net) as [ok n1].
  apply IH; [|done..]. simpl in Hd. by rewrite Z.add_0_r in Hd.
Qed.

Lemma standalone_complete port r ticks statuses net :
  "localhost"%string ∈ U → file_readable get_one r → Forall (λ t, t_stopped t = false) ticks →
  standalone_handle_request send_ok connect_ok iter get_one port r ticks [] = Val (statuses, net) →
  complete (sumZ (map (λ t, fst (t_rates t)) ticks)) net.
Proof.
  intros HinU Hf Hst. unfold standalone_handle_request. destruct (name r) as [nm|]; simpl; [|done]. rewrite connect_all.
  set (s := {[ "localhost"%string ]} : gset string). set (n0 := [Connected "localhost"] : Log).
  assert (Hd0 : ledger 0 s n0) by (split; [by unfold s; rewrite elements_singleton|done]).
  assert (He0 : expects send_ok n0 (λ j, if decide (j = "localhost"%string) then PConnected else PIdle)).
  { apply (connected_expects send_ok [] (λ _, PIdle)). intros j. exists PIdle. by split; [|left]. }
  set (n1 := send_metadata_with_primary _ _ _ _ _ _).
  assert (E1 : send_metadata send_ok iter (Some "127.0.0.1"%string) s ["localhost"%string] n0 = Val n1) by done.
  pose proof (metadata_inv send_ok iter (ledger 0) ltac:(intros; by apply ledger_silent) _ s _ _ _ _ Hd0 E1) as Hd1.
  eapply (metadata_expects send_ok connect_ok iter get_one (λ _, True) always_closed iter_perm always_sendable) in E1 as He1; [|exact He0|].
  2: { intros id ->%list_elem_of_singleton. split; [set_solver|by rewrite decide_True]. }
  destruct (send_request_to_secondary _ _ _ _ _ _ _) as [[res n2]|] eqn:Er; simpl; [|done]. intros [= _ <-].
  pose proof (request_inv send_ok iter get_one (ledger 0) ltac:(intros; by apply ledger_silent) s _ _ _ _ _ _ Hd1 Er) as Hd2.
  eapply (request_running send_ok connect_ok iter get_one (λ _, True) always_closed iter_perm always_sendable) in Er
    as (F & HF & Hrun); [|by apply readable_ready|exact He1|set_solver|].
  2: { intros id ->%elem_of_singleton. by rewrite decide_True by set_solver. }
  destruct (standalone_loop_complete ticks 0 n2 0 F) as [Hd3 He3]; [done..|apply Hrun; set_solver|]. rewrite Z.add_0_l in Hd3.
  set (n3 := standalone_loop _ _ _ _) in *.
  pose proof (finish_expects send_ok connect_ok iter get_one port_name (λ _, True) always_closed iter_perm always_sendable ["localhost"%string] n3 F (NoDup_singleton _) He3) as (G & HG & Hdone & _).
  { intros id ->%list_elem_of_singleton. apply Hrun. set_solver. }
  apply (ledger_complete _ s _ G); [|set_solver|exact HG|intros id ->%elem_of_singleton; apply Hdone; set_solver].
  exact (end_ledger send_ok send_all _ s ["localhost"%string] n3 Hd3).
Qed.

(** A job of the executor on a cluster or on a single process, never stopped. *)
Inductive job_in_full (r : Req) (ticks : list Tick) (net : Log) : Prop :=
| cluster_in_full host nodes statuses :
    nodes_in U (Some nodes) → (∃ n, n ∈ nodes ∧ is_Some (secondary_address port_name n)) →
    primary_handle_request send_ok connect_ok iter get_one port_name host (Some nodes) r ticks [] = Val (statuses, net) →
    job_in_full r ticks net
| standalone_in_full port statuses :
    "localhost"%string ∈ U →
    standalone_handle_request send_ok connect_ok iter get_one port r ticks [] = Val (statuses, net) →
    job_in_full r ticks net.

Lemma job_complete r ticks net :
  file_readable get_one r → Forall (tick_ok U) ticks → Forall (λ t, t_stopped t = false) ticks → job_in_full r ticks net →
  complete (sumZ (map (λ t, fst (t_rates t)) ticks)) net.
Proof.
  intros Hf Ht Hst [host nodes st Hin Hn Hj|port st Hin Hj]; [by eapply cluster_complete|by eapply standalone_complete].
Qed.

End Jobs.

Section Whole.
  Context {Compiled Hir AST Conn Rng Reg : Type} `{!PromRegistry Reg}.
  Context `{!RequestProvider Rng (RequestSpecEnum Hir AST Conn)}.

Local Abbreviation Log := (list (event Compiled Hir AST Conn)).

  Context (fuel : nat) (env : string → option string).
  Context (create_ok : string → bool) (fetch_ok : string → string → bool) (repoll : outcome unit).
  Context (I : RequestSpecEnum Hir AST Conn → Prop) `{!ProviderServes (Rng := Rng) fuel I} (d : Z) (Hd : 0 <= d).
  Context (U : gset string).

Local Abbreviation Run := (SessionRun (Compiled := Compiled) (Hir := Hir) (AST := AST) (Conn := Conn) (Rng := Rng) (Reg := Reg)).

(** The session [x] comes to its end, with these cycles. *)
Definition session_returns (x : Run) : Prop :=
  ∃ exit s', run_session fuel env create_ok fetch_ok repoll x =
    Some (Val (Ok (exit, session_results fuel env create_ok fetch_ok repoll x), s')).

Definition run_sent (x : Run) : Z := total_sent (session_results fuel env create_ok fetch_ok repoll x).

Lemma complete_sends_all total (net : Log) (runs : string → list Run) :
  complete U total net →
  (∀ id, id ∈ U → Forall2 (session_healthy fuel env create_ok fetch_ok repoll I d) (sessions_of id net) (runs id)) →
  (∀ id, id ∈ U → Forall session_returns (runs id)) ∧
  sumZ (map (λ id, sumZ (map run_sent (runs id))) (elements U)) = total.
Proof.
  intros [Hnd Hin Hph Hdone Htot] Hruns.
  assert (Hone : ∀ id, id ∈ U →
    Forall session_returns (runs id) ∧ sumZ (map run_sent (runs id)) = msgs_qps (omap (event_to id) net)).
  { intros id Hid. specialize (Hruns id Hid). destruct (decide (id ∈ connects net)) as [Hc|Hc].
    - pose proof (Hdone id Hc) as Hp. destruct (connected_once id net PDone Hnd Hc Hp) as [Es Eo].
      rewrite Es in Hruns. apply Forall2_cons_inv_l in Hruns as (x & l & Hx & Hl & ->). apply Forall2_nil_inv_l in Hl as ->.
      assert (phase_msgs PDone (session_msgs id net)) as Hm by (by apply phase_of_msgs).
      apply session_sends in Hx as Hr; [|done..]. apply session_total in Hx as Ht; [|done..]. destruct Hr as [Hr _]. rewrite Eo.
      split; [by constructor|]. cbn [map]. rewrite sumZ_cons. unfold run_sent. rewrite Ht. simpl. lia.
    - destruct (not_connected id net Hc (Hph id)) as [Es ->]. rewrite Es in Hruns. apply Forall2_nil_inv_l in Hruns as ->.
      split; [constructor|done]. }
  split; [intros id Hid; by apply Hone|]. rewrite <- Htot, <- (receivers_exact (elements U) net); [|apply NoDup_elements|done|].
  - f_equal. apply map_ext_in. intros id Hid%list_elem_of_In%elem_of_elements. by apply Hone.
  - intros id Hc. by apply elem_of_elements, Hin.
Qed.

(** C7: A job in full health sends all it is asked for, on a cluster or on a single process, in
    immediate and in batch mode: when secondaries are reached at the start, no message is
    lost, a split request file is readable, the job is not stopped, and every second of every
    session is healthy, then all sessions come to their end and the requests sent in all of
    them together are exactly the sum of the rates that the generator gave for its seconds. *)
Theorem healthy_job_sends_all send_ok connect_ok iter get_one port_name (r : Request Compiled Hir AST Conn) ticks (net : Log)
    (runs : string → list Run) :
  (∀ net id m, send_ok net id m = true) → (∀ net h p, connect_ok net h p = true) → (∀ net s, iter net s ≡ₚ elements s) →
  Z.of_nat (size U) <= u32_MAX → file_readable get_one r → Forall (tick_ok U) ticks → Forall (λ t, t_stopped t = false) ticks →
  job_in_full send_ok connect_ok iter get_one port_name U r ticks net →
  (∀ id, id ∈ U → Forall2 (session_healthy fuel env create_ok fetch_ok repoll I d) (sessions_of id net) (runs id)) →
  (∀ id, id ∈ U → Forall session_returns (runs id)) ∧
  sumZ (map (λ id, sumZ (map run_sent (runs id))) (elements U)) = sumZ (map (λ t, fst (t_rates t)) ticks).
Proof.
  intros Hs Hc Hi HU Hf Ht Hst Hj Hruns. apply (complete_sends_all _ net); [|done].
  by eapply job_complete.
Qed.

End Whole.

(** ** Concrete inputs *)

Definition demo_serving : RequestSpecEnum unit unit (list HttpReq) → Prop :=
  spec_serving (λ _, None) (λ _ (g : unit), Val (Ok Null, g)) (λ _, []).

Lemma all_ready_complete : ready_complete all_ready.
Proof. intros l. reflexivity. Qed.

Lemma quiet_turn_calm : calm 0 quiet_turn.
Proof. split; [intros s; apply rtc_refl|done|done|apply all_ready_complete|done]. Qed.

Lemma demo_second_healthy :
  second_healthy (RequestProvider0 := demo_provider) 5 0 1 0 0 [quiet_turn; quiet_turn] demo_opened demo_list tt.
Proof.
  split; [|lia|vm_compute; discriminate|vm_compute; reflexivity|vm_compute; discriminate].
  repeat constructor; apply quiet_turn_calm.
Qed.

(** A healthy second in batch mode. *)
Lemma demo_batch_healthy :
  batch_healthy (RequestProvider0 := demo_provider) 5 0 (λ _, None) 1 1 0 0 [quiet_turn; quiet_turn] demo_opened demo_list tt.
Proof.
  split; [|lia|vm_compute; repeat split|vm_compute; discriminate].
  repeat constructor; apply quiet_turn_calm.
Qed.

Lemma immediate_cycle_sends_all_witness :
  ∃ r, send_n_request_in_t_duration (RequestProvider0 := demo_provider) 5 {| rm_qps := 1; rm_connections := 1 |}
         Immediate 0 0 ([quiet_turn; quiet_turn] ++ []) demo_opened demo_list tt = Some (Val r) ∧ sent_count (cr_sent r) = 1.
Proof.
  destruct (immediate_cycle_sends_all (RequestProvider0 := demo_provider) 5 demo_serving 0 "h" demo_ka true
    {| rm_qps := 1; rm_connections := 1 |} 0 0 [quiet_turn; quiet_turn] [] demo_opened demo_list tt) as (r & H1 & _ & H2 & _).
  - lia.
  - simpl. lia.
  - simpl. lia.
  - simpl. lia.
  - discriminate.
  - exact demo_opened_reachable.
  - exact demo_second_healthy.
  - exists r. split; [exact H1|exact H2].
Defined.

(** An iteration before which two other tasks have run: the pool's first connection is opened
    and put into the pool. *)
Definition eager_turn : Turn :=
  {| tn_env s := first_task (first_task s); tn_between1 s := s; tn_between2 s := s; tn_complete := all_ready;
     tn_get := 0; tn_send := 0; tn_over := 0 |}.

Lemma eager_turn_calm : calm 0 eager_turn.
Proof.
  split; [|done|done|apply all_ready_complete|done]. intros s. simpl. etrans; apply first_task_steps.
Qed.

Definition eager_rate : RateEnv := {| re_now := 0; re_setup := 0; re_turns := [eager_turn] |}.

(** What [a] is sent in the job of [Job]. *)
Definition job_msgs : list (MessageFromPrimary unit unit unit (list HttpReq)) :=
  [MMetadata {| primary_host := "p" |}; MRequest list_request; MRates {| rm_qps := 1; rm_connections := 1 |}; MFinished].

Lemma job_sessions : sessions_of "a" job_log = [job_msgs].
Proof. vm_compute. reflexivity. Qed.

Definition healthy_run : SessionRun (Compiled := unit) (Rng := unit) (Reg := unit) :=
  {| sr_inbox := as_inbox eager_rate job_msgs; sr_meanwhile s := s; sr_others s := s;
     sr_uuid := ""; sr_now := 0; sr_rng := tt; sr_before := fresh_secondary |}.

Lemma healthy_run_rate :
  rate_healthy (RequestProvider0 := demo_provider) 5 (λ _, None) 0 Immediate {| rm_qps := 1; rm_connections := 1 |} eager_rate
    (ss_ctx (se_state demo_session)).
Proof.
  split.
  - split; simpl; lia.
  - simpl. lia.
  - repeat constructor; apply (calm_turn_ok _ _ eager_turn_calm).
  - simpl. lia.
  - right. exists 1%nat. split.
    + repeat constructor; apply eager_turn_calm.
    + simpl. lia.
    + vm_compute. discriminate.
    + vm_compute. reflexivity.
    + vm_compute. discriminate.
Qed.

Lemma healthy_run_begins :
  ∃ s1, session_begin (PromRegistry0 := open_registry) (λ _, true) (λ _ _, true) Panic (λ s, s) "" 0 tt
    {| primary_host := "p" |} list_request fresh_secondary = Val (Ok demo_session, s1).
Proof. eexists. reflexivity. Qed.

Lemma healthy_run_healthy :
  session_healthy (PromRegistry0 := open_registry) (RequestProvider0 := demo_provider) 5 (λ _, None) (λ _, true) (λ _ _, true)
    Panic demo_serving 0 job_msgs healthy_run.
Proof.
  split; [apply as_inbox_msgs|]. split; [by intros j p|]. split; [done|].
  destruct healthy_run_begins as [s1 Hb].
  exists {| primary_host := "p" |}, list_request,
    (as_inbox eager_rate [MRates {| rm_qps := 1; rm_connections := 1 |}; MFinished]), demo_session, s1.
  split; [reflexivity|]. split; [exact Hb|]. split; [simpl; lia|]. split; [discriminate|].
  split; [exact healthy_run_rate|]. by intros ctx res _.
Qed.

(** One request was asked for, and one was sent. *)
Lemma healthy_job_sends_all_witness :
  sumZ (map (λ _, sumZ (map (run_sent (PromRegistry0 := open_registry) (RequestProvider0 := demo_provider) 5 (λ _, None)
    (λ _, true) (λ _ _, true) Panic) [healthy_run])) (elements ({["a"%string]} : gset string))) =
  sumZ (map (λ t, fst (t_rates t)) job_ticks).
Proof.
  refine (proj2 (healthy_job_sends_all (PromRegistry0 := open_registry) (RequestProvider0 := demo_provider) 5 (λ _, None)
    (λ _, true) (λ _ _, true) Panic demo_serving 0 (Z.le_refl 0) {["a"%string]} (λ _ _ _, true) (λ _ _ _, true)
    (λ _, elements) (λ _ f, (Err ""%string, f)) "tcp-remoc" list_request job_ticks job_log (λ _, [healthy_run])
    (λ _ _ _, eq_refl) (λ _ _ _, eq_refl) (λ _ _, Permutation_refl _) job_size _ job_ticks_ok _ _ _)).
  - by intros ? f [=].
  - by repeat constructor.
  - apply (cluster_in_full _ _ _ _ _ _ _ _ _ (Some "p"%string) [demo_node "a"] [Starting; InProgress; Completed] job_nodes_in).
    + exists (demo_node "a"). split; [left|by eexists].
    + vm_compute. reflexivity.
  - intros id ->%elem_of_singleton.
    rewrite job_sessions. constructor; [exact healthy_run_healthy|constructor].
Defined.
