(* ===== verification/Starvation.v ===== *)
(** * Connections that never come back

    The task that sends a batch ([batch_task] of [Cycle]) panics when the URL of one of its
    requests is no URI; the connections of the whole batch are then gone, but the pool still
    counts them as busy.  This file follows what that does to the rest of the session: a
    pool of fixed size whose connections are all lost never hands out another one. *)
From Stdlib Require Import ZArith Lia.
From stdpp Require Import base list gmap strings numbers sets relations.
From S2P Require Import Prelude RateSpec Json Assert DataGen Template HttpTypes.
From S2P Require Import Pool UrlParams Providers Jobs Primary Cycle Metrics Secondary.

Local Open Scope Z_scope.
Local Open Scope rust_scope.

(** ** A pool all of whose connections are lost *)

Lemma task_steps_size s s' :
  task_steps s s' → max_connection (ps_pool s') = max_connection (ps_pool s) ∧ elastic (ps_pool s') = elastic (ps_pool s).
Proof.
  induction 1 as [|s s1 s' Hs _ [IH1 IH2]]; [done|]. rewrite IH1, IH2. clear IH1 IH2.
  destruct Hs as [s now c l1 l2 p m Hf [= <- <-]|s t l1 l2 now hs p m ts Ht Ha Hnd Hn Hl Hr]; simpl; [done|].
  unfold run_pool_task, add_attempts in Hr. destruct t as [diff|count|conn]; [|by injection Hr as <- <- <-..].
  destruct (diff <? 0).
  - unfold remove_new, resize_conn_container in Hr. destruct (_ <? _); simpl in Hr; by injection Hr as <- <- <-.
  - destruct (0 <? diff); by injection Hr as <- <- <-.
Qed.

(** The connections of [lost] are in flight, and they are as many as the pool may have. *)
Record starved (lost : list HttpConnection) (s : PoolSys) : Prop := {
  sv_sound : pool_sound s;
  sv_fixed : elastic (ps_pool s) = false;
  sv_lost : lost ⊆+ ps_in_flight s;
  sv_max : max_connection (ps_pool s) <= len lost
}.

(** What others do leaves the connections of [lost] in flight. *)
Definition leaves (lost : list HttpConnection) (f : PoolSys → PoolSys) : Prop :=
  ∀ s, task_steps s (f s) ∧ (lost ⊆+ ps_in_flight s → lost ⊆+ ps_in_flight (f s)).

Lemma starved_others lost f s : leaves lost f → starved lost s → starved lost (f s).
Proof.
  intros Hf [Hs He Hl Hm]. destruct (Hf s) as [Ht Hk]. destruct (task_steps_size _ _ Ht) as [E1 E2].
  split; [by eapply pool_sound_steps; [|apply task_steps_pool]|by rewrite E2|by apply Hk|by rewrite E1].
Qed.

Lemma starved_check lost s returned n :
  starved lost s → ps_get s = GetClaimed returned n → 0 <= n <= u32_MAX →
  starved lost (sys_check returned n s) ∧ ∃ dropped, ps_get (sys_check returned n s) = GetChecking [] dropped.
Proof.
  intros [Hs He Hl Hm] Hg Hn. assert (Hs' : pool_sound (sys_check returned n s)).
  { eapply pool_sound_steps; [exact Hs|]. by apply owner_steps, owner_check. }
  destruct Hs as (host & ka & el & Hka & Hr). pose proof (pool_reachable_inv _ _ _ _ Hka Hr) as Hinv.
  pose proof (inv_total _ _ Hinv) as Htot. pose proof (inv_busy _ _ Hinv) as Hb. rewrite Hg in Hb. simpl in Hb.
  revert Hs'. unfold sys_check. destruct (get_check _ _ _ _) as [[[p m] [futures dropped]] ts] eqn:E. intros Hs'.
  assert (Eel : elastic p = elastic (ps_pool s)).
  { unfold get_check in E. cbn [claim_connections] in E.
    match type of E with context [let '(_, _) := ?e in _] => destruct e as [[cs m1] ts1] end.
    destruct (take_usable _ _) as [[fs dr] cs']. by injection E as <- _ _ _ _. }
  apply get_check_spec in E as (_ & Hmax & _ & _ & _ & _ & _ & _ & _ & _ & _ & Hcap). specialize (Hcap He).
  pose proof (inv_pooled_total _ _ Hinv).
  assert (len (recyclable_connections (ps_pool s)) <= len (held s)).
  { unfold held, pooled. autorewrite with overload. unfold len. lia. }
  pose proof (len_nonneg (ps_in_flight s)). pose proof (len_nonneg (recyclable_connections (ps_pool s))).
  rewrite Hb, wrap_id in Hcap by lia. specialize (Hcap ltac:(lia)). pose proof (len_submseteq _ _ Hl).
  pose proof (len_nonneg (connections p)). pose proof (len_nonneg futures).
  split; [split; simpl; [done|by rewrite Eel|done|by rewrite Hmax]|]. exists dropped. simpl.
  destruct futures; [done|]. rewrite len_cons in *. pose proof (len_nonneg futures). lia.
Qed.

(** It never hands out a connection. *)
Lemma starved_get lost between1 between2 complete n s :
  leaves lost between1 → leaves lost between2 → (∀ l, map fst (complete l) ≡ₚ l) → 0 <= n <= u32_MAX → starved lost s →
  ∃ s', get_connections between1 between2 complete n s = (s', []) ∧ starved lost s'.
Proof.
  intros H1 H2 Hc Hn Hs. unfold get_connections. destruct (ps_get s) eqn:Eg; [|by eexists..].
  assert (Hs1 : starved lost (sys_claim n s)).
  { destruct Hs as [Hs He Hl Hm]. split; [|done..]. eapply pool_sound_steps; [exact Hs|]. by apply owner_steps, owner_claim. }
  apply (starved_others _ between1) in Hs1; [|done]. set (r := len (recyclable_connections (ps_pool s))).
  assert (Hg1 : ps_get (between1 (sys_claim n s)) = GetClaimed r n) by (by rewrite (task_steps_get _ _ (proj1 (H1 _)))).
  cbv zeta. rewrite Hg1. set (s1 := between1 (sys_claim n s)) in *.
  destruct (starved_check lost s1 r n Hs1 Hg1 Hn) as [Hs2 [dropped Hg2]].
  apply (starved_others _ between2) in Hs2; [|done].
  assert (Hg3 : ps_get (between2 (sys_check r n s1)) = GetChecking [] dropped) by (by rewrite (task_steps_get _ _ (proj1 (H2 _)))).
  rewrite Hg3. set (s2 := between2 (sys_check r n s1)) in *.
  assert (complete [] = []) as E0.
  { specialize (Hc []). apply Permutation_nil_r in Hc. by destruct (complete []). }
  rewrite E0. unfold sys_finish, get_finish. simpl. eexists. split; [reflexivity|].
  destruct Hs2 as [Hsd He Hl Hm]. split; simpl; [|done|by rewrite app_nil_r|done].
  pose proof (owner_finish s2 [] dropped [] Hg3 (Permutation_refl _)) as Hstep.
  eapply pool_sound_steps; [exact Hsd|]. by apply owner_steps.
Qed.

(** ** What a starved session sends *)

Section Session.
  Context {Compiled Hir AST Conn Rng : Type} `{!RequestProvider Rng (RequestSpecEnum Hir AST Conn)}.
  Context (fuel : nat) (env : string → option string).
  Context (create_ok : string → bool) (fetch_ok : string → string → bool).
  Context (lost : list HttpConnection).

Local Abbreviation Msg := (MessageFromPrimary Compiled Hir AST Conn).
Local Abbreviation Results := (list (CycleResult Rng (RequestSpecEnum Hir AST Conn))).

Record turn_leaves (t : Turn) : Prop := {
  tl_complete : ∀ l, map fst (tn_complete t l) ≡ₚ l;
  tl_env : leaves lost (tn_env t);
  tl_between1 : leaves lost (tn_between1 t);
  tl_between2 : leaves lost (tn_between2 t)
}.

Lemma starved_turn {Sleep} (m : CycleMode Sleep) start t (st : CycleState Rng (RequestSpecEnum Hir AST Conn) Sleep) r :
  turn_leaves t → 0 <= cy_remaining st <= u32_MAX → starved lost (cy_sys st) → cycle_turn fuel m start t st = Some (Val r) →
  let st' := match r with inl (_, st') => st' | inr st' => st' end in
  cy_sent st' = cy_sent st ∧ cy_remaining st' = cy_remaining st ∧ starved lost (cy_sys st').
Proof.
  intros [Hc He H1 H2] Hr Hs. unfold cycle_turn. case_match; [by intros [= <-]|].
  pose proof (wrap_range 32 (cm_bundle m)) as Hw.
  destruct (starved_get lost (tn_between1 t) (tn_between2 t) (tn_complete t) (Z.min (wrap 32 (cm_bundle m)) (cy_remaining st))
    (tn_env t (cy_sys st)) H1 H2 Hc ltac:(lia)) as (s' & -> & Hs'); [by apply starved_others|].
  simpl. destruct (cm_resleep _ _ _); [|done]. by intros [= <-].
Qed.

Lemma starved_loop {Sleep} (m : CycleMode Sleep) start turns (st : CycleState Rng (RequestSpecEnum Hir AST Conn) Sleep) e st' :
  Forall turn_leaves turns → 0 <= cy_remaining st <= u32_MAX → starved lost (cy_sys st) →
  cycle_loop fuel m start turns st = Some (Val (e, st')) → cy_sent st' = cy_sent st ∧ starved lost (cy_sys st').
Proof.
  intros Hts. revert st. induction Hts as [|t turns Ht Hts IH]; intros st Hr Hs; [done|]. cbn [cycle_loop].
  destruct (cycle_turn _ _ _ _ _) as [[r|]|] eqn:Et; try done.
  apply starved_turn in Et as (E1 & E2 & Hs'); [|done..]. cbn. destruct r as [[e0 st0]|st0]; [by intros [= <- <-]|].
  intros Hl. apply IH in Hl as [-> Hs'']; [done|by rewrite E2|done].
Qed.

Lemma starved_apply prev n now s : 0 <= n <= u32_MAX → n <= len lost → starved lost s → starved lost (apply_connections prev n now s).
Proof.
  intros Hn Hle Hs. assert (Hp : pool_sound (apply_connections prev n now s)).
  { eapply pool_sound_steps; [apply Hs|]. by apply apply_connections_steps. }
  revert Hp. unfold apply_connections. destruct Hs as [_ He Hl Hm]. destruct (prev =? n); intros Hp; [by split|].
  split; [done| |done|done]. simpl. by rewrite He.
Qed.

(** A message of a session in which nobody returns the connections of [lost] and the pool is
    not made larger. *)
Definition recv_leaves (x : recv Msg) : Prop :=
  match x with
  | RMsg (MRates rate) e => rate_ok rate ∧ rm_connections rate <= len lost ∧ Forall turn_leaves (re_turns e)
  | _ => True
  end.

Lemma starved_result {Sleep} (m : CycleMode Sleep) start turns q (sl : Sleep) now sys spec (g : Rng) r :
  Forall turn_leaves turns → 0 <= q <= u32_MAX → starved lost sys →
  cycle_result <$> cycle_loop fuel m start turns {| cy_remaining := q; cy_sleep := sl; cy_clock := now; cy_sys := sys;
    cy_spec := spec; cy_rng := g; cy_sent := [] |} = Some (Val r) → cr_sent r = [] ∧ starved lost (cr_sys r).
Proof.
  intros Hts Hq Hs. destruct (cycle_loop _ _ _ _ _) as [[[e st']|]|] eqn:E; simpl; try done. intros [= <-].
  by apply starved_loop in E.
Qed.

Lemma starved_rate mode rate e (ctx ctx' : ExecutionContext Rng (RequestSpecEnum Hir AST Conn)) r :
  rate_ok rate → rm_connections rate <= len lost → Forall turn_leaves (re_turns e) → starved lost (ctx_sys ctx) →
  rate_handler fuel env mode rate e ctx = Some (Val (ctx', r)) → cr_sent r = [] ∧ starved lost (ctx_sys ctx').
Proof.
  intros [Hq Hc] Hle Hts Hs.
  pose proof (λ now, starved_apply (prev_connection_count ctx) (rm_connections rate) now _ Hc Hle Hs) as Ha.
  destruct mode as [b|]; simpl; [unfold handle_rate_msg|unfold handle_rate_msg_v2];
    (destruct (corrected_with_offset _ _) as [start|]; [|done]).
  - unfold send_multiple_requests. destruct (_ =? 0); simpl; [intros [= <- <-]; split; [done|apply Ha]|].
    match goal with |- context [cycle_result <$> ?l] => destruct (cycle_result <$> l) as [[r'|]|] eqn:E end; simpl; try done.
    intros [= <- <-]. by apply starved_result in E.
  - unfold send_n_request_in_t_duration. destruct (_ <? 10); simpl; [intros [= <- <-]; split; [done|apply Ha]|].
    destruct (_ =? 0); simpl; [intros [= <- <-]; split; [done|apply Ha]|].
    match goal with |- context [cycle_result <$> ?l] => destruct (cycle_result <$> l) as [[r'|]|] eqn:E end; simpl; try done.
    intros [= <- <-]. by apply starved_result in E.
Qed.

Lemma starved_messages mode uri inbox st exit st' :
  Forall recv_leaves inbox → starved lost (ctx_sys (ss_ctx st)) →
  message_loop fuel env create_ok fetch_ok mode uri inbox st = Some (Val (exit, st')) →
  ∃ later : Results, ss_results st' = ss_results st ++ later ∧ Forall (λ r, cr_sent r = []) later.
Proof.
  intros Hin. revert st. induction Hin as [|x inbox Hx Hin IH]; intros st Hs; [done|]. cbn [message_loop].
  assert (Hstop : ∀ ex s, ss_results s = ss_results st → Some (Val (ex, s)) = Some (Val (exit, st')) →
    ∃ later : Results, ss_results st' = ss_results st ++ later ∧ Forall (λ r, cr_sent r = []) later).
  { intros ex s E [= <- <-]. exists []. by rewrite E, app_nil_r. }
  destruct x as [| | |m e]; [by apply IH|by apply Hstop|by apply Hstop|].
  destruct m as [md|r|rate| | |]; [by apply IH| | |intros Hl; by apply IH in Hl|by apply Hstop|by apply Hstop].
  - destruct (prepare _ _ r uri (ss_files st)) as [[[|] files]|]; [intros Hl; by apply IH in Hl|by apply Hstop|done].
  - destruct Hx as (Hr & Hle & Ht). destruct (rate_handler _ _ _ _ _ _) as [[[c res]|]|] eqn:E; simpl; try done.
    apply starved_rate in E as [E Hs']; [|done..]. intros Hl. apply IH in Hl as (later & El & Hl); [|done].
    simpl in El. exists (res :: later). rewrite El, <- app_assoc. split; [done|]. by constructor.
Qed.

End Session.

(** What the others do while the task of the batch [b] is gone: if it panicked, nobody
    returns the connections it was given. *)
Definition panicked_keep (header_name header_value : string → option string)
    (header_order : gmap string string → list (string * string)) {Uri} (parse_uri : string → option Uri)
    (b : CycleBatch) (t : Turn) : Prop :=
  batch_task header_name header_value header_order parse_uri b = Panic → turn_leaves (map fst b) t.

(** C27: One request whose URL is no URI can silence the rest of a session: the task of the
    batch it was sent with panics, so that no connection of the batch is ever returned.  If
    that batch took as many connections as a pool of fixed size may have, and the rates that
    follow do not ask for more, then no later second of the session sends anything, in
    either mode, however long the session goes on. *)
Theorem bad_url_starves_session {Compiled Hir AST Conn Rng} `{!RequestProvider Rng (RequestSpecEnum Hir AST Conn)}
    fuel env create_ok fetch_ok header_name header_value header_order {Uri} (parse_uri : string → option Uri)
    mode uri (inbox : list (recv (MessageFromPrimary Compiled Hir AST Conn))) (st st' : SessionState Hir AST Conn Rng) exit
    (second : CycleResult Rng (RequestSpecEnum Hir AST Conn)) (b : CycleBatch) cr :
  second ∈ ss_results st → b ∈ cr_sent second → cr ∈ b → parse_uri (url cr.2) = None →
  pool_sound (ctx_sys (ss_ctx st)) → elastic (ps_pool (ctx_sys (ss_ctx st))) = false →
  max_connection (ps_pool (ctx_sys (ss_ctx st))) <= len b → map fst b ⊆+ ps_in_flight (ctx_sys (ss_ctx st)) →
  Forall (λ x, match x with
               | RMsg (MRates rate) e => rate_ok rate ∧ rm_connections rate <= len b ∧
                   Forall (panicked_keep header_name header_value header_order parse_uri b) (re_turns e)
               | _ => True
               end) inbox →
  message_loop fuel env create_ok fetch_ok mode uri inbox st = Some (Val (exit, st')) →
  batch_task header_name header_value header_order parse_uri b = Panic ∧
  ∃ later, ss_results st' = ss_results st ++ later ∧ Forall (λ r, cr_sent r = []) later.
Proof.
  intros _ _ Hcr Hu Hp He Hm Hl Hin Hrun.
  destruct (batch_task_all_or_none header_name header_value header_order parse_uri b) as [_ Hpanic].
  specialize (Hpanic cr Hcr Hu). split; [done|].
  assert (El : len (map fst b) = len b) by (unfold len; by rewrite length_map).
  eapply (starved_messages _ _ _ _ (map fst b)); [|split; [done..|by rewrite El]|exact Hrun].
  eapply Forall_impl; [exact Hin|]. intros [| | |[] e]; try done. intros (Hr & Hc & Ht). split_and!; [done|by rewrite El|].
  eapply Forall_impl; [exact Ht|]. intros t Hk. by apply Hk.
Qed.

(** ** Concrete inputs

    A session that sends one request without a URI in its first second. *)

Definition bad_spec : RequestSpecEnum unit unit (list HttpReq) :=
  RSRequestList {| data := [mk_http_req "" "GET" "::" None ∅] |}.

Definition first_context : ExecutionContext unit (RequestSpecEnum unit unit (list HttpReq)) :=
  {| prev_connection_count := 1; time_offset := 0; ctx_sys := demo_opened; request_spec := bad_spec; ctx_rng := tt |}.

Definition first_rate : RateMessage := {| rm_qps := 1; rm_connections := 1 |}.

Definition first_second : ExecutionContext unit (RequestSpecEnum unit unit (list HttpReq)) *
    CycleResult unit (RequestSpecEnum unit unit (list HttpReq)) :=
  match rate_handler (RequestProvider0 := demo_provider) 5 (λ _, None) Immediate first_rate quiet_rate first_context with
  | Some (Val x) => x
  | _ => (first_context, nothing_sent 0 demo_opened bad_spec tt)
  end.

Lemma first_second_runs :
  rate_handler (RequestProvider0 := demo_provider) 5 (λ _, None) Immediate first_rate quiet_rate first_context =
    Some (Val first_second).
Proof. vm_compute. reflexivity. Qed.

Definition silent_state : SessionState unit unit (list HttpReq) unit :=
  {| ss_ctx := fst first_second; ss_reset := false; ss_files := ∅; ss_results := [snd first_second] |}.

(** The batch of that second. *)
Definition bad_batch : CycleBatch := default [] (head (cr_sent (snd first_second))).

Definition silent_inbox : list (recv (MessageFromPrimary unit unit unit (list HttpReq))) :=
  [RMsg (MRates {| rm_qps := 3; rm_connections := 1 |}) quiet_rate; RMsg MFinished quiet_rate].

Lemma quiet_keeps (t : Turn) :
  t ∈ re_turns quiet_rate →
  panicked_keep (λ _, None) (λ _, None) (λ _, []) (λ _ : string, None : option unit) bad_batch t.
Proof.
  intros [-> _]%elem_of_replicate _.
  split; [apply all_ready_perm|intros s; split; [apply rtc_refl|done]..].
Qed.

Lemma silent_sound : pool_sound (ctx_sys (fst first_second)).
Proof.
  pose proof first_second_runs as H. destruct first_second as [c r].
  apply rate_handler_steps in H as [Hs _]; [|split; simpl; lia|apply quiet_turns_ok].
  eapply pool_sound_steps; [|exact Hs].
  exists "h"%string, demo_ka, true. split; [simpl; lia|exact demo_opened_reachable].
Qed.

Lemma bad_url_starves_session_witness :
  ∃ exit st', message_loop (RequestProvider0 := demo_provider) 5 (λ _, None) (λ _, true) (λ _ _, true) Immediate "p"
    silent_inbox silent_state = Some (Val (exit, st')) ∧
    ∃ later, ss_results st' = [snd first_second] ++ later ∧ Forall (λ r, cr_sent r = []) later.
Proof.
  assert (Hrun : ∃ exit st', message_loop (RequestProvider0 := demo_provider) 5 (λ _, None) (λ _, true) (λ _ _, true) Immediate
    "p" silent_inbox silent_state = Some (Val (exit, st'))) by (eexists _, _; vm_compute; reflexivity).
  destruct Hrun as (exit & st' & Hrun). exists exit, st'. split; [exact Hrun|].
  refine (proj2 (bad_url_starves_session (RequestProvider0 := demo_provider) 5 (λ _, None) (λ _, true) (λ _ _, true)
    (λ _, None) (λ _, None) (λ _, []) (λ _, None : option unit) Immediate "p" silent_inbox silent_state st' exit
    (snd first_second) bad_batch (demo_conn, mk_http_req "" "GET" "::" None ∅) _ _ _ eq_refl silent_sound _ _ _ _ Hrun)).
  - left.
  - vm_compute. left.
  - vm_compute. left.
  - reflexivity.
  - vm_compute. discriminate.
  - vm_compute. reflexivity.
  - constructor; [|by repeat constructor]. split; [split; simpl; lia|]. split; [vm_compute; discriminate|].
    apply Forall_forall. exact quiet_keeps.
Defined.
