(* ===== verification/Upload.v ===== *)
(** * Request files

    [overload/src/overload/file_uploader.rs]: turning an uploaded CSV or SQLite file into
    a request file, the names of such files ([data_dir], [data_dir_path],
    [file_name_deserializer]), and the download the secondaries use
    ([overload/src/filters_cluster.rs]).

    The CSV reader, SQLite, the validity of uris and methods and the JSON of the headers
    are parameters. *)
From Stdlib Require Import ZArith Lia Ascii.
From stdpp Require Import base list gmap strings numbers sets.
From S2P Require Import Prelude Json Template HttpTypes Jobs Secondary.

Local Open Scope Z_scope.
Local Open Scope rust_scope.

(** ** CSV files *)

Record HttpReqCsvHelper := {
  csv_method : string;
  csv_url : string;
  csv_body : option string;
  csv_headers : string
}.

Section Csv.
  Context (valid_uri valid_method : string → bool).
  Context (parse_headers : string → option (gmap string string)).
  Context (show_headers : gmap string string → string).

(** [TryInto<HttpReq> for HttpReqCsvHelper] *)
Definition csv_try_into (self : HttpReqCsvHelper) : result string HttpReq :=
  if negb (valid_uri (csv_url self)) then Err "invalid uri"%string
  else if negb (valid_method (csv_method self)) then Err "invalid HTTP method"%string
  else match parse_headers (csv_headers self) with
       | None => Err "invalid headers"%string
       | Some headers => Ok (mk_http_req "" (csv_method self) (csv_url self) (csv_body self) headers)
       end.

(** The row that is inserted; [rowid] is the number that SQLite gives it. *)
Definition row_of (rowid : Z) (req : HttpReq) : SqliteRow :=
  {| row_rowid := rowid; row_method := method req; row_url := url req; row_body := body req;
     row_headers := show_headers (headers req) |}.

(** The loop over the rows of the CSV file: [insert] is what SQLite does with a row that is
    inserted into the table as it is, failing or giving it a number. *)
Fixpoint csv_loop (insert : list SqliteRow → option Z) (items : list (result string HttpReqCsvHelper))
    (success : Z) (table : list SqliteRow) : result string Z * list SqliteRow :=
  match items with
  | [] => (Ok success, table)
  | Err _ :: items' => csv_loop insert items' success table
  | Ok csv_req :: items' =>
      match csv_try_into csv_req with
      | Err _ => csv_loop insert items' success table
      | Ok req =>
          match insert table with
          | Some rowid => csv_loop insert items' (success +usize 1) (table ++ [row_of rowid req])
          | None => (Err "insert failed"%string, table)
          end
      end
  end.

(** [csv_reader_to_sqlite]: opening the database and creating the table may fail. *)
Definition csv_reader_to_sqlite (open_ok : bool) (insert : list SqliteRow → option Z)
    (items : list (result string HttpReqCsvHelper)) : result string Z * list SqliteRow :=
  if open_ok then csv_loop insert items 0 [] else (Err "open failed"%string, []).

Definition file_upload_success_response (file_name : string) (valid_count : Z) : gmap string string :=
  <[ "valid_count" := show_unsigned valid_count ]> (<[ "file" := file_name ]> ∅).

(** [csv_stream_to_sqlite]: the response; [uuid] names the file. *)
Definition csv_stream_to_sqlite (uuid : string) (open_ok : bool) (insert : list SqliteRow → option Z)
    (items : list (result string HttpReqCsvHelper)) : result GenericError (gmap string string) :=
  match fst (csv_reader_to_sqlite open_ok insert items) with
  | Ok resp => Ok (file_upload_success_response uuid resp)
  | Err _ => Err {| error_code := error_code generic_error_default; error_message := "Unknown error.";
                    error_data := error_data generic_error_default |}
  end.

(** The rows that can be read and are valid, with their headers, in order. *)
Definition valid_rows (items : list (result string HttpReqCsvHelper)) : list (HttpReqCsvHelper * gmap string string) :=
  omap (λ i, match i with
             | Ok csv => if valid_uri (csv_url csv) && valid_method (csv_method csv)
                         then (λ h, (csv, h)) <$> parse_headers (csv_headers csv) else None
             | Err _ => None
             end) items.

(** The request of such a row. *)
Definition row_request (id : string) (ch : HttpReqCsvHelper * gmap string string) : HttpReq :=
  mk_http_req id (csv_method ch.1) (csv_url ch.1) (csv_body ch.1) ch.2.

(** SQLite numbers a row with one more than the largest number in the table. *)
Definition next_rowid (table : list SqliteRow) : Z := 1 + foldr Z.max 0 (row_rowid <$> table).

Lemma csv_valid csv :
  csv_try_into csv = match valid_rows [Ok csv] with ch :: _ => Ok (row_request "" ch) | [] => csv_try_into csv end ∧
  (valid_rows [Ok csv] = [] → is_ok (csv_try_into csv) = false).
Proof.
  unfold csv_try_into, valid_rows. cbn. destruct (valid_uri _), (valid_method _); try done. simpl.
  by destruct (parse_headers _).
Qed.

(** Rows numbered from 1 get the next number. *)
Lemma next_rowid_numbered table :
  row_rowid <$> table = Z.of_nat <$> seq 1 (length table) → next_rowid table = len table + 1.
Proof.
  unfold next_rowid. intros ->. unfold len. generalize (length table) as n. intros n.
  assert (Hm : ∀ k, foldr Z.max 0 (Z.of_nat <$> seq (S k) n) = match n with O => 0 | _ => Z.of_nat (k + n) end).
  { induction n as [|n IH]; intros k; [done|]. cbn [seq]. rewrite fmap_cons. cbn [foldr]. rewrite IH. destruct n; lia. }
  rewrite Hm. destruct n; lia.
Qed.

Lemma csv_loop_spec items success table :
  row_rowid <$> table = Z.of_nat <$> seq 1 (length table) →
  0 <= success → success + len items <= usize_MAX →
  csv_loop (λ t, Some (next_rowid t)) items success table =
    (Ok (success + len (valid_rows items)),
     table ++ imap (λ i ch, row_of (len table + Z.of_nat i + 1) (row_request "" ch)) (valid_rows items)).
Proof.
  revert success table. induction items as [|i items IH]; intros success table Ht Hs Hb.
  { simpl. rewrite app_nil_r. f_equal. f_equal. unfold len. simpl. lia. }
  rewrite len_cons in Hb. pose proof (len_nonneg items).
  assert (Hskip : valid_rows (i :: items) = valid_rows items →
    csv_loop (λ t, Some (next_rowid t)) items success table =
      (Ok (success + len (valid_rows (i :: items))),
       table ++ imap (λ i ch, row_of (len table + Z.of_nat i + 1) (row_request "" ch)) (valid_rows (i :: items)))).
  { intros ->. apply IH; [done|lia..]. }
  cbn [csv_loop]. destruct i as [csv|e]; [|by apply Hskip].
  assert (Hone : valid_rows (Ok csv :: items) = valid_rows [Ok csv] ++ valid_rows items).
  { unfold valid_rows. by rewrite <- omap_app. }
  destruct (csv_valid csv) as [Hv Hnone]. destruct (valid_rows [Ok csv]) as [|ch l] eqn:E1.
  { destruct (csv_try_into csv); [by specialize (Hnone eq_refl)|]. by apply Hskip. }
  assert (l = []) as ->.
  { unfold valid_rows in E1. cbn in E1. repeat case_match; by simplify_eq. }
  rewrite Hv, Hone. rewrite wrap_id by lia. rewrite next_rowid_numbered by done.
  rewrite IH; [|rewrite fmap_app, Ht, length_app; simpl; rewrite Nat.add_1_r, seq_S, fmap_app; unfold len; simpl;
    do 2 f_equal; lia|lia..].
  cbn [app]. rewrite len_cons, imap_cons, <- app_assoc. simpl. f_equal; [f_equal; lia|].
  do 2 f_equal; [f_equal; lia|]. apply imap_ext. intros k x _. simpl. f_equal.
  rewrite len_app. unfold len at 2. simpl. lia.
Qed.

End Csv.

(** ** Names of request files *)

(** [data_dir]; [data_dir_path] is in [HttpTypes]. *)
Definition data_dir (env : string → option string) : string := default "/tmp"%string (env "DATA_DIR"%string).

Fixpoint ends_with_char (c : ascii) (s : string) : bool :=
  match s with
  | EmptyString => false
  | String a EmptyString => Ascii.eqb a c
  | String _ s' => ends_with_char c s'
  end.

(** [PathBuf::join]: an absolute path replaces the base. *)
Definition path_join (d f : string) : string :=
  if starts_with_char "/" f then f
  else match d with
       | EmptyString => f
       | _ => if ends_with_char "/" d then d +:+ f else d +:+ String "/" f
       end.

(** Only separators and [.] components. *)
Fixpoint only_seps (s : string) : bool :=
  match s with
  | EmptyString => true
  | String "/" ((String "." s'') as s') => only_seps s'' || only_seps s'
  | String "/" s' => only_seps s'
  | _ => false
  end.

(** Without the separators and [.] components at the end. *)
Fixpoint strip_trailing (s : string) : string :=
  if only_seps s then EmptyString
  else match s with EmptyString => EmptyString | String a s' => String a (strip_trailing s') end.

(** The last occurrence of [c]: what is before it. *)
Fixpoint before_last (c : ascii) (s : string) : option string :=
  match s with
  | EmptyString => None
  | String a s' =>
      match before_last c s' with
      | Some b => Some (String a b)
      | None => if Ascii.eqb a c then Some EmptyString else None
      end
  end.

(** [Path::file_stem] of a file name: a name that starts with its only dot has none. *)
Definition file_stem (f : string) : string :=
  match before_last "." f with
  | Some EmptyString | None => f
  | Some b => b
  end.

(** [PathBuf::set_extension] *)
Definition set_extension (ext p : string) : string :=
  match path_file_name p with
  | None => p
  | Some f =>
      let q := strip_trailing p in
      String.substring 0 (String.length q - String.length f) q +:+ file_stem f +:+ String "." ext
  end.

(** [file_name_deserializer]: the path of a request file from the name in a request. *)
Definition file_name_deserializer (env : string → option string) (file_name : string) : string :=
  set_extension "sqlite" (path_join (data_dir_path env) file_name).

(** Where an upload is stored: CSV files by [format!], SQLite files by [PathBuf]. *)
Definition csv_destination (dir uuid : string) : string := dir +:+ String "/" (uuid +:+ ".sqlite").
Definition sqlite_destination (dir uuid : string) : string := set_extension "sqlite" (path_join dir uuid).

(** A file name as uploads get it: not empty, without slashes and dots. *)
Definition name_char_ok (a : ascii) : bool := negb (Ascii.eqb a "/") && negb (Ascii.eqb a ".").
Definition upload_name (n : string) : Prop := n ≠ ""%string ∧ str_forall name_char_ok n = true.

Lemma split_char_sep c s t : split_char c (s +:+ String c t) = split_char c s ++ split_char c t.
Proof.
  induction s as [|a s IH].
  - change ("" +:+ String c t)%string with (String c t). cbn [split_char]. by rewrite Ascii.eqb_refl.
  - change ((String a s) +:+ String c t)%string with (String a (s +:+ String c t)). cbn [split_char].
    rewrite IH. destruct (Ascii.eqb a c); [done|].
    destruct (split_char c s) as [|x l] eqn:E; [|done].
    exfalso. destruct s; simpl in E; [done|]. repeat case_match; done.
Qed.

Lemma only_seps_chars s :
  only_seps s = true → str_forall (λ a, Ascii.eqb a "/" || Ascii.eqb a ".") s = true.
Proof.
  remember (String.length s) as n eqn:Hn. revert s Hn.
  induction (lt_wf n) as [n _ IH]. intros s -> H.
  destruct s as [|a s]; [done|]. cbn [only_seps] in H.
  assert (a = "/"%char) as ->.
  { destruct a as [[] [] [] [] [] [] [] []]; simpl in H; try done. }
  simpl. destruct s as [|b s]; [done|].
  assert (only_seps (String b s) = true ∨ (b = "."%char ∧ only_seps s = true)) as [H1|[-> H1]].
  { destruct b as [[] [] [] [] [] [] [] []]; try (by left). apply orb_true_iff in H as [H|H]; auto. }
  - eapply IH; [|done|done]. simpl. lia.
  - simpl. eapply IH; [|done|done]. simpl. lia.
Qed.

Lemma only_seps_name s n : upload_name n → only_seps (s +:+ n) = false.
Proof.
  intros [Hne Hn]. apply not_true_iff_false. intros H%only_seps_chars. rewrite str_forall_app in H.
  apply andb_true_iff in H as [_ H]. destruct n as [|a n]; [done|]. simpl in *.
  apply andb_true_iff in H as [H _]. apply andb_true_iff in Hn as [Hn _]. unfold name_char_ok in Hn.
  destruct (Ascii.eqb a "/"), (Ascii.eqb a "."); done.
Qed.

Lemma strip_trailing_name s n : upload_name n → strip_trailing (s +:+ n) = (s +:+ n)%string.
Proof.
  intros Hn. induction s as [|a s IH].
  - change ("" +:+ n)%string with n. destruct Hn as [Hne Hf]. clear Hne. induction n as [|a n IH]; [done|].
    pose proof (only_seps_name "" (String a n)) as Ho. change ("" +:+ String a n)%string with (String a n) in Ho.
    cbn [strip_trailing]. rewrite Ho by (by split). f_equal. apply IH.
    simpl in Hf. by apply andb_true_iff in Hf as [_ ?].
  - change ((String a s) +:+ n)%string with (String a (s +:+ n)).
    pose proof (only_seps_name (String a s) n Hn) as Ho.
    change ((String a s) +:+ n)%string with (String a (s +:+ n)) in Ho.
    cbn [strip_trailing]. by rewrite Ho, IH.
Qed.

Lemma before_last_none n : str_forall name_char_ok n = true → before_last "." n = None.
Proof.
  induction n as [|a n IH]; [done|]. simpl. intros [Ha Hn]%andb_true_iff. rewrite IH by done.
  unfold name_char_ok in Ha. destruct (Ascii.eqb a "."), (Ascii.eqb a "/"); done.
Qed.

(** The last component of a path, when it is a name. *)
Lemma path_file_name_last d n :
  n ≠ ""%string → n ≠ "."%string → n ≠ ".."%string → str_forall (λ a, negb (Ascii.eqb a "/")) n = true →
  path_file_name (d +:+ String "/" n) = Some n.
Proof.
  intros H0 H1 H2 Hn. unfold path_file_name. rewrite split_char_sep, (split_char_none "/" n) by done.
  rewrite filter_app, filter_cons_True by done. rewrite filter_nil, last_snoc. simpl.
  by rewrite decide_False.
Qed.

Lemma path_file_name_sep d n : upload_name n → path_file_name (d +:+ String "/" n) = Some n.
Proof.
  intros [Hne Hn]. apply path_file_name_last; [done|by intros ->|by intros ->|].
  eapply str_forall_impl; [|exact Hn]. intros a. unfold name_char_ok. by destruct (Ascii.eqb a "/").
Qed.

Lemma set_extension_name d n ext :
  upload_name n → set_extension ext (d +:+ String "/" n) = (d +:+ String "/" (n +:+ String "." ext))%string.
Proof.
  intros Hn. unfold set_extension. rewrite path_file_name_sep by done.
  assert (E : (d +:+ String "/" n)%string = ((d +:+ "/") +:+ n)%string) by (by rewrite append_assoc').
  rewrite E, strip_trailing_name by done.
  replace (String.length ((d +:+ "/") +:+ n) - String.length n)%nat with (String.length (d +:+ "/"))
    by (rewrite !length_append; lia).
  rewrite substring_prefix. unfold file_stem. rewrite before_last_none by apply Hn.
  by rewrite append_assoc'.
Qed.

(** ** Storing *)

(** [valid_sqlite]: the number of rows, or why the file is not a request file. *)
Definition valid_sqlite (count : result string Z) : result string Z :=
  n ← count; Ok (wrap 64 n).

(** [save_sqlite]: creating the file, copying the body (decompressed when it is [gzip]) and
    counting the rows may each fail; [copied] and [count] are told whether the body was
    decompressed. *)
Definition save_sqlite (uuid : string) (created : result string unit) (copied : bool → result string unit)
    (count : bool → result string Z) (content_encoding : string) : result GenericError (gmap string string) :=
  match created with
  | Err e => Err (internal_500 ("failed to create file: " +:+ e))
  | Ok _ =>
      let gzip := bool_decide (content_encoding = "gzip"%string) in
      match (_ ← copied gzip; valid_sqlite (count gzip)) with
      | Ok valid_count => Ok (file_upload_success_response uuid valid_count)
      | Err e => Err (internal_500 e)
      end
  end.

(** ** Downloading *)

(** [file_stream] after the seek: a list of reads of the file, each a piece of its bytes, an
    error or (when empty) the end of the file; at most [remaining] bytes are passed on. *)
Fixpoint file_stream (reads : list (result string (list Byte.byte))) (remaining : Z) :
    list (result string (list Byte.byte)) :=
  if remaining =? 0 then []
  else match reads with
       | [] => []
       | Err e :: reads' => Err e :: file_stream reads' remaining
       | Ok buf :: reads' =>
           let n := len buf in
           if n =? 0 then []
           else if remaining <? n then [Ok (take (Z.to_nat remaining) buf)]
           else Ok buf :: file_stream reads' (remaining - n)
       end.

(** The bytes of a stream without errors. *)
Definition bytes_of (chunks : list (result string (list Byte.byte))) : list Byte.byte :=
  mjoin (omap (λ c, match c with Ok b => Some b | Err _ => None end) chunks).

(** Rows from number [k + 1] on are read back as their requests. *)
Lemma rows_read_back_from valid_method parse_headers show_headers rows k :
  (∀ h, parse_headers (show_headers h) = Some h) → Forall (λ ch, valid_method (csv_method ch.1) = true) rows →
  row_rowid <$> imap (λ i ch, row_of show_headers (0 + Z.of_nat (k + i) + 1) (row_request "" ch)) rows =
    Z.of_nat <$> seq (S k) (length rows) ∧
  mapM (from_row valid_method parse_headers)
    (imap (λ i ch, row_of show_headers (0 + Z.of_nat (k + i) + 1) (row_request "" ch)) rows) =
    Val (imap (λ i ch, row_request (show_signed (Z.of_nat (k + i) + 1)) ch) rows).
Proof.
  intros Hh Hv. revert k. induction Hv as [|ch rows Hr Hv IH]; intros k; [done|]. destruct (IH (S k)) as [IH1 IH2].
  rewrite !imap_cons. cbn [length seq mapM]. rewrite !fmap_cons.
  rewrite (imap_ext (_ ∘ S) (λ i ch, row_of show_headers (0 + Z.of_nat (S k + i) + 1) (row_request "" ch)))
    by (intros; simpl; do 2 f_equal; lia).
  rewrite (imap_ext (_ ∘ S) (λ i ch, row_request (show_signed (Z.of_nat (S k + i) + 1)) ch))
    by (intros; simpl; do 3 f_equal; lia).
  rewrite IH1, IH2. split; [f_equal; simpl; lia|].
  unfold from_row at 1. cbn [row_method row_of method row_request]. rewrite Hr. cbn [row_headers row_of headers row_request]. rewrite Hh. cbn.
  by do 3 f_equal.
Qed.

Lemma rows_read_back valid_method parse_headers show_headers rows :
  (∀ h, parse_headers (show_headers h) = Some h) → Forall (λ ch, valid_method (csv_method ch.1) = true) rows →
  let table := imap (λ i ch, row_of show_headers (0 + Z.of_nat i + 1) (row_request "" ch)) rows in
  row_rowid <$> table = Z.of_nat <$> seq 1 (length rows) ∧
  mapM (from_row valid_method parse_headers) table = Val (imap (λ i ch, row_request (show_signed (Z.of_nat i + 1)) ch) rows).
Proof. intros Hh Hv. exact (rows_read_back_from valid_method parse_headers show_headers rows 0 Hh Hv). Qed.

(** ** Properties *)

(** C37: An uploaded CSV file becomes the table of its valid rows (a URL that is a URI, a
    known method, headers that are a JSON object of strings), if SQLite opens the database
    and inserts every row, numbering it with one more than the largest number so far: the
    rows are numbered from 1 in order, rows that cannot be read or are not valid are left
    out, the response has their number, and reading a row back gives a request with the
    method, the URL, the body and the headers of the line of the file, and its number as id.
    The JSON of the headers must read back what it prints. *)
Theorem csv_upload_round_trip valid_uri valid_method parse_headers show_headers items :
  (∀ h, parse_headers (show_headers h) = Some h) → len items <= usize_MAX →
  let rows := valid_rows valid_uri valid_method parse_headers items in
  ∃ table, csv_reader_to_sqlite valid_uri valid_method parse_headers show_headers true (λ t, Some (next_rowid t)) items =
             (Ok (len rows), table) ∧
    row_rowid <$> table = Z.of_nat <$> seq 1 (length rows) ∧
    mapM (from_row valid_method parse_headers) table =
      Val (imap (λ i ch, row_request (show_signed (Z.of_nat i + 1)) ch) rows).
Proof.
  intros Hh Hlen rows. unfold csv_reader_to_sqlite. rewrite csv_loop_spec by (done || lia). fold rows. eexists. split; [done|].
  rewrite app_nil_l.
  assert (Hv : Forall (λ ch, valid_method (csv_method ch.1) = true) rows).
  { apply Forall_forall. unfold rows, valid_rows. intros ch ([csv|e] & _ & E)%list_elem_of_omap; [|done].
    destruct (valid_uri _ && valid_method _) eqn:Ev; [|done]. apply fmap_Some in E as (h & _ & ->).
    by apply andb_true_iff in Ev as [_ ?]. }
  clearbody rows. change (len (@nil SqliteRow)) with 0. by apply rows_read_back.
Qed.

Lemma data_dir_not_empty env : data_dir_path env ≠ ""%string.
Proof.
  unfold data_dir_path. destruct (env "DATA_DIR") as [d|]; [|done].
  destruct (starts_with_char "/" d) eqn:E; [|done]. by intros ->.
Qed.

Lemma path_join_name d n :
  upload_name n → d ≠ ""%string → ends_with_char "/" d = false → path_join d n = (d +:+ String "/" n)%string.
Proof.
  intros [Hne Hn] Hd He. unfold path_join. destruct n as [|a n]; [done|]. simpl in Hn |- *.
  apply andb_true_iff in Hn as [Ha _]. unfold name_char_ok in Ha. destruct (Ascii.eqb a "/"); [done|].
  destruct d; [done|]. by rewrite He.
Qed.

(** Where a request that names an upload looks for it. *)
Lemma file_name_of_upload env uuid :
  upload_name uuid → ends_with_char "/" (data_dir_path env) = false →
  file_name_deserializer env uuid = csv_destination (data_dir_path env) uuid.
Proof.
  intros Hn He. unfold file_name_deserializer, csv_destination.
  rewrite path_join_name, set_extension_name by (done || apply data_dir_not_empty). done.
Qed.

(** The name an upload returns leads back to the file: a request that names it reads the
    path where the upload was stored, by either kind of upload, and naming that path again
    (as happens when the request is passed on to a secondary) leaves it as it is. *)
Theorem uploaded_file_found env uuid :
  upload_name uuid → ends_with_char "/" (data_dir_path env) = false →
  file_name_deserializer env uuid = csv_destination (data_dir_path env) uuid ∧
  file_name_deserializer env uuid = sqlite_destination (data_dir_path env) uuid ∧
  file_name_deserializer env (data_dir_path env +:+ String "/" uuid) = file_name_deserializer env uuid.
Proof.
  intros Hn He. pose proof (data_dir_not_empty env) as Hd. rewrite (file_name_of_upload env uuid Hn He).
  set (d := data_dir_path env) in *.
  assert (Hs : starts_with_char "/" d = true).
  { unfold d, data_dir_path. destruct (env "DATA_DIR") as [x|]; [|done].
    by destruct (starts_with_char "/" x) eqn:E. }
  unfold file_name_deserializer, sqlite_destination, csv_destination. fold d.
  rewrite (path_join_name d uuid), set_extension_name by done.
  split; [done|]. split; [done|]. unfold path_join.
  assert (starts_with_char "/" (d +:+ String "/" uuid) = true) as -> by (by destruct d).
  by rewrite set_extension_name.
Qed.

(** With a relative data directory a CSV file uploaded to a cluster cannot be found: it is
    stored relative to the working directory, and looked for under the root. *)
Theorem relative_data_dir_misplaces_upload :
  let env v := if String.eqb v "DATA_DIR" then Some "data"%string else None in
  csv_destination (data_dir env) "u" = "data/u.sqlite"%string ∧
  file_name_deserializer env "u" = "/data/u.sqlite"%string.
Proof. done. Qed.

Lemma file_stream_exact (pieces : list (list Byte.byte)) n :
  0 <= n → Forall (λ p, p ≠ []) pieces →
  bytes_of (file_stream (Ok <$> pieces) n) = take (Z.to_nat n) (mjoin pieces) ∧
  Forall (λ c, is_ok c = true) (file_stream (Ok <$> pieces) n).
Proof.
  intros Hn Hp. revert n Hn. induction Hp as [|p pieces Hp Hps IH]; intros n Hn; cbn [fmap list_fmap file_stream].
  { assert ((if n =? 0 then [] else []) = (@nil (result string (list Byte.byte)))) as -> by (by case_match).
    split; [by destruct (Z.to_nat n)|constructor]. }
  destruct (Z.eqb_spec n 0) as [->|Hn0]; [split; [done|constructor]|].
  assert (1 <= len p) by (destruct p; [done|]; rewrite len_cons; pose proof (len_nonneg p); lia).
  destruct (Z.eqb_spec (len p) 0); [lia|]. cbn [mjoin list_join].
  destruct (Z.ltb_spec n (len p)).
  - split; [|by repeat constructor]. unfold bytes_of. simpl. rewrite app_nil_r.
    rewrite take_app_le by (unfold len in *; lia). done.
  - destruct (IH (n - len p)) as [IH1 IH2]; [lia|]. split; [|by constructor].
    change (p ++ bytes_of (file_stream (Ok <$> pieces) (n - len p)) = take (Z.to_nat n) (p ++ mjoin pieces)).
    rewrite IH1, take_app_ge by (unfold len in *; lia).
    do 2 f_equal. unfold len. lia.
Qed.

(** A download is exact: however the file is cut into reads, the pieces that are passed on
    are together the first [n] bytes of the file, or the whole file if it is shorter. *)
Theorem download_exact (pieces : list (list Byte.byte)) n :
  0 <= n → Forall (λ p, p ≠ []) pieces →
  bytes_of (file_stream (Ok <$> pieces) n) = take (Z.to_nat n) (mjoin pieces) ∧
  Forall (λ c, is_ok c = true) (file_stream (Ok <$> pieces) n).
Proof. apply file_stream_exact. Qed.

(** ** Concrete inputs *)

(** A way to print and read headers that loses nothing. *)
Definition demo_show_headers (h : gmap string string) : string :=
  String.concat "" (replicate (Pos.to_nat (encode h)) "a"%string).
Definition demo_parse_headers (s : string) : option (gmap string string) := decode (Pos.of_nat (String.length s)).

Lemma demo_headers_round_trip h : demo_parse_headers (demo_show_headers h) = Some h.
Proof.
  unfold demo_parse_headers, demo_show_headers.
  assert (∀ n, String.length (String.concat "" (replicate n "a"%string)) = n) as ->.
  { intros n. induction n as [|[|n] IH]; [done|done|].
    change (String.length ("a" +:+ "" +:+ String.concat "" (replicate (S n) "a"%string)) = S (S n)).
    rewrite !length_append, IH. done. }
  rewrite Pos2Nat.id. apply decode_encode.
Qed.

Definition demo_csv : list (result string HttpReqCsvHelper) :=
  [Ok {| csv_method := "GET"; csv_url := "/a"; csv_body := None; csv_headers := demo_show_headers ∅ |};
   Err "bad"%string;
   Ok {| csv_method := "BAD"; csv_url := "/b"; csv_body := None; csv_headers := demo_show_headers ∅ |};
   Ok {| csv_method := "GET"; csv_url := "/c"; csv_body := Some "x"%string; csv_headers := demo_show_headers ∅ |}].

Definition demo_requests (table : list SqliteRow) : outcome (list HttpReq) :=
  mapM (from_row (String.eqb "GET") demo_parse_headers) table.

Lemma csv_upload_round_trip_witness :
  ∃ table, csv_reader_to_sqlite (λ _, true) (String.eqb "GET") demo_parse_headers demo_show_headers true
             (λ t, Some (next_rowid t)) demo_csv = (Ok 2, table) ∧
    demo_requests table = Val [mk_http_req "1" "GET" "/a" None ∅; mk_http_req "2" "GET" "/c" (Some "x"%string) ∅].
Proof.
  destruct (csv_upload_round_trip (λ _, true) (String.eqb "GET") demo_parse_headers demo_show_headers demo_csv
    demo_headers_round_trip ltac:(vm_compute; discriminate)) as (table & H1 & _ & H2).
  assert (Hrows : valid_rows (λ _, true) (String.eqb "GET") demo_parse_headers demo_csv =
    [({| csv_method := "GET"; csv_url := "/a"; csv_body := None; csv_headers := demo_show_headers ∅ |}, ∅);
     ({| csv_method := "GET"; csv_url := "/c"; csv_body := Some "x"%string; csv_headers := demo_show_headers ∅ |}, ∅)]).
  { unfold valid_rows, demo_csv. cbn [csv_url csv_method csv_headers csv_body omap list_omap String.eqb andb].
    simpl. rewrite demo_headers_round_trip. reflexivity. }
  exists table. rewrite Hrows in H1, H2. split; [exact H1|exact H2].
Defined.

Lemma uploaded_file_found_witness :
  file_name_deserializer (λ _, None) "3f2a" = csv_destination (data_dir_path (λ _, None)) "3f2a".
Proof.
  assert (Hn : upload_name "3f2a") by (split; [discriminate|vm_compute; reflexivity]).
  assert (He : ends_with_char "/" (data_dir_path (λ _, None)) = false) by (vm_compute; reflexivity).
  destruct (uploaded_file_found (λ _, None) "3f2a" Hn He) as [H _]. exact H.
Defined.

Lemma download_exact_witness :
  bytes_of (file_stream (Ok <$> [[Byte.x01; Byte.x02]; [Byte.x03]]) 2) = [Byte.x01; Byte.x02].
Proof.
  refine (proj1 (download_exact [[Byte.x01; Byte.x02]; [Byte.x03]] 2 ltac:(lia) _)).
  repeat constructor; discriminate.
Defined.
