(* ===== verification/FileNames.v ===== *)
(** * The names of request files

    The name of a request file in a test ([file_name_deserializer] of
    [overload-http/src/request_specs.rs]) becomes an absolute path with the extension
    [sqlite].  A test is read again on its way through the cluster, so this has to be the
    same path when it is done again. *)
From Stdlib Require Import ZArith Lia Ascii.
From stdpp Require Import base list gmap strings numbers sets.
From S2P Require Import Prelude Json Template HttpTypes Secondary Upload.

Local Open Scope string_scope.

(** A component that [Path::components] skips. *)
Definition skipped (c : string) : Prop := c = "" ∨ c = ".".
Definition no_sep (s : string) : Prop := str_forall (λ a, negb (Ascii.eqb a "/")) s = true.

Lemma kept_skipped c : ¬ (c ≠ "" ∧ c ≠ ".") ↔ skipped c.
Proof. unfold skipped. destruct (decide (c = "")), (decide (c = ".")); tauto. Qed.

Lemma split_cons_sep s : split_char "/" (String "/" s) = "" :: split_char "/" s.
Proof. done. Qed.

Lemma split_cons_other a s :
  a ≠ "/"%char → ∃ h t, split_char "/" s = h :: t ∧ split_char "/" (String a s) = String a h :: t.
Proof.
  intros Ha. cbn [split_char]. rewrite (proj2 (Ascii.eqb_neq a "/") Ha).
  destruct (split_char "/" s) as [|h t] eqn:E; [|eauto].
  exfalso. destruct s; simpl in E; [done|]. repeat case_match; done.
Qed.

Lemma only_seps_other a s : a ≠ "/"%char → only_seps (String a s) = false.
Proof. intros Ha. destruct a as [[] [] [] [] [] [] [] []]; first [done|by destruct Ha]. Qed.

Lemma only_seps_sep_other b s :
  b ≠ "."%char → only_seps (String "/" (String b s)) = only_seps (String b s).
Proof. intros Hb. destruct b as [[] [] [] [] [] [] [] []]; first [done|by destruct Hb]. Qed.

Lemma only_seps_iff s :
  only_seps s = true ↔ ∃ t, split_char "/" s = "" :: t ∧ Forall skipped t.
Proof.
  remember (String.length s) as n eqn:Hn. revert s Hn. induction (lt_wf n) as [n _ IH]. intros s ->.
  destruct s as [|a s]; [split; [by exists []|done]|].
  destruct (decide (a = "/"%char)) as [->|Ha].
  2: { rewrite only_seps_other by done. destruct (split_cons_other a s Ha) as (h & t & _ & ->).
       split; [done|]. intros (u & Hu & _). congruence. }
  rewrite split_cons_sep. destruct s as [|b s].
  { split; [|done]. exists [""]. split; [done|]. repeat constructor. }
  destruct (decide (b = "."%char)) as [->|Hb].
  - change (only_seps (String "/" (String "." s))) with (only_seps s || false).
    rewrite orb_false_r, (IH (String.length s)) by (simpl; lia || done).
    destruct (split_cons_other "." s) as (h & t & Hs & ->); [done|]. rewrite Hs. split.
    + intros (u & [= -> ->] & Hu). eexists. split; [done|]. constructor; [by right|done].
    + intros (u & [= <-] & Hu). apply Forall_cons in Hu as [[Hh|Hh] Ht]; [done|].
      injection Hh as ->. by exists t.
  - rewrite only_seps_sep_other, (IH (String.length (String b s))) by (simpl; lia || done).
    destruct (decide (b = "/"%char)) as [->|Hb'].
    + rewrite split_cons_sep. split.
      * intros (u & [= <-] & Hu). eexists. split; [done|]. constructor; [by left|done].
      * intros (u & [= <-] & [_ Hu]%Forall_cons). eauto.
    + destruct (split_cons_other b s Hb') as (h & t & _ & ->). split.
      * by intros (u & ? & _).
      * intros (u & [= <-] & [[?|Hc] _]%Forall_cons); [done|]. by injection Hc.
Qed.

Lemma filter_skipped l : Forall skipped l ↔ filter (λ c, c ≠ "" ∧ c ≠ ".") l = [].
Proof.
  induction l as [|c l IH]; [done|]. rewrite Forall_cons, IH, filter_cons.
  case_decide as H; rewrite <- kept_skipped; [|tauto]. split; [tauto|done].
Qed.

(** Skipped components at the end are cut off. *)
Lemma strip_trailing_skipped s h t :
  split_char "/" s = h :: t → Forall skipped t → strip_trailing s = h.
Proof.
  revert h t. induction s as [|a s IH]; intros h t Hs Ht; [by injection Hs as <- <-|].
  destruct (decide (a = "/"%char)) as [->|Ha].
  - rewrite split_cons_sep in Hs. injection Hs as <- <-. cbn [strip_trailing].
    assert (only_seps (String "/" s) = true) as ->; [|done]. apply only_seps_iff.
    rewrite split_cons_sep. eauto.
  - destruct (split_cons_other a s Ha) as (h' & t' & Hs' & Hs''). rewrite Hs'' in Hs. injection Hs as <- <-.
    cbn [strip_trailing]. rewrite only_seps_other by done. by rewrite (IH h' t').
Qed.

Lemma split_no_sep s : Forall no_sep (split_char "/" s).
Proof.
  induction s as [|a s IH]; [by repeat constructor|]. destruct (decide (a = "/"%char)) as [->|Ha].
  - rewrite split_cons_sep. by constructor.
  - destruct (split_cons_other a s Ha) as (h & t & Hs & ->). rewrite Hs in IH.
    apply Forall_cons in IH as [Hh Ht]. constructor; [|done]. unfold no_sep in *. simpl.
    by rewrite (proj2 (Ascii.eqb_neq a "/") Ha).
Qed.

(** A path up to the end of its last component: what is before that ends in a separator. *)
Lemma strip_trailing_last p l f :
  filter (λ c, c ≠ "" ∧ c ≠ ".") (split_char "/" p) = (l ++ [f])%list →
  ∃ pre, strip_trailing p = pre +:+ f ∧
    ((pre = "" ∧ ∃ t, split_char "/" p = f :: t ∧ Forall skipped t) ∨ ∃ d, pre = d +:+ "/").
Proof.
  revert l. induction p as [|a p IH]; intros l Hl; [by destruct l|].
  assert (Hns : only_seps (String a p) = false).
  { apply not_true_iff_false. rewrite only_seps_iff. intros (t & Ht & Hsk). rewrite Ht in Hl.
    rewrite (proj1 (filter_skipped ("" :: t))) in Hl; [by destruct l|]. constructor; [by left|done]. }
  cbn [strip_trailing]. rewrite Hns. destruct (decide (a = "/"%char)) as [->|Ha].
  { rewrite split_cons_sep, filter_cons_False in Hl by tauto.
    destruct (IH l Hl) as (pre & -> & Hpre). exists (String "/" pre). split; [done|right].
    destruct Hpre as [[-> _]|(d & ->)]; [by exists ""|by exists (String "/" d)]. }
  destruct (split_cons_other a p Ha) as (h & t & Hp & Hap). rewrite Hap in Hl.
  destruct (decide (Forall skipped t)) as [Ht|Ht] eqn:Ed; clear Ed.
  - rewrite (strip_trailing_skipped p h t) by done. exists "". rewrite filter_cons in Hl.
    rewrite (proj1 (filter_skipped t) Ht) in Hl. case_decide; [|by destruct l].
    destruct l as [|x [|]]; simplify_eq/=. split; [done|]. left. split; [done|]. eauto.
  - assert (∃ l', filter (λ c, c ≠ "" ∧ c ≠ ".") (split_char "/" p) = (l' ++ [f])%list) as [l' Hl'].
    { rewrite Hp, filter_cons. rewrite filter_cons in Hl.
      assert (∃ l2, filter (λ c, c ≠ "" ∧ c ≠ ".") t = (l2 ++ [f])%list) as [l2 Hl2].
      { case_decide; [|eauto]. destruct l as [|x l]; simplify_eq/=; [|eauto].
        destruct Ht. by apply filter_skipped. }
      clear Hl. case_decide; rewrite Hl2; [by exists (h :: l2)|eauto]. }
    destruct (IH l' Hl') as (pre & -> & [[-> (u & Hu & Hsk)]|(d & ->)]).
    + rewrite Hp in Hu. injection Hu as -> ->. done.
    + exists (String a (d +:+ "/")). split; [done|right]. by exists (String a d).
Qed.

(** A name with an extension. *)
Lemma extended_name stem ext :
  stem ≠ "" → no_sep stem → ext ≠ "" → no_sep ext → str_forall name_char_ok ext = true →
  let f := stem +:+ String "." ext in
  f ≠ "" ∧ f ≠ "." ∧ f ≠ ".." ∧ no_sep f ∧ file_stem f = stem.
Proof.
  intros Hs Hns He Hne Hd f. assert (Hf : f ≠ "" ∧ f ≠ "." ∧ f ≠ "..").
  { assert (3 <= String.length f)%nat.
    { unfold f. rewrite length_append. destruct stem, ext; simpl; done || lia. }
    clearbody f. split_and!; intros ->; simpl in *; lia. }
  destruct Hf as (H1 & H2 & H3). split_and!; try done.
  { unfold no_sep, f in *. rewrite str_forall_app. simpl. by rewrite Hns, Hne. }
  unfold file_stem, f. assert (before_last "." (stem +:+ String "." ext) = Some stem) as ->; [|by destruct stem].
  clear -Hd. induction stem as [|a stem IH].
  - change ("" +:+ String "." ext) with (String "." ext). simpl. by rewrite before_last_none.
  - change (String a stem +:+ String "." ext) with (String a (stem +:+ String "." ext)). simpl. by rewrite IH.
Qed.

Lemma strip_trailing_component d f :
  f ≠ "" → f ≠ "." → no_sep f → strip_trailing (d +:+ String "/" f) = d +:+ String "/" f.
Proof.
  intros H1 H2 Hns. assert (Hsp : split_char "/" f = [f]) by (by apply split_char_none).
  assert (Ho : ∀ d, only_seps (d +:+ String "/" f) = false).
  { intros x. apply not_true_iff_false. rewrite only_seps_iff, split_char_sep, Hsp. intros (t & Ht & Hsk).
    destruct (split_char "/" x) as [|h t']; simplify_eq/=. apply Forall_app in Hsk as [_ Hsk].
    apply Forall_cons in Hsk as [[]  _]; done. }
  induction d as [|a d IH].
  - change ("" +:+ String "/" f) with (String "/" f). cbn [strip_trailing].
    rewrite (Ho "" : only_seps (String "/" f) = false). f_equal. by apply (strip_trailing_skipped f f []).
  - change (String a d +:+ String "/" f) with (String a (d +:+ String "/" f)). cbn [strip_trailing].
    rewrite (Ho (String a d) : only_seps (String a (d +:+ String "/" f)) = false). by rewrite IH.
Qed.

(** What [set_extension] does to an absolute path with a file name. *)
Lemma set_extension_absolute ext p f :
  starts_with_char "/" p = true → path_file_name p = Some f →
  ∃ d, set_extension ext p = d +:+ String "/" (file_stem f +:+ String "." ext) ∧
       starts_with_char "/" (d +:+ "/") = true ∧ f ≠ "" ∧ no_sep f.
Proof.
  intros Hp Hf. unfold set_extension. rewrite Hf. unfold path_file_name in Hf.
  destruct (last _) as [g|] eqn:E; [|done]. simpl in Hf. case_decide; [done|]. injection Hf as ->.
  apply last_Some in E as [l E]. destruct (strip_trailing_last p l f E) as (pre & Hst & Hpre). rewrite Hst.
  assert (Hin : f ∈ (l ++ [f])%list) by (apply elem_of_app; right; by left).
  rewrite <- E in Hin. apply list_elem_of_filter in Hin as [[Hf1 Hf2] Hin].
  pose proof (split_no_sep p) as Hns. rewrite Forall_forall in Hns. specialize (Hns f Hin).
  destruct Hpre as [(-> & t & Ht & _)|(d & ->)].
  { destruct p as [|a p]; [done|]. simpl in Hp. apply Ascii.eqb_eq in Hp as ->.
    rewrite split_cons_sep in Ht. by injection Ht as <- _. }
  exists d. split_and!; [| |done|done].
  - rewrite length_append.
    replace (_ + _ - _)%nat with (String.length (d +:+ "/")) by lia. by rewrite substring_prefix, append_assoc'.
  - destruct p as [|a p]; [done|]. cbn [strip_trailing] in Hst. destruct (only_seps _).
    + by destruct d.
    + destruct d as [|b d]; [done|]. change ((String b d +:+ "/") +:+ f) with (String b ((d +:+ "/") +:+ f)) in Hst. by injection Hst as <- _.
Qed.

Lemma before_last_no_sep c s b : before_last c s = Some b → no_sep s → no_sep b.
Proof.
  revert b. induction s as [|a s IH]; intros b; simpl; [done|]. unfold no_sep in *. simpl.
  intros H [Ha Hs]%andb_true_iff. destruct (before_last c s) as [b'|] eqn:E.
  - injection H as <-. simpl. rewrite Ha. by apply IH.
  - destruct (Ascii.eqb a c); [|done]. by injection H as <-.
Qed.

Lemma file_stem_ok f : f ≠ "" → no_sep f → file_stem f ≠ "" ∧ no_sep (file_stem f).
Proof.
  intros Hf Hns. unfold file_stem. destruct (before_last "." f) as [[|a b]|] eqn:E; try done.
  split; [done|]. by eapply before_last_no_sep.
Qed.

(** Setting an extension again changes nothing. *)
Lemma set_extension_idem ext p :
  starts_with_char "/" p = true → ext ≠ "" → str_forall name_char_ok ext = true →
  set_extension ext (set_extension ext p) = set_extension ext p ∧
  starts_with_char "/" (set_extension ext p) = true.
Proof.
  intros Hp He Hd. destruct (path_file_name p) as [f|] eqn:Ef.
  2: { assert (set_extension ext p = p) as -> by (unfold set_extension; by rewrite Ef).
       split; [unfold set_extension; by rewrite Ef|done]. }
  destruct (set_extension_absolute ext p f Hp Ef) as (d & Hq & Hab & Hf & Hns). rewrite Hq.
  destruct (file_stem_ok f Hf Hns) as [Hst Hsn].
  destruct (extended_name (file_stem f) ext) as (H1 & H2 & H3 & H4 & H5); try done.
  { eapply str_forall_impl; [|exact Hd]. intros a. unfold name_char_ok. by destruct (Ascii.eqb a "/"). }
  split; [|by destruct d]. unfold set_extension at 1. rewrite path_file_name_last by done. cbv zeta.
  rewrite strip_trailing_component by done. rewrite H5. set (g := file_stem f +:+ String "." ext).
  assert (E : d +:+ String "/" g = (d +:+ "/") +:+ g) by (by rewrite append_assoc').
  rewrite E, length_append.
  replace (_ + _ - _)%nat with (String.length (d +:+ "/")) by lia. by rewrite substring_prefix, append_assoc'.
Qed.

Lemma data_dir_absolute env : starts_with_char "/" (data_dir_path env) = true.
Proof. unfold data_dir_path. destruct (env "DATA_DIR") as [d|]; [|done]. by destruct (starts_with_char "/" d) eqn:E. Qed.

(** Whatever the name of a request file in a test, reading the test again gives the same
    path, and the path is absolute. *)
Lemma file_name_idem env n :
  file_name_deserializer env (file_name_deserializer env n) = file_name_deserializer env n ∧
  starts_with_char "/" (file_name_deserializer env n) = true.
Proof.
  assert (Hj : starts_with_char "/" (path_join (data_dir_path env) n) = true).
  { pose proof (data_dir_absolute env) as Hd. unfold path_join.
    destruct (starts_with_char "/" n) eqn:E; [done|].
    destruct (data_dir_path env) as [|a d]; [done|]. by case_match. }
  destruct (set_extension_idem "sqlite" _ Hj) as [H1 H2]; [done|done|].
  unfold file_name_deserializer at 1 2 3 4. split; [|done]. unfold path_join at 1. by rewrite H2.
Qed.
