(* ===== verification/Api.v ===== *)
(** * The HTTP interface between nodes

    What goes over HTTP between a client, a node and the primary: the JSON of replies
    ([overload-http/src/lib.rs], [overload/src/overload/lib.rs]), and the handlers of a
    cluster, which answer themselves on the primary and pass the request on elsewhere
    ([overload/src/overload/cluster/mod.rs], [overload/src/overload/cluster/secondary.rs]).

    The HTTP client and everything it reaches are a parameter that changes a state [W] of
    the world outside, so that passing a request on has its effect there.  The membership
    of the cluster (the crate [cluster-mode]) is a [ClusterView]. *)
From Stdlib Require Import ZArith Lia Ascii.
From stdpp Require Import base list gmap strings numbers sets.
From S2P Require Import Prelude RateSpec Json Assert DataGen Template HttpTypes Jobs Upload.

Local Open Scope Z_scope.

(** ** Messages *)

Record HttpRequest := {
  rq_method : string;
  rq_uri : string;
  rq_headers : gmap string string;
  rq_body : string
}.

(** A body is JSON, plain text or a stream of pieces. *)
Inductive ReplyBody :=
| BodyJson (v : Value)
| BodyText (s : string)
| BodyStream (chunks : list (result string (list Byte.byte))).

Record Reply := { rp_status : Z; rp_body : ReplyBody }.

Definition json_reply (status : Z) (v : Value) : Reply := {| rp_status := status; rp_body := BodyJson v |}.

(** The JSON value of a body. *)
Definition body_json (b : ReplyBody) : option Value := match b with BodyJson v => Some v | _ => None end.

(** ** The JSON of replies *)

Definition error_code_str (e : ErrorCode) : string :=
  match e with
  | InactiveCluster => "InactiveCluster"
  | NoSecondary => "NoSecondary"
  | SqliteOpenFailed => "SqliteOpenFailed"
  | PreparationFailed => "PreparationFailed"
  | SecondaryClusterNode => "SecondaryClusterNode"
  | RequestFileNotFound => "RequestFileNotFound"
  | LuaParseFailure => "LuaParseFailure"
  | BodyGenerationFailure => "BodyGenerationFailure"
  | UriParamGenerationFailure => "UriParamGenerationFailure"
  | Others => "Others"
  end.

Definition error_codes : list ErrorCode :=
  [InactiveCluster; NoSecondary; SqliteOpenFailed; PreparationFailed; SecondaryClusterNode;
   RequestFileNotFound; LuaParseFailure; BodyGenerationFailure; UriParamGenerationFailure; Others].

Definition job_status_to_value (s : JobStatus) : Value :=
  match s with
  | Starting => Str "Starting"
  | InProgress => Str "InProgress"
  | Stopped => Str "Stopped"
  | Completed => Str "Completed"
  | Failed => Str "Failed"
  | JobError e => Obj [("Error"%string, Str (error_code_str e))]
  end.

(** The name of a variant without fields: the string, or an object with a null. *)
Definition unit_variant (v : Value) : option string :=
  match v with Str s => Some s | Obj [(s, Null)] => Some s | _ => None end.

Definition error_code_from_value (v : Value) : option ErrorCode :=
  s ← unit_variant v; List.find (λ e, String.eqb (error_code_str e) s) error_codes.

Definition job_status_from_value (v : Value) : option JobStatus :=
  match v with
  | Obj [(k, x)] =>
      if String.eqb k "Error" then JobError <$> error_code_from_value x
      else s ← unit_variant v;
           List.find (λ st, value_eqb (job_status_to_value st) (Str s)) [Starting; InProgress; Stopped; Completed; Failed]
  | Str s => List.find (λ st, value_eqb (job_status_to_value st) (Str s)) [Starting; InProgress; Stopped; Completed; Failed]
  | _ => None
  end.

(** [GenericResponse<T>]: its only field is flattened, the object is the map itself, in which
    the last of the members with a key stays. *)
Definition generic_response_to_value {T} (to : T → Value) (data : gmap string T) : Value :=
  Obj (map_fold (λ k x, obj_insert k (to x)) [] data).

Definition generic_response_from_value {T} (from : Value → option T) (v : Value) : option (gmap string T) :=
  match v with
  | Obj m => (λ l, list_to_map (reverse l)) <$> mapM (λ kv, x ← from kv.2; Some (kv.1, x)) m
  | _ => None
  end.

#[global] Arguments generic_response_to_value : simpl never.
#[global] Arguments generic_response_from_value : simpl never.

(** [GenericError]: the additional data stands beside the two fields. *)
Definition generic_error_to_value (e : GenericError) : Value :=
  Obj (map_fold (λ k x, obj_insert k (Str x))
         [("error_code"%string, int_value (error_code e)); ("message"%string, Str (error_message e))]
         (error_data e)).

(** The derived form of [Response]; other fields are ignored when it is read. *)
Definition response_to_value (r : Response) : Value :=
  Obj [("job_id"%string, Str (resp_job_id r)); ("status"%string, job_status_to_value (resp_status r))].

Definition response_from_value (v : Value) : option Response :=
  id ← value_get "job_id" v ≫= as_str;
  st ← value_get "status" v ≫= job_status_from_value;
  Some (response_new id st).

(** ** Errors of the client *)

(** [From<http::Error> for GenericError] *)
Definition from_http_error (text : string) : GenericError := generic_error_new text 400.

(** [from_error!]: hyper, anyhow, serde_json and I/O errors. *)
Definition from_error (text : string) : GenericError := generic_error_new text 500.

(** ** The cluster *)

(** What the cluster answers; [secondaries] is asked twice.  The URI of a node may be
    missing. *)
Record ClusterView := {
  is_active : bool;
  is_primary : bool;
  primaries : option (list (option string));
  secondaries : option (list (option string));
  secondaries_again : option (list (option string))
}.

(** [primary_uri]; the first node in iteration order. *)
Definition primary_uri (ps : option (list (option string))) : result GenericError string :=
  ok_or (internal_500 "No primary or invalid ServiceInstance URI")
    (match ps with Some (Some uri :: _) => Some uri | _ => None end).

Abbreviation PATH_JOB_STATUS := "/test/status"%string.
Abbreviation PATH_STOP_JOB := "/test/stop"%string.
Abbreviation PATH_FILE_UPLOAD := "/request-file/csv"%string.
Abbreviation PATH_FILE_UPLOAD_SQLITE := "/request-file/sqlite"%string.
Abbreviation PATH_REQUEST_DATA_FILE_DOWNLOAD := "/cluster/data-file/"%string.

Section Cluster.
  Context {W : Type} (client : HttpRequest → W → result string Reply * W).
  (** Which texts are URIs; joining a path to a URL; the text of a value and of the errors
      of reading a reply. *)
  Context (valid_uri : string → bool) (url_join : string → string → option string).
  Context (json_text : Value → string) (serde_error : Reply → string) (uri_error : string → string).

Definition inactive_cluster_error : GenericError :=
  {| error_code := 404; error_message := json_text (job_status_to_value (JobError InactiveCluster));
     error_data := ∅ |}.

(** [hyper::Request::builder()...body(..)?] *)
Definition build_request (method uri : string) (headers : gmap string string) (body : string) :
    result GenericError HttpRequest :=
  if valid_uri uri
  then Ok {| rq_method := method; rq_uri := uri; rq_headers := headers; rq_body := body |}
  else Err (from_http_error (uri_error uri)).

Definition forward_other_requests_to_primary {T} (from : Value → option T) (req : HttpRequest) (w : W) :
    result GenericError (gmap string T) * W :=
  let '(resp, w) := client req w in
  (match resp with
   | Err e => Err (from_error e)
   | Ok reply => ok_or (from_error (serde_error reply))
                   (body_json (rp_body reply) ≫= generic_response_from_value from)
   end, w).

Definition forward_stop_request_to_primary (job_id : string) (c : ClusterView) (w : W) :
    result GenericError (gmap string string) * W :=
  match primary_uri (primaries c) with
  | Ok uri =>
      match build_request "GET" (uri +:+ PATH_STOP_JOB +:+ "/" +:+ job_id) ∅ "" with
      | Ok request => forward_other_requests_to_primary as_str request w
      | Err e => (Err e, w)
      end
  | Err _ => (Err (internal_500 "Unknown error"), w)
  end.

Definition forward_get_status_request (params : JobStatusQueryParams) (c : ClusterView) (w : W) :
    result GenericError (gmap string JobStatus) * W :=
  match primary_uri (primaries c) with
  | Ok uri =>
      match build_request "GET" (uri +:+ PATH_JOB_STATUS +:+ "?" +:+ show_query params) ∅ "" with
      | Ok request => forward_other_requests_to_primary job_status_from_value request w
      | Err e => (Err e, w)
      end
  | Err _ => (Err (internal_500 "Unknown error"), w)
  end.

(** [forward_test_request] of a request with the text [text]; the error is that of
    [anyhow].  The client gives the length of a body that it has as a whole. *)
Definition forward_test_request (path text : string) (c : ClusterView) (w : W) : result string Response * W :=
  match primaries c with
  | None => (Err "Primary returns None"%string, w)
  | Some [] => (Ok (unknown_error_resp "error"), w)
  | Some (None :: _) => (Err "Invalid ServiceInstance URI"%string, w)
  | Some (Some uri :: _) =>
      match build_request "POST" (uri +:+ "/" +:+ path)
              {[ "content-length"%string := show_unsigned (Z.of_nat (String.length text)) ]} text with
      | Err e => (Err (error_message e), w)
      | Ok req =>
          let '(resp, w) := client req w in
          (match resp with
           | Err e => Err e
           | Ok reply => ok_or (serde_error reply) (body_json (rp_body reply) ≫= response_from_value)
           end, w)
      end
  end.

Definition handle_history_all (params : JobStatusQueryParams) (c : ClusterView) (m : JobMap) (w : W) :
    result GenericError (gmap string JobStatus) * W :=
  if negb (is_active c) then (Err inactive_cluster_error, w)
  else if is_primary c then (Ok (handle_get_status params m), w)
  else forward_get_status_request params c w.

Definition stop (job_id : string) (c : ClusterView) (m : JobMap) (w : W) :
    result GenericError (gmap string string) * JobMap * W :=
  if negb (is_active c) then (Err inactive_cluster_error, m, w)
  else if is_primary c then let '(r, m) := stop_job job_id m in (Ok r, m, w)
  else let '(r, w) := forward_stop_request_to_primary job_id c w in (r, m, w).

(** The second half of [handle_file_upload] and of [save_sqlite]: the body goes to the
    primary as it comes. *)
Definition forward_upload (path : string) (headers : gmap string string) (data : string) (c : ClusterView)
    (w : W) : outcome (result GenericError (gmap string string) * W) :=
  match primary_uri (primaries c) with
  | Ok uri =>
      url ← unwrap (url_join uri path);
      Val (match build_request "POST" url headers data with
           | Ok request => forward_other_requests_to_primary as_str request w
           | Err e => (Err e, w)
           end)
  | Err _ => Val (Err (internal_500 "Unknown error"), w)
  end.

(** [handle_file_upload]; [store] is [csv_stream_to_sqlite] on this node. *)
Definition handle_file_upload (store : result GenericError (gmap string string)) (data : string)
    (c : ClusterView) (content_len : Z) (w : W) : outcome (result GenericError (gmap string string) * W) :=
  if negb (is_active c) then Val (Err inactive_cluster_error, w)
  else if is_primary c then Val (store, w)
  else forward_upload PATH_FILE_UPLOAD {[ "content-length"%string := show_unsigned content_len ]} data c w.

(** [cluster::save_sqlite]; [store] is [file_uploader::save_sqlite] on this node. *)
Definition save_sqlite_cluster (store : string → result GenericError (gmap string string)) (data : string)
    (c : ClusterView) (content_len : Z) (content_encoding : string) (w : W) :
    outcome (result GenericError (gmap string string) * W) :=
  if negb (is_active c) then Val (Err inactive_cluster_error, w)
  else if is_primary c then Val (store content_encoding, w)
  else forward_upload PATH_FILE_UPLOAD_SQLITE
         (<[ "content-encoding"%string := content_encoding ]>
            {[ "content-length"%string := show_unsigned content_len ]}) data c w.

(** *** Fetching a file *)

(** [tokio::io::copy] of a body to a file: what is written, and how it ends. *)
Fixpoint copy_chunks (chunks : list (result string (list Byte.byte))) : list Byte.byte * result string unit :=
  match chunks with
  | [] => ([], Ok tt)
  | Ok b :: chunks' => let '(l, r) := copy_chunks chunks' in (b ++ l, r)
  | Err e :: _ => ([], Err e)
  end.

(** A body that is not a stream is its text. *)
Definition copy_body (text_bytes : ReplyBody → list Byte.byte) (b : ReplyBody) :
    list Byte.byte * result string unit :=
  match b with BodyStream chunks => copy_chunks chunks | _ => (text_bytes b, Ok tt) end.

(** [download_file_from_url]: what is written to the destination, and the result; [port] is
    [http_port()].  The status of the reply is not looked at. *)
Definition download_file_from_url (url_parse : string → option string) (text_bytes : ReplyBody → list Byte.byte)
    (port : Z) (host filename : string) (w : W) : outcome (list Byte.byte * result string unit * W) :=
  url ← unwrap (url_parse ("http://" +:+ host +:+ ":" +:+ show_unsigned port));
  url ← unwrap (u ← url_join url PATH_REQUEST_DATA_FILE_DOWNLOAD; url_join u filename);
  Val (match build_request "GET" url ∅ "" with
       | Err e => ([], Err (error_message e), w)
       | Ok req =>
           let '(resp, w) := client req w in
           match resp with
           | Err e => ([], Err e, w)
           | Ok reply => (copy_body text_bytes (rp_body reply), w)
           end
       end).

Section Tests.
  Context {Compiled Hir AST Conn Rng LuaFunction : Type} `{!RandomSource Hir Rng}.
  Context (parse_regex : string → option Hir) (request_file_exists : string → bool).
  Context (eval_function : string → result string LuaFunction).
  (** [serde_json::to_string] of a test. *)
  Context (request_text : Request Compiled Hir AST Conn → string).
  Context (multi_text : MultiRequest Compiled Hir AST Conn → string).

Local Abbreviation Req := (Request Compiled Hir AST Conn).

Definition handle_request_cluster (uuid : string) (r : Req) (c : ClusterView) (g : Rng) (w : W) :
    outcome (Response * list Req * Rng * W) :=
  let id := job_id uuid (name r) in
  let r := set_name r id in
  if negb (is_active c) then Val (response_new id (JobError InactiveCluster), [], g, w)
  else if is_primary c then
    no_secondary ← match secondaries c with
                   | None => Val true
                   | Some _ => l ← unwrap (secondaries_again c);
                               Val (match l with [] => true | _ => false end)
                   end;
    if no_secondary : bool then Val (response_new id (JobError NoSecondary), [], g, w)
    else '(ck, g) ← pre_check parse_regex request_file_exists eval_function r g;
         Val (match ck with
              | Err e => (response_new id (JobError e), [], g, w)
              | Ok _ => (response_new id Starting, [r], g, w)
              end)
  else let '(resp, w) := forward_test_request "test" (request_text r) c w in
       Val (match resp with Ok resp => resp | Err _ => unknown_error_resp id end, [], g, w).

Definition handle_multi_request_cluster (uuid : string) (m : MultiRequest Compiled Hir AST Conn)
    (c : ClusterView) (w : W) : Response * list Req * W :=
  let id := job_id uuid (mr_name m) in
  if negb (is_active c) then (response_new id (JobError InactiveCluster), [], w)
  else if is_primary c then (response_new id Starting, multi_spawn id 0 (requests m), w)
  else let '(resp, w) := forward_test_request "tests"
                           (multi_text {| mr_name := Some id; requests := requests m |}) c w in
       (match resp with Ok resp => resp | Err _ => unknown_error_resp id end, [], w).

End Tests.
End Cluster.

(** ** Lemmas *)

Lemma job_status_value_round_trip s : job_status_from_value (job_status_to_value s) = Some s.
Proof. by destruct s as [| | | | |[]]. Qed.

Lemma response_value_round_trip r : response_from_value (response_to_value r) = Some r.
Proof.
  destruct r as [id s]. unfold response_from_value, response_to_value. simpl.
  by rewrite job_status_value_round_trip.
Qed.

Lemma assoc_map_fold {T} (to : T → Value) (data : gmap string T) k :
  assoc k (map_fold (λ k x, obj_insert k (to x)) [] data) = to <$> data !! k.
Proof.
  revert k. apply (map_fold_weak_ind (λ l m, ∀ k, assoc k l = to <$> m !! k)).
  { intros k. by rewrite lookup_empty. }
  intros i x m l Hm IH k. destruct (decide (k = i)) as [->|Hne].
  - by rewrite assoc_obj_insert_eq, lookup_insert_eq.
  - by rewrite assoc_obj_insert_ne, lookup_insert_ne.
Qed.

Lemma mapM_assoc {T} (from : Value → option T) (to : T → Value) (m : list (string * Value)) :
  (∀ x, from (to x) = Some x) → Forall (λ kv, ∃ x, kv.2 = to x) m →
  ∃ l, mapM (λ kv, x ← from kv.2; Some (kv.1, x)) m = Some l ∧ ∀ k, assoc k m = to <$> assoc k l.
Proof.
  intros Hrt. induction 1 as [|[i v] m [x Hv] Hm IH]; simpl in *; [by exists []|].
  destruct IH as (l & Hl & Ha). subst v. rewrite Hrt. simpl. rewrite Hl. simpl.
  exists ((i, x) :: l). split; [done|]. intros k. simpl. by destruct (String.eqb i k).
Qed.

Lemma map_fold_values {T} (to : T → Value) (data : gmap string T) :
  Forall (λ kv, ∃ x, kv.2 = to x) (map_fold (λ k x, obj_insert k (to x)) [] data).
Proof.
  apply (map_fold_weak_ind (λ l _, Forall (λ kv, ∃ x, kv.2 = to x) l)); [constructor|].
  intros i x m l _ IH. apply Forall_forall. intros p [->|Hp]%obj_insert_elem; [by eexists|].
  rewrite Forall_forall in IH. by apply IH.
Qed.

Lemma map_fold_keys {T} (to : T → Value) (data : gmap string T) :
  keys_sorted (map_fold (λ k x, obj_insert k (to x)) [] data).
Proof. apply (map_fold_weak_ind (λ l _, keys_sorted l)); [done|]. intros k x m l _ Hl. by apply obj_insert_keys. Qed.

Lemma mapM_keys {T} (from : Value → option T) (m : list (string * Value)) l :
  mapM (λ kv, x ← from kv.2; Some (kv.1, x)) m = Some l → l.*1 = m.*1.
Proof.
  intros H%mapM_Some_1. induction H as [|[k v] [j x] m l H _ IH]; [done|]. simpl in *.
  destruct (from v); simplify_eq/=. by f_equal.
Qed.

(** A reply that is read as it was written has the same data. *)
Lemma generic_response_round_trip {T} (from : Value → option T) (to : T → Value) (data : gmap string T) :
  (∀ x, from (to x) = Some x) →
  generic_response_from_value from (generic_response_to_value to data) = Some data.
Proof.
  intros Hrt. unfold generic_response_from_value, generic_response_to_value.
  destruct (mapM_assoc from to _ Hrt (map_fold_values to data)) as (l & Hl & Ha).
  rewrite Hl. simpl. f_equal. rewrite <- (list_to_map_proper l (reverse l)).
  2: { rewrite (mapM_keys _ _ _ Hl). apply keys_sorted_nodup, map_fold_keys. }
  2: { by rewrite reverse_Permutation. }
  apply map_eq. intros k. rewrite lookup_list_to_map_assoc.
  specialize (Ha k). rewrite assoc_map_fold in Ha.
  destruct (data !! k) as [x|] eqn:Ed, (assoc k l) as [y|] eqn:El; simpl in Ha; try done.
  apply (f_equal (λ o, o ≫= from)) in Ha. simpl in Ha. rewrite !Hrt in Ha. done.
Qed.

(** A stream without errors is copied as it is. *)
Lemma copy_chunks_ok chunks :
  Forall (λ c, is_ok c = true) chunks → copy_chunks chunks = (bytes_of chunks, Ok tt).
Proof.
  induction 1 as [|c chunks Hc Hcs IH]; [done|]. destruct c as [b|e]; [|done].
  cbn [copy_chunks]. by rewrite IH.
Qed.

(** An error that is read as a reply is an error again: its code is neither a text nor a
    job status. *)
Lemma generic_error_not_response e {T} (from : Value → option T) :
  (∀ n, from (Num n) = None) → error_data e = ∅ →
  generic_response_from_value from (generic_error_to_value e) = None.
Proof.
  intros Hf He. unfold generic_error_to_value. rewrite He, map_fold_empty. unfold generic_response_from_value. simpl.
  unfold int_value. destruct (error_code e <? 0); by rewrite Hf.
Qed.
