(* ===== verification/Serde.v ===== *)
(** * Serde: derived (de)serialisation

    What [#[derive(Serialize, Deserialize)]] generates for the types of a test, over the
    documents of [Json]: the tree of a JSON text, in which the members of an object are in
    the order of the text and may have the same key.  A [codec] is the pair of [Serialize] and [Deserialize] of a type;
    [stable] is the property that is carried from the fields of a type to the type: what
    was read can be written and is then read again as it was.

    A test with several faults is rejected; which of them is reported first depends on the
    order of the text and is left out, so [Rejected] has no message. *)
From Stdlib Require Import ZArith Lia Ascii SpecFloat.
From stdpp Require Import base list gmap strings numbers sets.
From S2P Require Import Prelude Float32 Json Jobs Api.

Local Open Scope Z_scope.

(** ** Results of reading *)

Inductive decoded (A : Type) : Type :=
| Decoded (a : A)
| Rejected
| Panicked.
Arguments Decoded {A} a.
Arguments Rejected {A}.
Arguments Panicked {A}.

#[export] Instance decoded_ret : MRet decoded := λ A a, Decoded a.
#[export] Instance decoded_bind : MBind decoded :=
  λ A B f r, match r with Decoded a => f a | Rejected => Rejected | Panicked => Panicked end.

Definition of_option {A} (o : option A) : decoded A :=
  match o with Some a => Decoded a | None => Rejected end.

(** [try_from] *)
Definition of_result {E A} (r : result E A) : decoded A :=
  match r with Ok a => Decoded a | Err _ => Rejected end.

Lemma bind_decoded {A B} (m : decoded A) (f : A → decoded B) y :
  m ≫= f = Decoded y → ∃ x, m = Decoded x ∧ f x = Decoded y.
Proof. destruct m; simpl; eauto; done. Qed.

(** ** Codecs *)

Record codec (A : Type) := { ser : A → outcome Value; de : Value → decoded A }.
Arguments ser {A} _ _.
Arguments de {A} _ _.

(** [x] is written, and read again as [x]. *)
Definition reads_back {A} (c : codec A) (x : A) : Prop :=
  ∃ v, ser c x = Val v ∧ de c v = Decoded x.

(** What is read from a JSON value reads back, if it keeps to [P]. *)
Class Stable {A} (c : codec A) (P : A → Prop) : Prop :=
  stable v x : wf_doc v → de c v = Decoded x → P x → reads_back c x.

Abbreviation always := (λ _, True).

(** ** Scalars *)

Definition string_codec : codec string :=
  {| ser s := Val (Str s); de v := of_option (as_str v) |}.

(** Unsigned integers of the type with this maximum, and their [NonZero] variants. *)
Definition as_unsigned (min max : Z) (v : Value) : option Z :=
  match v with
  | Num (PosInt n) => if (min <=? n) && (n <=? max) then Some n else None
  | _ => None
  end.

Definition unsigned_codec (min max : Z) : codec Z :=
  {| ser n := Val (Num (PosInt n)); de v := of_option (as_unsigned min max v) |}.

Abbreviation u16_codec := (unsigned_codec 0 u16_MAX).
Abbreviation u32_codec := (unsigned_codec 0 u32_MAX).
Abbreviation usize_codec := (unsigned_codec 0 usize_MAX).

(** A float that is not finite is written as [null]. *)
Definition f64_codec : codec spec_float :=
  {| ser x := Val (if f32_finite x then Num (Float x) else Null);
     de v := match v with
              | Num (PosInt n) | Num (NegInt n) => Decoded (f64_of_Z n)
              | Num (Float f) => Decoded f
              | _ => Rejected
              end |}.

Definition f32_codec : codec f32 :=
  {| ser x := Val (if f32_finite x then Num (Float (f64_of_f32 x)) else Null);
     de v := match v with
              | Num (PosInt n) | Num (NegInt n) => Decoded (f32_of_Z n)
              | Num (Float f) => Decoded (f32_of_f64 f)
              | _ => Rejected
              end |}.

(** [serde_json::Value] itself: a map keeps the last of the members with a key. *)
Definition value_codec : codec Value := {| ser v := Val v; de v := Decoded (normalise v) |}.

(** ** Containers *)

Definition option_codec {A} (c : codec A) : codec (option A) :=
  {| ser o := match o with None => Val Null | Some x => ser c x end;
     de v := match v with Null => Decoded None | _ => x ← de c v; Decoded (Some x) end |}.

(** A [Vec]; the reading of an element may depend on its position. *)
Fixpoint dec_seq {A} (f : nat → Value → decoded A) (i : nat) (l : list Value) : decoded (list A) :=
  match l with
  | [] => Decoded []
  | v :: l' => x ← f i v; xs ← dec_seq f (S i) l'; Decoded (x :: xs)
  end.

Definition dec_vec {A} (f : nat → Value → decoded A) (v : Value) : decoded (list A) :=
  match v with Arr l => dec_seq f 0 l | _ => Rejected end.

Definition enc_vec {A} (f : A → outcome Value) (l : list A) : outcome Value :=
  vs ← mapM f l; Val (Arr vs).

Definition vec_codec {A} (c : codec A) : codec (list A) :=
  {| ser := enc_vec (ser c); de := dec_vec (λ _, de c) |}.

(** [HashMap<String, String>]: the last of the members with a key stays. *)
Definition map_codec : codec (gmap string string) :=
  {| ser h := Val (Obj (map_fold (λ k x, obj_insert k (Str x)) [] h));
     de v := match v with
              | Obj m => l ← of_option (mapM (λ kv, x ← as_str kv.2; Some (kv.1, x)) m);
                         Decoded (list_to_map (reverse l))
              | _ => Rejected
              end |}.

(** ** Structs *)

(** A struct is read from an object by name, or from an array by position. *)
Inductive fields :=
| ByName (m : list (string * Value))
| ByPosition (l : list Value).

Definition as_fields (n : nat) (v : Value) : decoded fields :=
  match v with
  | Obj m => Decoded (ByName m)
  | Arr l => if (length l <=? n)%nat then Decoded (ByPosition l) else Rejected
  | _ => Rejected
  end.

(** The member of an object with this name; a field that is given twice is an error. *)
Fixpoint occurrences (k : string) (m : list (string * Value)) : list Value :=
  match m with
  | [] => []
  | (j, x) :: m' => if String.eqb j k then x :: occurrences k m' else occurrences k m'
  end.

Definition member (k : string) (m : list (string * Value)) : decoded (option Value) :=
  match occurrences k m with
  | [] => Decoded None
  | [x] => Decoded (Some x)
  | _ => Rejected
  end.

Definition get_field (i : nat) (k : string) (fs : fields) : decoded (option Value) :=
  match fs with ByName m => member k m | ByPosition l => Decoded (l !! i) end.

(** A field, an [Option] field (which may be missing by name only) and a field with a
    default. *)
Definition field {A} (f : Value → decoded A) (i : nat) (k : string) (fs : fields) : decoded A :=
  o ← get_field i k fs; x ← of_option o; f x.

Definition optional {A} (c : codec A) (i : nat) (k : string) (fs : fields) : decoded (option A) :=
  o ← get_field i k fs;
  match o, fs with
  | Some x, _ => de (option_codec c) x
  | None, ByName _ => Decoded None
  | None, ByPosition _ => Rejected
  end.

Definition defaulted {A} (d : A) (f : Value → decoded A) (i : nat) (k : string) (fs : fields) : decoded A :=
  o ← get_field i k fs;
  match o with Some x => f x | None => Decoded d end.

(** Writing a struct: its fields in an object, in their order. *)
Fixpoint enc_fields (fs : list (string * outcome Value)) : outcome (list (string * Value)) :=
  match fs with
  | [] => Val []
  | (k, v) :: fs' => x ← v; m ← enc_fields fs'; Val ((k, x) :: m)
  end.

Definition enc_struct (fs : list (string * outcome Value)) : outcome Value :=
  m ← enc_fields fs; Val (Obj m).

(** ** Enums: a variant without contents by its name, others as an object of one entry *)

Definition as_variant (v : Value) : decoded (string * option Value) :=
  match v with
  | Str s => Decoded (s, None)
  | Obj [(k, x)] => Decoded (k, Some x)
  | _ => Rejected
  end.

Definition enc_variant (k : string) (v : outcome Value) : outcome Value :=
  x ← v; Val (Obj [(k, x)]).

(** The contents of a variant: none (or [null]), or a value. *)
Definition unit_variant {A} (x : A) (o : option Value) : decoded A :=
  match o with None | Some Null => Decoded x | _ => Rejected end.

Definition newtype_variant {A B} (f : Value → decoded A) (g : A → B) (o : option Value) : decoded B :=
  v ← of_option o; x ← f v; Decoded (g x).

(** ** Lemmas *)

Lemma member_elem k m x : member k m = Decoded (Some x) → (k, x) ∈ m.
Proof.
  unfold member. destruct (occurrences k m) as [|y [|]] eqn:E; [done| |done]. intros [= ->].
  assert (H : x ∈ occurrences k m) by (rewrite E; left). clear E.
  induction m as [|[j y] m IH]; simpl in H; [by apply elem_of_nil in H|].
  destruct (String.eqb_spec j k) as [->|]; [|right; by apply IH].
  apply elem_of_cons in H as [->|H]; [left|right; by apply IH].
Qed.

Lemma get_field_wf n v fs i k x :
  wf_doc v → as_fields n v = Decoded fs → get_field i k fs = Decoded (Some x) → wf_doc x.
Proof.
  intros Hv. destruct v; simpl; try done.
  - case_match; [|done]. intros [= <-]. simpl. inversion Hv; subst.
    intros [= Hx]. by eapply Forall_lookup in Hx.
  - intros [= <-] Hx%member_elem. inversion Hv as [| | | | | | |m' Hm]; subst. rewrite Forall_forall in Hm. by apply (Hm _ Hx).
Qed.

Lemma as_variant_wf v k x : wf_doc v → as_variant v = Decoded (k, Some x) → wf_doc x.
Proof.
  intros Hv. destruct v as [| | | | |[|[i y] []]]; simpl; try done. intros [= <- <-].
  inversion Hv as [| | | | | | |m' Hm]; subst. by inversion Hm.
Qed.

Lemma newtype_inv {A B} (f : Value → decoded A) (g : A → B) o y :
  newtype_variant f g o = Decoded y → ∃ v x, o = Some v ∧ f v = Decoded x ∧ y = g x.
Proof.
  intros (v & Hv & (x & Hx & [= <-])%bind_decoded)%bind_decoded. destruct o; simplify_eq/=. eauto.
Qed.

Lemma unit_inv {A} (x y : A) o : unit_variant x o = Decoded y → y = x.
Proof. destruct o as [[]|]; simpl; congruence. Qed.

(** The value of a codec is never [null]. *)
Class NeverNull {A} (c : codec A) : Prop := never_null x : de c Null ≠ Decoded x.

Lemma option_back {A} (c : codec A) `{!NeverNull c} x : reads_back c x → reads_back (option_codec c) (Some x).
Proof.
  intros (v & He & Hd). exists v. split; [done|]. simpl.
  destruct v; [by destruct (never_null x)|by rewrite Hd..].
Qed.

#[export] Instance option_stable {A} (c : codec A) P `{!Stable c P, !NeverNull c} :
  Stable (option_codec c) (λ o, ∀ y, o = Some y → P y).
Proof.
  intros v x Hv Hx HP. simpl in Hx.
  assert (x = None ∨ ∃ y, x = Some y ∧ de c v = Decoded y) as [->|(y & -> & Hy)].
  { destruct v; [by simplify_eq; left|right; apply bind_decoded in Hx as (y & Hy & [= <-]); eauto..]. }
  - by exists Null.
  - apply (option_back c). by eapply stable; [|done|auto].
Qed.

#[export] Instance string_never_null : NeverNull string_codec.
Proof. done. Qed.

#[export] Instance vec_never_null {A} (c : codec A) : NeverNull (vec_codec c).
Proof. done. Qed.

Section Fields.
  Context {A : Type} (c : codec A) (P : A → Prop) `{!Stable c P}.
  Context (n : nat) (v : Value) (fs : fields) (Hv : wf_doc v) (Hfs : as_fields n v = Decoded fs).

Lemma field_back i k x : field (de c) i k fs = Decoded x → P x → reads_back c x.
Proof.
  intros (o & E & (w & Hw & Hx)%bind_decoded)%bind_decoded HP. destruct o as [u|]; simpl in Hw; simplify_eq.
  by eapply stable; [eapply get_field_wf| |].
Qed.

Lemma defaulted_back d i k x :
  reads_back c d → defaulted d (de c) i k fs = Decoded x → P x → reads_back c x.
Proof.
  intros Hd (o & E & Hx)%bind_decoded HP. destruct o as [u|]; [|by injection Hx as <-]. by eapply stable; [eapply get_field_wf| |].
Qed.

Lemma optional_back `{!NeverNull c} i k x :
  optional c i k fs = Decoded x → (∀ y, x = Some y → P y) → reads_back (option_codec c) x.
Proof.
  intros (o & E & Hx)%bind_decoded HP. destruct o as [u|].
  - eapply (option_stable c P); [by eapply get_field_wf|done|done].
  - destruct fs; [|done]. injection Hx as <-. by exists Null.
Qed.

End Fields.

Lemma newtype_back {A B} (c : codec A) P `{!Stable c P} (g : A → B) v k o y :
  wf_doc v → as_variant v = Decoded (k, o) → newtype_variant (de c) g o = Decoded y →
  ∃ x, y = g x ∧ (P x → reads_back c x).
Proof.
  intros Hv Hk (w & x & -> & Hx & ->)%newtype_inv. exists x. split; [done|]. intros HP.
  by eapply stable; [eapply as_variant_wf| |].
Qed.

#[export] Instance string_stable : Stable string_codec always.
Proof. intros [] x _ H _; try done. by exists (Str x); simplify_eq/=. Qed.

#[export] Instance value_stable : Stable value_codec always.
Proof. intros v x Hv [= <-] _. exists (normalise v). split; [done|]. simpl. f_equal. by apply normalise_id, normalise_wf. Qed.

#[export] Instance unsigned_stable min max : Stable (unsigned_codec min max) always.
Proof.
  intros v x _ H _. exists (Num (PosInt x)). split; [done|]. simpl in *. destruct v as [| |[n|n|f]| | |]; try done.
  simpl in *. destruct (_ && _) eqn:E; [|done]. simplify_eq/=. by rewrite E.
Qed.

#[export] Instance f64_stable : Stable f64_codec (λ x, f32_finite x = true).
Proof. intros v x _ _ Hx. exists (Num (Float x)). simpl. by rewrite Hx. Qed.

(** The representation of an [f32] that is neither infinite nor a NaN. *)
Definition f32_ok (x : f32) : bool := f32_finite x && valid_binary 24 128 x.

#[export] Instance f32_stable : Stable f32_codec (λ x, f32_ok x = true).
Proof.
  intros v x _ _ [Hx Hv]%andb_true_iff. exists (Num (Float (f64_of_f32 x))). simpl. rewrite Hx.
  split; [done|]. by rewrite f32_f64_round_trip.
Qed.

Lemma dec_seq_inv {A} (f : nat → Value → decoded A) i l xs :
  dec_seq f i l = Decoded xs → Forall2 (λ v x, ∃ j, f j v = Decoded x) l xs.
Proof.
  revert i xs. induction l as [|v l IH]; intros i xs; simpl; [by intros [= <-]|].
  intros (x & Hx & (ys & Hys & [= <-])%bind_decoded)%bind_decoded. constructor; eauto.
Qed.

Lemma dec_vec_each {A} (g : nat → Value → decoded A) (Q : A → Prop) v xs :
  wf_doc v → dec_vec g v = Decoded xs →
  (∀ j w x, wf_doc w → x ∈ xs → g j w = Decoded x → Q x) → Forall Q xs.
Proof.
  intros Hv Hx HQ. destruct v as [| | | |l|]; try done. simpl in Hx. apply dec_seq_inv in Hx.
  assert (Hl : Forall wf_doc l) by (by inversion Hv). clear Hv.
  induction Hx as [|w x l xs (j & Hj) Hx IH]; [done|]. apply Forall_cons in Hl as [Hw Hl].
  constructor; [eapply HQ; [done|by left|done]|]. apply IH; [|done]. intros i u y Hu Hy. apply HQ; [done|by right].
Qed.

(** Elements that read back by each of the readers [g u] make a vector that does. *)
Lemma vec_back {A U} (f : A → outcome Value) (g : U → nat → Value → decoded A) xs :
  Forall (λ x, ∃ v, f x = Val v ∧ ∀ u j, g u j v = Decoded x) xs →
  ∃ v, enc_vec f xs = Val v ∧ ∀ u, dec_vec (g u) v = Decoded xs.
Proof.
  intros H. assert (∃ vs, mapM f xs = Val vs ∧ ∀ u i, dec_seq (g u) i vs = Decoded xs) as (vs & Hvs & Hd).
  { induction H as [|x xs (v & Hf & Hg) _ (vs & Hvs & Hd)]; [by exists []|]. exists (v :: vs). split.
    - cbn [mapM]. by rewrite Hf; simpl; rewrite Hvs.
    - intros u i. simpl. rewrite Hg. simpl. by rewrite Hd. }
  exists (Arr vs). unfold enc_vec. rewrite Hvs. split; [done|]. intros u. apply Hd.
Qed.

Lemma vec_each {A} (c : codec A) P `{!Stable c P} v xs :
  wf_doc v → de (vec_codec c) v = Decoded xs → Forall P xs → Forall (reads_back c) xs.
Proof.
  intros Hv Hx HP. eapply dec_vec_each; [done|exact Hx|]. intros j w x Hw Hin Hj.
  rewrite Forall_forall in HP. apply (stable w); auto.
Qed.

Lemma vec_reads_back {A} (c : codec A) xs : Forall (reads_back c) xs → reads_back (vec_codec c) xs.
Proof.
  intros H. destruct (vec_back (ser c) (λ (_ : unit) _, de c) xs) as (v & He & Hd).
  - eapply Forall_impl; [exact H|]. intros x (v & He & Hd). by exists v.
  - by exists v; split; [|apply (Hd tt)].
Qed.

#[export] Instance vec_stable {A} (c : codec A) P `{!Stable c P} : Stable (vec_codec c) (Forall P) | 10.
Proof. intros v xs Hv Hx HP. by eapply vec_reads_back, vec_each. Qed.

#[export] Instance vec_stable_always {A} (c : codec A) `{!Stable c always} : Stable (vec_codec c) always | 0.
Proof. intros v xs Hv Hx _. eapply vec_stable; [done..|]. by apply Forall_forall. Qed.

Lemma map_reads_back h : reads_back map_codec h.
Proof.
  eexists. split; [done|]. simpl.
  pose proof (generic_response_round_trip as_str Str h ltac:(done)) as Hrt.
  unfold generic_response_from_value, generic_response_to_value in Hrt.
  destruct (mapM _ _) as [l|] eqn:E; [|done]. simpl in *. by simplify_eq.
Qed.

#[export] Instance map_stable : Stable map_codec always.
Proof. intros v h _ _ _. apply map_reads_back. Qed.

(** ** What reading guarantees *)

(** Whatever JSON is read, what comes out has [Q]. *)
Class Yields {A} (c : codec A) (Q : A → Prop) : Prop := yields v x : de c v = Decoded x → Q x.

#[export] Instance unsigned_yields min max : Yields (unsigned_codec min max) (λ n, min <= n <= max).
Proof.
  intros v x H. cbn in H. destruct v as [| |[n|n|f]| | |]; try done. cbn in H.
  destruct (_ && _) eqn:E; [|done]. injection H as <-. apply andb_true_iff in E as [?%Z.leb_le ?%Z.leb_le]. lia.
Qed.

Lemma vec_yields_each {A} (g : nat → Value → decoded A) (Q : A → Prop) v xs :
  (∀ j w x, g j w = Decoded x → Q x) → dec_vec g v = Decoded xs → Forall Q xs.
Proof.
  intros HQ Hx. destruct v as [| | | |l|]; try done. simpl in Hx. apply dec_seq_inv in Hx.
  induction Hx as [|w x l xs (j & Hj) Hx IH]; constructor; eauto.
Qed.

#[export] Instance vec_yields {A} (c : codec A) Q `{!Yields c Q} : Yields (vec_codec c) (Forall Q).
Proof. intros v xs Hx. eapply vec_yields_each; [|exact Hx]. intros ?. apply yields. Qed.

Section FieldsYield.
  Context {A : Type} (c : codec A) (Q : A → Prop) `{!Yields c Q} (fs : fields).

Lemma field_yields i k x : field (de c) i k fs = Decoded x → Q x.
Proof. intros (o & _ & (w & _ & Hx)%bind_decoded)%bind_decoded. by apply (yields w). Qed.

Lemma defaulted_yields d i k x : Q d → defaulted d (de c) i k fs = Decoded x → Q x.
Proof. intros Hd ([x'|] & _ & Hx)%bind_decoded; [by apply (yields x')|congruence]. Qed.

Lemma newtype_yields {B} (g : A → B) o y : newtype_variant (de c) g o = Decoded y → ∃ x, y = g x ∧ Q x.
Proof. intros (v & x & _ & Hx & ->)%newtype_inv. exists x. split; [done|]. by apply (yields v). Qed.

End FieldsYield.

(** ** Automation *)

(** Splits a chain of binds that gave a value. *)
Ltac decode_inv :=
  repeat match goal with
  | H : _ ≫= _ = Decoded _ |- _ => apply bind_decoded in H as (? & ? & H)
  | H : of_option ?o = Decoded _ |- _ => let E := fresh "E" in destruct o eqn:E; simpl in H; [|discriminate H]
  | H : Decoded _ = Decoded _ |- _ => injection H as H
  end.

(** Turns what was read from a field into what its codec reads back. *)
Ltac fields_back :=
  repeat match goal with
  | Hv : wf_doc ?v, Hfs : as_fields ?n ?v = Decoded ?fs, H : field (de ?c) ?i ?k ?fs = Decoded ?x |- _ =>
      apply (field_back c _ n v fs Hv Hfs i k x) in H as (? & ? & ?); [|by auto]
  | Hv : wf_doc ?v, Hfs : as_fields ?n ?v = Decoded ?fs, H : optional ?c ?i ?k ?fs = Decoded ?x |- _ =>
      apply (optional_back c _ n v fs Hv Hfs i k x) in H as (? & ? & ?); [|by eauto]
  | Hv : wf_doc ?v, Hfs : as_fields ?n ?v = Decoded ?fs, H : defaulted ?d (de ?c) ?i ?k ?fs = Decoded ?x |- _ =>
      apply (defaulted_back c _ n v fs Hv Hfs d i k x) in H as (? & ? & ?); [|by eexists|by auto]
  end.

Ltac codec_rewrite :=
  repeat match goal with
  | H : ser ?c ?x = Val _ |- context [ser ?c ?x] => rewrite H
  | H : de ?c ?v = Decoded _ |- context [de ?c ?v] => rewrite H
  end.

(** Evaluates what was written, with the values of the fields left as they are. *)
Ltac encode_done :=
  lazymatch goal with
  | |- ?l = Val ?e => let l' := eval vm_compute in l in
                      lazymatch l' with Val ?v => unify e v; vm_compute; reflexivity end
  end.

(** Turns what was read from fields and variants into what their codecs guarantee. *)
Ltac fields_yield :=
  repeat match goal with
  | H : field (de ?c) ?i ?k ?fs = Decoded ?x |- _ => apply (field_yields c _ fs i k x) in H
  | H : defaulted ?d (de ?c) ?i ?k ?fs = Decoded ?x |- _ =>
      apply (defaulted_yields c _ fs d i k x) in H; [|by repeat split; vm_compute]
  | H : newtype_variant (de ?c) ?g ?o = Decoded ?y |- _ => apply (newtype_yields c _ g o y) in H as (? & -> & H)
  | H : unit_variant _ _ = Decoded _ |- _ => apply unit_inv in H as ->
  | p : string * option Value |- _ => destruct p as [? ?]
  | H : (if ?b then _ else _) = Decoded _ |- _ => destruct b eqn:?; [|try discriminate H]
  end.
