(* ===== verification/Codec.v ===== *)
(** * The JSON of a test

    The derived serde code of the types of a test: [overload-http/src/lib.rs],
    [overload-http/src/rate_spec.rs], [overload-http/src/request_specs.rs],
    [common-types/src/lib.rs], [response-assert/src/lib.rs] and [datagen/src/lib.rs].  One
    codec per type, with the names, defaults, skipped fields and [try_from] conversions
    that its attributes ask for.

    The compilers of JSON paths, regular expressions and rhai programs, the methods that
    [http] accepts and the environment are arguments.  [uuid i] is the UUID drawn for the
    request at position [i] of a list when it has no id. *)
From Stdlib Require Import ZArith Lia Ascii SpecFloat.
From stdpp Require Import base list gmap strings numbers sets.
From S2P Require Import Prelude Float32 RateSpec Json Assert DataGen Template HttpTypes.
From S2P Require Import Upload FileNames Serde.

Local Open Scope Z_scope.

(** ** Rates *)

Definition constant_rate_codec : codec ConstantRate :=
  {| ser r := enc_struct [("countPerSec"%string, ser u32_codec (cr_count_per_sec r))];
     de v := fs ← as_fields 1 v;
              n ← field (de u32_codec) 0 "countPerSec" fs;
              Decoded {| cr_count_per_sec := n |} |}.

Definition array_spec_codec : codec ArraySpec :=
  {| ser r := enc_struct [("countPerSec"%string, ser (vec_codec u32_codec) (as_count_per_sec r))];
     de v := fs ← as_fields 1 v;
              l ← field (de (vec_codec u32_codec)) 0 "countPerSec" fs;
              Decoded {| as_count_per_sec := l |} |}.

Definition elastic_codec : codec Elastic :=
  {| ser r := enc_struct [("max"%string, ser u32_codec (elastic_max r))];
     de v := fs ← as_fields 1 v;
              n ← field (de u32_codec) 0 "max" fs;
              Decoded {| elastic_max := n |} |}.

Definition linear_codec : codec Linear :=
  {| ser r := enc_struct [("a"%string, ser f32_codec (linear_a r)); ("b"%string, ser u32_codec (linear_b r));
                          ("max"%string, ser u32_codec (linear_max r))];
     de v := fs ← as_fields 3 v;
              a ← field (de f32_codec) 0 "a" fs;
              b ← field (de u32_codec) 1 "b" fs;
              max ← field (de u32_codec) 2 "max" fs;
              Decoded {| linear_a := a; linear_b := b; linear_max := max |} |}.

(** [Step] is read as a [StepShadowType] and then checked. *)
Definition step_codec : codec Step :=
  {| ser s := enc_struct [("start"%string, ser u32_codec (step_start s)); ("end"%string, ser u32_codec (step_end s));
                          ("rate"%string, ser u32_codec (step_rate s))];
     de v := fs ← as_fields 3 v;
              start ← field (de u32_codec) 0 "start" fs;
              end_ ← field (de u32_codec) 1 "end" fs;
              rate ← field (de u32_codec) 2 "rate" fs;
              of_result (step_try_from {| step_start := start; step_end := end_; step_rate := rate |}) |}.

(** [Steps]: the cursor is not written. *)
Definition steps_codec : codec Steps :=
  {| ser s := enc_struct [("steps"%string, ser (vec_codec step_codec) (steps s))];
     de v := fs ← as_fields 1 v;
              l ← field (de (vec_codec step_codec)) 0 "steps" fs;
              of_result (steps_try_from l) |}.

Definition rate_spec_codec : codec RateSpecEnum :=
  {| ser r := match r with
              | RateConstant r => enc_variant "ConstantRate" (ser constant_rate_codec r)
              | RateLinear r => enc_variant "Linear" (ser linear_codec r)
              | RateArray r => enc_variant "ArraySpec" (ser array_spec_codec r)
              | RateSteps r => enc_variant "Steps" (ser steps_codec r)
              end;
     de v := '(k, o) ← as_variant v;
              if String.eqb k "ConstantRate" then newtype_variant (de constant_rate_codec) RateConstant o
              else if String.eqb k "Linear" then newtype_variant (de linear_codec) RateLinear o
              else if String.eqb k "ArraySpec" then newtype_variant (de array_spec_codec) RateArray o
              else if String.eqb k "Steps" then newtype_variant (de steps_codec) RateSteps o
              else Rejected |}.

Definition connection_spec_codec : codec ConcurrentConnectionRateSpec :=
  {| ser r := match r with
              | ConnConstant r => enc_variant "ConstantRate" (ser constant_rate_codec r)
              | ConnLinear r => enc_variant "Linear" (ser linear_codec r)
              | ConnArray r => enc_variant "ArraySpec" (ser array_spec_codec r)
              | ConnSteps r => enc_variant "Steps" (ser steps_codec r)
              | ConnElastic r => enc_variant "Elastic" (ser elastic_codec r)
              end;
     de v := '(k, o) ← as_variant v;
              if String.eqb k "ConstantRate" then newtype_variant (de constant_rate_codec) ConnConstant o
              else if String.eqb k "Linear" then newtype_variant (de linear_codec) ConnLinear o
              else if String.eqb k "ArraySpec" then newtype_variant (de array_spec_codec) ConnArray o
              else if String.eqb k "Steps" then newtype_variant (de steps_codec) ConnSteps o
              else if String.eqb k "Elastic" then newtype_variant (de elastic_codec) ConnElastic o
              else Rejected |}.

(** ** Target, keep-alive and generation mode *)

Definition scheme_codec : codec Scheme :=
  {| ser s := match s with HTTP => Val (Str "HTTP") end;
     de v := '(k, o) ← as_variant v;
              if String.eqb k "HTTP" then unit_variant HTTP o else Rejected |}.

Definition target_codec : codec Target :=
  {| ser t := enc_struct [("host"%string, ser string_codec (host t)); ("port"%string, ser u16_codec (port t));
                          ("protocol"%string, ser scheme_codec (protocol t))];
     de v := fs ← as_fields 3 v;
              h ← field (de string_codec) 0 "host" fs;
              p ← field (de u16_codec) 1 "port" fs;
              s ← field (de scheme_codec) 2 "protocol" fs;
              Decoded {| host := h; port := p; protocol := s |} |}.

(** [max_request_per_connection] is a [NonZeroU32]. *)
Definition keep_alive_codec : codec ConnectionKeepAlive :=
  {| ser k := enc_struct [("ttl"%string, ser u32_codec (ka_ttl k));
                          ("maxRequestPerConnection"%string,
                            ser (unsigned_codec 1 u32_MAX) (ka_max_request_per_connection k))];
     de v := fs ← as_fields 2 v;
              ttl ← field (de u32_codec) 0 "ttl" fs;
              m ← field (de (unsigned_codec 1 u32_MAX)) 1 "maxRequestPerConnection" fs;
              Decoded {| ka_ttl := ttl; ka_max_request_per_connection := m |} |}.

(** The contents of [Batch]; [batch_size] is a [NonZeroUsize]. *)
Definition batch_codec : codec Z :=
  {| ser n := enc_struct [("batchSize"%string, ser (unsigned_codec 1 usize_MAX) n)];
     de v := fs ← as_fields 1 v;
              n ← field (de (unsigned_codec 1 usize_MAX)) 0 "batchSize" fs;
              Decoded n |}.

Definition generation_mode_codec : codec LoadGenerationMode :=
  {| ser m := match m with
              | Immediate => Val (Str "immediate")
              | Batch n => enc_variant "batch" (ser batch_codec n)
              end;
     de v := '(k, o) ← as_variant v;
              if String.eqb k "batch" then newtype_variant (de batch_codec) Batch o
              else if String.eqb k "immediate" then unit_variant Immediate o
              else Rejected |}.

(** ** Reading back *)

(** Reading and writing a struct with the codec [c]. *)
Ltac struct_read c :=
  let v := fresh "v" in let x := fresh "x" in let H := fresh "H" in let HP := fresh "HP" in
  intros v x ? H HP; unfold c in H; cbn [de] in H; decode_inv; subst; cbn in HP; destruct_and?; fields_back.

Ltac struct_write c :=
  eexists; split;
  [unfold c; cbn [ser]; cbn -[ser]; repeat (progress codec_rewrite; cbn -[ser]); encode_done|];
  unfold c; cbn [de]; cbn -[de]; repeat (progress codec_rewrite; cbn -[de]).

Ltac struct_stable c := struct_read c; struct_write c; reflexivity.

#[export] Instance constant_rate_stable : Stable constant_rate_codec always.
Proof. struct_stable constant_rate_codec. Qed.

#[export] Instance array_spec_stable : Stable array_spec_codec always.
Proof. struct_stable array_spec_codec. Qed.

#[export] Instance elastic_stable : Stable elastic_codec always.
Proof. struct_stable elastic_codec. Qed.

#[export] Instance linear_stable : Stable linear_codec (λ r, f32_ok (linear_a r) = true).
Proof. struct_stable linear_codec. Qed.

Lemma step_try_from_same s x : step_try_from s = Ok x → x = s.
Proof. destruct s. unfold step_try_from. simpl. case_match; congruence. Qed.

#[export] Instance step_stable : Stable step_codec always.
Proof.
  struct_read step_codec. destruct (step_try_from _) as [y|] eqn:E; [|done]. injection H as ->.
  pose proof (step_try_from_same _ _ E) as ->. struct_write step_codec. by rewrite E.
Qed.

(** Steps that were accepted are sorted, and accepted again as they are. *)
Lemma steps_try_from_again l s :
  steps_try_from l = Ok s →
  steps_try_from (steps s) = Ok s ∧ steps s = sort_by_key step_start l ∧ current_step s = O.
Proof.
  unfold steps_try_from at 1. destruct l as [|x l]; [done|]. set (l' := x :: l).
  destruct (len l' =? 1) eqn:El; [done|]. destruct (sort_by_key step_start l') as [|y k] eqn:Es; [done|].
  destruct (negb (step_start y =? 0)) eqn:Ey; [done|]. destruct (check_continuity _ _) eqn:Ec; [|done].
  intros [= <-]. split; [|done]. unfold steps_try_from. cbn [steps].
  assert (len (y :: k) = len l') as -> by (rewrite <- Es; unfold len; by rewrite length_sort_by_key).
  rewrite El, (sort_by_key_id step_start (y :: k)), Ey, Ec; [done|]. rewrite <- Es. apply sort_by_key_sorted.
Qed.

#[export] Instance steps_stable : Stable steps_codec always.
Proof.
  intros v x Hv H _. unfold steps_codec in H. cbn [de] in H. decode_inv.
  match type of H with of_result (steps_try_from ?l) = _ => rename l into l0 end.
  destruct (steps_try_from l0) as [y|] eqn:E; [|done]. injection H as ->.
  destruct (steps_try_from_again l0 x E) as (E1 & E2 & _).
  assert (reads_back (vec_codec step_codec) (steps x)) as (w & He & Hd).
  { apply vec_reads_back. rewrite E2, sort_by_key_perm. unfold field in H1. decode_inv. subst.
    eapply (vec_each step_codec always); [by eapply get_field_wf|done|]. by apply Forall_forall. }
  struct_write steps_codec. by rewrite E1.
Qed.

(** Reading and writing an enum. *)
Ltac variant_read c :=
  let v := fresh "v" in let x := fresh "x" in let H := fresh "H" in let HP := fresh "HP" in
  intros v x ? H HP; unfold c in H; cbn [de] in H; decode_inv;
  repeat match goal with
  | p : string * option Value |- _ => destruct p as [? ?]
  | H : (if ?b then _ else _) = Decoded _ |- _ => destruct b; [|try discriminate H]
  | Hv : wf_doc ?v, Hk : as_variant ?v = Decoded (_, ?o), H : newtype_variant (de ?c) ?g ?o = Decoded ?y |- _ =>
      apply (newtype_back c _ g _ _ _ _ Hv Hk) in H as (? & -> & H);
      destruct H as (? & ? & ?); [by auto|]
  | H : unit_variant _ _ = Decoded _ |- _ => apply unit_inv in H as ->
  end.

Ltac variant_stable c :=
  variant_read c; struct_write c; reflexivity.

#[export] Instance rate_spec_stable :
  Stable rate_spec_codec (λ r, match r with RateLinear l => f32_ok (linear_a l) = true | _ => True end).
Proof. variant_stable rate_spec_codec. Qed.

#[export] Instance connection_spec_stable :
  Stable connection_spec_codec (λ r, match r with ConnLinear l => f32_ok (linear_a l) = true | _ => True end).
Proof. variant_stable connection_spec_codec. Qed.

#[export] Instance scheme_stable : Stable scheme_codec always.
Proof. variant_stable scheme_codec. Qed.

#[export] Instance target_stable : Stable target_codec always.
Proof. struct_stable target_codec. Qed.

#[export] Instance keep_alive_stable : Stable keep_alive_codec always.
Proof. struct_stable keep_alive_codec. Qed.

#[export] Instance batch_stable : Stable batch_codec always.
Proof. struct_stable batch_codec. Qed.

#[export] Instance generation_mode_stable : Stable generation_mode_codec always.
Proof. variant_stable generation_mode_codec. Qed.

Section Codec.
  Context {Compiled Hir AST Conn : Type}.
  Context (compile_path : string → result string Compiled).
  Context (parse_regex : string → option Hir).
  Context (compile : string → result string AST).
  Context (valid_method : string → bool).
  Context (env : string → option string).

(** ** Assertions *)

Definition json_path_codec : codec (JsonPath Compiled) :=
  {| ser p := enc_struct [("path"%string, ser string_codec (path p))];
     de v := fs ← as_fields 1 v;
              p ← field (de string_codec) 0 "path" fs;
              of_result (json_path_try_from compile_path p) |}.

Definition expectation_codec : codec (Expectation Compiled) :=
  {| ser e := match e with
              | RequestPath n => enc_variant "RequestPath" (ser (unsigned_codec 1 u8_MAX) n)
              | RequestQueryParam s => enc_variant "RequestQueryParam" (ser string_codec s)
              | RequestBody p => enc_variant "RequestBody" (ser json_path_codec p)
              | ExpectConstant v => enc_variant "Constant" (ser value_codec v)
              end;
     de v := '(k, o) ← as_variant v;
              if String.eqb k "RequestPath" then newtype_variant (de (unsigned_codec 1 u8_MAX)) RequestPath o
              else if String.eqb k "RequestQueryParam" then newtype_variant (de string_codec) RequestQueryParam o
              else if String.eqb k "RequestBody" then newtype_variant (de json_path_codec) RequestBody o
              else if String.eqb k "Constant" then newtype_variant (de value_codec) ExpectConstant o
              else Rejected |}.

Definition actual_codec : codec (Actual Compiled) :=
  {| ser a := match a with
              | FromJsonResponse p => enc_variant "FromJsonResponse" (ser json_path_codec p)
              | ActualConstant v => enc_variant "Constant" (ser value_codec v)
              end;
     de v := '(k, o) ← as_variant v;
              if String.eqb k "FromJsonResponse" then newtype_variant (de json_path_codec) FromJsonResponse o
              else if String.eqb k "Constant" then newtype_variant (de value_codec) ActualConstant o
              else Rejected |}.

Definition assertion_codec : codec (Assertion Compiled) :=
  {| ser a := enc_struct [("id"%string, ser u32_codec (assertion_id a));
                          ("expectation"%string, ser expectation_codec (expectation a));
                          ("actual"%string, ser actual_codec (actual a))];
     de v := fs ← as_fields 3 v;
              id ← field (de u32_codec) 0 "id" fs;
              e ← field (de expectation_codec) 1 "expectation" fs;
              a ← field (de actual_codec) 2 "actual" fs;
              Decoded (mk_assertion id e a) |}.

Definition response_assertion_codec : codec (ResponseAssertion Compiled) :=
  {| ser r := enc_struct [("simpleAssertions"%string, ser (option_codec (vec_codec assertion_codec)) (simple_assertions r));
                          ("luaAssertion"%string, ser (option_codec (vec_codec string_codec)) (lua_assertion r))];
     de v := fs ← as_fields 2 v;
              s ← optional (vec_codec assertion_codec) 0 "simpleAssertions" fs;
              l ← optional (vec_codec string_codec) 1 "luaAssertion" fs;
              Decoded (mk_response_assertion s l) |}.

(** ** Sources of requests *)

(** [http_serde::method] *)
Definition method_codec : codec string :=
  {| ser m := Val (Str m);
     de v := m ← of_option (as_str v); if valid_method m then Decoded m else Rejected |}.

Definition http_req_codec (uuid : string) : codec HttpReq :=
  {| ser r := enc_struct [("id"%string, ser string_codec (req_id r)); ("method"%string, ser method_codec (method r));
                          ("url"%string, ser string_codec (url r));
                          ("body"%string, ser (option_codec string_codec) (body r));
                          ("headers"%string, ser map_codec (headers r))];
     de v := fs ← as_fields 5 v;
              id ← defaulted uuid (de string_codec) 0 "id" fs;
              m ← field (de method_codec) 1 "method" fs;
              u ← field (de string_codec) 2 "url" fs;
              b ← optional string_codec 3 "body" fs;
              h ← defaulted ∅ (de map_codec) 4 "headers" fs;
              Decoded (mk_http_req id m u b h) |}.

Definition request_list_codec (uuid : nat → string) : codec RequestList :=
  {| ser l := enc_struct [("data"%string, enc_vec (ser (http_req_codec (uuid O))) (data l))];
     de v := fs ← as_fields 1 v;
              l ← field (dec_vec (λ i, de (http_req_codec (uuid i)))) 0 "data" fs;
              Decoded {| data := l |} |}.

(** [#[serde(deserialize_with = "file_name_deserializer")]] *)
Definition file_name_codec : codec string :=
  {| ser s := Val (Str s);
     de v := s ← of_option (as_str v); Decoded (file_name_deserializer env s) |}.

(** The connection and the size are not written. *)
Definition request_file_codec : codec (RequestFile Conn) :=
  {| ser f := enc_struct [("file_name"%string, ser file_name_codec (rf_file_name f))];
     de v := fs ← as_fields 1 v;
              n ← field (de file_name_codec) 0 "file_name" fs;
              Decoded {| rf_file_name := n; rf_inner := None; rf_size := default_usize_max |} |}.

Definition split_request_file_codec : codec (SplitRequestFile Conn) :=
  {| ser f := enc_struct [("file_name"%string, ser file_name_codec (sf_file_name f));
                          ("range_start_inclusive"%string, ser usize_codec (range_start_inclusive f));
                          ("range_end_inclusive"%string, ser usize_codec (range_end_inclusive f));
                          ("next_read_cursor"%string, ser usize_codec (next_read_cursor f))];
     de v := fs ← as_fields 4 v;
              n ← field (de file_name_codec) 0 "file_name" fs;
              a ← defaulted default_split_range (de usize_codec) 1 "range_start_inclusive" fs;
              b ← defaulted default_split_range (de usize_codec) 2 "range_end_inclusive" fs;
              c ← defaulted default_split_range (de usize_codec) 3 "next_read_cursor" fs;
              Decoded {| sf_file_name := n; sf_inner := None; sf_size := default_usize_max;
                         range_start_inclusive := a; range_end_inclusive := b; next_read_cursor := c |} |}.

(** [DataSchema]: [try_from] and [into] a JSON value. *)
Definition data_schema_codec : codec (DataSchema Hir) :=
  {| ser s := data_value_from_schema s;
     de v := of_result (data_schema_from_value parse_regex (normalise v)) |}.

Definition random_data_codec : codec (RandomDataRequest Hir) :=
  {| ser r := enc_struct [("method"%string, ser method_codec (rd_method r)); ("url"%string, ser string_codec (rd_url r));
                          ("headers"%string, ser map_codec (rd_headers r));
                          ("bodySchema"%string, ser (option_codec data_schema_codec) (rd_body_schema r));
                          ("uriParamSchema"%string, ser (option_codec data_schema_codec) (rd_uri_param_schema r))];
     de v := fs ← as_fields 5 v;
              m ← field (de method_codec) 0 "method" fs;
              u ← field (de string_codec) 1 "url" fs;
              h ← defaulted ∅ (de map_codec) 2 "headers" fs;
              b ← optional data_schema_codec 3 "bodySchema" fs;
              p ← optional data_schema_codec 4 "uriParamSchema" fs;
              Decoded {| rd_init := false; rd_method := m; rd_url := u; rd_url_param_pos := None;
                         rd_headers := h; rd_body_schema := b; rd_uri_param_schema := p |} |}.

(** [JsonTemplateRequest], and [JsonTemplate], which is read and written through it. *)
Definition json_template_request_codec : codec JsonTemplateRequest :=
  {| ser r := enc_struct [("method"%string, ser method_codec (jr_method r)); ("url"%string, ser value_codec (jr_url r));
                          ("headers"%string, ser map_codec (jr_headers r)); ("body"%string, ser value_codec (jr_body r))];
     de v := fs ← as_fields 4 v;
              m ← field (de method_codec) 0 "method" fs;
              u ← field (de value_codec) 1 "url" fs;
              h ← field (de map_codec) 2 "headers" fs;
              b ← defaulted default_body (de value_codec) 3 "body" fs;
              Decoded {| jr_method := m; jr_url := u; jr_headers := h; jr_body := b |} |}.

Definition json_template_codec : codec (JsonTemplate AST) :=
  {| ser t := ser json_template_request_codec (json_template_into t);
     de v := r ← de json_template_request_codec v;
              match json_template_try_from compile r with
              | Val (Some t) => Decoded t
              | Val None => Rejected
              | Panic => Panicked
              end |}.

Definition request_spec_codec (uuid : nat → string) : codec (RequestSpecEnum Hir AST Conn) :=
  {| ser r := match r with
              | RSRequestList r => enc_variant "RequestList" (ser (request_list_codec uuid) r)
              | RSRequestFile r => enc_variant "RequestFile" (ser request_file_codec r)
              | RSSplitRequestFile r => enc_variant "SplitRequestFile" (ser split_request_file_codec r)
              | RSRandomDataRequest r => enc_variant "RandomDataRequest" (ser random_data_codec r)
              | RSJsonTemplateRequest r => enc_variant "JsonTemplateRequest" (ser json_template_codec r)
              end;
     de v := '(k, o) ← as_variant v;
              if String.eqb k "RequestList" then newtype_variant (de (request_list_codec uuid)) RSRequestList o
              else if String.eqb k "RequestFile" then newtype_variant (de request_file_codec) RSRequestFile o
              else if String.eqb k "SplitRequestFile" then newtype_variant (de split_request_file_codec) RSSplitRequestFile o
              else if String.eqb k "RandomDataRequest" then newtype_variant (de random_data_codec) RSRandomDataRequest o
              else if String.eqb k "JsonTemplateRequest" then newtype_variant (de json_template_codec) RSJsonTemplateRequest o
              else Rejected |}.

(** ** Tests *)

(** [RequestShadow], from which a [Request] is made. *)
Definition request_shadow_dec (uuid : nat → string) (v : Value) : decoded (RequestShadow Compiled Hir AST Conn) :=
  fs ← as_fields 10 v;
  n ← optional string_codec 0 "name" fs;
  d ← field (de u32_codec) 1 "duration" fs;
  t ← field (de target_codec) 2 "target" fs;
  r ← field (de (request_spec_codec uuid)) 3 "req" fs;
  q ← field (de rate_spec_codec) 4 "qps" fs;
  c ← defaulted default_concurrent_connection (de connection_spec_codec) 5 "concurrentConnection" fs;
  k ← defaulted keep_alive_default (de keep_alive_codec) 6 "connectionKeepAlive" fs;
  b ← defaulted default_histogram_bucket (de (vec_codec f64_codec)) 7 "histogramBuckets" fs;
  a ← optional response_assertion_codec 8 "responseAssertion" fs;
  m ← defaulted default_generation_mode (de generation_mode_codec) 9 "generationMode" fs;
  Decoded {| shadow_name := n; shadow_duration := d; shadow_target := t; shadow_req := r; shadow_qps := q;
             shadow_concurrent_connection := c; shadow_connection_keep_alive := k;
             shadow_histogram_buckets := b; shadow_response_assertion := a; shadow_generation_mode := m |}.

Definition request_codec (uuid : nat → string) : codec (Request Compiled Hir AST Conn) :=
  {| ser r := enc_struct [("name"%string, ser (option_codec string_codec) (name r));
                          ("duration"%string, ser u32_codec (duration r));
                          ("target"%string, ser target_codec (target r));
                          ("req"%string, ser (request_spec_codec uuid) (req r));
                          ("qps"%string, ser rate_spec_codec (qps r));
                          ("concurrentConnection"%string, ser connection_spec_codec (concurrent_connection r));
                          ("connectionKeepAlive"%string, ser keep_alive_codec (connection_keep_alive r));
                          ("histogramBuckets"%string, ser (vec_codec f64_codec) (histogram_buckets r));
                          ("responseAssertion"%string, ser (option_codec response_assertion_codec) (response_assertion r));
                          ("generationMode"%string, ser generation_mode_codec (generation_mode r))];
     de v := s ← request_shadow_dec uuid v; Decoded (request_from_shadow s) |}.

Definition multi_request_codec (uuid : nat → nat → string) : codec (MultiRequest Compiled Hir AST Conn) :=
  {| ser m := enc_struct [("name"%string, ser (option_codec string_codec) (mr_name m));
                          ("requests"%string, enc_vec (ser (request_codec (uuid O))) (requests m))];
     de v := fs ← as_fields 2 v;
              n ← optional string_codec 0 "name" fs;
              l ← field (dec_vec (λ i, de (request_codec (uuid i)))) 1 "requests" fs;
              Decoded {| mr_name := n; requests := l |} |}.

(** ** Reading back *)

#[local] Instance json_path_stable : Stable json_path_codec always.
Proof.
  struct_read json_path_codec. destruct (json_path_try_from _ _) as [y|] eqn:E; [|done]. injection H as ->.
  assert (path x = x1) as <-.
  { unfold json_path_try_from in E. destruct (compile_path _); [|done]. by injection E as <-. }
  struct_write json_path_codec. by rewrite E.
Qed.

#[local] Instance expectation_stable : Stable expectation_codec always.
Proof. variant_stable expectation_codec. Qed.

#[local] Instance actual_stable : Stable actual_codec always.
Proof. variant_stable actual_codec. Qed.

#[local] Instance assertion_stable : Stable assertion_codec always.
Proof. struct_stable assertion_codec. Qed.

#[local] Instance response_assertion_stable : Stable response_assertion_codec always.
Proof. struct_stable response_assertion_codec. Qed.

#[local] Instance response_assertion_never_null : NeverNull response_assertion_codec.
Proof. done. Qed.

#[local] Instance method_stable : Stable method_codec always.
Proof.
  intros v x _ H _. unfold method_codec in H. cbn [de] in H. decode_inv. subst.
  destruct (valid_method _) eqn:E'; [|done]. injection H as ->. exists (Str x). cbn. by rewrite E'.
Qed.

(** [x] is written by [c u], and read back whichever UUIDs are drawn meanwhile. *)
Definition reads_back_any {U A} (c : U → codec A) (u : U) (x : A) : Prop :=
  ∃ v, ser (c u) x = Val v ∧ ∀ u', de (c u') v = Decoded x.

Lemma http_req_back uuid v x :
  wf_doc v → de (http_req_codec uuid) v = Decoded x → ∀ u, reads_back_any http_req_codec u x.
Proof.
  intros Hv Hx. assert (HP : True) by done. revert v x Hv Hx HP. struct_read http_req_codec. intros u.
  struct_write http_req_codec. intros u'. unfold http_req_codec; cbn [de]; cbn -[de].
  by repeat (progress codec_rewrite; cbn -[de]).
Qed.

Lemma request_list_back uuid v x :
  wf_doc v → de (request_list_codec uuid) v = Decoded x → ∀ u, reads_back_any request_list_codec u x.
Proof.
  intros Hv Hx u. unfold request_list_codec in Hx. cbn [de] in Hx. unfold field in Hx. decode_inv. subst.
  match goal with H : dec_vec _ _ = Decoded ?l |- _ => rename H into Hl; rename l into rs end.
  apply (dec_vec_each _ (λ r, ∀ u, reads_back_any http_req_codec u r)) in Hl;
    [|by eapply get_field_wf|intros j w r Hw _ Hr; by eapply http_req_back].
  destruct (vec_back (ser (http_req_codec (u O))) (λ (u : nat → string) i, de (http_req_codec (u i))) rs)
    as (w & He & Hd).
  - eapply Forall_impl; [exact Hl|]. intros r Hr. destruct (Hr (u O)) as (w & He & Hd). by exists w.
  - exists (Obj [("data"%string, w)]). unfold request_list_codec. cbn [ser de data].
    unfold enc_struct, enc_fields. rewrite He. split; [done|]. intros u'. cbn -[de dec_vec]. by rewrite Hd.
Qed.

#[local] Instance file_name_stable : Stable file_name_codec always.
Proof.
  intros v x _ H _. unfold file_name_codec in H. cbn [de] in H. decode_inv. subst.
  eexists. split; [reflexivity|]. cbn. f_equal. apply file_name_idem.
Qed.

#[local] Instance request_file_stable : Stable request_file_codec always.
Proof. struct_stable request_file_codec. Qed.

#[local] Instance split_request_file_stable : Stable split_request_file_codec always.
Proof. struct_stable split_request_file_codec. Qed.

#[local] Instance data_schema_stable : Stable data_schema_codec (λ s, supported s = true).
Proof.
  intros v s Hv Hs Hsup. cbn in Hs. destruct (data_schema_from_value parse_regex (normalise v)) as [s'|] eqn:E; [|done].
  injection Hs as ->. destruct (schema_reads_back parse_regex (normalise v) s (normalise_wf v Hv) E Hsup) as (v' & H0 & H1 & H2).
  exists v'. cbn. by rewrite normalise_id, H2.
Qed.

#[local] Instance data_schema_never_null : NeverNull data_schema_codec.
Proof. done. Qed.

(** The schemas of a request for random data can be written. *)
Definition random_data_printable (r : RandomDataRequest Hir) : Prop :=
  (∀ s, rd_body_schema r = Some s → supported s = true) ∧
  (∀ s, rd_uri_param_schema r = Some s → supported s = true).

(** What was read is written and read back, also with other headers. *)
Definition with_headers (r : RandomDataRequest Hir) (h : gmap string string) : RandomDataRequest Hir :=
  {| rd_init := rd_init r; rd_method := rd_method r; rd_url := rd_url r; rd_url_param_pos := rd_url_param_pos r;
     rd_headers := h; rd_body_schema := rd_body_schema r; rd_uri_param_schema := rd_uri_param_schema r |}.

Lemma random_data_back v r h :
  wf_doc v → de random_data_codec v = Decoded r → random_data_printable r →
  reads_back random_data_codec (with_headers r h).
Proof.
  revert v r. unfold random_data_printable. struct_read random_data_codec.
  destruct (map_reads_back h) as (? & ? & ?). struct_write random_data_codec. reflexivity.
Qed.

Definition template_with_headers (r : JsonTemplate AST) (h : gmap string string) : JsonTemplate AST :=
  {| jt_method := jt_method r; jt_url := jt_url r; jt_headers := h; jt_body := jt_body r;
     jt_url_template := jt_url_template r; jt_body_template := jt_body_template r |}.

Lemma json_template_request_back v r h :
  wf_doc v → de json_template_request_codec v = Decoded r →
  reads_back json_template_request_codec
    {| jr_method := jr_method r; jr_url := jr_url r; jr_headers := h; jr_body := jr_body r |}.
Proof.
  intros Hv H. assert (HP : True) by done. revert v r Hv H HP. struct_read json_template_request_codec.
  destruct (map_reads_back h) as (? & ? & ?). struct_write json_template_request_codec. reflexivity.
Qed.

(** The templates do not depend on the headers. *)
Lemma try_from_with_headers r t h :
  json_template_try_from compile r = Val (Some t) →
  json_template_into (template_with_headers t h) =
    {| jr_method := jr_method r; jr_url := jr_url r; jr_headers := h; jr_body := jr_body r |} ∧
  json_template_try_from compile (json_template_into (template_with_headers t h)) =
    Val (Some (template_with_headers t h)).
Proof.
  unfold json_template_try_from. destruct (validate_url_json_val (jr_url r)) eqn:Ev; [|done].
  destruct (parse_templates compile (jr_url r)) as [ut|] eqn:Eu; [|done].
  destruct (parse_templates compile (jr_body r)) as [bt|] eqn:Eb; [|done]. intros [= <-].
  split; [done|]. cbn -[parse_templates validate_url_json_val]. by rewrite Ev, Eu, Eb.
Qed.

Lemma json_template_back v t h :
  wf_doc v → de json_template_codec v = Decoded t → reads_back json_template_codec (template_with_headers t h).
Proof.
  intros Hv H. unfold json_template_codec in H. cbn [de] in H. decode_inv.
  destruct (json_template_try_from compile x) as [[t'|]|] eqn:E; [|done..]. injection H as ->.
  destruct (try_from_with_headers x t h E) as [E1 E2].
  destruct (json_template_request_back v x h Hv H0) as (w & He & Hd).
  exists w. unfold json_template_codec. cbn [ser de]. rewrite E1 in *. rewrite He, Hd. cbn. by rewrite E2.
Qed.

(** ** Whole tests *)

(** What [From<RequestShadow>] makes of the source of requests. *)
Definition with_host (t : Target) (r : RequestSpecEnum Hir AST Conn) : RequestSpecEnum Hir AST Conn :=
  match r with
  | RSJsonTemplateRequest r =>
      RSJsonTemplateRequest (template_with_headers r (validate_and_update_host_header (jt_headers r) t))
  | RSRandomDataRequest r => RSRandomDataRequest (with_headers r (validate_and_update_host_header (rd_headers r) t))
  | r => r
  end.

Definition spec_printable (r : RequestSpecEnum Hir AST Conn) : Prop :=
  match r with RSRandomDataRequest r => random_data_printable r | _ => True end.

(** Writes a variant whose contents are known to read back. *)
Ltac variant_write Hb :=
  let y := fresh "y" in let He := fresh "He" in let Hd := fresh "Hd" in destruct Hb as (y & He & Hd);
  eexists; unfold request_spec_codec; cbn [ser de]; unfold enc_variant; rewrite He; split; [reflexivity|];
  intros; cbn -[de]; by rewrite Hd.

Lemma request_spec_back uuid v r t :
  wf_doc v → de (request_spec_codec uuid) v = Decoded r → spec_printable r →
  ∀ u, reads_back_any request_spec_codec u (with_host t r).
Proof.
  intros Hv H HP u. unfold request_spec_codec in H. cbn [de] in H. decode_inv.
  destruct x as [k o]. pose proof (as_variant_wf v k) as Hw.
  repeat match goal with H : (if ?b then _ else _) = Decoded _ |- _ => destruct b end; [..|done];
    apply newtype_inv in H as (w & l & -> & H & ->); specialize (Hw w Hv H0); cbn [with_host].
  - pose proof (request_list_back uuid w l Hw H u) as Hb. variant_write Hb.
  - pose proof (stable (c := request_file_codec) w l Hw H I) as Hb. variant_write Hb.
  - pose proof (stable (c := split_request_file_codec) w l Hw H I) as Hb. variant_write Hb.
  - pose proof (random_data_back w l (validate_and_update_host_header (rd_headers l) t) Hw H HP) as Hb. variant_write Hb.
  - pose proof (json_template_back w l (validate_and_update_host_header (jt_headers l) t) Hw H) as Hb. variant_write Hb.
Qed.

Lemma host_header_idem hs t :
  validate_and_update_host_header (validate_and_update_host_header hs t) t = validate_and_update_host_header hs t.
Proof.
  unfold validate_and_update_host_header at 2 3. destruct (host_exists hs) eqn:E.
  - unfold validate_and_update_host_header. by rewrite E.
  - unfold validate_and_update_host_header. assert (host_exists (<["host"%string:=host t]> hs) = true) as ->; [|done].
    apply host_exists_spec. exists "host"%string, (host t). split; [by simplify_map_eq|done].
Qed.

Lemma with_host_idem t r : with_host t (with_host t r) = with_host t r.
Proof.
  destruct r as [| | |r|r]; [done..| |]; cbn [with_host with_headers template_with_headers rd_headers jt_headers];
    by rewrite host_header_idem.
Qed.

(** The parts of a test that JSON cannot carry are absent: the slopes of linear rates and
    the buckets are finite numbers, and arrays in schemas have items of a supported type. *)
Definition request_printable (r : Request Compiled Hir AST Conn) : Prop :=
  match qps r with RateLinear l => f32_ok (linear_a l) = true | _ => True end ∧
  match concurrent_connection r with ConnLinear l => f32_ok (linear_a l) = true | _ => True end ∧
  Forall (λ x, f32_finite x = true) (histogram_buckets r) ∧ spec_printable (req r).

Lemma printable_with_host t r : spec_printable (with_host t r) ↔ spec_printable r.
Proof. by destruct r. Qed.

Lemma name_reads_back n : reads_back (option_codec string_codec) n.
Proof. destruct n as [n|]; [by exists (Str n)|by exists Null]. Qed.

(** The same test under another name. *)
Definition rename (n : option string) (r : Request Compiled Hir AST Conn) : Request Compiled Hir AST Conn :=
  {| name := n; duration := duration r; target := target r; req := req r; qps := qps r;
     concurrent_connection := concurrent_connection r; connection_keep_alive := connection_keep_alive r;
     histogram_buckets := histogram_buckets r; response_assertion := response_assertion r;
     generation_mode := generation_mode r |}.

Lemma request_from_shadow_host (s : RequestShadow Compiled Hir AST Conn) :
  request_from_shadow s =
    {| name := shadow_name s; duration := shadow_duration s; target := shadow_target s;
       req := with_host (shadow_target s) (shadow_req s); qps := shadow_qps s;
       concurrent_connection := shadow_concurrent_connection s;
       connection_keep_alive := shadow_connection_keep_alive s; histogram_buckets := shadow_histogram_buckets s;
       response_assertion := shadow_response_assertion s; generation_mode := shadow_generation_mode s |}.
Proof. by destruct s as [? ? ? [] ? ? ? ? ? ?]. Qed.

Lemma request_back uuid v r n :
  wf_doc v → de (request_codec uuid) v = Decoded r → request_printable r →
  ∀ u, reads_back_any request_codec u (rename n r).
Proof.
  intros Hv H. unfold request_codec in H. cbn [de] in H. unfold request_shadow_dec in H. decode_inv. subst.
  rewrite request_from_shadow_host. intros (HP1 & HP2 & HP3 & HP4) u. cbn in HP1, HP2, HP3, HP4.
  rewrite printable_with_host in HP4.
  assert (Hr : ∀ u, reads_back_any request_spec_codec u (with_host x3 x4)).
  { unfold field in H5. decode_inv. subst. eapply request_spec_back; [by eapply get_field_wf|done|done]. }
  clear H2 H5 HP4. fields_back. destruct (name_reads_back n) as (? & ? & ?). destruct (Hr u) as (? & ? & Hd).
  unfold rename. cbn [duration target req qps concurrent_connection connection_keep_alive histogram_buckets
    response_assertion generation_mode shadow_name shadow_duration shadow_target shadow_req shadow_qps
    shadow_concurrent_connection shadow_connection_keep_alive shadow_histogram_buckets
    shadow_response_assertion shadow_generation_mode].
  pose proof (with_host_idem x3 x4) as Hi. generalize dependent (with_host x3 x4). intros r Hr He Hd Hi.
  struct_write request_codec. intros u'. rewrite Hd. cbn -[request_from_shadow].
  rewrite request_from_shadow_host. cbn. by rewrite Hi.
Qed.

Lemma rename_same r : rename (name r) r = r.
Proof. by destruct r. Qed.

Lemma multi_request_back uuid v m n :
  wf_doc v → de (multi_request_codec uuid) v = Decoded m → Forall request_printable (requests m) →
  ∀ u, reads_back_any multi_request_codec u {| mr_name := n; requests := requests m |}.
Proof.
  intros Hv Hx HP u. unfold multi_request_codec in Hx. cbn [de] in Hx. unfold field in Hx. decode_inv. subst.
  match goal with H : dec_vec _ _ = Decoded ?l |- _ => rename H into Hl; rename l into rs end.
  cbn [requests] in *. rewrite Forall_forall in HP.
  apply (dec_vec_each _ (λ r, ∀ u, reads_back_any request_codec u r)) in Hl; [|by eapply get_field_wf|].
  2: { intros j w r Hw Hin Hr u'. rewrite <- (rename_same r). apply (request_back (uuid j) w); auto. }
  destruct (vec_back (ser (request_codec (u O))) (λ (u : nat → nat → string) i, de (request_codec (u i))) rs)
    as (w & He & Hd).
  { eapply Forall_impl; [exact Hl|]. intros r Hr. destruct (Hr (u O)) as (w & He & Hd). by exists w. }
  destruct (name_reads_back n) as (y & Hn & Hn').
  exists (Obj [("name"%string, y); ("requests"%string, w)]). unfold multi_request_codec. cbn [ser de requests mr_name].
  unfold enc_struct, enc_fields. rewrite Hn. cbn -[ser]. rewrite He. split; [done|].
  intros u'. change (de (option_codec string_codec) y ≫= (λ n0, dec_vec (λ i, de (request_codec (u' i))) w ≫=
    λ l, Decoded {| mr_name := n0; requests := l |}) = Decoded {| mr_name := n; requests := rs |}).
  rewrite Hn'. cbn [mbind decoded_bind]. by rewrite Hd.
Qed.

End Codec.
