(* ===== verification/Accepted.v ===== *)
(** * Tests that are accepted

    What the JSON of a test must satisfy to be accepted guarantees about the test
    ([overload-http/src/lib.rs], [rate_spec.rs] and [request_specs.rs]): the ranges of its
    numbers, the checks of the [try_from] conversions, the paths of its files and the host
    header.  Other components start from tests that were accepted. *)
From Stdlib Require Import ZArith Lia Ascii SpecFloat.
From stdpp Require Import base list gmap strings numbers sets.
From S2P Require Import Prelude Float32 RateSpec Json Assert DataGen Template HttpTypes.
From S2P Require Import Upload FileNames Serde Codec.

Local Open Scope Z_scope.

(** ** Well-formed tests *)

Definition is_u32 (n : Z) : Prop := 0 <= n <= u32_MAX.

Definition step_ok (s : Step) : Prop :=
  is_u32 (step_start s) ∧ is_u32 (step_end s) ∧ is_u32 (step_rate s) ∧ step_start s < step_end s.

(** [b] starts right after [a]; the [u32] addition of the check wraps after the last second
    there is. *)
Definition follows (a b : Step) : Prop :=
  step_start b = step_end a + 1 ∨ step_end a = u32_MAX ∧ step_start b = 0.

Fixpoint steps_contiguous (l : list Step) : Prop :=
  match l with
  | a :: ((b :: _) as l') => follows a b ∧ steps_contiguous l'
  | _ => True
  end.

(** At least two steps, from 0 on and without gaps; they are accepted again as they are. *)
Definition steps_ok (s : Steps) : Prop :=
  current_step s = O ∧ Forall step_ok (steps s) ∧
  2 <= len (steps s) ∧ (step_start <$> head (steps s)) = Some 0 ∧ steps_contiguous (steps s) ∧
  steps_try_from (steps s) = Ok s.

Definition linear_ok (l : Linear) : Prop := is_u32 (linear_b l) ∧ is_u32 (linear_max l).

Definition rate_ok (r : RateSpecEnum) : Prop :=
  match r with
  | RateConstant c => is_u32 (cr_count_per_sec c)
  | RateLinear l => linear_ok l
  | RateArray a => Forall is_u32 (as_count_per_sec a)
  | RateSteps s => steps_ok s
  end.

Definition connections_ok (r : ConcurrentConnectionRateSpec) : Prop :=
  match r with
  | ConnConstant c => is_u32 (cr_count_per_sec c)
  | ConnLinear l => linear_ok l
  | ConnArray a => Forall is_u32 (as_count_per_sec a)
  | ConnSteps s => steps_ok s
  | ConnElastic e => is_u32 (elastic_max e)
  end.

Definition keep_alive_ok (k : ConnectionKeepAlive) : Prop :=
  is_u32 (ka_ttl k) ∧ 1 <= ka_max_request_per_connection k <= u32_MAX.

Definition mode_ok (m : LoadGenerationMode) : Prop :=
  match m with Batch n => 1 <= n <= usize_MAX | Immediate => True end.

Section Accepted.
  Context {Compiled Hir AST Conn : Type}.
  Context (compile_path : string → result string Compiled).
  Context (parse_regex : string → option Hir).
  Context (compile : string → result string AST).
  Context (valid_method : string → bool).
  Context (env : string → option string).

(** A path is absolute, and where a file of that name is looked for. *)
Definition file_ok (p : string) : Prop :=
  starts_with_char "/" p = true ∧ file_name_deserializer env p = p.

Definition spec_ok (r : RequestSpecEnum Hir AST Conn) : Prop :=
  match r with
  | RSRequestList l => Forall (λ r, valid_method (method r) = true) (data l)
  | RSRequestFile f => file_ok (rf_file_name f) ∧ rf_inner f = None ∧ rf_size f = default_usize_max
  | RSSplitRequestFile f =>
      file_ok (sf_file_name f) ∧ sf_inner f = None ∧ sf_size f = default_usize_max ∧
      0 <= range_start_inclusive f <= usize_MAX ∧ 0 <= range_end_inclusive f <= usize_MAX ∧
      0 <= next_read_cursor f <= usize_MAX
  | RSRandomDataRequest r =>
      valid_method (rd_method r) = true ∧ rd_init r = false ∧ rd_url_param_pos r = None
  | RSJsonTemplateRequest t =>
      valid_method (jt_method t) = true ∧ validate_url_json_val (jt_url t) = true ∧
      parse_templates compile (jt_url t) = Val (jt_url_template t) ∧
      parse_templates compile (jt_body t) = Val (jt_body_template t)
  end.

Definition request_ok (r : Request Compiled Hir AST Conn) : Prop :=
  is_u32 (duration r) ∧ 0 <= port (target r) <= u16_MAX ∧ rate_ok (qps r) ∧
  connections_ok (concurrent_connection r) ∧ keep_alive_ok (connection_keep_alive r) ∧
  mode_ok (generation_mode r) ∧ spec_ok (req r) ∧
  ∀ hs, spec_headers (req r) = Some hs → host_exists hs = true.

(** ** Lemmas *)

Ltac yields_by c :=
  let v := fresh "v" in let x := fresh "x" in let H := fresh "H" in
  intros v x H; unfold c in H; cbn [de] in H; decode_inv; subst; fields_yield; cbn in *.

#[local] Instance constant_yields : Yields constant_rate_codec (λ c, is_u32 (cr_count_per_sec c)).
Proof. yields_by constant_rate_codec. done. Qed.

#[local] Instance array_yields : Yields array_spec_codec (λ a, Forall is_u32 (as_count_per_sec a)).
Proof. yields_by array_spec_codec. done. Qed.

#[local] Instance elastic_yields : Yields elastic_codec (λ e, is_u32 (elastic_max e)).
Proof. yields_by elastic_codec. done. Qed.

#[local] Instance linear_yields : Yields linear_codec linear_ok.
Proof. yields_by linear_codec. done. Qed.

#[local] Instance step_yields : Yields step_codec step_ok.
Proof.
  yields_by step_codec. destruct (step_try_from _) as [y|] eqn:E; [|done]. injection H as ->.
  pose proof (step_try_from_same _ _ E) as ->. unfold step_try_from in E. cbn in E.
  destruct (Z.leb_spec x2 x1); [done|]. by split_and!.
Qed.

Lemma check_continuity_follows (a : Step) l :
  is_u32 (step_end a) → Forall step_ok l → check_continuity (step_end a) l = Ok tt → steps_contiguous (a :: l).
Proof.
  intros Ha Hl. revert a Ha. induction Hl as [|b l (Hs & He & _) Hl IH]; intros a Ha; [done|]. cbn [check_continuity].
  destruct (Z.eqb_spec (wrap 32 (step_end a + 1)) (step_start b)) as [E|]; [|done]. intros Hc. split; [|by apply IH].
  unfold follows, is_u32 in *. destruct (decide (step_end a = u32_MAX)) as [Em|Hn].
  - right. split; [done|]. rewrite <- E, Em. done.
  - left. rewrite <- E. apply wrap_id. lia.
Qed.

Lemma accepted_steps_contiguous l s :
  Forall step_ok l → steps_try_from l = Ok s →
  2 <= len (steps s) ∧ (step_start <$> head (steps s)) = Some 0 ∧ steps_contiguous (steps s).
Proof.
  intros Hl. unfold steps_try_from. destruct l as [|x l]; [done|]. set (l' := x :: l) in *.
  destruct (Z.eqb_spec (len l') 1) as [|H1]; [done|].
  pose proof (sort_by_key_perm step_start l') as Hp. pose proof (length_sort_by_key step_start l') as Hlen.
  destruct (sort_by_key step_start l') as [|y iter]; [done|].
  destruct (Z.eqb_spec (step_start y) 0) as [Hy|]; [|done]. cbn [negb].
  destruct (check_continuity (step_end y) iter) as [[]|] eqn:Ec; [|done]. intros [= <-]. cbn [steps head].
  rewrite <- Hp in Hl. apply Forall_cons_1 in Hl as [(_ & Hye & _) Hit].
  split_and!; [|by rewrite <- Hy|by apply check_continuity_follows].
  unfold len in *. unfold l' in *. simpl in *. lia.
Qed.

#[local] Instance steps_yields : Yields steps_codec steps_ok.
Proof.
  yields_by steps_codec. destruct (steps_try_from _) as [y|] eqn:E; [|done]. injection H as ->.
  destruct (steps_try_from_again _ _ E) as (E1 & E2 & E3). destruct (accepted_steps_contiguous _ _ ltac:(done) E) as (H2 & H3 & H4).
  split_and!; [done|by rewrite E2, sort_by_key_perm|done..].
Qed.

#[local] Instance rate_yields : Yields rate_spec_codec rate_ok.
Proof. yields_by rate_spec_codec; done. Qed.

#[local] Instance connections_yields : Yields connection_spec_codec connections_ok.
Proof. yields_by connection_spec_codec; done. Qed.

#[local] Instance target_yields : Yields target_codec (λ t, 0 <= port t <= u16_MAX).
Proof. yields_by target_codec. done. Qed.

#[local] Instance keep_alive_yields : Yields keep_alive_codec keep_alive_ok.
Proof. yields_by keep_alive_codec. done. Qed.

#[local] Instance batch_yields : Yields batch_codec (λ n, 1 <= n <= usize_MAX).
Proof. yields_by batch_codec. done. Qed.

#[local] Instance mode_yields : Yields generation_mode_codec mode_ok.
Proof. yields_by generation_mode_codec; done. Qed.

#[local] Instance method_yields : Yields (method_codec valid_method) (λ m, valid_method m = true).
Proof. yields_by @method_codec. by injection H as <-. Qed.

#[local] Instance http_req_yields uuid : Yields (http_req_codec valid_method uuid) (λ r, valid_method (method r) = true).
Proof. yields_by @http_req_codec. done. Qed.

#[local] Instance request_list_yields uuid :
  Yields (request_list_codec valid_method uuid) (λ l, Forall (λ r, valid_method (method r) = true) (data l)).
Proof.
  intros v x H. unfold request_list_codec in H. cbn [de] in H. unfold field in H. decode_inv. subst. cbn.
  eapply vec_yields_each; [|done]. intros j w r. apply (http_req_yields (uuid j)).
Qed.

#[local] Instance file_name_yields : Yields (file_name_codec env) file_ok.
Proof.
  intros v x H. cbn in H. decode_inv. subst. split; apply file_name_idem.
Qed.

#[local] Instance request_file_yields : Yields (request_file_codec (Conn := Conn) env)
  (λ f, file_ok (rf_file_name f) ∧ rf_inner f = None ∧ rf_size f = default_usize_max).
Proof. yields_by @request_file_codec. done. Qed.

#[local] Instance split_file_yields : Yields (split_request_file_codec (Conn := Conn) env)
  (λ f, spec_ok (RSSplitRequestFile f)).
Proof. yields_by @split_request_file_codec. split_and!; done || lia. Qed.

#[local] Instance random_data_yields : Yields (random_data_codec parse_regex valid_method)
  (λ r, spec_ok (RSRandomDataRequest r)).
Proof. yields_by @random_data_codec. by split_and!. Qed.

#[local] Instance template_request_yields : Yields (json_template_request_codec valid_method)
  (λ r, valid_method (jr_method r) = true).
Proof. yields_by @json_template_request_codec. done. Qed.

#[local] Instance json_template_yields : Yields (json_template_codec compile valid_method)
  (λ t, spec_ok (RSJsonTemplateRequest t)).
Proof.
  intros v x H. unfold json_template_codec in H. cbn [de] in H. decode_inv. apply template_request_yields in H0.
  unfold json_template_try_from in H. destruct (validate_url_json_val (jr_url x0)) eqn:Ev; [|done].
  destruct (parse_templates compile (jr_url x0)) eqn:Eu; [|done]. cbn -[parse_templates] in H.
  destruct (parse_templates compile (jr_body x0)) eqn:Eb; [|done]. injection H as <-. by split_and!.
Qed.

#[local] Instance request_spec_yields uuid :
  Yields (request_spec_codec parse_regex compile valid_method env uuid) spec_ok.
Proof. yields_by @request_spec_codec; done. Qed.

(** Putting a host header in keeps the rest. *)
Lemma spec_ok_with_host t r : spec_ok r → spec_ok (with_host t r).
Proof. by destruct r. Qed.

Lemma host_header_there hs t : host_exists (validate_and_update_host_header hs t) = true.
Proof.
  unfold validate_and_update_host_header. destruct (host_exists hs) eqn:E; [done|].
  apply host_exists_spec. exists "host"%string, (host t). split; [by simplify_map_eq|done].
Qed.

Lemma accepted_ok uuid v r :
  de (request_codec compile_path parse_regex compile valid_method env uuid) v = Decoded r → request_ok r.
Proof.
  intros H. unfold request_codec in H. cbn [de] in H. unfold request_shadow_dec in H. decode_inv. subst.
  fields_yield. rewrite request_from_shadow_host. unfold request_ok. cbn -[with_host spec_headers].
  split_and!; try done; [apply H4|apply H4|by apply spec_ok_with_host|].
  intros hs Hs. destruct x4; cbn in Hs; try done; injection Hs as <-; apply host_header_there.
Qed.

(** ** Properties *)

(** C24: Every test that is accepted is well formed, whatever JSON it was read from: its
    numbers are in the range of their types, a connection may carry at least one request, a
    batch has at least one, there are at least two steps, each non-empty, the first from 0
    on and each of the others right after the one before it (or from 0 on again after one
    that ends at [u32::MAX], where the check wraps around), methods are valid, the URL of a template is one, its templates are compiled,
    files are named by an absolute path, and generated requests have a host header. *)
Theorem accepted_test_well_formed uuid v r :
  de (request_codec compile_path parse_regex compile valid_method env uuid) v = Decoded r → request_ok r.
Proof. apply accepted_ok. Qed.

(** C15: A test that was accepted can be written as JSON and is read from it as the same test,
    whatever UUIDs are drawn when it is read again; this is how a test is passed on to the
    primary.  JSON has no infinite numbers, and a schema must not have an array whose items
    are of an unsupported type. *)
Theorem test_json_round_trip uuid v (r : Request Compiled Hir AST Conn) :
  wf_doc v → de (request_codec compile_path parse_regex compile valid_method env uuid) v = Decoded r →
  request_printable r →
  ∃ v', ser (request_codec compile_path parse_regex compile valid_method env uuid) r = Val v' ∧
    ∀ uuid', de (request_codec compile_path parse_regex compile valid_method env uuid') v' = Decoded r.
Proof. intros Hv Hr HP. rewrite <- (rename_same r). by eapply request_back. Qed.

(** The same for a test of several requests. *)
Theorem multi_json_round_trip uuid v (m : MultiRequest Compiled Hir AST Conn) :
  wf_doc v → de (multi_request_codec compile_path parse_regex compile valid_method env uuid) v = Decoded m →
  Forall request_printable (requests m) →
  ∃ v', ser (multi_request_codec compile_path parse_regex compile valid_method env uuid) m = Val v' ∧
    ∀ uuid', de (multi_request_codec compile_path parse_regex compile valid_method env uuid') v' = Decoded m.
Proof. intros Hv Hm HP. destruct m as [n rs]. by eapply (multi_request_back _ _ _ _ _ uuid v {| mr_name := n; requests := rs |}). Qed.

End Accepted.

(** ** Concrete inputs *)

(** A test in JSON as the documentation gives it, with the least that is required. *)
Definition demo_json : Value :=
  Obj [("duration"%string, Num (PosInt 120));
       ("qps"%string, Obj [("Steps"%string, Obj [("steps"%string, Arr [
          Obj [("end"%string, Num (PosInt 9)); ("rate"%string, Num (PosInt 4)); ("start"%string, Num (PosInt 5))];
          Obj [("end"%string, Num (PosInt 4)); ("rate"%string, Num (PosInt 1)); ("start"%string, Num (PosInt 0))]])])]);
       ("req"%string, Obj [("RequestFile"%string, Obj [("file_name"%string, Str "a.csv")])]);
       ("target"%string, Obj [("host"%string, Str "example.com"); ("port"%string, Num (PosInt 80));
                              ("protocol"%string, Str "HTTP")])].

Definition demo_de : Value → decoded (Request unit unit unit unit) :=
  de (request_codec (λ _, Ok tt) (λ _, Some tt) (λ _, Ok tt) (λ _, true) (λ _, None) (λ _, "u"%string)).

Definition demo_accepted : Request unit unit unit unit :=
  {| name := None; duration := 120; target := {| host := "example.com"; port := 80; protocol := HTTP |};
     req := RSRequestFile {| rf_file_name := "/tmp/a.sqlite"; rf_inner := None; rf_size := 2147483647 |};
     qps := RateSteps {| current_step := 0; steps := [{| step_start := 0; step_end := 4; step_rate := 1 |};
                                                       {| step_start := 5; step_end := 9; step_rate := 4 |}] |};
     concurrent_connection := ConnElastic {| elastic_max := 65535 |};
     connection_keep_alive := {| ka_ttl := u32_MAX; ka_max_request_per_connection := u32_MAX |};
     histogram_buckets := default_histogram_bucket; response_assertion := None; generation_mode := Immediate |}.

Lemma demo_json_accepted : demo_de demo_json = Decoded demo_accepted.
Proof. vm_compute. reflexivity. Qed.

(** The order of the fields does not matter, and a struct may be an array of its fields. *)
Example target_as_array :
  de target_codec (Arr [Str "h"; Num (PosInt 1); Str "HTTP"]) = Decoded {| host := "h"; port := 1; protocol := HTTP |} ∧
  de target_codec (Arr [Str "h"; Num (PosInt 1)]) = Rejected ∧
  de target_codec (Obj [("host"%string, Str "h"); ("port"%string, Num (PosInt 65536)); ("protocol"%string, Str "HTTP")]) = Rejected.
Proof. vm_compute. done. Qed.

(** A field must not be given twice; a member that is no field may, and in a map the last one
    stays. *)
Example repeated_members :
  de target_codec (Obj [("host"%string, Str "h"); ("host"%string, Str "h"); ("port"%string, Num (PosInt 1));
    ("protocol"%string, Str "HTTP")]) = Rejected ∧
  de target_codec (Obj [("x"%string, Null); ("x"%string, Null); ("host"%string, Str "h"); ("port"%string, Num (PosInt 1));
    ("protocol"%string, Str "HTTP")]) = Decoded {| host := "h"; port := 1; protocol := HTTP |} ∧
  de map_codec (Obj [("k"%string, Str "a"); ("k"%string, Str "b")]) = Decoded {["k"%string := "b"%string]} ∧
  de value_codec (Obj [("k"%string, Str "a"); ("a"%string, Null); ("k"%string, Str "b")]) =
    Decoded (Obj [("a"%string, Null); ("k"%string, Str "b")]).
Proof. vm_compute. done. Qed.

(** The demonstration test with another rate or source of requests. *)
Definition demo_with (k : string) (x : Value) : Value :=
  match demo_json with Obj m => Obj (obj_insert k x m) | v => v end.

Definition steep : Value :=
  Obj [("Linear"%string, Obj [("a"%string, Num (Float (f64_of_Z (10 ^ 300)))); ("b"%string, Num (PosInt 1));
                              ("max"%string, Num (PosInt 9))])].

Definition random_numbers : Value :=
  Obj [("RandomDataRequest"%string, Obj [("bodySchema"%string, array_of_numbers); ("method"%string, Str "POST");
                                         ("url"%string, Str "/x")])].

(** What becomes of a test on its way to the primary. *)
Definition demo_passed_on (v : Value) : decoded (Request unit unit unit unit) :=
  r ← demo_de v;
  match ser (request_codec (λ _, Ok tt) (λ _, Some tt) (λ _, Ok tt) (λ _, true) (λ _, None) (λ _, "u"%string)) r with
  | Val v' => demo_de v'
  | Panic => Panicked
  end.

Definition is_decoded {A} (d : decoded A) : bool := match d with Decoded _ => true | _ => false end.

(** Two tests that a node accepts and, when it is not the primary, passes on as JSON that the
    primary rejects: a slope beyond the range of [f32], which becomes infinite and is written
    as [null], and a schema with an array of an unsupported type, whose items are written as
    the text of an empty object. *)
Theorem accepted_but_not_passed_on :
  Forall (λ v, is_decoded (demo_de v) = true ∧ demo_passed_on v = Rejected)
    [demo_with "qps" steep; demo_with "req" random_numbers] ∧
  demo_passed_on demo_json = demo_de demo_json.
Proof. split; [repeat constructor|]; vm_compute; reflexivity. Qed.

Lemma accepted_test_well_formed_witness :
  request_ok (λ _, Ok tt) (λ _, true) (λ _, None) demo_accepted.
Proof.
  apply (accepted_test_well_formed (λ _, Ok tt) (λ _, Some tt) (λ _, Ok tt) (λ _, true) (λ _, None)
    (λ _, "u"%string) demo_json). vm_compute. reflexivity.
Defined.

Lemma demo_json_wf : wf_doc demo_json.
Proof. apply wf_value_doc. unfold demo_json. repeat constructor; cbn; lia. Qed.

Lemma test_json_round_trip_witness :
  ∃ v', ser (request_codec (λ _, Ok tt) (λ _, Some tt) (λ _, Ok tt) (λ _, true) (λ _, None) (λ _, "u"%string)) demo_accepted
    = Val v' ∧
    ∀ uuid', de (request_codec (λ _, Ok tt) (λ _, Some tt) (λ _, Ok tt) (λ _, true) (λ _, None) uuid') v'
      = Decoded demo_accepted.
Proof.
  apply (test_json_round_trip (λ _, Ok tt) (λ _, Some tt) (λ _, Ok tt) (λ _, true) (λ _, None) (λ _, "u"%string) demo_json).
  - exact demo_json_wf.
  - vm_compute. reflexivity.
  - split_and!; try exact I. repeat constructor.
Defined.
