(* ===== verification/TestsRequests.v ===== *)
(** * The unit tests of requests, rates and their sources

    The tests of [overload-http/src/lib.rs] and [overload-http/src/request_specs.rs], of
    [cluster-executor/src/request_providers.rs] and of [cluster-executor/src/split_request.rs]
    as programs on the model: a test that fails panics, and one that is marked
    [#[should_panic]] has to.  JSON is given as the value of its text. *)
From Stdlib Require Import ZArith Lia Ascii SpecFloat.
From stdpp Require Import base list gmap strings numbers sets.
From S2P Require Import Prelude Float32 RateSpec Split Json Assert DataGen Template TestsData.
From S2P Require Import HttpTypes UrlParams Providers Jobs Api Serde Codec.

Local Open Scope string_scope.
Local Open Scope Z_scope.

(** [serde_json::from_str(..).unwrap()] *)
Definition unwrap_decoded {A} (d : decoded A) : outcome A :=
  match d with Decoded a => Val a | _ => Panic end.

(** [#[should_panic]] *)
Definition should_panic {A} (t : outcome A) : outcome unit :=
  match t with Val _ => Panic | Panic => Val tt end.

(** ** Splitting *)

(** The closure of [test_split_ranges]: the ranges follow each other. *)
Fixpoint verify_rest (wide : bool) (last_e : Z) (splits : list (Z * Z)) : outcome unit :=
  match splits with
  | [] => Val tt
  | (s, e) :: splits' =>
      _ ← assert_that (s <=? e);
      _ ← (if wide then assert_that (s - last_e =? 1) else Val tt);
      verify_rest wide e splits'
  end.

Definition verify (splits : outcome (list (Z * Z))) (end_ size : Z) : outcome unit :=
  splits ← splits;
  _ ← assert_that (len splits =? size);
  back ← unwrap (last splits);
  _ ← assert_that (back.2 =? end_);
  front ← unwrap (head splits);
  _ ← assert_that (front.1 <=? front.2);
  verify_rest (size * 2 <? end_) front.2 (tail splits).

Definition test_split_ranges : outcome unit :=
  for_each (λ '(end_, size), verify (split_ranges end_ size) end_ size)
    [(10, 4); (10, 3); (11, 4); (11, 3); (1, 4); (4, 4); (7, 4); (8, 4); (9, 4)].

(** ** Rates *)

Definition step (a b r : Z) : Step := {| step_start := a; step_end := b; step_rate := r |}.

(** Reading a list of steps: each step, then all of them. *)
Definition steps_from (l : list Step) : result rate_error Steps :=
  l ← mapM step_try_from l; steps_try_from l.

Definition rate_error_text (e : rate_error) : string :=
  match e with
  | StartGeEnd a b => "start(" +:+ show_unsigned a +:+ ") can not be greater than or equal to end(" +:+ show_unsigned b +:+ ")"
  | NoSteps => "No steps found."
  | SingleStep => "Need more than one step. Use ConstantQPS for single step."
  | StepsNotFromZero a => "Steps should start from 0, but starts from " +:+ show_unsigned a +:+ " instead."
  | StepsNotContinuous a b c => "Steps are not continuous. An step ends at " +:+ show_unsigned a +:+
      " but next step should start at " +:+ show_unsigned b +:+ ", but starts at " +:+ show_unsigned c
  end.

Fixpoint next_are (s : Steps) (l : list (Z * Z)) : outcome unit :=
  match l with
  | [] => Val tt
  | (nth, expected) :: l' => let '(v, s) := rate_next s nth None in _ ← assert_that (v =? expected); next_are s l'
  end.

Definition serialize_steps_qps : outcome unit :=
  steps ← unwrap_ok (steps_from [step 0 5 1; step 9 10 3; step 6 8 2]);
  next_are steps [(0, 1); (3, 1); (5, 1); (6, 2); (7, 2); (8, 2); (9, 3); (10, 3); (11, 3); (12, 3)].

Definition serialize_steps_qps_not_start_from_zero : outcome unit :=
  match steps_from [step 1 5 1; step 9 10 3; step 6 8 2] with
  | Ok _ => Panic
  | Err e => assert_that (String.eqb (rate_error_text e) "Steps should start from 0, but starts from 1 instead.")
  end.

Definition serialize_steps_qps_start_ge_end : outcome unit :=
  match steps_from [step 0 5 1; step 9 9 3; step 6 8 2] with
  | Ok _ => Panic
  | Err e => assert_that (String.prefix "start(9) can not be greater than or equal to end(9)" (rate_error_text e))
  end.

(** The next item is [q] requests on [c] connections. *)
Definition next_is (q c : Z) (g : RequestGenerator) : outcome RequestGenerator :=
  match poll_next g with
  | (Some (q', c'), g) => _ ← assert_that (q' =? q); _ ← assert_that (c' =? c); Val g
  | (None, _) => Panic
  end.

Definition next_some (g : RequestGenerator) : outcome RequestGenerator :=
  match poll_next g with (Some _, g) => Val g | (None, _) => Panic end.

Definition next_none (g : RequestGenerator) : outcome unit :=
  match poll_next g with (Some _, _) => Panic | (None, _) => Val tt end.

(** The list of requests has no part in the stream of rates. *)
Definition generator (duration rate : Z) (connections : BoxRateScheme) : RequestGenerator :=
  request_generator_new duration false (box_rate {| cr_count_per_sec := rate |}) connections.

Definition test_request_generator_empty_req : outcome unit :=
  g ← next_is 3 0 (generator 3 3 (box_rate elastic_default));
  g ← next_some g;
  g ← next_some g;
  next_none g.

Definition test_request_generator_req_lt_qps : outcome unit :=
  _ ← next_is 3 0 (generator 3 3 (box_rate elastic_default)); Val tt.

Definition test_request_generator_req_eq_qps : outcome unit :=
  _ ← next_is 3 0 (generator 3 3 (box_rate elastic_default)); Val tt.

Definition test_request_generator_req_gt_max : outcome unit :=
  _ ← next_is 15 0 (generator 3 15 (box_rate elastic_default)); Val tt.

Definition test_request_generator_concurrent_con_default : outcome unit :=
  g ← next_is 3 0 (generator 3 3 (box_rate elastic_default));
  g ← next_is 3 0 g;
  g ← next_is 3 0 g;
  next_none g.

Fixpoint skip (n : nat) (g : RequestGenerator) : outcome RequestGenerator :=
  match n with O => Val g | S n' => g ← next_some g; skip n' g end.

(** [0.5] *)
Definition half : f32 := binary_normalize 24 128 1 (-1) false.

Definition test_request_generator_concurrent_con_linear : outcome unit :=
  g ← next_is 3 1 (generator 30 3 (box_rate {| linear_a := half; linear_b := 1; linear_max := 10 |}));
  g ← next_some g;
  g ← next_is 3 2 g;
  g ← skip 26 g;
  g ← next_is 3 10 g;
  next_none g.

(** ** Sources of requests *)

Section ListTests.
  Context {Hir Rng : Type} `{!RandomSource Hir Rng}.

(** [ids] and [rands] are the random ids and numbers. *)
Definition req_list_with_n_req (ids : nat → string) (rands : nat → Z) (n : nat) : RequestList :=
  {| data := (λ i, mk_http_req (ids i) "GET" ("https://httpbin.org/anything/" +:+ show_unsigned (rands i)) None ∅) <$> seq 0 n |}.

Definition request_list_get_n_test (ids : nat → string) (rands : nat → Z) (g : Rng) : outcome unit :=
  '(result, _, _) ← request_list_get_n (Hir := Hir) 2 (req_list_with_n_req ids rands 5) g;
  result ← unwrap_ok result;
  assert_that (len result =? 2).

Definition request_list_get_n_panic_on_0 (ids : nat → string) (rands : nat → Z) (g : Rng) : outcome unit :=
  should_panic (request_list_get_n (Hir := Hir) 0 (req_list_with_n_req ids rands 5) g).

Definition request_list_get_n_error (ids : nat → string) (rands : nat → Z) (g : Rng) : outcome unit :=
  should_panic (
    '(result, _, _) ← request_list_get_n (Hir := Hir) 0 (req_list_with_n_req ids rands 0) g;
    assert_that (negb (is_ok result))).

Definition list_tests (ids : nat → string) (rands : nat → Z) (g : Rng) : list (outcome unit) :=
  [request_list_get_n_test ids rands g; request_list_get_n_panic_on_0 ids rands g; request_list_get_n_error ids rands g].

Lemma list_tests_pass `{!RandomSourceLaws Hir Rng} ids rands g : Forall (λ t, t = Val tt) (list_tests ids rands g).
Proof.
  repeat constructor. unfold request_list_get_n_test.
  destruct (request_list_draws (Hir := Hir) 2 (req_list_with_n_req ids rands 5) g) as (l & g' & -> & Hl & _); [lia|done|].
  cbn. by rewrite Hl.
Qed.

End ListTests.

(** The heap is visited from its top, the last parameter. *)
Definition find_param_positions_test : outcome unit :=
  let params := find_param_positions "http://localhost:2080/anything/{param1}/{param2}" in
  _ ← assert_that (len params =? 2);
  for_each (λ '(i, param), if (i =? 0)%nat then assert_that (up_start param =? 40) else assert_that (up_start param =? 31))
    (zip (seq 0 (length params)) params).

(** ** Requests in JSON *)

Definition quote : ascii := "034".

(** The text of a call of [patternStr]. *)
Definition pattern_call : string := "patternStr(" +:+ String quote ("/anything/[a-z]{4}" +:+ String quote ")").

Definition constant_rate_json (n : Z) : Value := obj [("ConstantRate", obj [("countPerSec", int n)])].

Definition target_json (host : string) (port : Z) : Value :=
  obj [("host", Str host); ("port", int port); ("protocol", Str "HTTP")].

Definition de_serialize_json (mode : Value) : Value :=
  obj [("duration", int 1); ("name", Str "demo-test"); ("qps", constant_rate_json 1);
       ("req", obj [("RequestList", obj [("data", Arr [obj [("method", Str "GET"); ("url", Str "example.com")]])])]);
       ("target", target_json "example.com" 8080);
       ("histogramBuckets", Arr (int <$> [35; 40; 45; 48; 50; 52]));
       ("generationMode", mode)].

Definition host_header_json (headers : list (string * Value)) : Value :=
  obj [("duration", int 10); ("name", Str "json-template-get.json"); ("qps", constant_rate_json 3);
       ("req", obj [("JsonTemplateRequest", obj [
          ("method", Str "GET"); ("url", Str ("{{" +:+ pattern_call +:+ "}}")); ("headers", obj headers)])]);
       ("target", target_json "127.0.0.1" 2080);
       ("generationMode", obj [("batch", obj [("batchSize", int 3)])]);
       ("concurrentConnection", constant_rate_json 3)].

Section RequestTests.
  Context {Compiled Hir AST Conn : Type}.
  Context (compile_path : string → result string Compiled) (parse_regex : string → option Hir).
  Context (compile : string → result string AST) (valid_method : string → bool).
  Context (env : string → option string) (parse_error : string → string).

Local Abbreviation request_c := (request_codec (Conn := Conn) compile_path parse_regex compile valid_method env).
Local Abbreviation spec_c := (request_spec_codec (Conn := Conn) parse_regex compile valid_method env).

(** The request is read twice, each time with ids of its own; what was written is not read. *)
Definition de_serialize_test (mode : Value) (is_mode : LoadGenerationMode → bool) (uuid uuid' : nat → string) : outcome unit :=
  result ← unwrap_decoded (de (request_c uuid) (de_serialize_json mode));
  _ ← ser (request_c uuid) result;
  request ← unwrap_decoded (de (request_c uuid') (de_serialize_json mode));
  _ ← assert_that (list_eqb SFeqb (histogram_buckets request) (f64_of_Z <$> [35; 40; 45; 48; 50; 52]));
  id ← match req request with
       | RSRequestList r => r ← unwrap (head (data r)); Val (req_id r)
       | _ => Val ""
       end;
  a ← ser (spec_c uuid') (req request);
  b ← ser (spec_c uuid') (RSRequestList {| data := [mk_http_req id "GET" "example.com" None ∅] |});
  _ ← assert_that (value_eqb a b);
  assert_that (is_mode (generation_mode request)).

Definition request_de_serialize_test_1 (uuid uuid' : nat → string) : outcome unit :=
  de_serialize_test (Str "immediate") (λ m, match m with Immediate => true | _ => false end) uuid uuid'.

Definition request_de_serialize_test_2 (uuid uuid' : nat → string) : outcome unit :=
  de_serialize_test (obj [("batch", obj [("batchSize", int 10)])])
    (λ m, match m with Batch _ => true | _ => false end) uuid uuid'.

Definition job_status_query_param : outcome unit :=
  result ← unwrap_ok (query_try_from parse_error {["offset" := "0"; "limit" := "20"]});
  _ ← assert_that (match result with PagerOptions offset limit => (offset =? 0) && (limit =? 20) | _ => false end);
  _ ← assert_that (String.eqb "offset=0&limit=20" (show_query result));
  result ← unwrap_ok (query_try_from parse_error {["job_id" := "some-job-id"]});
  _ ← assert_that (match result with JobId _ => true | _ => false end);
  _ ← assert_that (String.eqb "job_id=some-job-id" (show_query result));
  assert_that (negb (is_ok (query_try_from parse_error {["offset" := "0"; "limit" := "20"; "job_id" := "some-uuid"]}))).

(** The text of the body does not matter here. *)
Definition deserialize_post_http_req (body uuid : string) : outcome unit :=
  _ ← unwrap_decoded (de (http_req_codec valid_method uuid) (obj [
    ("method", Str "POST"); ("url", Str "/anything");
    ("headers", obj [("Host", Str "127.0.0.1:2080"); ("Connection", Str "keep-alive")]);
    ("body", Str body)]));
  Val tt.

(** Two headers, one of them [Host] with this value. *)
Definition two_with_host (value : string) (hs : gmap string string) : outcome unit :=
  _ ← assert_that (size hs =? 2)%nat;
  _ ← assert_that (existsb (λ kv, is_host kv.1 && String.eqb kv.2 value) (map_to_list hs));
  assert_that (existsb (λ kv, is_host kv.1) (map_to_list hs)).

Definition test_host_header_update (uuid : nat → string) : outcome unit :=
  r ← unwrap_decoded (de (request_c uuid) (host_header_json [("Connection", Str "keep-alive")]));
  match req r with
  | RSJsonTemplateRequest t => two_with_host (host (target r)) (jt_headers t)
  | _ => Panic
  end.

Definition test_host_header_no_overwrite (uuid : nat → string) : outcome unit :=
  r ← unwrap_decoded (de (request_c uuid) (host_header_json [("Connection", Str "keep-alive"); ("host", Str "localhost")]));
  match req r with
  | RSJsonTemplateRequest t => two_with_host "localhost" (jt_headers t)
  | _ => Panic
  end.

Definition template_ok (url : string) : outcome unit :=
  _ ← unwrap_decoded (de (json_template_codec compile valid_method) (obj [
    ("method", Str "GET"); ("url", Str url);
    ("headers", obj [("Host", Str "127.0.0.1:2080"); ("Connection", Str "keep-alive")])]));
  Val tt.

Definition test_validator_json_template_ok : outcome unit := template_ok ("{{" +:+ pattern_call +:+ "}}").
Definition test_validator_json_template_ok_2 : outcome unit := template_ok "/anything".

Definition request_tests (body : string) (uuid uuid' : nat → string) : list (outcome unit) :=
  [request_de_serialize_test_1 uuid uuid'; request_de_serialize_test_2 uuid uuid'; job_status_query_param;
   deserialize_post_http_req body (uuid 0%nat); test_host_header_update uuid; test_host_header_no_overwrite uuid;
   test_validator_json_template_ok; test_validator_json_template_ok_2].


Lemma method_known m : valid_method m = true → de (method_codec valid_method) (Str m) = Decoded m.
Proof. intros H. cbn. by rewrite H. Qed.

Lemma listed_request_read uuid u :
  valid_method "GET" = true →
  de (http_req_codec valid_method uuid) (obj [("method", Str "GET"); ("url", Str u)]) = Decoded (mk_http_req uuid "GET" u None ∅).
Proof. intros H. eval_objs. cbn -[method_codec]. by rewrite method_known. Qed.

Lemma listed_requests_read uuid :
  valid_method "GET" = true →
  de (spec_c uuid) (obj [("RequestList", obj [("data", Arr [obj [("method", Str "GET"); ("url", Str "example.com")]])])]) =
  Decoded (RSRequestList {| data := [mk_http_req (uuid 0%nat) "GET" "example.com" None ∅] |}).
Proof.
  intros H. pose proof (listed_request_read (uuid 0%nat) "example.com" H) as Hr. revert Hr. eval_objs. intros Hr.
  cbn -[http_req_codec]. by rewrite Hr.
Qed.

Definition de_serialized (uuid : nat → string) (m : LoadGenerationMode) : Request Compiled Hir AST Conn :=
  {| name := Some "demo-test"; duration := 1; target := {| host := "example.com"; port := 8080; protocol := HTTP |};
     req := RSRequestList {| data := [mk_http_req (uuid 0%nat) "GET" "example.com" None ∅] |};
     qps := RateConstant {| cr_count_per_sec := 1 |}; concurrent_connection := default_concurrent_connection;
     connection_keep_alive := keep_alive_default; histogram_buckets := f64_of_Z <$> [35; 40; 45; 48; 50; 52];
     response_assertion := None; generation_mode := m |}.

Lemma de_serialize_read mode uuid m :
  valid_method "GET" = true → de generation_mode_codec mode = Decoded m →
  de (request_c uuid) (de_serialize_json mode) = Decoded (de_serialized uuid m).
Proof.
  intros H Hm. pose proof (listed_requests_read uuid H) as Hr. revert Hr.
  unfold de_serialize_json, constant_rate_json, target_json. eval_objs. intros Hr.
  cbn -[request_spec_codec generation_mode_codec f64_of_Z]. rewrite Hr.
  cbn -[request_spec_codec generation_mode_codec f64_of_Z]. rewrite Hm. done.
Qed.

Lemma listed_requests_written uuid id :
  ser (spec_c uuid) (RSRequestList {| data := [mk_http_req id "GET" "example.com" None ∅] |}) =
  Val (Obj [("RequestList", Obj [("data", Arr [Obj [("id", Str id); ("method", Str "GET");
    ("url", Str "example.com"); ("body", Null); ("headers", Obj [])]])])]).
Proof. vm_compute. reflexivity. Qed.

Lemma de_serialized_written uuid m : ∃ v, ser (request_c uuid) (de_serialized uuid m) = Val v.
Proof.
  destruct (ser (request_c uuid) (de_serialized uuid m)) as [v|] eqn:E; [by eexists|].
  exfalso. destruct m; vm_compute in E; discriminate E.
Qed.

Lemma de_serialize_passes mode is_mode m uuid uuid' :
  valid_method "GET" = true → de generation_mode_codec mode = Decoded m → is_mode m = true →
  de_serialize_test mode is_mode uuid uuid' = Val tt.
Proof.
  intros H Hm Hi. unfold de_serialize_test. rewrite !(de_serialize_read mode _ m) by done.
  cbn -[request_codec request_spec_codec list_eqb value_eqb].
  destruct (de_serialized_written uuid m) as [v ->]. rewrite !listed_requests_written.
  cbn -[request_codec request_spec_codec list_eqb value_eqb].
  assert (list_eqb SFeqb (f64_of_Z <$> [35; 40; 45; 48; 50; 52]) (f64_of_Z <$> [35; 40; 45; 48; 50; 52]) = true) as Hb
    by (by vm_compute).
  cbn -[list_eqb] in Hb. rewrite Hb. cbn. rewrite String.eqb_refl. cbn. by rewrite Hi.
Qed.

Definition called (h : gmap string string) (ast : AST) : JsonTemplate AST :=
  {| jt_method := "GET"; jt_url := Str ("{{" +:+ pattern_call +:+ "}}"); jt_headers := h; jt_body := Null;
     jt_url_template := {["" := ast]}; jt_body_template := ∅ |}.

Lemma template_read hv h ast :
  valid_method "GET" = true → compile pattern_call = Ok ast → de map_codec hv = Decoded h →
  de (json_template_codec compile valid_method) (obj [
    ("method", Str "GET"); ("url", Str ("{{" +:+ pattern_call +:+ "}}")); ("headers", hv)]) = Decoded (called h ast).
Proof.
  intros H Hc Hh. pose proof (TestsData.found compile pattern_call ast ("{{" +:+ pattern_call +:+ "}}") eq_refl Hc) as Hf.
  revert Hf. eval_objs. intros Hf.
  cbn -[method_codec map_codec json_template_try_from]. rewrite method_known, Hh by done.
  cbn -[json_template_try_from]. unfold json_template_try_from, parse_templates.
  change (validate_url_json_val _) with true. cbn -[find_pattern_and_compile]. 
  change (find_pattern_and_compile compile _) with (find_pattern_and_compile compile ("{{" +:+ pattern_call +:+ "}}")).
  rewrite Hf. done.
Qed.

Lemma host_header_read uuid hv h ast :
  valid_method "GET" = true → compile pattern_call = Ok ast → de map_codec (obj hv) = Decoded h →
  ∃ r, de (request_c uuid) (host_header_json hv) = Decoded r ∧ target r = {| host := "127.0.0.1"; port := 2080; protocol := HTTP |} ∧
    req r = RSJsonTemplateRequest (called (validate_and_update_host_header h (target r)) ast).
Proof.
  intros H Hc Hh. pose proof (template_read (obj hv) h ast H Hc Hh) as Ht. revert Ht.
  unfold host_header_json, constant_rate_json, target_json. clear Hh. generalize (obj hv). intros hv'. eval_objs. intros Ht.
  eexists. split.
  - cbn -[json_template_codec f64_of_Z]. rewrite Ht. cbn -[f64_of_Z validate_and_update_host_header]. reflexivity.
  - done.
Qed.

(** The methods are known and the call compiles. *)
Lemma request_tests_pass body uuid uuid' ast :
  valid_method "GET" = true → valid_method "POST" = true → compile pattern_call = Ok ast →
  Forall (λ t, t = Val tt) (request_tests body uuid uuid').
Proof.
  intros Hget Hpost Hc. unfold request_tests. repeat apply Forall_cons_2; [..|by apply Forall_nil].
  - by apply (de_serialize_passes _ _ Immediate).
  - by apply (de_serialize_passes _ _ (Batch 10)).
  - by vm_compute.
  - unfold deserialize_post_http_req. eval_objs. cbn -[method_codec map_codec]. by rewrite method_known.
  - unfold test_host_header_update.
    destruct (host_header_read uuid [("Connection", Str "keep-alive")] {["Connection" := "keep-alive"]} ast)
      as (r & -> & Ht & Hr); [done..|by vm_compute|]. cbn. rewrite Hr, Ht. by vm_compute.
  - unfold test_host_header_no_overwrite.
    destruct (host_header_read uuid [("Connection", Str "keep-alive"); ("host", Str "localhost")]
      {["Connection" := "keep-alive"; "host" := "localhost"]} ast) as (r & -> & Ht & Hr); [done..|by vm_compute|].
    cbn. rewrite Hr, Ht. by vm_compute.
  - unfold test_validator_json_template_ok, template_ok. by erewrite template_read.
  - unfold test_validator_json_template_ok_2, template_ok. eval_objs. cbn -[method_codec map_codec]. by rewrite method_known.
Qed.

End RequestTests.

(** ** Properties *)

(** The tests without parameters. *)
Definition rate_tests : list (outcome unit) :=
  [test_split_ranges; serialize_steps_qps; serialize_steps_qps_not_start_from_zero; serialize_steps_qps_start_ge_end;
   test_request_generator_empty_req; test_request_generator_req_lt_qps; test_request_generator_req_eq_qps;
   test_request_generator_req_gt_max; test_request_generator_concurrent_con_default;
   test_request_generator_concurrent_con_linear; find_param_positions_test].

(** The model passes the unit tests of reading requests, of rates, of splitting files and of
    request lists, for all ids and random numbers, if GET and POST are methods and the
    expression of the tests compiles. *)
Theorem request_model_passes_tests {Compiled Hir AST Conn Rng} `{!RandomSource Hir Rng, !RandomSourceLaws Hir Rng}
    (compile_path : string → result string Compiled) parse_regex (compile : string → result string AST)
    valid_method env parse_error body uuid uuid' rands ast (g : Rng) :
  valid_method "GET" = true → valid_method "POST" = true → compile pattern_call = Ok ast →
  Forall (λ t, t = Val tt)
    (rate_tests ++ list_tests (Hir := Hir) uuid rands g ++
     request_tests (Hir := Hir) (Conn := Conn) compile_path parse_regex compile valid_method env parse_error body uuid uuid')%list.
Proof.
  intros Hget Hpost Hc. apply Forall_app. split; [|apply Forall_app; split].
  - repeat apply Forall_cons_2; [..|by apply Forall_nil]; by vm_compute.
  - apply list_tests_pass.
  - by eapply request_tests_pass.
Qed.

Lemma request_model_passes_tests_witness :
  Forall (λ t, t = Val tt)
    (rate_tests ++ list_tests (Hir := unit) (λ _, "id") (λ _, 7) tt ++
     request_tests (Compiled := unit) (Hir := unit) (AST := unit) (Conn := unit)
       (λ _, Ok tt) (λ _, Some tt) (λ _, Ok tt) (λ _, true) (λ _, None) (λ _, "") "{}" (λ _, "id") (λ _, "id2"))%list.
Proof.
  apply (request_model_passes_tests (λ _, Ok tt) (λ _, Some tt) (λ _, Ok tt) (λ _, true) (λ _, None) (λ _, "")
    "{}" (λ _, "id") (λ _, "id2") (λ _, 7) tt tt); reflexivity.
Defined.
