(* ===== verification/TestsProviders.v ===== *)
(** * The unit tests of random requests

    The tests of [RandomDataRequest] and [JsonTemplate] of
    [cluster-executor/src/request_providers.rs] as programs on the model, like
    [TestsRequests]: schemas with and without an error, parameters put in a URL, bodies made
    from a schema and read back. *)
From Stdlib Require Import ZArith Lia Ascii.
From stdpp Require Import base list gmap strings numbers sets.
From S2P Require Import Prelude Json DataGen Template TestsData HttpTypes UrlParams Providers.
From S2P Require Import Serde Codec TestsRequests.

Local Open Scope string_scope.
Local Open Scope Z_scope.

(** ** The schemas of the tests *)

Definition age_text : string := "Age in years which must be equal to or greater than zero.".
Definition first_name_text : string := "The person's first name.".

(** [bodySchema]: a person with an age of at most [max]. *)
Definition person_schema (min max : Value) : Value :=
  obj [("$id", Str "https://example.com/person.schema.json");
       ("$schema", Str "https://json-schema.org/draft/2020-12/schema");
       ("title", Str "Person"); ("type", Str "object");
       ("properties", obj [
          ("firstName", described "string" first_name_text);
          ("lastName", described "string" "The person's last name.");
          ("age", obj [("description", Str age_text); ("type", Str "integer"); ("minimum", min); ("maximum", max)])])].

(** [uriParamSchema]: a string and a number, the latter named [second]. *)
Definition param_schema (second : string) (min_length max_length min max : Z) : Value :=
  obj [("type", Str "object");
       ("properties", obj [
          ("param1", obj [("type", Str "string"); ("description", Str first_name_text);
             ("minLength", int min_length); ("maxLength", int max_length)]);
          (second, obj [("description", Str age_text); ("type", Str "integer");
             ("minimum", int min); ("maximum", int max)])])].

Definition random_json (max : Value) : Value :=
  obj [("url", Str "http://localhost:2080/anything/{param1}/{param2}"); ("method", Str "GET");
       ("bodySchema", person_schema (int 1) max);
       ("uriParamSchema", param_schema "param2" 6 15 1000000 1100000)].

(** ** The tests *)

Section Tests.
  Context {Hir Rng AST : Type} `{!RandomSource Hir Rng}.
  Context (parse_regex : string → option Hir) (valid_method : string → bool).
  Context (show_json : Value → string) (parse_json : string → option Value) (is_match : string → string → bool).
  Context (compile : string → result string AST) (eval : AST → Rng → outcome (result string Value * Rng)).
  Context (order : gmap string AST → list (string * AST)).

Definition random_data_generator_json_test : outcome unit :=
  _ ← unwrap_decoded (de (random_data_codec parse_regex valid_method) (random_json (int 100))); Val tt.

(** The maximum is a string. *)
Definition random_data_generator_json_test_invalid : outcome unit :=
  should_panic (unwrap_decoded (de (random_data_codec parse_regex valid_method) (random_json (Str "100")))).

Definition substituted_url : string := "http://localhost:2080/anything/{param1}/{p2}".
Definition substituted_regex : string := "http://localhost:2080/anything/[a-zA-Z]{1,10}/[0-9]{1,4}".

Definition substitution_param_test (g : Rng) : outcome unit :=
  schema ← unwrap_ok (data_schema_from_value parse_regex (param_schema "p2" 1 10 1 1000));
  let params := find_param_positions substituted_url in
  _ ← gen_repeat 5 (λ g,
        '(data, g) ← generate_data parse_regex schema g;
        u ← substitute_param_with_data params data substituted_url;
        _ ← assert_that (is_match substituted_regex u);
        Val (tt, g)) g;
  Val tt.

(** The generator of the test, before it is initialised. *)
Definition posting (body_schema uri_param_schema : DataSchema Hir) : RandomDataRequest Hir :=
  {| rd_init := false; rd_method := "POST"; rd_url := "http://example.com/{param1}/{p2}"; rd_url_param_pos := None;
     rd_headers := ∅; rd_body_schema := Some body_schema; rd_uri_param_schema := Some uri_param_schema |}.

(** The age in the body of a request. *)
Definition age_in_range (r : HttpReq) : outcome unit :=
  text ← unwrap (body r);
  result ← unwrap (parse_json text);
  age ← unwrap (value_get "age" result);
  age ← unwrap (as_i64 age);
  _ ← assert_that (age <=? 100);
  assert_that (0 <=? age).

Definition random_data_generator (g : Rng) : outcome unit :=
  body_schema ← unwrap_ok (data_schema_from_value parse_regex (person_schema (int 0) (int 100)));
  url_schema ← unwrap_ok (data_schema_from_value parse_regex (param_schema "p2" 1 5 0 100));
  '(requests, _, g) ← random_data_get_n parse_regex show_json 5 (posting body_schema url_schema) g;
  _ ← assert_that (is_ok requests);
  requests ← unwrap_ok requests;
  _ ← for_each age_in_range requests;
  body_schema ← unwrap_ok (data_schema_from_value parse_regex (person_schema (int 0) (int 100)));
  url_schema ← unwrap_ok (data_schema_from_value parse_regex (param_schema "p2" 6 15 1000000 1100000));
  '(requests, _, _) ← random_data_get_n parse_regex show_json 5 (posting body_schema url_schema) g;
  assert_that (is_ok requests).

Definition json_template_request_provider (g : Rng) : outcome unit :=
  templates ← parse_templates compile (Str "/anything");
  '(requests, _, _) ← json_template_get_n eval order show_json 5
    {| jt_method := "POST"; jt_url := Str "/anything"; jt_headers := ∅; jt_body := Null;
       jt_url_template := templates; jt_body_template := ∅ |} g;
  assert_that (is_ok requests).

Definition random_tests (g : Rng) : list (outcome unit) :=
  [random_data_generator_json_test; random_data_generator_json_test_invalid; substitution_param_test g;
   random_data_generator g; json_template_request_provider g].

(** ** What the crates promise *)

Definition letter (a : ascii) : bool :=
  let n := Z.of_nat (nat_of_ascii a) in ((65 <=? n) && (n <=? 90)) || ((97 <=? n) && (n <=? 122)).
Definition letters (s : string) : Prop := str_forall letter s = true.

(** A person as the schema describes one. *)
Definition person_value (age : Z) (first last : string) : Value :=
  Obj [("age", int_value age); ("firstName", Str first); ("lastName", Str last)].

(** [fastrand::alphabetic] draws a letter; a URL with up to ten letters and up to four digits
    matches the expression of the test; the text of a person is read as the person; the
    entries of a map are visited in some order. *)
Record ProviderCrates : Prop := {
  draws_letter (g : Rng) : letter (fst (rng_alphabetic (Hir := Hir) g)) = true;
  matches_url s n : letters s → 1 <= slen s <= 10 → 0 <= n <= 9999 →
    is_match substituted_regex ("http://localhost:2080/anything/" +:+ s +:+ "/" +:+ show_signed n) = true;
  reads_person age first last : 0 <= age <= 100 → letters first → letters last →
    parse_json (show_json (person_value age first last)) = Some (person_value age first last);
  visits m : order m ≡ₚ map_to_list m
}.

(** ** They pass *)

Section Pass.
  Context `{!RandomSourceLaws Hir Rng} (Hcrates : ProviderCrates).

Lemma alphabetic_letters n (g : Rng) : letters (fst (alphabetic_string (Hir := Hir) n g)).
Proof.
  revert g. induction n as [|n IH]; intros g; [done|]. simpl.
  pose proof (draws_letter Hcrates g) as Ha. destruct (rng_alphabetic g) as [a g1]. specialize (IH g1).
  destruct (alphabetic_string n g1) as [s g2]. unfold letters in *. simpl in *. by rewrite Ha.
Qed.

(** A string of letters with a length in the range. *)
Lemma draws_letters min max (g : Rng) :
  0 <= min <= max → max <= i64_MAX →
  ∃ s g', random_string (Hir := Hir) min max g = Val (s, g') ∧ letters s ∧ min <= slen s <= max.
Proof.
  intros Hmin Hmax. unfold random_string. destruct (fastrand_i64_ok (Hir := Hir) min max g) as (n & g1 & -> & Hn); [lia|].
  cbn [mbind outcome_bind]. rewrite wrap_id by lia. destruct (Z.ltb_spec i64_MAX n); [lia|].
  pose proof (alphabetic_letters (Z.to_nat n) g1) as Hl. pose proof (alphabetic_string_length (Hir := Hir) (Z.to_nat n) g1) as Hs.
  destruct (alphabetic_string (Z.to_nat n) g1) as [s g2]. simpl in *. exists s, g2. split_and!; [done..| |]; unfold slen; lia.
Qed.

(** One datum after the other, in the order of the schema. *)
Ltac draw_all :=
  repeat match goal with
  | |- context [fastrand_i64 ?a ?b ?g] =>
      let n := fresh "n" in let g' := fresh "g" in let H := fresh "Hn" in
      destruct (fastrand_i64_ok (Hir := Hir) a b g) as (n & g' & -> & H); [lia|cbn -[random_string fastrand_i64]]
  | |- context [random_string ?a ?b ?g] =>
      let s := fresh "s" in let g' := fresh "g" in let H := fresh "Hs" in
      destruct (draws_letters a b g) as (s & g' & -> & H); [lia..|cbn -[random_string fastrand_i64]]
  end.

Lemma person_read : ∃ s, data_schema_from_value parse_regex (person_schema (int 0) (int 100)) = Ok s ∧
  ∀ g : Rng, ∃ age first last g', generate_data parse_regex s g = Val (person_value age first last, g') ∧
    0 <= age <= 100 ∧ letters first ∧ letters last.
Proof.
  eexists. split; [vm_compute; reflexivity|]. intros g. cbn -[random_string fastrand_i64].
  draw_all. do 4 eexists. split; [reflexivity|]. intuition.
Qed.

(** What a schema of parameters is read as. *)
Definition params_of (min_length max_length min max : Z) : DataSchema Hir :=
  SObject None
    [SInteger "p2" (cinsert KMaximum (CMaximum max) (cinsert KMinimum (CMinimum min) no_constraints));
     SString "param1" (cinsert KMaxLength (CMaxLength max_length) (cinsert KMinLength (CMinLength min_length) no_constraints))].

Lemma params_read min_length max_length min max :
  (min_length, max_length, min, max) ∈ [(1, 10, 1, 1000); (1, 5, 0, 100); (6, 15, 1000000, 1100000)] →
  data_schema_from_value parse_regex (param_schema "p2" min_length max_length min max) =
  Ok (params_of min_length max_length min max).
Proof.
  intros Hin. rewrite !elem_of_cons, elem_of_nil in Hin.
  destruct Hin as [[= -> -> -> ->]|[[= -> -> -> ->]|[[= -> -> -> ->]|[]]]]; vm_compute; reflexivity.
Qed.

Lemma params_drawn min_length max_length min max (g : Rng) :
  0 <= min_length <= max_length → max_length <= i64_MAX → min <= max →
  ∃ n t g', generate_data parse_regex (params_of min_length max_length min max) g =
    Val (Obj [("p2", int_value n); ("param1", Str t)], g') ∧
    min <= n <= max ∧ letters t ∧ min_length <= slen t <= max_length.
Proof.
  intros Hl Hm Hr. cbn -[random_string fastrand_i64]. draw_all. do 3 eexists. split; [reflexivity|]. intuition.
Qed.

(** A valid test is read, one whose maximum is a string is rejected. *)
Lemma json_passes :
  valid_method "GET" = true →
  random_data_generator_json_test = Val tt ∧ random_data_generator_json_test_invalid = Val tt.
Proof.
  intros Hget. unfold random_data_generator_json_test, random_data_generator_json_test_invalid, random_data_codec. cbn [de].
  split.
  all: match goal with |- context [as_fields 5 ?v] =>
    let t := eval vm_compute in (as_fields 5 v) in assert (as_fields 5 v = t) as -> by (vm_compute; reflexivity) end.
  all: cbn -[data_schema_codec method_codec]; rewrite method_known by done; cbn -[data_schema_codec].
  all: repeat match goal with |- context [de (data_schema_codec parse_regex) ?v] =>
    let t := eval vm_compute in (de (data_schema_codec parse_regex) v) in
    assert (de (data_schema_codec parse_regex) v = t) as -> by (vm_compute; reflexivity) end.
  all: reflexivity.
Qed.

Lemma param_value_int n : i64_MIN <= n <= i64_MAX → param_value (int_value n) = show_signed n.
Proof.
  intros Hn. unfold param_value. rewrite as_i64_int_value by done.
  unfold int_value. by destruct (n <? 0).
Qed.

Lemma substituted n t :
  i64_MIN <= n <= i64_MAX →
  substitute_param_with_data (find_param_positions substituted_url) (Obj [("p2", int_value n); ("param1", Str t)])
    substituted_url = Val ("http://localhost:2080/anything/" +:+ t +:+ "/" +:+ show_signed n).
Proof.
  intros Hn. rewrite <- (param_value_int n) by done. generalize (int_value n) as v. intros v.
  rewrite substitute_two by (vm_compute; lia).
  transitivity (Val ("http://localhost:2080/anything/" +:+ t +:+ "/" +:+ (param_value v +:+ ""))); [reflexivity|].
  by rewrite append_empty_r.
Qed.

Lemma substitution_passes (g : Rng) : substitution_param_test g = Val tt.
Proof.
  unfold substitution_param_test. rewrite params_read by set_solver. cbn [unwrap_ok mbind outcome_bind].
  match goal with |- context [gen_repeat 5 ?f ?g] => destruct (gen_repeat_ok 5 f (λ _, True) g) as (l & g' & -> & _); [|done] end.
  intros g0. destruct (params_drawn 1 10 1 1000 g0) as (n & t & g1 & -> & Hn & Ht & Hl); [lia..|].
  cbn [mbind outcome_bind]. rewrite substituted by lia. cbn [mbind outcome_bind].
  rewrite (matches_url Hcrates) by (done || lia). by eexists _, _.
Qed.

(** A request of the generator has a person as its body. *)
Lemma posting_one s a b c d (g : Rng) :
  data_schema_from_value parse_regex (person_schema (int 0) (int 100)) = Ok s →
  0 <= a <= b → b <= i64_MAX → c <= d →
  ∃ r g', random_data_one parse_regex show_json (random_data_init (posting s (params_of a b c d))) g = Val (r, g') ∧
    age_in_range r = Val tt.
Proof.
  intros Hs Hl Hm Hr. destruct person_read as (s' & Hs' & Hgen). assert (s' = s) as -> by congruence.
  unfold random_data_one, random_data_init. cbn -[generate_data find_param_positions substitute_param_with_data].
  destruct (params_drawn a b c d g) as (n & t & g1 & -> & _); [done..|]. cbn -[generate_data find_param_positions substitute_param_with_data].
  rewrite substitute_two by (vm_compute; lia). cbn -[generate_data param_value].
  destruct (Hgen g1) as (age & first & last & g2 & -> & Hage & Hf & Hla). cbn -[param_value].
  do 2 eexists. split; [reflexivity|]. unfold age_in_range. cbn [body unwrap mbind outcome_bind].
  rewrite (reads_person Hcrates) by done. cbn -[as_i64 Z.leb]. rewrite as_i64_int_value by lia. cbn -[Z.leb].
  destruct (Z.leb_spec age 100), (Z.leb_spec 0 age); (done || lia).
Qed.

Lemma posting_get s a b c d (g : Rng) :
  data_schema_from_value parse_regex (person_schema (int 0) (int 100)) = Ok s →
  0 <= a <= b → b <= i64_MAX → c <= d →
  ∃ l self g', random_data_get_n parse_regex show_json 5 (posting s (params_of a b c d)) g = Val (Ok l, self, g') ∧
    Forall (λ r, age_in_range r = Val tt) l.
Proof.
  intros Hs Hl Hm Hr. unfold random_data_get_n.
  destruct (gen_repeat_ok (Z.to_nat 5) (random_data_one parse_regex show_json (random_data_init (posting s (params_of a b c d))))
    (λ r, age_in_range r = Val tt) g) as (l & g' & -> & _ & Hf); [intros g0; by apply posting_one|].
  by do 3 eexists.
Qed.

Lemma generator_passes (g : Rng) : random_data_generator g = Val tt.
Proof.
  unfold random_data_generator. destruct person_read as (s & Hs & _). rewrite Hs, !params_read by set_solver.
  cbn [unwrap_ok mbind outcome_bind].
  destruct (posting_get s 1 5 0 100 g Hs) as (l & self & g1 & -> & Hl); [lia..|]. cbn -[random_data_get_n for_each].
  rewrite for_each_ok by done. cbn -[random_data_get_n].
  by destruct (posting_get s 6 15 1000000 1100000 g1 Hs) as (l' & self' & g2 & -> & _); [lia..|].
Qed.

Lemma template_passes (g : Rng) : json_template_request_provider g = Val tt.
Proof.
  unfold json_template_request_provider. assert (parse_templates compile (Str "/anything") = Val ∅) as -> by done.
  cbn [mbind outcome_bind]. unfold json_template_get_n.
  match goal with |- context [gen_repeat ?n ?f ?g] => destruct (gen_repeat_ok n f (λ _, True) g) as (l & g' & -> & _); [|done] end.
  intros g0. unfold json_template_one. cbn [jt_url_template jt_url jt_body].
  assert (order ∅ = []) as -> by (apply Permutation_nil_r; rewrite (visits Hcrates); by rewrite map_to_list_empty).
  by do 2 eexists.
Qed.

End Pass.
End Tests.

(** ** Properties *)

(** The model passes the tests of random requests and of templates, for all random numbers:
    whatever is drawn, the URLs match and the bodies are read back with an age in its range. *)
Theorem random_tests_pass {Hir Rng AST} `{!RandomSource Hir Rng, !RandomSourceLaws Hir Rng}
    (parse_regex : string → option Hir) valid_method show_json parse_json is_match
    (compile : string → result string AST) eval order (g : Rng) :
  ProviderCrates (Hir := Hir) (Rng := Rng) show_json parse_json is_match order → valid_method "GET" = true →
  Forall (λ t, t = Val tt)
    (random_tests parse_regex valid_method show_json parse_json is_match compile eval order g).
Proof.
  intros Hc Hget. destruct (json_passes parse_regex valid_method Hget).
  repeat apply Forall_cons_2; [done|done|..|by apply Forall_nil].
  - by eapply substitution_passes.
  - by eapply generator_passes.
  - by eapply template_passes.
Qed.

(** ** A concrete instance *)

(** A person as three fields that are separated by commas. *)
Definition person_text (v : Value) : string :=
  match v with
  | Obj [(_, age); (_, Str first); (_, Str last)] => param_value age +:+ String "," (first +:+ String "," last)
  | _ => ""
  end.

Definition person_parse (s : string) : option Value :=
  match split_char "," s with
  | [age; first; last] => (λ n, person_value n first last) <$> parse_i64 age
  | _ => None
  end.

Definition url_match (_ s : string) : bool := String.prefix "http://localhost:2080/anything/" s.

Definition lowest : RandomSource unit unit :=
  {| rng_i64 min _ g := (min, g); rng_alphabetic g := ("a"%char, g); rng_from_hir _ g := (None, g) |}.

Lemma lowest_laws : RandomSourceLaws unit unit (RandomSource0 := lowest).
Proof. intros min max g H. simpl. lia. Qed.

Lemma letters_no_comma s : letters s → str_forall (λ a, negb (Ascii.eqb a ",")) s = true.
Proof. apply str_forall_impl. intros a Ha. by destruct (Ascii.eqb_spec a ","); subst. Qed.

(** No age up to a hundred is written with a comma. *)
Lemma ages_no_comma age : 0 <= age <= 100 → str_forall (λ a, negb (Ascii.eqb a ",")) (show_signed age) = true.
Proof.
  intros H. assert (Hall : Forall (λ n, str_forall (λ a, negb (Ascii.eqb a ",")) (show_signed (Z.of_nat n)) = true) (seq 0 101))
    by (apply forallb_Forall; vm_compute; reflexivity).
  rewrite Forall_forall in Hall. specialize (Hall (Z.to_nat age)). rewrite Z2Nat.id in Hall by lia.
  apply Hall, elem_of_seq. lia.
Qed.

Lemma lowest_crates :
  ProviderCrates (Hir := unit) (Rng := unit) (RandomSource0 := lowest) person_text person_parse url_match
    (λ m : gmap string unit, map_to_list m).
Proof.
  split.
  - done.
  - intros s n _ _ _. apply prefix_append.
  - intros age first last Ha Hf Hl. unfold person_text, person_value. rewrite param_value_int by lia. unfold person_parse.
    rewrite split_char_app by by apply ages_no_comma. rewrite split_char_app by by apply letters_no_comma.
    rewrite split_char_none by by apply letters_no_comma. by rewrite parse_show_signed by lia.
  - done.
Qed.

Lemma random_tests_pass_witness :
  Forall (λ t, t = Val tt)
    (random_tests (Hir := unit) (Rng := unit) (RandomSource0 := lowest) (λ _, None) (λ m, String.eqb m "GET")
       person_text person_parse url_match (λ _, Ok tt) (λ _ g, Val (Ok Null, g)) map_to_list tt).
Proof.
  apply (random_tests_pass (RandomSource0 := lowest) (RandomSourceLaws0 := lowest_laws) (λ _, None)
    (λ m, String.eqb m "GET") person_text person_parse url_match (λ _, Ok tt) (λ _ g, Val (Ok Null, g)) map_to_list tt);
    [exact lowest_crates|reflexivity].
Defined.
