(* ===== verification/TestsRun.v ===== *)
(** * The unit tests of running a job

    The tests of the primary, of the metrics, of the assertions and of job ids as programs
    on the model, with two more on requests in JSON of [cluster-executor/src/lib.rs].  The
    network of the test of the primary delivers everything; in which order a [HashMap] is
    visited is an argument. *)
From Stdlib Require Import ZArith Lia Ascii SpecFloat.
From stdpp Require Import base list gmap strings numbers sets.
From S2P Require Import Prelude Float32 RateSpec Split Json Assert DataGen Template TestsData.
From S2P Require Import HttpTypes Providers Jobs Primary Cycle Metrics Secondary Job.
From S2P Require Import Api Serde Codec TestsRequests.

Local Open Scope string_scope.
Local Open Scope Z_scope.

(** ** Job ids *)

(** [uuid_is_match] finds the id in the name, so the new id is not used. *)
Definition test_job_id (uuid name expect : string) : outcome unit :=
  assert_that (String.eqb (job_id uuid (Some name)) expect).

Definition job_id_tests (uuid : string) : list (outcome unit) :=
  [test_job_id uuid "multi-req-7e19ae6b-59af-4916-8cc0-a04cc48a739b" "multi-req-7e19ae6b-59af-4916-8cc0-a04cc48a739b";
   test_job_id uuid "multi-req-7e19ae6b-59af-4916-8cc0-a04cc48a739b_0" "multi-req-7e19ae6b-59af-4916-8cc0-a04cc48a739b_0"].

(** ** Filling up requests *)

Definition test_fill_req_if_less_than_connections : outcome unit :=
  let r := mk_http_req "" "GET" "http://example.com/anything/abcdef/1000001" None ∅ in
  r ← unwrap (fill_req_if_less_than_connections (fill_fuel 7) 7 1 [r]);
  reqs ← r;
  assert_that (length reqs =? 7)%nat.

(** ** Metrics *)

Section MetricsTests.
  Context {Reg : Type} `{!PromRegistry Reg}.

(** The values that are observed do not matter to the registry. *)
Definition test_metrics_factory (reg : Reg) : outcome unit :=
  '(_, f) ← metrics_with_buckets (λ f, f) "job_id_1" (factory_default reg);
  '(_, f) ← metrics_with_buckets (λ f, f) "job_id_2" f;
  Val tt.

Definition test_metrics_factory_same_job (reg : Reg) : outcome unit :=
  '(_, f) ← metrics_with_buckets (λ f, f) "job_id_1" (factory_default reg);
  '(_, f) ← metrics_with_buckets (λ f, f) "job_id_1" f;
  Val tt.

End MetricsTests.

(** ** Assertions *)

Definition json_response : Value :=
  obj [("firstName", Str "John"); ("lastName", Str "doe"); ("age", int 26);
       ("address", obj [("streetAddress", Str "naist street"); ("city", Str "Nara"); ("postalCode", Str "630-0192")]);
       ("phoneNumbers", Arr [
          obj [("type", Str "iPhone"); ("number", Str "0123-4567-8888")];
          obj [("type", Str "home"); ("number", Str "0123-4567-8910")]])].

Section AssertionTests.
  Context {Compiled : Type} (compile_path : string → result string Compiled).
  Context (select : Compiled → Value → result string (list Value)).

Definition path_of (p : string) : outcome (JsonPath Compiled) := unwrap_ok (json_path_try_from compile_path p).

(** The URL is [http://localhost:3030/hello/iPhone?eanye=dxwr&age=16]. *)
Definition test_uri : Uri := {| uri_path := "/hello/iPhone"; uri_query := Some "eanye=dxwr&age=16" |}.

Definition test_assertion : outcome unit :=
  type_path ← path_of "$.phoneNumbers[0].type";
  city ← path_of "$.address.city";
  city' ← path_of "$.address.city";
  city'' ← path_of "$.address.city";
  r ← simple_assert select test_uri (Some json_response) json_response
        (mk_response_assertion (Some [
          mk_assertion 0 (RequestPath 2) (FromJsonResponse type_path);
          mk_assertion 0 (ExpectConstant (Str "Nara")) (FromJsonResponse city);
          mk_assertion 0 (RequestBody city') (FromJsonResponse city'');
          mk_assertion 0 (RequestQueryParam "age") (ActualConstant (Str "16"))]) None);
  assert_that (is_ok r).

Definition test_de_serialize : outcome unit :=
  let constant_str := ActualConstant (Str "$.phoneNumbers[:1].type") in
  v ← ser (actual_codec compile_path) constant_str;
  _ ← unwrap_decoded (de (actual_codec compile_path) v);
  p ← path_of "$.phoneNumbers[:1].type";
  v ← ser (actual_codec compile_path) (FromJsonResponse p);
  _ ← unwrap_decoded (de (actual_codec compile_path) v);
  let assertion := mk_assertion 123 (ExpectConstant (Str "iPhone")) (FromJsonResponse p) in
  v ← ser (assertion_codec compile_path) assertion;
  _ ← unwrap_decoded (de (assertion_codec compile_path) v);
  json ← ser (response_assertion_codec compile_path) (mk_response_assertion (Some [assertion]) None);
  validator ← unwrap_decoded (de (response_assertion_codec compile_path) json);
  l ← unwrap (simple_assertions validator);
  first ← unwrap (head l);
  _ ← assert_that (match expectation first with ExpectConstant x => bool_decide (as_str x = Some "iPhone") | _ => false end);
  assert_that (match actual first with FromJsonResponse _ => true | _ => false end).

(** What the tests rely on of [jsonpath_lib]: the paths compile, and these two select the
    value of the response they name. *)
Record TestPaths : Prop := {
  path_compiles p : p ∈ ["$.phoneNumbers[0].type"; "$.address.city"; "$.phoneNumbers[:1].type"] → is_ok (compile_path p) = true;
  selects_type c : compile_path "$.phoneNumbers[0].type" = Ok c → select c json_response = Ok [Str "iPhone"];
  selects_city c : compile_path "$.address.city" = Ok c → select c json_response = Ok [Str "Nara"]
}.

Lemma path_of_ok p : TestPaths → p ∈ ["$.phoneNumbers[0].type"; "$.address.city"; "$.phoneNumbers[:1].type"] →
  ∃ c, compile_path p = Ok c ∧ path_of p = Val (mk_path p c).
Proof.
  intros Hp Hin. pose proof (path_compiles Hp p Hin) as Hok. unfold path_of, json_path_try_from.
  destruct (compile_path p) as [c|]; [|done]. by exists c.
Qed.

Lemma all_hold uri body response l lua :
  Forall segment_ok l → Forall (λ a, verdict select uri body response a = Val None) l →
  simple_assert select uri body response (mk_response_assertion (Some l) lua) = Val (Ok tt).
Proof.
  intros Hs Hl. unfold simple_assert. cbn [simple_assertions]. change (default [] (Some l)) with l.
  pose proof (assert_loop_verdicts select uri body response l
    {| errors := []; paths := None; params := None; all_matched := true |} Hs) as H.
  assert (∃ vs, mapM (verdict select uri body response) l = Val vs ∧ omap id vs = []) as (vs & Hvs & He).
  { clear H Hs. induction Hl as [|a l Ha Hl IH]; [by exists []|]. destruct IH as (vs & Hvs & He).
    exists (None :: vs). simpl. rewrite Ha. simpl. by rewrite Hvs. }
  rewrite Hvs, He in H. destruct H as (st & -> & _ & Hm & _); [by split|]. simpl. by rewrite Hm.
Qed.

Lemma assertion_tests_pass : TestPaths → test_assertion = Val tt ∧ test_de_serialize = Val tt.
Proof.
  intros Hp. destruct (path_of_ok "$.phoneNumbers[0].type" Hp) as (c1 & H1 & P1); [set_solver|].
  destruct (path_of_ok "$.address.city" Hp) as (c2 & H2 & P2); [set_solver|].
  destruct (path_of_ok "$.phoneNumbers[:1].type" Hp) as (c3 & H3 & P3); [set_solver|].
  pose proof (selects_type Hp c1 H1) as S1. pose proof (selects_city Hp c2 H2) as S2. split.
  - unfold test_assertion. rewrite P1, P2. cbn [mbind outcome_bind]. rewrite all_hold; [done| |].
    + repeat apply Forall_cons_2; [..|by apply Forall_nil]; done.
    + repeat apply Forall_cons_2; [..|by apply Forall_nil]; unfold verdict, compare_actual; cbn -[json_response];
        rewrite ?S1, ?S2; cbn -[json_response]; by rewrite ?S2.
  - unfold test_de_serialize. rewrite P3. vm_compute. rewrite !H3. reflexivity.
Qed.
End AssertionTests.

(** ** The primary *)

Section PrimaryTests.
  Context {Compiled Hir AST Conn : Type}.
  Context (iter : list (event Compiled Hir AST Conn) → gset string → list string).

Local Abbreviation Log := (list (event Compiled Hir AST Conn)).
Local Abbreviation Msg := (MessageFromPrimary Compiled Hir AST Conn).

(** What has come in at the server of [id]; the receiver of the test takes it in order. *)
Definition delivered (id : string) (net : Log) : list Msg :=
  omap (λ e, match e with Delivered j m => if decide (j = id) then Some m else None | _ => None end) net.

Definition all_sent (net : Log) (id : string) (m : Msg) : bool := true.
Definition nth_msg (id : string) (n : nat) (net : Log) : outcome Msg := unwrap (delivered id net !! n).

Definition send_rates (senders : gset string) (qps conns : Z) (net : Log) : outcome Log :=
  '(_, net) ← send_rate_message_to_secondaries all_sent iter senders qps conns net; Val net.

Definition is_metadata (m : Msg) : bool := match m with MMetadata _ => true | _ => false end.
Definition is_request (m : Msg) : bool := match m with MRequest _ => true | _ => false end.

(** [assert_rate_msg]: the counts that are added to the sums. *)
Definition assert_rate_msg (m : Msg) (qps conn_c : list Z) : outcome (Z * Z) :=
  match m with
  | MRates r =>
      _ ← assert_that (bool_decide (rm_connections r ∈ conn_c));
      _ ← assert_that (bool_decide (rm_qps r ∈ qps));
      Val (rm_qps r, rm_connections r)
  | _ => Panic
  end.

(** The [n]-th messages of both, and their sums. *)
Definition both_rates (id1 id2 : string) (n1 n2 : nat) (qps conn_c : list Z) (total_qps total_conns : Z) (net : Log) : outcome unit :=
  m1 ← nth_msg id1 n1 net;
  '(q1, c1) ← assert_rate_msg m1 qps conn_c;
  m2 ← nth_msg id2 n2 net;
  '(q2, c2) ← assert_rate_msg m2 qps conn_c;
  _ ← assert_that (q1 + q2 =? total_qps);
  assert_that (c1 + c2 =? total_conns).

(** One of the senders is taken away for the first rates. *)
Definition test_send_message_to_secondaries (id1 id2 : string) (r : Request Compiled Hir AST Conn) : outcome unit :=
  let senders : gset string := {[id1; id2]} in
  let net := send_metadata_with_primary all_sent iter "localhost" senders [id1; id2] [Connected id1; Connected id2] in
  '(_, net) ← send_request_to_secondary all_sent iter (λ _ f, (Err "", f)) r senders [id1; id2] net;
  m ← nth_msg id1 0 net;
  _ ← assert_that (is_metadata m);
  m ← nth_msg id1 1 net;
  _ ← assert_that (is_request m);
  net ← send_rates (senders ∖ {[id2]}) 10 5 net;
  m ← nth_msg id1 2 net;
  _ ← assert_that (match m with MRates r => (rm_connections r =? 5) && (rm_qps r =? 10) | _ => false end);
  m ← nth_msg id2 0 net;
  _ ← assert_that (is_metadata m);
  m ← nth_msg id2 1 net;
  _ ← assert_that (is_request m);
  net ← send_rates senders 10 5 net;
  _ ← both_rates id1 id2 3 2 [5] [2; 3] 10 5 net;
  net ← send_rates senders 5 10 net;
  _ ← both_rates id1 id2 4 3 [2; 3] [5] 5 10 net;
  net ← send_rates senders 15 17 net;
  both_rates id1 id2 5 4 [7; 8] [8; 9] 15 17 net.

(** Sending never fails, so a loop delivers what it is given. *)
Lemma send_each_delivers l net : send_each all_sent l net = ([], net ++ ((λ p, Delivered p.1 p.2) <$> l))%list.
Proof.
  revert net. induction l as [|[id m] l IH]; intros net; [by rewrite app_nil_r|].
  cbn. rewrite IH, <- app_assoc. done.
Qed.

Lemma delivered_app id net net' : delivered id (net ++ net')%list = (delivered id net ++ delivered id net')%list.
Proof. apply omap_app. Qed.

Section Pass.
  Context (Hiter : ∀ net s, iter net s ≡ₚ elements s) (id1 id2 : string) (Hne : id1 ≠ id2).

Lemma iter_both net : iter net {[id1; id2]} = [id1; id2] ∨ iter net {[id1; id2]} = [id2; id1].
Proof.
  assert (iter net {[id1; id2]} ≡ₚ [id1; id2]) as H.
  { rewrite Hiter, elements_disj_union, !elements_singleton by set_solver. done. }
  by apply Permutation_sym, Permutation_length_2_inv in H.
Qed.

Lemma iter_one net : iter net ({[id1; id2]} ∖ {[id2]}) = [id1].
Proof.
  assert ({[id1; id2]} ∖ {[id2]} = ({[id1]} : gset string)) as -> by set_solver.
  pose proof (Hiter net {[id1]}) as H. rewrite elements_singleton in H. by apply Permutation_sym, Permutation_length_1_inv in H.
Qed.

(** To both the same message [m] is sent. *)
Lemma to_both net m :
  let msgs := (λ id, (id, m)) <$> selected iter net {[id1; id2]} [id1; id2] in
  ∃ l, send_each all_sent msgs net = ([], (net ++ l)%list) ∧ delivered id1 l = [m] ∧ delivered id2 l = [m].
Proof.
  assert (Hsel : selected iter net {[id1; id2]} [id1; id2] = iter net {[id1; id2]}).
  { unfold selected. destruct (iter_both net) as [-> | ->]; rewrite !filter_cons_True by set_solver; done. }
  cbn zeta. rewrite Hsel, send_each_delivers. eexists. split; [done|].
  destruct (iter_both net) as [-> | ->]; cbn; repeat case_decide; done.
Qed.

(** The shares [a] and [b] are sent to the two in one order or the other. *)
Lemma rates_to_both net qps conns qa qb ca cb :
  calculate_req_per_secondary qps conns 2 = Val ([qa; qb], [ca; cb]) →
  ∃ l x y, send_rates {[id1; id2]} qps conns net = Val (net ++ l)%list ∧
    delivered id1 l = [MRates x] ∧ delivered id2 l = [MRates y] ∧
    ((x, y) = (Build_RateMessage qa ca, Build_RateMessage qb cb) ∨ (x, y) = (Build_RateMessage qb cb, Build_RateMessage qa ca)).
Proof.
  intros Hc. unfold send_rates, send_rate_message_to_secondaries.
  rewrite size_union, !size_singleton by set_solver. change (Z.of_nat (1 + 1)) with 2. rewrite Hc.
  cbn -[send_each]. rewrite send_each_delivers. cbn -[send_each].
  destruct (iter_both net) as [-> | ->]; cbn; eexists _, _, _; (split; [done|]); cbn; repeat case_decide; try done; eauto.
Qed.

Lemma rates_to_one net qps conns qa ca :
  calculate_req_per_secondary qps conns 1 = Val ([qa], [ca]) →
  ∃ l, send_rates ({[id1; id2]} ∖ {[id2]}) qps conns net = Val (net ++ l)%list ∧
    delivered id1 l = [MRates (Build_RateMessage qa ca)] ∧ delivered id2 l = [].
Proof.
  intros Hc. unfold send_rates, send_rate_message_to_secondaries. rewrite iter_one.
  assert ({[id1; id2]} ∖ {[id2]} = ({[id1]} : gset string)) as -> by set_solver. rewrite size_singleton.
  change (Z.of_nat 1) with 1. rewrite Hc. cbn. eexists. split; [done|]. cbn. by repeat case_decide.
Qed.

Lemma nth_is id n net D m : delivered id net = D → D !! n = Some m → nth_msg id n net = Val m.
Proof. intros HD Hm. unfold nth_msg. by rewrite HD, Hm. Qed.

Ltac rates_round q c qa qb ca cb :=
  match goal with D1 : delivered id1 ?net = _, D2 : delivered id2 ?net = _ |- _ =>
    let l := fresh in let x := fresh "x" in let y := fresh "y" in let C1 := fresh in let C2 := fresh in let Hxy := fresh in
    let E1 := fresh in let E2 := fresh in let Hs := fresh in
    destruct (rates_to_both net q c qa qb ca cb eq_refl) as (l & x & y & Hs & C1 & C2 & Hxy);
    rewrite Hs; clear Hs; cbn [mbind outcome_bind];
    assert (E1 := delivered_app id1 net l); assert (E2 := delivered_app id2 net l);
    rewrite D1, C1 in E1; rewrite D2, C2 in E2; clear D1 D2 C1 C2;
    generalize dependent (net ++ l)%list; clear net l; intros net D1 D2;
    match goal with |- context [both_rates id1 id2 ?n1 ?n2 ?a ?b ?c ?d net] =>
      let Hb := fresh in
      assert (Hb : both_rates id1 id2 n1 n2 a b c d net = Val tt)
        by (unfold both_rates; rewrite (nth_is id1 n1 net _ _ D1 eq_refl), (nth_is id2 n2 net _ _ D2 eq_refl);
            by destruct Hxy as [[= -> ->]|[= -> ->]]);
      rewrite Hb; clear Hb Hxy; cbn [mbind outcome_bind] end
  end.

Ltac msg D n :=
  rewrite (nth_is _ n _ _ _ D eq_refl);
  cbn [mbind outcome_bind assert_that is_metadata is_request rm_connections rm_qps Z.eqb Pos.eqb andb].

Lemma primary_test_passes r :
  require_reset r = false → test_send_message_to_secondaries id1 id2 r = Val tt.
Proof.
  intros Hr. unfold test_send_message_to_secondaries, send_metadata_with_primary, send_request_to_secondary.
  destruct (to_both [Connected id1; Connected id2] (MMetadata {| primary_host := "localhost" |})) as (l1 & H1 & A1 & B1).
  rewrite H1. cbn [snd].
  destruct (to_both ([Connected id1; Connected id2] ++ l1)%list (MRequest r)) as (l2 & H2 & A2 & B2).
  assert (Hreq : ∀ (X : outcome (result (list string) unit * Log)) Y,
    match req r with RSSplitRequestFile _ => X | _ => Y end = Y) by (intros X Y; by unfold require_reset in Hr; destruct (req r)).
  rewrite Hreq, H2. cbn [mbind outcome_bind].
  assert (D1 : delivered id1 (([Connected id1; Connected id2] ++ l1) ++ l2)%list =
    [MMetadata {| primary_host := "localhost" |}; MRequest r]) by (by rewrite !delivered_app, A1, A2).
  assert (D2 : delivered id2 (([Connected id1; Connected id2] ++ l1) ++ l2)%list =
    [MMetadata {| primary_host := "localhost" |}; MRequest r]) by (by rewrite !delivered_app, B1, B2).
  clear - D1 D2 Hne Hiter. generalize dependent (([Connected id1; Connected id2] ++ l1) ++ l2)%list. intros net D1 D2.
  msg D1 0%nat. msg D1 1%nat.
  destruct (rates_to_one net 10 5 10 5 eq_refl) as (l & -> & C1 & C2). cbn [mbind outcome_bind].
  assert (E1 := delivered_app id1 net l). assert (E2 := delivered_app id2 net l).
  rewrite D1, C1 in E1. rewrite D2, C2 in E2. clear D1 D2 C1 C2. generalize dependent (net ++ l)%list. clear net l. intros net D1 D2.
  msg D1 2%nat. msg D2 0%nat. msg D2 1%nat.
  rates_round 10 5 5 5 3 2. rates_round 5 10 3 2 5 5. rates_round 15 17 8 7 9 8. done.
Qed.

End Pass.
End PrimaryTests.

(** ** Requests *)

(** [test_request_1], and [test_request_2] with its member [concurrentConnections]. *)
Definition test_request_json (more : list (string * Value)) : Value :=
  obj ([("duration", int 5); ("name", Str "demo-test"); ("qps", constant_rate_json 2);
        ("req", obj [("RequestList", obj [("data", Arr [obj [("method", Str "GET"); ("url", Str "example.com")]])])]);
        ("target", target_json "example.com" 8080)] ++ more ++
       [("histogramBuckets", Arr (int <$> [35; 40; 45; 48; 50; 52]))])%list.

Definition misspelt : list (string * Value) := [("concurrentConnections", obj [("max", int 100)])].

Section RequestGeneratorTests.
  Context {Compiled Hir AST Conn Rng : Type} `{!RequestProvider Rng (RequestSpecEnum Hir AST Conn)}.
  Context (compile_path : string → result string Compiled) (parse_regex : string → option Hir).
  Context (compile : string → result string AST) (valid_method : string → bool) (env : string → option string).

Local Abbreviation request_c := (request_codec (Conn := Conn) compile_path parse_regex compile valid_method env).

Definition test_request_1 (uuid : nat → string) : outcome unit :=
  request ← unwrap_decoded (de (request_c uuid) (test_request_json []));
  let _ := request_into_generator (Rng := Rng) request in Val tt.

Definition test_request_2 (uuid : nat → string) : outcome unit :=
  request ← unwrap_decoded (de (request_c uuid) (test_request_json misspelt));
  let _ := request_into_generator (Rng := Rng) request in Val tt.

(** Whatever [misspelt] says, the connections are those of the default. *)
Lemma test_request_read uuid more :
  more = [] ∨ more = misspelt → valid_method "GET" = true →
  ∃ r, de (request_c uuid) (test_request_json more) = Decoded r ∧ concurrent_connection r = default_concurrent_connection.
Proof.
  intros Hmore H.
  pose proof (listed_requests_read (Conn := Conn) parse_regex compile valid_method env uuid H) as Hr. revert Hr.
  unfold test_request_json, constant_rate_json, target_json, misspelt in *.
  destruct Hmore as [-> | ->]; eval_objs; intros Hr; cbn -[request_spec_codec f64_of_Z]; rewrite Hr;
    cbn -[request_spec_codec f64_of_Z]; by eexists.
Qed.

End RequestGeneratorTests.

(** ** Properties *)

Lemma metrics_tests_pass {Reg} `{!PromRegistry Reg, !PromRegistryLaws Reg} (reg : Reg) :
  (∀ n j, n ∈ register_order → prom_has reg n j = false) →
  test_metrics_factory reg = Val tt ∧ test_metrics_factory_same_job reg = Val tt.
Proof.
  intros Hreg. assert (Hnd : NoDup register_order) by (apply (bool_decide_unpack _); vm_compute; done).
  destruct (register_all_ok register_order "job_id_1" reg Hnd) as (reg1 & E1 & Hhas); [auto|].
  unfold test_metrics_factory, test_metrics_factory_same_job, metrics_with_buckets, metrics_create.
  cbn -[register_all register_order]. rewrite !lookup_empty, E1. cbn -[register_all register_order].
  split; [|by rewrite lookup_insert_eq].
  destruct (register_all_ok register_order "job_id_2" reg1 Hnd) as (reg2 & E2 & _).
  { intros n Hn. destruct (prom_has reg1 n "job_id_2") eqn:E; [|done]. apply Hhas in E as [[_ ?]|E]; [done|].
    by rewrite Hreg in E. }
  rewrite !(lookup_insert_ne _ "job_id_1" "job_id_2") by done. rewrite !lookup_empty, E2. done.
Qed.

Section RunTests.
  Context {Compiled Hir AST Conn Rng Reg : Type} `{!PromRegistry Reg}.
  Context `{!RequestProvider Rng (RequestSpecEnum Hir AST Conn)}.
  Context (compile_path : string → result string Compiled) (select : Compiled → Value → result string (list Value)).
  Context (parse_regex : string → option Hir) (compile : string → result string AST).
  Context (valid_method : string → bool) (env : string → option string).
  Context (iter : list (event Compiled Hir AST Conn) → gset string → list string).

Definition run_tests (uuid : nat → string) (reg : Reg) (id1 id2 : string) (r : Request Compiled Hir AST Conn) :
    list (outcome unit) :=
  (job_id_tests (uuid 0%nat) ++
   [test_fill_req_if_less_than_connections; test_metrics_factory reg; test_metrics_factory_same_job reg;
    test_assertion compile_path select; test_de_serialize compile_path;
    test_send_message_to_secondaries iter id1 id2 r;
    test_request_1 (Rng := Rng) (Conn := Conn) compile_path parse_regex compile valid_method env uuid;
    test_request_2 (Rng := Rng) (Conn := Conn) compile_path parse_regex compile valid_method env uuid])%list.

(** The model passes the unit tests of running a job: job ids, filling up requests, metrics,
    assertions, and what the primary sends to two secondaries, in whatever order it visits
    its senders and whatever their ids are. *)
Theorem run_model_passes_tests `{!PromRegistryLaws Reg} uuid reg id1 id2 r :
  TestPaths compile_path select → valid_method "GET" = true →
  (∀ n j, n ∈ register_order → prom_has reg n j = false) →
  (∀ net s, iter net s ≡ₚ elements s) → id1 ≠ id2 → require_reset r = false →
  Forall (λ t, t = Val tt) (run_tests uuid reg id1 id2 r).
Proof.
  intros Hp Hget Hreg Hiter Hne Hr. destruct (metrics_tests_pass reg Hreg) as [Hm1 Hm2].
  destruct (assertion_tests_pass compile_path select Hp) as [Ha1 Ha2].
  destruct (test_request_read (Conn := Conn) compile_path parse_regex compile valid_method env uuid [])
    as (r1 & Hr1 & _); [by left|done|].
  destruct (test_request_read (Conn := Conn) compile_path parse_regex compile valid_method env uuid misspelt)
    as (r2 & Hr2 & _); [by right|done|].
  apply Forall_app. split.
  { repeat apply Forall_cons_2; [..|by apply Forall_nil]; vm_compute; reflexivity. }
  repeat apply Forall_cons_2; [..|by apply Forall_nil]; try done.
  - by apply primary_test_passes.
  - unfold test_request_1. by rewrite Hr1.
  - unfold test_request_2. by rewrite Hr2.
Qed.

(** [test_request_2] means to limit the connections, but the name of the member is not the one
    that is read, so it reads as the request of [test_request_1]. *)
Theorem misspelt_connections_ignored uuid :
  valid_method "GET" = true →
  ∃ r, de (request_codec (Conn := Conn) compile_path parse_regex compile valid_method env uuid) (test_request_json misspelt) = Decoded r ∧
    concurrent_connection r = default_concurrent_connection.
Proof. intros H. by apply test_request_read; [right|]. Qed.

End RunTests.

(** ** Concrete inputs *)

(** Paths compile to themselves. *)
Definition demo_paths (p : string) (v : Value) : result string (list Value) :=
  Ok (if String.eqb p "$.address.city" then [Str "Nara"] else [Str "iPhone"]).

Lemma demo_paths_ok : TestPaths Ok demo_paths.
Proof. split; [done| |]; intros c [= <-]; done. Qed.

Lemma run_model_passes_tests_witness :
  Forall (λ t, t = Val tt)
    (run_tests (RequestProvider0 := demo_provider) Ok demo_paths (λ _, Some tt) (λ _, Ok tt) (λ _, true) (λ _, None)
       (λ _ s, elements s) (λ _, "u") (∅ : gset (string * string)) "a" "b"
       {| name := None; duration := 120; target := demo_target; req := demo_list;
          qps := RateConstant {| cr_count_per_sec := 1 |}; concurrent_connection := default_concurrent_connection;
          connection_keep_alive := keep_alive_default; histogram_buckets := default_histogram_bucket;
          response_assertion := None; generation_mode := Immediate |}).
Proof.
  apply (run_model_passes_tests (RequestProvider0 := demo_provider) Ok demo_paths (λ _, Some tt) (λ _, Ok tt) (λ _, true)
    (λ _, None) (λ _ s, elements s) (λ _, "u") (∅ : gset (string * string)) "a" "b").
  - exact demo_paths_ok.
  - reflexivity.
  - intros n j _. apply empty_registry.
  - reflexivity.
  - discriminate.
  - reflexivity.
Defined.
