(* ===== verification/Warp.v ===== *)
(** * The interface of the web framework

    The routes of [overload/src/filters.rs] and [overload/src/filters_cluster.rs] are
    filters of the crate [warp], put together with its combinators.  Here are the
    combinators the program uses ([Warp]) and what warp documents of them ([WarpLaws]): a
    filter looks at a request and at the path segments that are left, and gives a value
    and the segments that are left then, or rejects the request.  A concrete
    implementation ([demo_warp]) shows that the laws can hold together. *)
From Stdlib Require Import ZArith Lia Ascii.
From stdpp Require Import base list gmap strings numbers sets.
From S2P Require Import Prelude Json Template HttpTypes Jobs Api.

Local Open Scope Z_scope.

Declare Scope warp_scope.
Delimit Scope warp_scope with warp.

(** ** Combinators *)

Class Warp (F : Type → Type) := {
  run {A} : F A → HttpRequest → list string → option (A * list string);
  (** [warp::get()], [warp::post()] *)
  w_get : F unit;
  w_post : F unit;
  (** [warp::path(segment)], [warp::path::end()], [warp::path::param::<A>()] *)
  w_path : string → F unit;
  w_end : F unit;
  w_param {A} : (string → option A) → F A;
  (** [warp::body::content_length_limit], [warp::body::json], [warp::body::stream] *)
  w_content_length_limit : Z → F unit;
  w_json {A} : (string → option A) → F A;
  w_stream : F string;
  (** [warp::header::<A>(name)], [warp::query()] *)
  w_header {A} : (string → option A) → string → F A;
  w_query : F (gmap string string);
  (** [.and], [.map] (and [.and_then] with a handler that never rejects), [.or],
      [.or_else] with a constant *)
  w_and {A B} : F A → F B → F (A * B)%type;
  w_map {A B} : F A → (A → B) → F B;
  w_or {A} : F A → F A → F A;
  w_or_else {A} : F A → A → F A;
  (** The segments and the query of a URI; reading a query; the length a request gives
      for its body; whether the body may be JSON; the reply to a rejected request. *)
  uri_segments : string → list string;
  uri_query : string → string;
  urlencoded : string → option (gmap string string);
  content_length : HttpRequest → option Z;
  json_body : HttpRequest → bool;
  reject_reply : HttpRequest → Reply
}.

Infix ".&" := w_and (at level 40, left associativity) : warp_scope.
Infix ".|" := w_or (at level 50, left associativity) : warp_scope.

(** ** Plain URIs *)

(** Characters that stand for themselves in a URI. *)
Definition unreserved (a : ascii) : bool :=
  let n := nat_of_ascii a in
  ((48 <=? n) && (n <=? 57))%nat || ((65 <=? n) && (n <=? 90))%nat || ((97 <=? n) && (n <=? 122))%nat ||
  (n =? 45)%nat || (n =? 95)%nat || (n =? 46)%nat || (n =? 126)%nat.

Definition plain (s : string) : Prop := str_forall unreserved s = true.
Definition plain_segment (s : string) : Prop := s ≠ ""%string ∧ plain s.

(** The path of some segments, the query string of some pairs. *)
Fixpoint slashes (ss : list string) : string :=
  match ss with [] => "" | s :: ss' => String "/" (s +:+ slashes ss') end.

Fixpoint pairs (kvs : list (string * string)) : string :=
  match kvs with
  | [] => ""
  | [(k, v)] => k +:+ String "=" v
  | (k, v) :: kvs' => k +:+ String "=" (v +:+ String "&" (pairs kvs'))
  end.

Definition plain_pair (kv : string * string) : Prop := plain kv.1 ∧ plain kv.2.

(** ** What the program relies on *)

Class WarpLaws (F : Type → Type) `{!Warp F} : Prop := {
  run_get r s : run w_get r s = if String.eqb (rq_method r) "GET" then Some (tt, s) else None;
  run_post r s : run w_post r s = if String.eqb (rq_method r) "POST" then Some (tt, s) else None;
  run_path p r s : p ≠ ""%string →
    run (w_path p) r s = match s with
                         | x :: s' => if String.eqb x p then Some (tt, s') else None
                         | [] => None
                         end;
  run_end r s : run w_end r s = match s with [] => Some (tt, []) | _ => None end;
  run_param {A} (f : string → option A) r s :
    run (w_param f) r s = match s with
                          | x :: s' => if String.eqb x "" then None else (λ a, (a, s')) <$> f x
                          | [] => None
                          end;
  run_content_length_limit n r s :
    run (w_content_length_limit n) r s =
    match content_length r with Some l => if l <=? n then Some (tt, s) else None | None => None end;
  run_json {A} (f : string → option A) r s :
    run (w_json f) r s = if json_body r then (λ a, (a, s)) <$> f (rq_body r) else None;
  run_stream r s : run w_stream r s = Some (rq_body r, s);
  run_header {A} (f : string → option A) n r s :
    run (w_header f n) r s = (λ a, (a, s)) <$> (rq_headers r !! n ≫= f);
  run_query r s : run w_query r s = (λ m, (m, s)) <$> urlencoded (uri_query (rq_uri r));
  run_and {A B} (f : F A) (g : F B) r s :
    run (f .& g)%warp r s = '(a, s) ← run f r s; '(b, s) ← run g r s; Some ((a, b), s);
  run_map {A B} (f : F A) (g : A → B) r s : run (w_map f g) r s = prod_map g id <$> run f r s;
  run_or {A} (f g : F A) r s :
    run (f .| g)%warp r s = match run f r s with Some x => Some x | None => run g r s end;
  run_or_else {A} (f : F A) d r s : run (w_or_else f d) r s = Some (default (d, s) (run f r s));
  uri_plain ss : Forall plain_segment ss → uri_segments (slashes ss) = ss;
  uri_no_query ss : Forall plain_segment ss → uri_query (slashes ss) = ""%string;
  uri_plain_query ss kvs : Forall plain_segment ss → Forall plain_pair kvs →
    uri_segments (slashes ss +:+ String "?" (pairs kvs)) = ss ∧
    uri_query (slashes ss +:+ String "?" (pairs kvs)) = pairs kvs;
  urlencoded_pairs kvs : NoDup (fst <$> kvs) → Forall plain_pair kvs →
    urlencoded (pairs kvs) = Some (list_to_map kvs);
  content_length_header r n : 0 <= n <= u64_MAX →
    rq_headers r !! "content-length"%string = Some (show_unsigned n) → content_length r = Some n;
  json_body_default r : rq_headers r !! "content-type"%string = None → json_body r = true;
  reject_not_json r : body_json (rp_body (reject_reply r)) = None
}.

(** ** An implementation *)

Definition demo_filter (A : Type) : Type := HttpRequest → list string → option (A * list string).

Definition drop_last_empty (l : list string) : list string :=
  match last l with Some EmptyString => take (length l - 1) l | _ => l end.

Definition strip_slash (p : string) : string :=
  match p with String a p' => if Ascii.eqb a "/" then p' else p | EmptyString => p end.

Definition demo_segments (uri : string) : list string :=
  let path := match split_once "?" uri with Some (p, _) => p | None => uri end in
  drop_last_empty (split_char "/" (strip_slash path)).

Definition demo_query (uri : string) : string :=
  match split_once "?" uri with Some (_, q) => q | None => "" end.

Definition demo_urlencoded (q : string) : option (gmap string string) :=
  match q with
  | EmptyString => Some ∅
  | _ => Some (list_to_map (omap (split_once "=") (split_char "&" q)))
  end.

#[export] Instance demo_warp : Warp demo_filter := {|
  run A f := f;
  w_get r s := if String.eqb (rq_method r) "GET" then Some (tt, s) else None;
  w_post r s := if String.eqb (rq_method r) "POST" then Some (tt, s) else None;
  w_path p r s := match s with
                  | x :: s' => if String.eqb x p then Some (tt, s') else None
                  | [] => None
                  end;
  w_end r s := match s with [] => Some (tt, []) | _ => None end;
  w_param A f r s := match s with
                     | x :: s' => if String.eqb x "" then None else (λ a, (a, s')) <$> f x
                     | [] => None
                     end;
  w_content_length_limit n r s :=
    match rq_headers r !! "content-length"%string ≫= parse_unsigned u64_MAX with
    | Some l => if l <=? n then Some (tt, s) else None
    | None => None
    end;
  w_json A f r s := if bool_decide (rq_headers r !! "content-type"%string = None)
                    then (λ a, (a, s)) <$> f (rq_body r) else None;
  w_stream r s := Some (rq_body r, s);
  w_header A f n r s := (λ a, (a, s)) <$> (rq_headers r !! n ≫= f);
  w_query r s := (λ m, (m, s)) <$> demo_urlencoded (demo_query (rq_uri r));
  w_and A B f g r s := '(a, s) ← f r s; '(b, s) ← g r s; Some ((a, b), s);
  w_map A B f g r s := prod_map g id <$> f r s;
  w_or A f g r s := match f r s with Some x => Some x | None => g r s end;
  w_or_else A f d r s := Some (default (d, s) (f r s));
  uri_segments := demo_segments;
  uri_query := demo_query;
  urlencoded := demo_urlencoded;
  content_length r := rq_headers r !! "content-length"%string ≫= parse_unsigned u64_MAX;
  json_body r := bool_decide (rq_headers r !! "content-type"%string = None);
  reject_reply _ := {| rp_status := 404; rp_body := BodyText "Not Found" |}
|}.

(** A plain text does not have the separators of a URI. *)
Lemma plain_no (c : ascii) s :
  plain s → unreserved c = false → str_forall (λ a, negb (Ascii.eqb a c)) s = true.
Proof.
  intros Hs Hc. eapply str_forall_impl; [|exact Hs]. intros a Ha. simpl in *.
  destruct (Ascii.eqb_spec a c) as [->|]; [congruence|done].
Qed.

Lemma split_once_none c s : str_forall (λ a, negb (Ascii.eqb a c)) s = true → split_once c s = None.
Proof.
  induction s as [|a s IH]; simpl; [done|]. intros [Ha Hs]%andb_true_iff.
  apply negb_true_iff in Ha. by rewrite Ha, IH.
Qed.

Lemma split_once_at c s t :
  str_forall (λ a, negb (Ascii.eqb a c)) s = true → split_once c (s +:+ String c t) = Some (s, t).
Proof.
  induction s as [|a s IH]; simpl; [by rewrite Ascii.eqb_refl|]. intros [Ha Hs]%andb_true_iff.
  apply negb_true_iff in Ha. by rewrite Ha, IH.
Qed.

Lemma slashes_no_query ss :
  Forall plain_segment ss → str_forall (λ a, negb (Ascii.eqb a "?")) (slashes ss) = true.
Proof.
  induction 1 as [|s ss [_ Hs] Hss IH]; [done|]. simpl. rewrite str_forall_app, IH, andb_true_r.
  by apply plain_no.
Qed.

(** The segments of a path, without the first slash. *)
Lemma split_slashes s ss :
  Forall plain_segment (s :: ss) → split_char "/" (s +:+ slashes ss) = s :: ss.
Proof.
  revert s. induction ss as [|t ss IH]; intros s Hs; apply Forall_cons_1 in Hs as [[_ Hs] Hss]; simpl.
  - rewrite append_empty_r. by apply split_char_none, plain_no.
  - rewrite split_char_app by (by apply plain_no). by rewrite IH.
Qed.

Lemma drop_last_plain l : Forall plain_segment l → drop_last_empty l = l.
Proof.
  intros Hl. unfold drop_last_empty. destruct (last l) as [[|a s]|] eqn:E; try done.
  apply last_Some in E as [l' ->]. apply Forall_app in Hl as [_ Hl].
  by apply Forall_cons_1 in Hl as [[? _] _].
Qed.

Lemma demo_path_plain ss :
  Forall plain_segment ss →
  drop_last_empty (split_char "/" (strip_slash (slashes ss))) = ss.
Proof.
  intros Hss. destruct ss as [|s ss]; [done|]. simpl. rewrite split_slashes by done. by apply drop_last_plain.
Qed.

Lemma pairs_split kvs :
  Forall plain_pair kvs → kvs ≠ [] → omap (split_once "=") (split_char "&" (pairs kvs)) = kvs.
Proof.
  induction 1 as [|[k v] kvs [Hk Hv] Hkvs IH]; [done|]. intros _. simpl in Hk, Hv.
  destruct kvs as [|kv kvs].
  - cbn [pairs]. rewrite split_char_none.
    + cbn [omap list_omap]. rewrite split_once_at by (by apply plain_no). done.
    + rewrite str_forall_app. simpl. rewrite !plain_no by done. done.
  - change (pairs ((k, v) :: kv :: kvs)) with (k +:+ String "=" (v +:+ String "&" (pairs (kv :: kvs))))%string.
    replace (k +:+ String "=" (v +:+ String "&" (pairs (kv :: kvs))))%string
      with ((k +:+ String "=" v) +:+ String "&" (pairs (kv :: kvs)))%string by (by rewrite append_assoc').
    rewrite split_char_app.
    + cbn [omap list_omap]. rewrite split_once_at by (by apply plain_no). by rewrite IH.
    + rewrite str_forall_app. simpl. rewrite !plain_no by done. done.
Qed.

Lemma pairs_cons_string kv kvs : ∃ a s, pairs (kv :: kvs) = String a s.
Proof. destruct kv as [[|a k] v], kvs; simpl; eauto. Qed.

#[export] Instance demo_warp_laws : WarpLaws demo_filter.
Proof.
  split; try done.
  - intros ss Hss. simpl. unfold demo_segments. rewrite split_once_none by (by apply slashes_no_query).
    by apply demo_path_plain.
  - intros ss Hss. simpl. unfold demo_query. by rewrite split_once_none by (by apply slashes_no_query).
  - intros ss kvs Hss Hkvs. simpl. unfold demo_segments, demo_query.
    rewrite split_once_at by (by apply slashes_no_query). split; [by apply demo_path_plain|done].
  - intros kvs Hnd Hkvs. simpl. unfold demo_urlencoded. destruct kvs as [|kv kvs]; [done|].
    destruct (pairs_cons_string kv kvs) as (a & s & E). rewrite E, <- E.
    by rewrite pairs_split.
  - intros r n Hn Hr. simpl. rewrite Hr. simpl. apply parse_show_unsigned; lia.
  - intros r Hr. simpl. by apply bool_decide_eq_true_2.
Qed.

(** ** Trying filters in turn *)

Section Routing.
  Context {F : Type → Type} `{!Warp F, !WarpLaws F}.

Lemma run_or_some {A} (f g : F A) r s x :
  run (f .| g)%warp r s = Some x → run f r s = Some x ∨ run g r s = Some x.
Proof. rewrite run_or. destruct (run f r s); auto. Qed.

Lemma run_or_left {A} (f g : F A) r s : is_Some (run f r s) → is_Some (run (f .| g)%warp r s).
Proof. rewrite run_or. intros [x ->]. eauto. Qed.

Lemma run_or_right {A} (f g : F A) r s : is_Some (run g r s) → is_Some (run (f .| g)%warp r s).
Proof. rewrite run_or. destruct (run f r s); eauto. Qed.

End Routing.

(** ** Running a filter, one combinator at a time *)

Section Running.
  Context {F : Type → Type} `{!Warp F, !WarpLaws F}.

Lemma run_and_inv {A B} (f : F A) (g : F B) r s x s' :
  run (f .& g)%warp r s = Some (x, s') →
  ∃ a s1 b, run f r s = Some (a, s1) ∧ run g r s1 = Some (b, s') ∧ x = (a, b).
Proof.
  rewrite run_and. destruct (run f r s) as [[a s1]|]; simpl; [|done].
  destruct (run g r s1) as [[b s2]|] eqn:E; simpl; [|done]. intros [= <- <-]. eauto 10.
Qed.

Lemma run_and_intro {A B} (f : F A) (g : F B) r s a s1 b s' :
  run f r s = Some (a, s1) → run g r s1 = Some (b, s') → run (f .& g)%warp r s = Some ((a, b), s').
Proof. intros Hf Hg. rewrite run_and, Hf. simpl. by rewrite Hg. Qed.

Lemma run_map_inv {A B} (f : F A) (h : A → B) r s x s' :
  run (w_map f h) r s = Some (x, s') → ∃ a, run f r s = Some (a, s') ∧ x = h a.
Proof.
  rewrite run_map. destruct (run f r s) as [[a s1]|]; simpl; [|done]. intros [= <- <-]. eauto.
Qed.

Lemma run_map_intro {A B} (f : F A) (h : A → B) r s a s' :
  run f r s = Some (a, s') → run (w_map f h) r s = Some (h a, s').
Proof. intros Hf. by rewrite run_map, Hf. Qed.

Lemma run_method_inv (m : string) r s x s' (f : F unit) :
  (∀ r s, run f r s = if String.eqb (rq_method r) m then Some (tt, s) else None) →
  run f r s = Some (x, s') → rq_method r = m ∧ s' = s.
Proof. intros ->. destruct (String.eqb_spec (rq_method r) m); [|done]. by intros [= <- <-]. Qed.

Lemma run_path_inv p r s x s' :
  p ≠ ""%string → run (w_path p) r s = Some (x, s') → s = p :: s'.
Proof.
  intros Hp. rewrite run_path by done. destruct s as [|y s]; [done|].
  destruct (String.eqb_spec y p) as [->|]; [|done]. by intros [= <- <-].
Qed.

Lemma run_end_inv r s x s' : run w_end r s = Some (x, s') → s = [] ∧ s' = [].
Proof. rewrite run_end. destruct s; [|done]. by intros [= <- <-]. Qed.

Lemma run_param_inv {A} (f : string → option A) r s a s' :
  run (w_param f) r s = Some (a, s') → ∃ y, s = y :: s' ∧ y ≠ ""%string ∧ f y = Some a.
Proof.
  rewrite run_param. destruct s as [|y s]; [done|]. destruct (String.eqb_spec y ""); [done|].
  destruct (f y) eqn:E; simpl; [|done]. intros [= <- <-]. eauto.
Qed.

Lemma run_limit_inv n r s x s' :
  run (w_content_length_limit n) r s = Some (x, s') → s' = s ∧ ∃ l, content_length r = Some l ∧ l <= n.
Proof.
  rewrite run_content_length_limit. destruct (content_length r) as [l|]; [|done].
  destruct (Z.leb_spec l n); [|done]. intros [= <- <-]. eauto.
Qed.

Lemma run_json_inv {A} (f : string → option A) r s a s' :
  run (w_json f) r s = Some (a, s') → s' = s ∧ json_body r = true ∧ f (rq_body r) = Some a.
Proof.
  rewrite run_json. destruct (json_body r); [|done]. destruct (f (rq_body r)); simpl; [|done].
  by intros [= <- <-].
Qed.

Lemma run_header_inv {A} (f : string → option A) n r s a s' :
  run (w_header f n) r s = Some (a, s') → s' = s ∧ rq_headers r !! n ≫= f = Some a.
Proof.
  rewrite run_header. destruct (rq_headers r !! n ≫= f) eqn:E; simpl; [|done]. by intros [= <- <-].
Qed.

Lemma run_query_inv r s m s' :
  run w_query r s = Some (m, s') → s' = s ∧ urlencoded (uri_query (rq_uri r)) = Some m.
Proof. rewrite run_query. destruct (urlencoded _); simpl; [|done]. by intros [= <- <-]. Qed.

End Running.

(** Take a successful run apart, and put one together. *)
Ltac invert_run :=
  repeat match goal with
  | H : run (w_map _ _) _ _ = Some _ |- _ => apply run_map_inv in H as (? & ? & ?)
  | H : run (_ .& _)%warp _ _ = Some _ |- _ => apply run_and_inv in H as (? & ? & ? & ? & ? & ?)
  | H : run w_get _ _ = Some _ |- _ => apply (run_method_inv "GET" _ _ _ _ _ run_get) in H as [? ?]
  | H : run w_post _ _ = Some _ |- _ => apply (run_method_inv "POST" _ _ _ _ _ run_post) in H as [? ?]
  | H : run (w_path _) _ _ = Some _ |- _ => apply run_path_inv in H; [|discriminate]
  | H : run w_end _ _ = Some _ |- _ => apply run_end_inv in H as [? ?]
  | H : run (w_param _) _ _ = Some _ |- _ => apply run_param_inv in H as (? & ? & ? & ?)
  | H : run (w_content_length_limit _) _ _ = Some _ |- _ => apply run_limit_inv in H as [? ?]
  | H : run (w_json _) _ _ = Some _ |- _ => apply run_json_inv in H as (? & ? & ?)
  | H : run (w_header _ _) _ _ = Some _ |- _ => apply run_header_inv in H as [? ?]
  | H : run w_query _ _ = Some _ |- _ => apply run_query_inv in H as [? ?]
  | H : run w_stream _ _ = Some _ |- _ => rewrite run_stream in H; injection H as ? ?
  end; subst.

Ltac solve_run :=
  lazymatch goal with
  | |- run (w_map _ _) _ _ = _ => eapply run_map_intro; solve_run
  | |- run (_ .& _)%warp _ _ = _ => eapply run_and_intro; [solve_run|solve_run]
  | |- run w_get _ _ = _ => rewrite run_get; simpl; (reflexivity || (rewrite (proj2 (String.eqb_eq _ _)) by eassumption; reflexivity))
  | |- run w_post _ _ = _ => rewrite run_post; simpl; (reflexivity || (rewrite (proj2 (String.eqb_eq _ _)) by eassumption; reflexivity))
  | |- run (w_path _) _ _ = _ => rewrite run_path by discriminate; reflexivity
  | |- run w_end _ _ = _ => rewrite run_end; reflexivity
  | |- run (w_param _) _ _ = _ =>
      rewrite run_param; rewrite (proj2 (String.eqb_neq _ _)) by eassumption;
      (reflexivity || (match goal with H : _ = Some _ |- _ => rewrite H; reflexivity end))
  | |- run (w_content_length_limit _) _ _ = _ =>
      rewrite run_content_length_limit;
      match goal with H : content_length _ = Some _ |- _ => rewrite H end;
      rewrite (proj2 (Z.leb_le _ _)) by eassumption; reflexivity
  | |- run (w_json _) _ _ = _ =>
      rewrite run_json; match goal with H : json_body _ = true |- _ => rewrite H end;
      match goal with H : _ = Some _ |- _ => rewrite H; reflexivity end
  | |- run (w_header _ _) _ _ = _ =>
      rewrite run_header; match goal with H : _ = Some _ |- _ => rewrite H; reflexivity end
  | |- run w_query _ _ = _ =>
      rewrite run_query; match goal with H : urlencoded _ = Some _ |- _ => rewrite H; reflexivity end
  | |- run w_stream _ _ = _ => rewrite run_stream; reflexivity
  | |- _ => idtac
  end.
