(* ===== verification/Routes.v ===== *)
(** * Routes and replies

    [overload/src/filters.rs], [overload/src/filters_cluster.rs] and
    [overload/src/filters_common.rs]: the routes of a standalone process and of a node of a
    cluster, as warp filters ([Warp]), the handlers behind them, and the replies they make.

    A route gives the call it stands for; [serve_standalone] and [serve_cluster] are the
    handlers.  A node's state is its job table, its random numbers and the tests it has
    started; the rest of the world is the state [W] behind the HTTP client ([Api]) and what
    an [Outside] says (the file system, new UUIDs, the metrics). *)
From Stdlib Require Import ZArith Lia Ascii.
From stdpp Require Import base list gmap strings numbers sets.
From S2P Require Import Prelude RateSpec Json Assert DataGen Template HttpTypes Jobs Upload Api Warp.

Local Open Scope Z_scope.
Local Open Scope warp_scope.

(** ** Calls *)

(** The calls both kinds of process answer; [L] is what the route of an upload says about
    the length of its body. *)
Inductive Call (Req Multi L : Type) :=
| CMetrics
| CTest (request : Req)
| CTests (request : Multi)
| CStop (job_id : string)
| CStatus (pager_option : gmap string string)
| CUploadCsv (content_len : L) (data : string)
| CUploadSqlite (content_len : L) (content_encoding : option string) (data : string).
Arguments CMetrics {Req Multi L}.
Arguments CTest {Req Multi L} request.
Arguments CTests {Req Multi L} request.
Arguments CStop {Req Multi L} job_id.
Arguments CStatus {Req Multi L} pager_option.
Arguments CUploadCsv {Req Multi L} content_len data.
Arguments CUploadSqlite {Req Multi L} content_len content_encoding data.

(** The calls of a node of a cluster. *)
Inductive ClusterCall (Req Multi : Type) :=
| KApp (call : Call Req Multi Z)
| KInfo
| KRequestVote (node_id : string) (term : Z)
| KVote (term : Z) (vote : bool)
| KHeartbeat (leader_node : string) (term : Z)
| KDownload (filename : string).
Arguments KApp {Req Multi} call.
Arguments KInfo {Req Multi}.
Arguments KRequestVote {Req Multi} node_id term.
Arguments KVote {Req Multi} term vote.
Arguments KHeartbeat {Req Multi} leader_node term.
Arguments KDownload {Req Multi} filename.

(** ** Routes *)

Definition parse_bool (s : string) : option bool :=
  if String.eqb s "true" then Some true else if String.eqb s "false" then Some false else None.

Section Routes.
  Context {F : Type → Type} `{!Warp F} {Req Multi : Type}.
  (** Deserialising a test. *)
  Context (parse_request : string → option Req) (parse_multi : string → option Multi).

(** [filters_common::prometheus_metric]: the path is not checked to end here. *)
Definition prometheus_metric {L} : F (Call Req Multi L) :=
  w_map (w_get .& w_path "metrics") (λ _, CMetrics).

Definition overload_req {L} : F (Call Req Multi L) :=
  w_map (w_post .& (w_path "test" .& w_end) .& w_content_length_limit (1024 * 1024 * 2) .& w_json parse_request)
    (λ '(_, request), CTest request).

Definition overload_multi_req {L} : F (Call Req Multi L) :=
  w_map (w_post .& (w_path "tests" .& w_end) .& w_content_length_limit (1024 * 1024 * 5) .& w_json parse_multi)
    (λ '(_, request), CTests request).

Definition stop_req {L} : F (Call Req Multi L) :=
  w_map (w_path "test" .& w_path "stop" .& w_param Some .& w_end) (λ '(_, job_id, _), CStop job_id).

(** [status], [history] in a cluster. *)
Definition status {L} : F (Call Req Multi L) :=
  w_map (w_path "test" .& w_path "status" .& w_end .& w_query) (λ '(_, pager_option), CStatus pager_option).

(** An optional content encoding. *)
Definition enc : F (option string) := w_or_else (w_map (w_header Some "content-encoding") Some) None.

Definition upload_binary_file : F (Call Req Multi unit) :=
  w_map (w_post .& (w_path "test" .& w_path "requests-bin" .& w_end) .&
         w_content_length_limit (1024 * 1024 * 1024) .& w_stream)
    (λ '(_, data), CUploadCsv tt data).

Definition upload_csv_file : F (Call Req Multi unit) :=
  w_map (w_post .& (w_path "request-file" .& w_path "csv" .& w_end) .&
         w_content_length_limit (1024 * 1024 * 1024) .& w_stream)
    (λ '(_, data), CUploadCsv tt data).

Definition upload_sqlite_file : F (Call Req Multi unit) :=
  w_map (w_post .& (w_path "request-file" .& w_path "sqlite" .& w_end) .&
         w_content_length_limit (1024 * 1024 * 1024) .& enc .& w_stream)
    (λ '(_, content_encoding, data), CUploadSqlite tt content_encoding data).

Definition get_routes : F (Call Req Multi unit) :=
  prometheus_metric .| overload_req .| overload_multi_req .| stop_req .| status .|
  upload_binary_file .| upload_csv_file .| upload_sqlite_file.

(** *** In a cluster *)

(** The routes of uploads also take the length of the body. *)
Definition upload_binary_file_cluster : F (Call Req Multi Z) :=
  w_map (w_post .& (w_path "test" .& w_path "requests-bin" .& w_end) .&
         w_content_length_limit (1024 * 1024 * 1024) .& w_header (parse_unsigned u64_MAX) "content-length" .& w_stream)
    (λ '(_, content_len, data), CUploadCsv content_len data).

Definition upload_csv_file_cluster : F (Call Req Multi Z) :=
  w_map (w_post .& (w_path "request-file" .& w_path "csv" .& w_end) .&
         w_content_length_limit (1024 * 1024 * 1024) .& w_header (parse_unsigned u64_MAX) "content-length" .& w_stream)
    (λ '(_, content_len, data), CUploadCsv content_len data).

Definition upload_sqlite_file_cluster : F (Call Req Multi Z) :=
  w_map (w_post .& (w_path "request-file" .& w_path "sqlite" .& w_end) .&
         w_content_length_limit (1024 * 1024 * 1024) .& w_header (parse_unsigned u64_MAX) "content-length" .&
         enc .& w_stream)
    (λ '(_, content_len, content_encoding, data), CUploadSqlite content_len content_encoding data).

Definition info : F (ClusterCall Req Multi) :=
  w_map (w_path "cluster" .& w_path "info" .& w_end) (λ _, KInfo).

Definition request_vote : F (ClusterCall Req Multi) :=
  w_map (w_path "cluster" .& w_path "raft" .& w_path "request-vote" .& w_param Some .&
         w_param (parse_unsigned usize_MAX) .& w_end)
    (λ '(_, node_id, term, _), KRequestVote node_id term).

Definition request_vote_response : F (ClusterCall Req Multi) :=
  w_map (w_path "cluster" .& w_path "raft" .& w_path "vote" .& w_param (parse_unsigned usize_MAX) .&
         w_param parse_bool .& w_end)
    (λ '(_, term, vote, _), KVote term vote).

Definition heartbeat : F (ClusterCall Req Multi) :=
  w_map (w_path "cluster" .& w_path "raft" .& w_path "beat" .& w_param Some .&
         w_param (parse_unsigned usize_MAX) .& w_end)
    (λ '(_, leader_node, term, _), KHeartbeat leader_node term).

Definition download_req_from_secondaries : F (ClusterCall Req Multi) :=
  w_map (w_path "cluster" .& w_path "data-file" .& w_param Some .& w_end)
    (λ '(_, filename, _), KDownload filename).

Definition get_routes_with_cluster : F (ClusterCall Req Multi) :=
  w_map (prometheus_metric .| overload_req .| overload_multi_req .| stop_req .| status .|
         upload_binary_file_cluster .| upload_csv_file_cluster .| upload_sqlite_file_cluster) KApp .|
  info .| request_vote .| request_vote_response .| heartbeat .| download_req_from_secondaries.

End Routes.

(** ** The interface as a table *)

Section Table.
  Context {F : Type → Type} `{!Warp F, !WarpLaws F} {Req Multi : Type}.
  Context (parse_request : string → option Req) (parse_multi : string → option Multi).

(** The request says how long its body is, and that is at most [n] bytes. *)
Definition limited (r : HttpRequest) (n : Z) : Prop := ∃ l, content_length r = Some l ∧ l <= n.

(** Which request is which call, given the segments of its path and what it says about the
    length of an upload. *)
Inductive api {L} (length_of : HttpRequest → option L) (r : HttpRequest) : list string → Call Req Multi L → Prop :=
| api_metrics rest : rq_method r = "GET"%string → api length_of r ("metrics"%string :: rest) CMetrics
| api_test x : rq_method r = "POST"%string → limited r (2 * 1024 * 1024) → json_body r = true →
    parse_request (rq_body r) = Some x → api length_of r ["test"%string] (CTest x)
| api_tests x : rq_method r = "POST"%string → limited r (5 * 1024 * 1024) → json_body r = true →
    parse_multi (rq_body r) = Some x → api length_of r ["tests"%string] (CTests x)
| api_stop id : id ≠ ""%string → api length_of r ["test"; "stop"; id]%string (CStop id)
| api_status m : urlencoded (uri_query (rq_uri r)) = Some m →
    api length_of r ["test"; "status"]%string (CStatus m)
| api_csv path l : path ∈ [["test"; "requests-bin"]; ["request-file"; "csv"]]%string →
    rq_method r = "POST"%string → limited r (1024 * 1024 * 1024) → length_of r = Some l →
    api length_of r path (CUploadCsv l (rq_body r))
| api_sqlite l : rq_method r = "POST"%string → limited r (1024 * 1024 * 1024) → length_of r = Some l →
    api length_of r ["request-file"; "sqlite"]%string
      (CUploadSqlite l (rq_headers r !! "content-encoding"%string) (rq_body r)).

Definition length_header (r : HttpRequest) : option Z :=
  rq_headers r !! "content-length"%string ≫= parse_unsigned u64_MAX.

Inductive cluster_api (r : HttpRequest) : list string → ClusterCall Req Multi → Prop :=
| capi_app path c : api length_header r path c → cluster_api r path (KApp c)
| capi_info : cluster_api r ["cluster"; "info"]%string KInfo
| capi_request_vote node t term : node ≠ ""%string → t ≠ ""%string → parse_unsigned usize_MAX t = Some term →
    cluster_api r ["cluster"; "raft"; "request-vote"; node; t]%string (KRequestVote node term)
| capi_vote t term v vote : t ≠ ""%string → v ≠ ""%string → parse_unsigned usize_MAX t = Some term →
    parse_bool v = Some vote → cluster_api r ["cluster"; "raft"; "vote"; t; v]%string (KVote term vote)
| capi_heartbeat node t term : node ≠ ""%string → t ≠ ""%string → parse_unsigned usize_MAX t = Some term →
    cluster_api r ["cluster"; "raft"; "beat"; node; t]%string (KHeartbeat node term)
| capi_download f : f ≠ ""%string → cluster_api r ["cluster"; "data-file"; f]%string (KDownload f).

Lemma api_csv_cases path :
  path ∈ [["test"; "requests-bin"]; ["request-file"; "csv"]]%string →
  path = ["test"; "requests-bin"]%string ∨ path = ["request-file"; "csv"]%string.
Proof. set_solver. Qed.

(** A request is at most one call. *)
Lemma api_det {L} (length_of : HttpRequest → option L) r path c c' :
  api length_of r path c → api length_of r path c' → c = c'.
Proof.
  intros H H'. destruct H; inversion H'; subst; try congruence;
    repeat match goal with
    | Hp : _ ∈ _ |- _ => apply api_csv_cases in Hp as [Hp|Hp]; try discriminate Hp; subst
    end; congruence.
Qed.

Lemma cluster_api_det r path c c' : cluster_api r path c → cluster_api r path c' → c = c'.
Proof.
  intros H H'. destruct H as [path c Ha| | | | |]; inversion H' as [? ? Ha'| | | | |]; subst; try congruence;
    try (f_equal; by eapply api_det);
    repeat match goal with
    | Ha : api _ _ _ _ |- _ => inversion Ha; subst; clear Ha
    | Hp : _ ∈ _ |- _ => apply api_csv_cases in Hp as [Hp|Hp]; discriminate Hp
    end.
Qed.

Lemma run_enc_inv r s e s' :
  run (F := F) enc r s = Some (e, s') ↔ e = rq_headers r !! "content-encoding"%string ∧ s' = s.
Proof.
  unfold enc. rewrite run_or_else, run_map, run_header.
  destruct (rq_headers r !! "content-encoding"%string); simpl; naive_solver.
Qed.

(** What a route accepts is in the table ... *)
Ltac route_sound :=
  unfold prometheus_metric, overload_req, overload_multi_req, stop_req, status, upload_binary_file,
    upload_csv_file, upload_sqlite_file, upload_binary_file_cluster, upload_csv_file_cluster,
    upload_sqlite_file_cluster, info, request_vote, request_vote_response, heartbeat,
    download_req_from_secondaries in *;
  invert_run;
  try match goal with H : run enc _ _ = Some _ |- _ => apply run_enc_inv in H as [? ?]; subst end;
  simplify_eq;
  try (econstructor; first [eassumption | exact I | reflexivity | set_solver]).

Lemma get_routes_sound r s c s' :
  run (F := F) (get_routes parse_request parse_multi) r s = Some (c, s') → api (λ _, Some tt) r s c.
Proof.
  unfold get_routes. intros H. repeat (apply run_or_some in H as [H|H]); route_sound.
Qed.

(** ... and what is in the table is accepted by one of the routes. *)
Ltac route_found :=
  eexists;
  unfold prometheus_metric, overload_req, overload_multi_req, stop_req, status, upload_binary_file,
    upload_csv_file, upload_sqlite_file, upload_binary_file_cluster, upload_csv_file_cluster,
    upload_sqlite_file_cluster, info, request_vote, request_vote_response, heartbeat,
    download_req_from_secondaries;
  first [ solve [solve_run]
        | solve [eapply run_map_intro, run_and_intro;
                   [eapply run_and_intro; [solve_run|by apply run_enc_inv]|solve_run]] ].

Ltac pick_route := first [apply run_or_right; route_found | apply run_or_left; pick_route | route_found].

Ltac api_cases H :=
  destruct H; repeat match goal with
  | H : limited _ _ |- _ => destruct H as (? & ? & ?)
  | H : _ ∈ _ |- _ => apply api_csv_cases in H as [->| ->]
  end.

Lemma get_routes_complete r s c :
  api (λ _, Some tt) r s c → is_Some (run (F := F) (get_routes parse_request parse_multi) r s).
Proof. unfold get_routes. intros H. api_cases H; pick_route. Qed.

Definition app_routes_cluster : F (Call Req Multi Z) :=
  prometheus_metric .| overload_req parse_request .| overload_multi_req parse_multi .| stop_req .| status .|
  upload_binary_file_cluster .| upload_csv_file_cluster .| upload_sqlite_file_cluster.

Lemma app_routes_cluster_sound r s c s' :
  run app_routes_cluster r s = Some (c, s') → api length_header r s c.
Proof.
  unfold app_routes_cluster. intros H. repeat (apply run_or_some in H as [H|H]); route_sound.
Qed.

Lemma app_routes_cluster_complete r s c :
  api length_header r s c → is_Some (run app_routes_cluster r s).
Proof. unfold app_routes_cluster. intros H. api_cases H; unfold length_header in *; pick_route. Qed.

Lemma cluster_routes_sound r s c s' :
  run (F := F) (get_routes_with_cluster parse_request parse_multi) r s = Some (c, s') → cluster_api r s c.
Proof.
  unfold get_routes_with_cluster. intros H. repeat (apply run_or_some in H as [H|H]).
  - apply run_map_inv in H as (c' & H & ->). constructor. by eapply app_routes_cluster_sound.
  - route_sound.
  - route_sound.
  - route_sound.
  - route_sound.
  - route_sound.
Qed.

Lemma cluster_routes_complete r s c :
  cluster_api r s c → is_Some (run (F := F) (get_routes_with_cluster parse_request parse_multi) r s).
Proof.
  unfold get_routes_with_cluster. intros H. destruct H as [path c H| | | | |].
  - do 5 apply run_or_left. apply app_routes_cluster_complete in H as [[c' s'] H].
    eexists. by apply run_map_intro.
  - pick_route.
  - pick_route.
  - pick_route.
  - pick_route.
  - pick_route.
Qed.

End Table.

(** ** Replies *)

(** [StatusCode::from_u16]: three digits. *)
Definition status_from_u16 (code : Z) : option Z :=
  if (100 <=? code) && (code <? 1000) then Some code else None.

Definition generic_error_to_reply_with_status (err : GenericError) : outcome Reply :=
  status_code ← unwrap (status_from_u16 (error_code err));
  Val (json_reply status_code (generic_error_to_value err)).

Definition generic_result_to_reply_with_status {T} (to : T → Value)
    (status : result GenericError (gmap string T)) : outcome Reply :=
  match status with
  | Ok resp => Val (json_reply 200 (generic_response_to_value to resp))
  | Err err => generic_error_to_reply_with_status err
  end.

(** The handlers of uploads have a status of their own for errors. *)
Definition upload_reply (result : result GenericError (gmap string string)) : Reply :=
  match result with
  | Ok r => json_reply 200 (generic_response_to_value Str r)
  | Err e => json_reply 500 (generic_error_to_value e)
  end.

(** The handler of [prometheus_metric]; [encoded] is the text of the registry. *)
Definition metrics_reply (encoded : result string string) : Reply :=
  match encoded with
  | Ok text => {| rp_status := 200; rp_body := BodyText text |}
  | Err _ => {| rp_status := 500; rp_body := BodyText "Error exporting metrics" |}
  end.

(** [no_cluster_err] *)
Definition no_cluster_err : Reply := json_reply 404 (Obj [("error"%string, Str "Cluster is not running")]).

(** ** Handlers *)

(** What a call finds outside the node: a new UUID, the text of the metrics, the rows a CSV
    reader takes from a body, the database, and files (as [Upload] has them). *)
Record Outside := {
  os_uuid : string;
  os_metrics : result string string;
  os_csv : string → list (result string HttpReqCsvHelper);
  os_open : bool;
  os_insert : list SqliteRow → option Z;
  os_created : result string unit;
  os_copied : string → bool → result string unit;
  os_count : string → bool → result string Z;
  os_file : string → result string (list (result string (list Byte.byte)) * Z)
}.

Record Node (Req Rng : Type) := { nd_jobs : JobMap; nd_rng : Rng; nd_spawned : list Req }.
Arguments nd_jobs {Req Rng} _.
Arguments nd_rng {Req Rng} _.
Arguments nd_spawned {Req Rng} _.
Arguments Build_Node {Req Rng} _ _ _.

Section Handlers.
  Context {Compiled Hir AST Conn Rng LuaFunction : Type} `{!RandomSource Hir Rng}.
  Context (parse_regex : string → option Hir) (request_file_exists : string → bool).
  Context (eval_function : string → result string LuaFunction).
  Context (valid_uri valid_method : string → bool).
  Context (parse_headers : string → option (gmap string string)) (show_headers : gmap string string → string).
  Context (parse_error : string → string) (data_directory : string).

Local Abbreviation Req := (Request Compiled Hir AST Conn).
Local Abbreviation Multi := (MultiRequest Compiled Hir AST Conn).
Local Abbreviation Nd := (Node Req Rng).

Definition with_jobs (m : JobMap) (n : Nd) : Nd := Build_Node m (nd_rng n) (nd_spawned n).

(** The node after a test handler: the tests it started and the random numbers it used. *)
Definition started (spawned : list Req) (g : Rng) (n : Nd) : Nd :=
  Build_Node (nd_jobs n) g (nd_spawned n ++ spawned).

(** *** Standalone *)

Definition execute (o : Outside) (request : Req) (n : Nd) : outcome (Reply * Nd) :=
  '(response, spawned, g) ← handle_request parse_regex request_file_exists eval_function (os_uuid o) request (nd_rng n);
  Val (json_reply 200 (response_to_value response), started spawned g n).

Definition execute_multiple (o : Outside) (requests : Multi) (n : Nd) : outcome (Reply * Nd) :=
  '(response, spawned, g) ←
     handle_multi_request parse_regex request_file_exists eval_function (os_uuid o) requests (nd_rng n);
  Val (json_reply 200 (response_to_value response), started spawned g n).

Definition stop_handler (job_id : string) (n : Nd) : outcome (Reply * Nd) :=
  let '(resp, m) := stop_job job_id (nd_jobs n) in
  reply ← generic_result_to_reply_with_status Str (Ok resp);
  Val (reply, with_jobs m n).

(** The handler of [status]. *)
Definition status_handler (pager_option : gmap string string) (n : Nd) : outcome Reply :=
  match query_try_from parse_error pager_option with
  | Ok option => generic_result_to_reply_with_status job_status_to_value (Ok (handle_get_status option (nd_jobs n)))
  | Err e => generic_error_to_reply_with_status e
  end.

(** [csv_stream_to_sqlite] and [save_sqlite] on the body of a request. *)
Definition store_csv (o : Outside) (data : string) : result GenericError (gmap string string) :=
  csv_stream_to_sqlite valid_uri valid_method parse_headers show_headers (os_uuid o) (os_open o) (os_insert o)
    (os_csv o data).

Definition store_sqlite (o : Outside) (data content_encoding : string) : result GenericError (gmap string string) :=
  save_sqlite (os_uuid o) (os_created o) (os_copied o data) (os_count o data) content_encoding.

Definition upload_csv_file_handler (o : Outside) (data : string) : Reply := upload_reply (store_csv o data).

Definition upload_sqlite_file_handler (o : Outside) (content_encoding : option string) (data : string) : Reply :=
  upload_reply (store_sqlite o data (default "bytes"%string content_encoding)).

Definition serve_standalone (o : Outside) (call : Call Req Multi unit) (n : Nd) : outcome (Reply * Nd) :=
  match call with
  | CMetrics => Val (metrics_reply (os_metrics o), n)
  | CTest request => execute o request n
  | CTests request => execute_multiple o request n
  | CStop job_id => stop_handler job_id n
  | CStatus pager_option => reply ← status_handler pager_option n; Val (reply, n)
  | CUploadCsv _ data => Val (upload_csv_file_handler o data, n)
  | CUploadSqlite _ content_encoding data => Val (upload_sqlite_file_handler o content_encoding data, n)
  end.

(** *** In a cluster *)

Section ClusterHandlers.
  Context {W : Type} (client : HttpRequest → W → result string Reply * W).
  Context (url_join : string → string → option string) (json_text : Value → string).
  Context (serde_error : Reply → string) (uri_error : string → string).
  Context (request_text : Req → string) (multi_text : Multi → string).
  (** The cluster: its description, and what messages of the election do. *)
  Context (cluster_info_value : W → Value).
  Context (accept_raft_request_vote : string → Z → W → W) (accept_raft_request_vote_resp : Z → bool → W → W).
  Context (accept_raft_heartbeat : string → Z → W → W).

Definition execute_cluster (o : Outside) (request : Req) (c : ClusterView) (n : Nd) (w : W) :
    outcome (Reply * Nd * W) :=
  '(response, spawned, g, w) ←
     handle_request_cluster client valid_uri serde_error uri_error parse_regex request_file_exists eval_function
       request_text (os_uuid o) request c (nd_rng n) w;
  Val (json_reply 200 (response_to_value response), started spawned g n, w).

Definition execute_multi_req_cluster (o : Outside) (request : Multi) (c : ClusterView) (n : Nd) (w : W) :
    Reply * Nd * W :=
  let '(response, spawned, w) :=
    handle_multi_request_cluster client valid_uri serde_error uri_error multi_text (os_uuid o) request c w in
  (json_reply 200 (response_to_value response), started spawned (nd_rng n) n, w).

Definition stop_handler_cluster (job_id : string) (c : ClusterView) (n : Nd) (w : W) : outcome (Reply * Nd * W) :=
  let '(resp, m, w) := stop client valid_uri json_text serde_error uri_error job_id c (nd_jobs n) w in
  reply ← generic_result_to_reply_with_status Str resp;
  Val (reply, with_jobs m n, w).

(** The handler of [history]. *)
Definition history_handler (pager_option : gmap string string) (c : ClusterView) (n : Nd) (w : W) :
    outcome (Reply * W) :=
  match query_try_from parse_error pager_option with
  | Ok option =>
      let '(status, w) := handle_history_all client valid_uri json_text serde_error uri_error option c (nd_jobs n) w in
      reply ← generic_result_to_reply_with_status job_status_to_value status;
      Val (reply, w)
  | Err e => reply ← generic_error_to_reply_with_status e; Val (reply, w)
  end.

Definition upload_csv_file_handler_cluster (o : Outside) (data : string) (c : ClusterView) (content_len : Z) (w : W) :
    outcome (Reply * W) :=
  '(result, w) ← handle_file_upload client valid_uri url_join json_text serde_error uri_error
                   (store_csv o data) data c content_len w;
  Val (upload_reply result, w).

Definition upload_sqlite_file_handler_cluster (o : Outside) (data : string) (c : ClusterView) (content_len : Z)
    (content_encoding : option string) (w : W) : outcome (Reply * W) :=
  '(result, w) ← save_sqlite_cluster client valid_uri url_join json_text serde_error uri_error
                   (store_sqlite o data) data c content_len (default "bytes"%string content_encoding) w;
  Val (upload_reply result, w).

Definition cluster_info (cluster_mode : bool) (w : W) : Reply :=
  if negb cluster_mode then no_cluster_err else json_reply 200 (cluster_info_value w).

Definition cluster_request_vote (cluster_mode : bool) (requester_node_id : string) (term : Z) (w : W) : Reply * W :=
  if negb cluster_mode then (no_cluster_err, w)
  else (json_reply 200 Null, accept_raft_request_vote requester_node_id term w).

Definition cluster_request_vote_response (cluster_mode : bool) (term : Z) (vote : bool) (w : W) : Reply * W :=
  if negb cluster_mode then (no_cluster_err, w)
  else (json_reply 200 Null, accept_raft_request_vote_resp term vote w).

Definition cluster_heartbeat (cluster_mode : bool) (leader_node_id : string) (term : Z) (w : W) : Reply * W :=
  if negb cluster_mode then (no_cluster_err, w)
  else (json_reply 200 Null, accept_raft_heartbeat leader_node_id term w).

(** [body_from_file]: opening the file and asking for its size may fail. *)
Definition body_from_file (o : Outside) (file : string) : result GenericError ReplyBody :=
  match os_file o file with
  | Err e => Err (from_error e)
  | Ok (reads, size) => Ok (BodyStream (file_stream reads size))
  end.

(** The text of an error as [serde_json::to_string] prints it is a JSON body. *)
Definition response_file (o : Outside) (filename : string) : outcome Reply :=
  match body_from_file o (data_directory +:+ String "/" filename) with
  | Ok body => Val {| rp_status := 200; rp_body := body |}
  | Err e => code ← unwrap (status_from_u16 (error_code e)); Val (json_reply code (generic_error_to_value e))
  end.

Definition serve_cluster (o : Outside) (call : ClusterCall Req Multi) (c : ClusterView) (n : Nd) (w : W) :
    outcome (Reply * Nd * W) :=
  match call with
  | KApp CMetrics => Val (metrics_reply (os_metrics o), n, w)
  | KApp (CTest request) => execute_cluster o request c n w
  | KApp (CTests request) => Val (execute_multi_req_cluster o request c n w)
  | KApp (CStop job_id) => stop_handler_cluster job_id c n w
  | KApp (CStatus pager_option) => '(reply, w) ← history_handler pager_option c n w; Val (reply, n, w)
  | KApp (CUploadCsv content_len data) =>
      '(reply, w) ← upload_csv_file_handler_cluster o data c content_len w; Val (reply, n, w)
  | KApp (CUploadSqlite content_len content_encoding data) =>
      '(reply, w) ← upload_sqlite_file_handler_cluster o data c content_len content_encoding w; Val (reply, n, w)
  | KInfo => Val (cluster_info true w, n, w)
  | KRequestVote node_id term => let '(reply, w) := cluster_request_vote true node_id term w in Val (reply, n, w)
  | KVote term vote => let '(reply, w) := cluster_request_vote_response true term vote w in Val (reply, n, w)
  | KHeartbeat leader_node term => let '(reply, w) := cluster_heartbeat true leader_node term w in Val (reply, n, w)
  | KDownload filename => reply ← response_file o filename; Val (reply, n, w)
  end.

End ClusterHandlers.
End Handlers.

(** ** What the handlers reply *)

Section Replies.
  Context {Compiled Hir AST Conn Rng LuaFunction : Type} `{!RandomSource Hir Rng}.
  Context (parse_regex : string → option Hir) (request_file_exists : string → bool).
  Context (eval_function : string → result string LuaFunction).
  Context (valid_uri valid_method : string → bool).
  Context (parse_headers : string → option (gmap string string)) (show_headers : gmap string string → string).
  Context (parse_error : string → string) (data_directory : string).
  Context {W : Type} (client : HttpRequest → W → result string Reply * W).
  Context (url_join : string → string → option string) (json_text : Value → string).
  Context (serde_error : Reply → string) (uri_error : string → string).

Local Abbreviation Req := (Request Compiled Hir AST Conn).
Local Abbreviation Multi := (MultiRequest Compiled Hir AST Conn).
Local Abbreviation Nd := (Node Req Rng).

  Context (request_text : Req → string) (multi_text : Multi → string).
  Context (cluster_info_value : W → Value).
  Context (accept_raft_request_vote : string → Z → W → W) (accept_raft_request_vote_resp : Z → bool → W → W).
  Context (accept_raft_heartbeat : string → Z → W → W).

Local Abbreviation serve :=
  (serve_cluster parse_regex request_file_exists eval_function valid_uri valid_method parse_headers show_headers
    parse_error data_directory client url_join json_text serde_error uri_error request_text multi_text
    cluster_info_value accept_raft_request_vote accept_raft_request_vote_resp accept_raft_heartbeat).

(** The statuses of replies. *)
Definition known_status (code : Z) : Prop := code ∈ [200; 400; 404; 500].

(** When a handler can panic: the secondaries are gone when they are asked for again, the
    check of a test panics, or the address of the primary is no URL. *)
Definition may_panic (call : ClusterCall Req Multi) (c : ClusterView) (g : Rng) (uuid : string) : Prop :=
  match call with
  | KApp (CTest r) =>
      is_primary c = true ∧
      (secondaries_again c = None ∨
       pre_check parse_regex request_file_exists eval_function (set_name r (job_id uuid (name r))) g = Panic)
  | KApp (CUploadCsv _ _) =>
      is_primary c = false ∧ ∃ uri, primary_uri (primaries c) = Ok uri ∧ url_join uri PATH_FILE_UPLOAD = None
  | KApp (CUploadSqlite _ _ _) =>
      is_primary c = false ∧ ∃ uri, primary_uri (primaries c) = Ok uri ∧ url_join uri PATH_FILE_UPLOAD_SQLITE = None
  | _ => False
  end.

(** An error with a status that a reply can have. *)
Definition known_error (e : GenericError) : Prop := error_code e ∈ [400; 404; 500].

Lemma known_error_reply e :
  known_error e → ∃ reply, generic_error_to_reply_with_status e = Val reply ∧ known_status (rp_status reply).
Proof.
  unfold known_error, generic_error_to_reply_with_status, known_status. intros He.
  assert (error_code e = 400 ∨ error_code e = 404 ∨ error_code e = 500) as [E|[E|E]] by set_solver;
    rewrite E; simpl; eexists; (split; [done|]); simpl; set_solver.
Qed.

Lemma known_result_reply {T} (to : T → Value) res :
  (∀ e, res = Err e → known_error e) →
  ∃ reply, generic_result_to_reply_with_status to res = Val reply ∧ known_status (rp_status reply).
Proof.
  intros H. destruct res as [resp|e]; [|apply known_error_reply; by apply H].
  eexists. split; [done|]. unfold known_status. simpl. set_solver.
Qed.

Lemma forward_other_known {T} (from : Value → option T) req w res w' e :
  forward_other_requests_to_primary client serde_error from req w = (res, w') → res = Err e → known_error e.
Proof.
  unfold forward_other_requests_to_primary. destruct (client req w) as [resp w1]. intros [= <- <-].
  unfold known_error. destruct resp as [reply|er]; [|intros [= <-]; simpl; set_solver].
  destruct (body_json (rp_body reply) ≫= generic_response_from_value from); [done|].
  intros [= <-]. simpl. set_solver.
Qed.

(** Passing on a request, once it is built. *)
Lemma forward_built_known {T} (from : Value → option T) method uri headers body w res w' e :
  (match build_request valid_uri uri_error method uri headers body with
   | Ok request => forward_other_requests_to_primary client serde_error from request w
   | Err e => (Err e, w)
   end) = (res, w') → res = Err e → known_error e.
Proof.
  unfold build_request. destruct (valid_uri uri); [by apply forward_other_known|].
  intros [= <- <-] [= <-]. unfold known_error. simpl. set_solver.
Qed.

Lemma stop_known id c m w res m' w' e :
  stop client valid_uri json_text serde_error uri_error id c m w = (res, m', w') → res = Err e → known_error e.
Proof.
  unfold stop. destruct (is_active c); simpl.
  2: { intros [= <- <- <-] [= <-]. unfold known_error. simpl. set_solver. }
  destruct (is_primary c); [by intros [= <- <- <-]|].
  destruct (forward_stop_request_to_primary _ _ _ _ _ _ _) as [r w1] eqn:E. intros [= <- <- <-].
  unfold forward_stop_request_to_primary in E. destruct (primary_uri (primaries c)) as [uri|e']; simpl in E.
  - by eapply forward_built_known.
  - injection E as <- <-. intros [= <-]. unfold known_error. simpl. set_solver.
Qed.

Lemma stop_table_step id c m w res m' w' :
  stop client valid_uri json_text serde_error uri_error id c m w = (res, m', w') → m' = m ∨ table_step m m'.
Proof.
  unfold stop. destruct (is_active c); simpl; [|intros [= <- <- <-]; by left].
  destruct (is_primary c); [intros [= <- <- <-]; right; exact (step_stop id m)|].
  destruct (forward_stop_request_to_primary _ _ _ _ _ _ _) as [r w1]. intros [= <- <- <-]. by left.
Qed.

Lemma history_known q c m w res w' e :
  handle_history_all client valid_uri json_text serde_error uri_error q c m w = (res, w') → res = Err e → known_error e.
Proof.
  unfold handle_history_all. destruct (is_active c); simpl.
  2: { intros [= <- <-] [= <-]. unfold known_error. simpl. set_solver. }
  destruct (is_primary c); [by intros [= <- <-]|].
  unfold forward_get_status_request. destruct (primary_uri (primaries c)) as [uri|e']; simpl.
  - by apply forward_built_known.
  - intros [= <- <-] [= <-]. unfold known_error. simpl. set_solver.
Qed.

Lemma upload_reply_known res : known_status (rp_status (upload_reply res)).
Proof. unfold known_status. destruct res; simpl; set_solver. Qed.

(** An upload is stored or passed on, and panics only if the primary's address is no URL. *)
Lemma upload_outcome path headers data store c w :
  let r := if negb (is_active c) then Val (Err (inactive_cluster_error json_text), w)
           else if is_primary c then Val (store, w)
           else forward_upload client valid_uri url_join serde_error uri_error path headers data c w in
  (∃ res w', r = Val (res, w')) ∨
  r = Panic ∧ is_primary c = false ∧ ∃ uri, primary_uri (primaries c) = Ok uri ∧ url_join uri path = None.
Proof.
  simpl. destruct (is_active c); simpl; [|by eauto]. destruct (is_primary c); [by eauto|].
  unfold forward_upload. destruct (primary_uri (primaries c)) as [uri|e]; [|by eauto].
  destruct (url_join uri path) as [url|] eqn:E; simpl; [|by eauto 10].
  left. eexists _, _. f_equal. apply surjective_pairing.
Qed.

(** What a handler that returns has done. *)
Definition served (n : Nd) (reply : Reply) (n' : Nd) : Prop :=
  known_status (rp_status reply) ∧ (nd_jobs n' = nd_jobs n ∨ table_step (nd_jobs n) (nd_jobs n')) ∧
  nd_spawned n `prefix_of` nd_spawned n'.

Lemma served_same n reply : known_status (rp_status reply) → served n reply n.
Proof. intros H. split_and!; [done|by left|done]. Qed.

Lemma served_started n v spawned g : served n (json_reply 200 v) (started spawned g n).
Proof.
  split_and!; [unfold known_status; simpl; set_solver|by left|]. simpl. by apply prefix_app_r.
Qed.

Lemma response_file_known o filename :
  ∃ reply, response_file data_directory o filename = Val reply ∧ known_status (rp_status reply).
Proof.
  unfold response_file, body_from_file, known_status.
  destruct (os_file o _) as [[reads size]|e]; simpl; eexists; (split; [done|]); simpl; set_solver.
Qed.

(** The test handler of a cluster. *)
Lemma execute_cluster_served o r c n w :
  match serve o (KApp (CTest r)) c n w with
  | Val (reply, n', _) => served n reply n'
  | Panic => may_panic (KApp (CTest r)) c (nd_rng n) (os_uuid o)
  end.
Proof.
  simpl. unfold execute_cluster, handle_request_cluster.
  destruct (is_active c); simpl; [|apply served_started].
  destruct (is_primary c) eqn:Ep.
  - destruct (secondaries c) as [l|]; simpl; [|apply served_started].
    destruct (secondaries_again c) as [[|x l']|] eqn:Ea; simpl; [apply served_started| |by auto].
    match goal with |- context [pre_check ?a ?b ?c ?d ?e] => destruct (pre_check a b c d e) as [[[[]|er] g]|] eqn:Ec end;
      simpl; [apply served_started|apply served_started|by auto].
  - destruct (forward_test_request _ _ _ _ _ _ _ _) as [resp w1]. simpl. apply served_started.
Qed.

(** C39: Every call of a node gets a reply with one of the statuses 200, 400, 404 and 500; it
    changes the job table by at most one step of the table, and starts tests but never
    takes one back.  A handler panics in three cases only: the cluster says that there are
    secondaries and then that there are none known, the check of a test panics, or an
    upload is to go to a primary whose address is no URL. *)
Theorem cluster_replies_sound o call c n w :
  match serve o call c n w with
  | Val (reply, n', _) =>
      known_status (rp_status reply) ∧ (nd_jobs n' = nd_jobs n ∨ table_step (nd_jobs n) (nd_jobs n')) ∧
      nd_spawned n `prefix_of` nd_spawned n'
  | Panic => may_panic call c (nd_rng n) (os_uuid o)
  end.
Proof.
  assert (H200 : ∀ v, known_status (rp_status (json_reply 200 v))) by (intros v; unfold known_status; simpl; set_solver).
  destruct call as [[]| | | | |]; cbn [serve_cluster].
  - apply served_same. unfold known_status. destruct (os_metrics o); simpl; set_solver.
  - apply execute_cluster_served.
  - unfold execute_multi_req_cluster. destruct (handle_multi_request_cluster _ _ _ _ _ _ _ _ _) as [[resp sp] w1].
    apply served_started.
  - unfold stop_handler_cluster. destruct (stop _ _ _ _ _ _ _ _ _) as [[resp m] w1] eqn:E.
    destruct (known_result_reply Str resp) as (reply & -> & Hk); [intros e; by eapply stop_known|]. simpl.
    split_and!; [done| |done]. simpl. by eapply stop_table_step.
  - unfold history_handler. destruct (query_try_from parse_error pager_option) as [q|e] eqn:Eq.
    + destruct (handle_history_all _ _ _ _ _ _ _ _ _) as [st w1] eqn:E.
      destruct (known_result_reply job_status_to_value st) as (reply & -> & Hk); [intros e; by eapply history_known|].
      by apply served_same.
    + apply query_try_from_error in Eq as [msg ->].
      destruct (known_error_reply (generic_error_new msg 400)) as (reply & -> & Hk);
        [unfold known_error; simpl; set_solver|]. by apply served_same.
  - unfold upload_csv_file_handler_cluster, handle_file_upload.
    edestruct (upload_outcome PATH_FILE_UPLOAD) as [(res & w1 & ->)|(-> & Hp)]; [|exact Hp].
    apply served_same, upload_reply_known.
  - unfold upload_sqlite_file_handler_cluster, save_sqlite_cluster.
    edestruct (upload_outcome PATH_FILE_UPLOAD_SQLITE) as [(res & w1 & ->)|(-> & Hp)]; [|exact Hp].
    apply served_same, upload_reply_known.
  - apply served_same, H200.
  - apply served_same, H200.
  - apply served_same, H200.
  - apply served_same, H200.
  - destruct (response_file_known o filename) as (reply & -> & Hk). by apply served_same.
Qed.

End Replies.

(** ** Serving a request *)

(** The call a request is, if a route accepts it. *)
Definition route {F} `{!Warp F} {C} (routes : F C) (r : HttpRequest) : option C :=
  fst <$> run routes r (uri_segments (rq_uri r)).

(** ** Properties of the routes *)

(** The routes of a standalone process accept exactly the requests of the table [api], as the
    call the table says: method, path, limits on the body and readable contents.  A request
    is at most one call, so that the order of the routes does not matter. *)
Theorem standalone_routes_exact {F} `{!Warp F, !WarpLaws F} {Req Multi}
    (parse_request : string → option Req) (parse_multi : string → option Multi) (r : HttpRequest) :
  (∀ c, route (get_routes parse_request parse_multi) r = Some c ↔
        api parse_request parse_multi (λ _, Some tt) r (uri_segments (rq_uri r)) c) ∧
  (∀ c c', api parse_request parse_multi (λ _, Some tt) r (uri_segments (rq_uri r)) c →
           api parse_request parse_multi (λ _, Some tt) r (uri_segments (rq_uri r)) c' → c = c').
Proof.
  unfold route. split; [|by apply api_det]. intros c. split.
  - intros ([c' s] & H & ->)%fmap_Some. by eapply get_routes_sound.
  - intros H. destruct (get_routes_complete (F := F) _ _ _ _ _ H) as [[c' s] Hr]. rewrite Hr. simpl.
    f_equal. apply get_routes_sound in Hr. by eapply api_det.
Qed.

(** What the routes of a node of a cluster take a request for. *)
Lemma cluster_route_iff {F} `{!Warp F, !WarpLaws F} {Req Multi}
    (parse_request : string → option Req) (parse_multi : string → option Multi) (r : HttpRequest) c :
  route (get_routes_with_cluster parse_request parse_multi) r = Some c ↔
  cluster_api parse_request parse_multi r (uri_segments (rq_uri r)) c.
Proof.
  unfold route. split.
  - intros ([c' s] & H & ->)%fmap_Some. by eapply cluster_routes_sound.
  - intros H. destruct (cluster_routes_complete (F := F) _ _ _ _ _ H) as [[c' s] Hr]. rewrite Hr. simpl.
    f_equal. apply cluster_routes_sound in Hr. by eapply cluster_api_det.
Qed.

(** C16: The routes of a node of a cluster accept exactly the requests of the table
    [cluster_api]: the calls of a standalone process, where an upload must give a readable
    length, and those between nodes; and again a request is at most one call. *)
Theorem cluster_routes_exact {F} `{!Warp F, !WarpLaws F} {Req Multi}
    (parse_request : string → option Req) (parse_multi : string → option Multi) (r : HttpRequest) :
  (∀ c, route (get_routes_with_cluster parse_request parse_multi) r = Some c ↔
        cluster_api parse_request parse_multi r (uri_segments (rq_uri r)) c) ∧
  (∀ c c', cluster_api parse_request parse_multi r (uri_segments (rq_uri r)) c →
           cluster_api parse_request parse_multi r (uri_segments (rq_uri r)) c' → c = c').
Proof. split; [intros c; apply cluster_route_iff|apply cluster_api_det]. Qed.

(** ** Concrete inputs *)

Definition demo_request (method uri : string) : HttpRequest :=
  {| rq_method := method; rq_uri := uri; rq_headers := {[ "content-length"%string := "3"%string ]}; rq_body := "abc" |}.

Lemma standalone_routes_exact_witness :
  route (F := demo_filter) (get_routes (@Some string) (@Some string)) (demo_request "POST" "/test") =
  Some (CTest "abc"%string).
Proof.
  apply (proj1 (standalone_routes_exact (F := demo_filter) (@Some string) (@Some string) (demo_request "POST" "/test"))).
  apply api_test; try reflexivity. exists 3. split; [reflexivity|lia].
Defined.

Lemma cluster_routes_exact_witness :
  route (F := demo_filter) (get_routes_with_cluster (@Some string) (@Some string))
    (demo_request "GET" "/cluster/raft/beat/node-1/7") = Some (KHeartbeat "node-1" 7).
Proof.
  apply (proj1 (cluster_routes_exact (F := demo_filter) (@Some string) (@Some string)
    (demo_request "GET" "/cluster/raft/beat/node-1/7"))).
  apply (capi_heartbeat _ _ _ "node-1"%string "7"%string 7); [discriminate|discriminate|reflexivity].
Defined.
