(* ===== verification/Service.v ===== *)
(** * A cluster as one service

    How the routes, the handlers, the HTTP client and the primary work together
    ([Routes], [Api], [Jobs]).  A request about jobs may reach any node of a cluster; a node
    that is not the primary passes it on, and the primary routes it, answers, and the answer
    goes back.  The theorems say that this is not visible: a cluster answers as a single
    standalone process with the primary's job table would, and a test keeps the id it got
    where it came in. *)
From Stdlib Require Import ZArith Lia Ascii.
From stdpp Require Import base list gmap strings numbers sets.
From S2P Require Import Prelude RateSpec Json Assert DataGen Template HttpTypes Jobs Secondary Upload Api Warp Routes.

Local Open Scope Z_scope.

(** ** Plain texts *)

Lemma plain_digits s : str_forall is_digit s = true → plain s.
Proof.
  apply str_forall_impl. intros a Ha.
  destruct a as [[] [] [] [] [] [] [] []]; first [reflexivity | discriminate Ha].
Qed.

Lemma plain_show_unsigned n : plain (show_unsigned n).
Proof. by apply plain_digits, show_digits_forall. Qed.

(** A query for a job that has a plain id, or for a page. *)
Definition plain_query (q : JobStatusQueryParams) : Prop :=
  match q with JobId id => plain id | PagerOptions o l => 0 <= o <= usize_MAX ∧ 1 <= l <= usize_MAX end.

Definition query_pairs (q : JobStatusQueryParams) : list (string * string) :=
  match q with
  | JobId id => [("job_id"%string, id)]
  | PagerOptions o l => [("offset"%string, show_unsigned o); ("limit"%string, show_unsigned l)]
  end.

Lemma show_query_pairs q : show_query q = pairs (query_pairs q).
Proof. by destruct q. Qed.

Lemma query_pairs_plain q : plain_query q → Forall plain_pair (query_pairs q).
Proof.
  destruct q; intros Hq; repeat constructor; simpl; try done; try apply plain_show_unsigned.
Qed.

Lemma query_pairs_map q : list_to_map (query_pairs q) = query_params q.
Proof. by destruct q. Qed.

Lemma query_pairs_nodup q : NoDup (fst <$> query_pairs q).
Proof. destruct q; simpl; repeat constructor; set_solver. Qed.

Lemma plain_query_valid q : plain_query q → query_valid q.
Proof. destruct q; simpl; [|done]. intros Hq. by apply plain_no. Qed.

(** A page that was asked for is a page. *)
Lemma query_try_from_page pe m o l :
  query_try_from pe m = Ok (PagerOptions o l) → 0 <= o <= usize_MAX ∧ 1 <= l <= usize_MAX.
Proof.
  unfold query_try_from. cbv zeta. destruct (m !! "job_id"%string); simpl; [case_decide; intros [=]|].
  destruct (parse_unsigned _ (default "0"%string _)) as [o'|] eqn:Eo; simpl; [|done].
  destruct (parse_unsigned _ (default "20"%string _)) as [l'|] eqn:El; simpl; [|done].
  destruct (Z.ltb_spec l' 1); simpl; [done|]. case_decide; [|done]. intros [= -> ->].
  apply parse_unsigned_range in Eo, El; lia.
Qed.

(** ** The nodes and the network between them *)

(** The calls about jobs. *)
Inductive JobCall := JStop (job_id : string) | JStatus (pager_option : gmap string string).

(** What a call finds outside each of the two nodes it may reach. *)
Record Entry (Node : Type) := mk_entry { en_node : option (ClusterView * Node); en_here : Outside; en_primary : Outside }.
Arguments mk_entry {Node} _ _ _.
Arguments en_node {Node} _.
Arguments en_here {Node} _.
Arguments en_primary {Node} _.

Definition strip_base (base url : string) : option string :=
  if String.prefix base url then Some (String.substring (String.length base) (String.length url - String.length base) url)
  else None.

Lemma strip_base_append b t : strip_base b (b +:+ t) = Some t.
Proof.
  unfold strip_base. rewrite prefix_append, length_append, Nat.add_comm, Nat.add_sub. f_equal.
  induction b as [|a b IH]; [apply substring_all|exact IH].
Qed.

Section Service.
  Context {F : Type → Type} `{!Warp F, !WarpLaws F}.
  Context {Compiled Hir AST Conn Rng LuaFunction : Type} `{!RandomSource Hir Rng}.
  Context (parse_regex : string → option Hir) (request_file_exists : string → bool).
  Context (eval_function : string → result string LuaFunction).
  Context (valid_uri valid_method : string → bool).
  Context (parse_headers : string → option (gmap string string)) (show_headers : gmap string string → string).
  Context (parse_error : string → string) (data_directory : string).
  Context (url_join : string → string → option string) (json_text : Value → string).
  Context (serde_error : Reply → string) (uri_error : string → string).

Local Abbreviation Req := (Request Compiled Hir AST Conn).
Local Abbreviation Multi := (MultiRequest Compiled Hir AST Conn).
Local Abbreviation Nd := (Node Req Rng).

  Context (request_text : Req → string) (multi_text : Multi → string).
  Context (parse_request : string → option Req) (parse_multi : string → option Multi).
  (** The address of the primary and how it sees the cluster. *)
  Context (base : string) (cp : ClusterView).

Definition job_call {L} (j : JobCall) : Call Req Multi L :=
  match j with JStop id => CStop id | JStatus p => CStatus p end.

(** The handlers of a node whose HTTP client reaches a world [W]; the messages of the
    election are not looked at here. *)
Definition serve_node {W} (client : HttpRequest → W → result string Reply * W) :
    Outside → ClusterCall Req Multi → ClusterView → Nd → W → outcome (Reply * Nd * W) :=
  serve_cluster parse_regex request_file_exists eval_function valid_uri valid_method parse_headers show_headers
    parse_error data_directory client url_join json_text serde_error uri_error request_text multi_text
    (λ _, Null) (λ _ _ w, w) (λ _ _ w, w) (λ _ _ w, w).

(** The primary passes nothing on. *)
Definition no_client (_ : HttpRequest) (w : unit) : result string Reply * unit := (Err "unreachable"%string, w).

Definition serve_primary (o : Outside) (call : ClusterCall Req Multi) (p : Nd) : outcome (Reply * Nd) :=
  '(reply, p, _) ← serve_node no_client o call cp p tt; Val (reply, p).

(** What the client of another node gets from the primary: a request for a URL of the
    primary is routed there; a handler that panics closes the connection. *)
Definition to_primary (o : Outside) (req : HttpRequest) (p : Nd) : result string Reply * Nd :=
  match strip_base base (rq_uri req) with
  | None => (Err "unreachable"%string, p)
  | Some target =>
      let r := {| rq_method := rq_method req; rq_uri := target; rq_headers := rq_headers req; rq_body := rq_body req |} in
      match route (get_routes_with_cluster parse_request parse_multi) r with
      | None => (Ok (reject_reply r), p)
      | Some call => match serve_primary o call p with
                     | Val (reply, p) => (Ok reply, p)
                     | Panic => (Err "connection closed"%string, p)
                     end
      end
  end.

(** A call that comes in at the primary, or at another node. *)
Definition cluster_step (e : Entry Nd) (call : Call Req Multi Z) (p : Nd) : outcome (Reply * Nd) :=
  match en_node e with
  | None => serve_primary (en_primary e) (KApp call) p
  | Some (c, q) => '(reply, _, p) ← serve_node (to_primary (en_primary e)) (en_here e) (KApp call) c q p;
                   Val (reply, p)
  end.

Fixpoint cluster_run (calls : list (Entry Nd * JobCall)) (p : Nd) : outcome (list Reply * Nd) :=
  match calls with
  | [] => Val ([], p)
  | (e, j) :: calls' =>
      '(reply, p) ← cluster_step e (job_call j) p;
      '(replies, p) ← cluster_run calls' p;
      Val (reply :: replies, p)
  end.

(** The same calls on one standalone process. *)
Definition standalone_step (o : Outside) (j : JobCall) (n : Nd) : outcome (Reply * Nd) :=
  serve_standalone parse_regex request_file_exists eval_function valid_uri valid_method parse_headers show_headers
    parse_error o (job_call j) n.

Fixpoint standalone_run (calls : list (Entry Nd * JobCall)) (n : Nd) : outcome (list Reply * Nd) :=
  match calls with
  | [] => Val ([], n)
  | (e, j) :: calls' =>
      '(reply, n) ← standalone_step (en_here e) j n;
      '(replies, n) ← standalone_run calls' n;
      Val (reply :: replies, n)
  end.

(** The primary knows that it is; another node of an active cluster knows the primary. *)
Definition view_of_primary (c : ClusterView) : Prop := is_active c = true ∧ is_primary c = true.

Definition view_of_other (c : ClusterView) : Prop :=
  is_active c = true ∧ is_primary c = false ∧ ∃ rest, primaries c = Some (Some base :: rest).

Definition entry_ok (e : Entry Nd) : Prop :=
  match en_node e with None => True | Some (c, _) => view_of_other c end.

(** A job is named by an id that can stand in a URL. *)
Definition call_ok (j : JobCall) : Prop :=
  match j with
  | JStop id => plain_segment id
  | JStatus m => match query_try_from parse_error m with Ok (JobId id) => plain id | _ => True end
  end.

  Context (Hcp : view_of_primary cp).
  Context (Huri : ∀ ss, Forall plain_segment ss → valid_uri (base +:+ slashes ss) = true).
  Context (Huriq : ∀ ss kvs, Forall plain_segment ss → Forall plain_pair kvs →
                     valid_uri (base +:+ slashes ss +:+ String "?" (pairs kvs)) = true).

(** A request that is a call at the primary is served as that call. *)
Lemma to_primary_serves o method target headers body p call :
  cluster_api parse_request parse_multi
    {| rq_method := method; rq_uri := target; rq_headers := headers; rq_body := body |} (uri_segments target) call →
  to_primary o {| rq_method := method; rq_uri := base +:+ target; rq_headers := headers; rq_body := body |} p =
  match serve_primary o call p with
  | Val (reply, p) => (Ok reply, p)
  | Panic => (Err "connection closed"%string, p)
  end.
Proof.
  intros H. unfold to_primary. simpl. rewrite strip_base_append.
  by rewrite (proj2 (cluster_route_iff (F := F) parse_request parse_multi _ call) H).
Qed.

Lemma primary_stop o id p :
  serve_primary o (KApp (CStop id)) p =
  Val (json_reply 200 (generic_response_to_value Str (fst (stop_job id (nd_jobs p)))),
       with_jobs (snd (stop_job id (nd_jobs p))) p).
Proof.
  destruct Hcp as [Ha Hp]. unfold serve_primary, serve_node. simpl.
  unfold stop_handler_cluster, stop. rewrite Ha, Hp. simpl.
  destruct (stop_job id (nd_jobs p)) as [r m]. done.
Qed.

Lemma primary_status o params q p :
  query_try_from parse_error params = Ok q →
  serve_primary o (KApp (CStatus params)) p =
  Val (json_reply 200 (generic_response_to_value job_status_to_value (handle_get_status q (nd_jobs p))), p).
Proof.
  destruct Hcp as [Ha Hp]. intros Hq. unfold serve_primary, serve_node. simpl.
  unfold history_handler, handle_history_all. rewrite Hq, Ha, Hp. done.
Qed.

Lemma stop_path id : (PATH_STOP_JOB +:+ "/" +:+ id)%string = slashes ["test"; "stop"; id]%string.
Proof. rewrite <- (append_empty_r id) at 1. reflexivity. Qed.

Lemma status_path q : (PATH_JOB_STATUS +:+ "?" +:+ show_query q)%string =
  (slashes ["test"; "status"]%string +:+ String "?" (pairs (query_pairs q)))%string.
Proof. rewrite show_query_pairs. reflexivity. Qed.

(** Stopping a job at another node. *)
Lemma forward_stop o id c p :
  view_of_other c → plain_segment id →
  forward_stop_request_to_primary (to_primary o) valid_uri serde_error uri_error id c p =
  (Ok (fst (stop_job id (nd_jobs p))), with_jobs (snd (stop_job id (nd_jobs p))) p).
Proof.
  intros (_ & _ & rest & Hps) Hid. unfold forward_stop_request_to_primary. rewrite Hps. simpl.
  assert (Hss : Forall plain_segment ["test"; "stop"; id]%string).
  { repeat constructor; try done; apply Hid. }
  pose proof (Huri _ Hss) as Hu. pose proof (uri_plain _ Hss) as Hs. rewrite (stop_path id).
  unfold build_request, forward_other_requests_to_primary. rewrite Hu.
  rewrite (to_primary_serves _ _ _ _ _ _ (KApp (CStop id))).
  - rewrite primary_stop. simpl. by rewrite generic_response_round_trip.
  - rewrite Hs. constructor. constructor. apply Hid.
Qed.

Lemma forward_status o q c p :
  view_of_other c → plain_query q →
  forward_get_status_request (to_primary o) valid_uri serde_error uri_error q c p =
  (Ok (handle_get_status q (nd_jobs p)), p).
Proof.
  intros (_ & _ & rest & Hps) Hq. unfold forward_get_status_request. rewrite Hps. simpl.
  assert (Hss : Forall plain_segment ["test"; "status"]%string) by (repeat constructor; done).
  pose proof (query_pairs_plain q Hq) as Hkv.
  pose proof (Huriq _ _ Hss Hkv) as Hu. destruct (uri_plain_query _ _ Hss Hkv) as [Hs Hqs].
  rewrite (status_path q). unfold build_request, forward_other_requests_to_primary. rewrite Hu.
  rewrite (to_primary_serves _ _ _ _ _ _ (KApp (CStatus (query_params q)))).
  - rewrite (primary_status _ _ q) by (by apply query_try_from_params, plain_query_valid).
    simpl. by rewrite generic_response_round_trip by apply job_status_value_round_trip.
  - rewrite Hs. constructor. constructor. cbn [rq_uri]. rewrite Hqs, urlencoded_pairs, query_pairs_map; [done|apply query_pairs_nodup|done].
Qed.

(** One call: wherever it comes in, the answer and the table are those of a standalone
    process. *)
Lemma cluster_step_standalone e j p :
  entry_ok e → call_ok j → cluster_step e (job_call j) p = standalone_step (en_here e) j p.
Proof.
  intros He Hj. unfold cluster_step, entry_ok in *. destruct (en_node e) as [[c q]|].
  - pose proof He as (Ha & Hp & _). destruct j as [id|params]; simpl in Hj.
    + unfold standalone_step. simpl. unfold stop_handler_cluster, stop_handler, stop. rewrite Ha, Hp. simpl.
      rewrite forward_stop by done. reflexivity.
    + unfold standalone_step. simpl. unfold history_handler, status_handler, handle_history_all.
      destruct (query_try_from parse_error params) as [qr|er] eqn:Eq.
      * rewrite Ha, Hp. simpl. rewrite forward_status; [done|done|].
        destruct qr; [done|]. by eapply query_try_from_page.
      * by destruct (generic_error_to_reply_with_status er).
  - destruct j as [id|params].
    + simpl. rewrite primary_stop. unfold standalone_step. simpl. unfold stop_handler.
      reflexivity.
    + unfold standalone_step. simpl. unfold status_handler.
      destruct (query_try_from parse_error params) as [qr|er] eqn:Eq.
      * by rewrite (primary_status _ _ qr).
      * unfold serve_primary, serve_node. simpl. unfold history_handler. rewrite Eq.
        by destruct (generic_error_to_reply_with_status er).
Qed.


Lemma standalone_step_total o j n : ∃ reply n', standalone_step o j n = Val (reply, n').
Proof.
  unfold standalone_step. destruct j as [id|params]; simpl; [by eauto|].
  unfold status_handler. destruct (query_try_from parse_error params) as [qr|er] eqn:Eq; [by eauto|].
  apply query_try_from_error in Eq as [msg ->]. eauto.
Qed.

(** C2: A cluster refines a single process: whatever stop and status requests come in, in
    whatever order and at whichever nodes, every one of them gets the reply that one
    standalone process would give that has the primary's job table, errors included, and
    the primary's table changes as that process's table would.  The nodes are active and
    agree on who is the primary, and job ids consist of characters that stand in a URL as
    they are. *)
Theorem cluster_refines_standalone calls p :
  Forall (λ ej, entry_ok ej.1 ∧ call_ok ej.2) calls →
  ∃ replies p', cluster_run calls p = Val (replies, p') ∧ standalone_run calls p = Val (replies, p').
Proof.
  intros Hc. revert p. induction Hc as [|[e j] calls [He Hj] Hc IH]; intros p; [by eexists _, _|].
  simpl in *. rewrite cluster_step_standalone by done.
  destruct (standalone_step_total (en_here e) j p) as (reply & p1 & ->). simpl.
  destruct (IH p1) as (replies & p' & -> & ->). simpl. eauto.
Qed.

(** *** Passing on a test *)

Lemma set_name_idem (r : Req) id : set_name (set_name r id) id = set_name r id.
Proof. done. Qed.

(** The primary on a test that has an id already. *)
Lemma primary_test o id (r : Req) p :
  uuid_is_match id = true →
  serve_primary o (KApp (CTest (set_name r id))) p = Panic ∨
  ∃ st g, serve_primary o (KApp (CTest (set_name r id))) p =
    Val (json_reply 200 (response_to_value (response_new id st)),
         started (if decide (st = Starting) then [set_name r id] else []) g p).
Proof.
  intros Hid. destruct Hcp as [Ha Hp]. unfold serve_primary, serve_node. simpl.
  unfold execute_cluster, handle_request_cluster. rewrite Ha, Hp. cbn [set_name name negb].
  rewrite job_id_match, set_name_idem by done.
  assert (Hno : ∀ g, ∃ st g', Val (json_reply 200 (response_to_value (response_new id (JobError NoSecondary))), started [] g p)
    = Val (json_reply 200 (response_to_value (response_new id st)),
         started (if decide (st = Starting) then [set_name r id] else []) g' p)).
  { intros g. exists (JobError NoSecondary), g. done. }
  assert (Hck : ∀ (x : outcome (result ErrorCode unit * Rng)),
    ('(ck, g) ← x; Val (match ck with
       | Err e => (response_new id (JobError e), [], g, tt)
       | Ok _ => (response_new id Starting, [set_name r id], g, tt)
       end)) = Panic ∨ ∃ st g, ('(ck, g) ← x; Val (match ck with
       | Err e => (response_new id (JobError e), [], g, tt)
       | Ok _ => (response_new id Starting, [set_name r id], g, tt)
       end)) = Val (response_new id st, if decide (st = Starting) then [set_name r id] else [], g, tt)).
  { intros [[[[]|er] g]|]; simpl; [right; by exists Starting, g|right; by exists (JobError er), g|by left]. }
  destruct (secondaries cp) as [l|]; simpl; [|right; apply Hno].
  destruct (secondaries_again cp) as [[|x l']|]; simpl; [right; apply Hno| |by left].
  match goal with |- context [pre_check ?a ?b ?c ?d ?e] => destruct (Hck (pre_check a b c d e)) as [Hx|(st & g & Hx)] end.
  - left. by rewrite Hx.
  - right. rewrite Hx. simpl. by exists st, g.
Qed.

Lemma limited_body (n : Z) text method uri :
  Z.of_nat (String.length text) <= n → n <= u64_MAX →
  limited {| rq_method := method; rq_uri := uri;
             rq_headers := {[ "content-length"%string := show_unsigned (Z.of_nat (String.length text)) ]};
             rq_body := text |} n.
Proof.
  intros Hl Hn. exists (Z.of_nat (String.length text)). split; [|done].
  apply content_length_header; [lia|]. simpl. by rewrite lookup_singleton_eq.
Qed.

(** What the primary gets when a test is passed on. *)
Lemma to_primary_test o (r : Req) p :
  parse_request (request_text r) = Some r → Z.of_nat (String.length (request_text r)) <= 2 * 1024 * 1024 →
  to_primary o {| rq_method := "POST"; rq_uri := base +:+ slashes ["test"%string];
                  rq_headers := {[ "content-length"%string := show_unsigned (Z.of_nat (String.length (request_text r))) ]};
                  rq_body := request_text r |} p =
  match serve_primary o (KApp (CTest r)) p with
  | Val (reply, p) => (Ok reply, p)
  | Panic => (Err "connection closed"%string, p)
  end.
Proof.
  intros Hr Hlen. apply to_primary_serves. rewrite uri_plain by (by repeat constructor).
  constructor. constructor; [done| | |done].
  - by apply limited_body.
  - by apply json_body_default.
Qed.

(** A test that comes in at another node than the primary, when the text it is passed on as
    is read as the same test ([Forward] shows that it is). *)
Lemma test_passed_on e c q (r : Req) p :
  en_node e = Some (c, q) → view_of_other c → is_uuid (os_uuid (en_here e)) →
  let id := job_id (os_uuid (en_here e)) (name r) in
  let r' := set_name r id in
  parse_request (request_text r') = Some r' →
  Z.of_nat (String.length (request_text r')) <= 2 * 1024 * 1024 →
  ∃ st p', cluster_step e (CTest r) p = Val (json_reply 200 (response_to_value (response_new id st)), p') ∧
    nd_jobs p' = nd_jobs p ∧
    nd_spawned p' = nd_spawned p ++ (if decide (st = Starting) then [r'] else []) ∧
    (∀ reply p2, serve_primary (en_primary e) (KApp (CTest r')) p = Val (reply, p2) →
       p2 = p' ∧ reply = json_reply 200 (response_to_value (response_new id st))).
Proof.
  intros He (Ha & Hp & rest & Hps) Hu id r' Hr Hlen. unfold cluster_step. rewrite He. simpl.
  unfold execute_cluster, handle_request_cluster. rewrite Ha, Hp. simpl.
  unfold forward_test_request. rewrite Hps. unfold build_request.
  change (base +:+ "/" +:+ "test")%string with (base +:+ slashes ["test"%string])%string.
  rewrite (Huri ["test"%string]) by (by repeat constructor). fold id. fold r'.
  rewrite (to_primary_test (en_primary e) r' p Hr Hlen).
  assert (Hm : uuid_is_match id = true) by (by apply job_id_is_match).
  destruct (primary_test (en_primary e) id r p Hm) as [Hx|(st & g & Hx)]; fold r' in Hx; rewrite Hx; simpl.
  - exists (JobError Others), p. split_and!; [done|done|by rewrite app_nil_r|done].
  - rewrite response_value_round_trip. simpl. exists st. eexists. split_and!; [done|done|done|naive_solver].
Qed.

(** *** Request files *)

Lemma primary_download o filename p :
  serve_primary o (KDownload filename) p =
  match os_file o (data_directory +:+ String "/" filename) with
  | Ok (reads, size) => Val ({| rp_status := 200; rp_body := BodyStream (file_stream reads size) |}, p)
  | Err e => Val (json_reply 500 (generic_error_to_value (from_error e)), p)
  end.
Proof.
  unfold serve_primary, serve_node. simpl. unfold response_file, body_from_file.
  by destruct (os_file o _) as [[reads size]|e].
Qed.

(** What a secondary gets when it asks the primary for a file. *)
Lemma download_from_primary url_parse text_bytes port host o filename p :
  base = ("http://" +:+ host +:+ ":" +:+ show_unsigned port)%string →
  url_parse base = Some base →
  (u ← url_join base PATH_REQUEST_DATA_FILE_DOWNLOAD; url_join u filename) =
    Some (base +:+ slashes ["cluster"; "data-file"; filename]%string) →
  plain_segment filename →
  download_file_from_url (to_primary o) valid_uri url_join uri_error url_parse text_bytes port host filename p =
  match os_file o (data_directory +:+ String "/" filename) with
  | Ok (reads, size) => Val (copy_chunks (file_stream reads size), p)
  | Err e => Val (text_bytes (BodyJson (generic_error_to_value (from_error e))), Ok tt, p)
  end.
Proof.
  intros Hb Hp Hj Hf. unfold download_file_from_url. rewrite <- Hb, Hp. cbn [unwrap mbind outcome_bind].
  assert (Hss : Forall plain_segment ["cluster"; "data-file"; filename]%string) by (repeat constructor; try done; apply Hf).
  rewrite Hj. cbn [unwrap mbind outcome_bind]. unfold build_request. rewrite (Huri _ Hss).
  rewrite (to_primary_serves _ _ _ _ _ _ (KDownload filename)).
  - rewrite primary_download. by destruct (os_file o _) as [[reads size]|e].
  - rewrite uri_plain by done. constructor. apply Hf.
Qed.

(** The file that the requests of a test come from. *)
Definition spec_file {Hir AST Conn} (r : RequestSpecEnum Hir AST Conn) : option string :=
  match r with
  | RSRequestFile f => Some (rf_file_name f)
  | RSSplitRequestFile f => Some (sf_file_name f)
  | _ => None
  end.

(** Whether a download succeeded. *)
Definition fetched {W} (d : outcome (list Byte.byte * result string unit * W)) : bool :=
  match d with Val (_, Ok _, _) => true | _ => false end.

Lemma prepare_downloads {C H A Cn} create_ok fetch_ok (r : Request C H A Cn) host path filename (files : gset string) :
  spec_file (req r) = Some path → path_file_name path = Some filename → create_ok path = true →
  fetch_ok host filename = true → path ∉ files →
  prepare create_ok fetch_ok r host files = Val (Ok tt, {[ path ]} ∪ files).
Proof.
  intros Hr Hf Hc Hok Hn. unfold prepare, download_request_file_from_primary.
  destruct (req r); simpl in Hr; try done; injection Hr as ->;
    rewrite decide_False, Hc, Hf by done; simpl; by rewrite Hok.
Qed.

(** C38: An uploaded file reaches the secondaries as it is: when a test names an upload, the
    file a secondary asks the primary for is the one that the upload was stored in, what it
    writes to its disk are the bytes of that file, in whatever pieces the primary reads it,
    and preparing the request succeeds.  The data directory is absolute and has no slash at
    its end, primary and secondary use the same port, and the URL crate appends plain names
    other than dots. *)
Theorem uploaded_file_reaches_secondary env url_parse text_bytes port host o uuid pieces p :
  data_directory = data_dir env → data_dir env = data_dir_path env → ends_with_char "/" (data_dir env) = false →
  upload_name uuid → plain uuid →
  base = ("http://" +:+ host +:+ ":" +:+ show_unsigned port)%string → url_parse base = Some base →
  (∀ f, plain_segment f → f ≠ "."%string → f ≠ ".."%string →
     (u ← url_join base PATH_REQUEST_DATA_FILE_DOWNLOAD; url_join u f) =
     Some (base +:+ slashes ["cluster"; "data-file"; f]%string)) →
  os_file o (csv_destination (data_dir env) uuid) = Ok (Ok <$> pieces, len (mjoin pieces)) →
  Forall (λ b, b ≠ []) pieces →
  let download host f := download_file_from_url (to_primary o) valid_uri url_join uri_error url_parse text_bytes port host f p in
  let path := file_name_deserializer env uuid in
  (∃ filename, path_file_name path = Some filename ∧ download host filename = Val (mjoin pieces, Ok tt, p)) ∧
  ∀ create_ok (r : Request Compiled Hir AST Conn) files,
    spec_file (req r) = Some path → create_ok path = true → path ∉ files →
    prepare create_ok (λ h f, fetched (download h f)) r host files = Val (Ok tt, {[ path ]} ∪ files).
Proof.
  intros Hdd Hd He Hn Hpl Hb Hp Hj Ho Hpc download path.
  assert (Hplain : plain (uuid +:+ ".sqlite")) by (unfold plain; rewrite str_forall_app; by rewrite Hpl).
  assert (Hlen : ∀ x, (uuid +:+ ".sqlite")%string = x → (7 <= String.length x)%nat).
  { intros x <-. rewrite length_append. simpl. lia. }
  assert (Hdots : ∀ x, (String.length x < 7)%nat → (uuid +:+ ".sqlite")%string ≠ x) by (intros x Hx E; apply Hlen in E; lia).
  assert (Hfile : path_file_name path = Some (uuid +:+ ".sqlite")%string).
  { unfold path. rewrite file_name_of_upload by (rewrite <- ?Hd; done). unfold csv_destination.
    apply path_file_name_last; [apply Hdots; simpl; lia..|by apply plain_no]. }
  assert (Hdl : download host (uuid +:+ ".sqlite")%string = Val (mjoin pieces, Ok tt, p)).
  { unfold download. assert (plain_segment (uuid +:+ ".sqlite")) by (split; [apply Hdots; simpl; lia|done]).
    rewrite download_from_primary; [|done|done|apply Hj; [done|apply Hdots; simpl; lia..]|done]. rewrite Hdd.
    unfold csv_destination in Ho. rewrite Ho. f_equal. f_equal.
    destruct (file_stream_exact pieces (len (mjoin pieces))) as [H1 H2]; [apply len_nonneg|done|].
    rewrite copy_chunks_ok, H1 by done. f_equal. unfold len. rewrite Nat2Z.id. by rewrite firstn_all. }
  split; [by eexists|]. intros create_ok r files Hr Hc Hnf. eapply prepare_downloads; try done. cbv beta. by rewrite Hdl.
Qed.

(** A file that the primary does not have is downloaded all the same: the download succeeds,
    and the request file of the secondary is the text of the error. *)
Theorem missing_file_downloaded_as_error url_parse text_bytes port host o filename e p :
  base = ("http://" +:+ host +:+ ":" +:+ show_unsigned port)%string → url_parse base = Some base →
  (u ← url_join base PATH_REQUEST_DATA_FILE_DOWNLOAD; url_join u filename) =
    Some (base +:+ slashes ["cluster"; "data-file"; filename]%string) →
  plain_segment filename → os_file o (data_directory +:+ String "/" filename) = Err e →
  download_file_from_url (to_primary o) valid_uri url_join uri_error url_parse text_bytes port host filename p =
  Val (text_bytes (BodyJson (generic_error_to_value (from_error e))), Ok tt, p).
Proof. intros Hb Hp Hj Hf Ho. rewrite download_from_primary by done. by rewrite Ho. Qed.

End Service.

(** ** Concrete inputs *)

Definition demo_outside (uuid : string) : Outside :=
  {| os_uuid := uuid; os_metrics := Ok "m"%string; os_csv := λ _, []; os_open := true; os_insert := λ t, Some (next_rowid t);
     os_created := Ok tt; os_copied := λ _ _, Ok tt; os_count := λ _ _, Ok 0; os_file := λ _, Err "none"%string |}.

Definition demo_primary_view : ClusterView :=
  {| is_active := true; is_primary := true; primaries := Some [Some "http://p:3030"%string];
     secondaries := Some [Some "http://s:3030"%string]; secondaries_again := Some [Some "http://s:3030"%string] |}.

Definition demo_other_view : ClusterView :=
  {| is_active := true; is_primary := false; primaries := Some [Some "http://p:3030"%string];
     secondaries := Some []; secondaries_again := Some [] |}.

Definition demo_node : Node (Request unit unit unit unit) unit :=
  Build_Node [("job-1"%string, InProgress); ("job-2"%string, InProgress)] tt [].

(** A stop request comes in at a node that is not the primary, then a query at the primary. *)
Definition demo_calls : list (Entry (Node (Request unit unit unit unit) unit) * JobCall) :=
  [(mk_entry (Some (demo_other_view, Build_Node [] tt [])) (demo_outside "a") (demo_outside "b"), JStop "job-2");
   (mk_entry None (demo_outside "a") (demo_outside "b"), JStatus {[ "job_id"%string := "job-2"%string ]})].

(** Reading and printing a test by its name alone. *)
Definition demo_parse_request (s : string) : option (Request unit unit unit unit) := Some (set_name (file_request "f") s).
Definition demo_request_text (r : Request unit unit unit unit) : string := default ""%string (name r).

Definition demo_cluster_run :=
  cluster_run (F := demo_filter) (λ _, Some tt) (λ _, true) (λ _, @Ok string unit tt) (λ _, true) (λ _, true) (λ _, None)
    (λ _, ""%string) (λ _, ""%string) "/tmp" (λ _ _, None) (λ _, ""%string) (λ _, ""%string) (λ _, ""%string)
    demo_request_text (λ _, ""%string) demo_parse_request (λ _, None) "http://p:3030" demo_primary_view.

Lemma cluster_refines_standalone_witness :
  ∃ replies p', demo_cluster_run demo_calls demo_node = Val (replies, p') ∧
    nd_jobs p' = [("job-1"%string, InProgress); ("job-2"%string, Stopped)].
Proof.
  destruct (cluster_refines_standalone (F := demo_filter) (λ _, Some tt) (λ _, true) (λ _, @Ok string unit tt)
    (λ _, true) (λ _, true) (λ _, None) (λ _, ""%string) (λ _, ""%string) "/tmp" (λ _ _, None) (λ _, ""%string)
    (λ _, ""%string) (λ _, ""%string) demo_request_text (λ _, ""%string) demo_parse_request (λ _, None)
    "http://p:3030" demo_primary_view (conj eq_refl eq_refl) (λ _ _, eq_refl) (λ _ _ _ _, eq_refl)
    demo_calls demo_node) as (replies & p' & H1 & H2).
  - repeat constructor; simpl; try done. by exists [].
  - exists replies, p'. split; [exact H1|]. injection H2 as _ <-. reflexivity.
Defined.

(** Joining a URL and a path, for the URLs of these examples. *)
Definition demo_url_join (u p : string) : option string := Some (u +:+ p)%string.

Definition demo_with_file (reads : result string (list (result string (list Byte.byte)) * Z)) : Outside :=
  {| os_uuid := "b"; os_metrics := Ok "m"%string; os_csv := λ _, []; os_open := true; os_insert := λ t, Some (next_rowid t);
     os_created := Ok tt; os_copied := λ _ _, Ok tt; os_count := λ _ _, Ok 0; os_file := λ _, reads |}.

Lemma demo_join_file f :
  (u ← demo_url_join "http://p:3030" PATH_REQUEST_DATA_FILE_DOWNLOAD; demo_url_join u f) =
  Some ("http://p:3030" +:+ slashes ["cluster"; "data-file"; f]%string)%string.
Proof.
  change (Some (("http://p:3030" +:+ PATH_REQUEST_DATA_FILE_DOWNLOAD) +:+ f)%string =
    Some ("http://p:3030" +:+ slashes ["cluster"; "data-file"; f]%string)%string).
  rewrite <- (append_empty_r f) at 1. reflexivity.
Qed.

Definition demo_download_from (o : Outside) (host filename : string) :=
  download_file_from_url
    (to_primary (F := demo_filter) (λ _, Some tt) (λ _, true) (λ _, @Ok string unit tt) (λ _, true) (λ _, true) (λ _, None)
      (λ _, ""%string) (λ _, ""%string) "/tmp" demo_url_join (λ _, ""%string) (λ _, ""%string) (λ _, ""%string)
      demo_request_text (λ _, ""%string) demo_parse_request (λ _, None) "http://p:3030" demo_primary_view o)
    (λ _, true) demo_url_join (λ _, ""%string) (@Some string) (λ _, []) 3030 host filename demo_node.

Definition demo_download (o : Outside) (filename : string) := demo_download_from o "p" filename.

Definition demo_upload : Outside := demo_with_file (Ok ([Ok [Byte.x01]; Ok [Byte.x02]], 2)).

Lemma uploaded_file_reaches_secondary_witness :
  (∃ filename, demo_download demo_upload filename = Val ([Byte.x01; Byte.x02], Ok tt, demo_node)) ∧
  prepare (λ _, true) (λ h f, fetched (demo_download_from demo_upload h f)) (file_request "/tmp/3f2a.sqlite") "p" ∅ =
    Val (Ok tt, {[ "/tmp/3f2a.sqlite"%string ]}).
Proof.
  destruct (uploaded_file_reaches_secondary (F := demo_filter) (λ _, Some tt) (λ _, true) (λ _, @Ok string unit tt)
    (λ _, true) (λ _, true) (λ _, None) (λ _, ""%string) (λ _, ""%string) "/tmp" demo_url_join (λ _, ""%string)
    (λ _, ""%string) (λ _, ""%string) demo_request_text (λ _, ""%string) demo_parse_request (λ _, None)
    "http://p:3030" demo_primary_view (λ _ _, eq_refl) (λ _, None) (@Some string) (λ _, []) 3030 "p"
    demo_upload "3f2a" [[Byte.x01]; [Byte.x02]] demo_node) as [(filename & _ & H) Hp].
  - reflexivity.
  - reflexivity.
  - reflexivity.
  - split; [discriminate|reflexivity].
  - reflexivity.
  - reflexivity.
  - reflexivity.
  - intros f _ _ _. apply demo_join_file.
  - reflexivity.
  - repeat constructor; discriminate.
  - split; [exists filename; exact H|].
    refine (Hp (λ _, true) (file_request "/tmp/3f2a.sqlite") ∅ eq_refl eq_refl _). apply not_elem_of_empty.
Defined.

Lemma missing_file_downloaded_as_error_witness :
  demo_download (demo_with_file (Err "gone"%string)) "x.sqlite" = Val ([], Ok tt, demo_node).
Proof.
  apply (missing_file_downloaded_as_error (F := demo_filter) (λ _, Some tt) (λ _, true) (λ _, @Ok string unit tt)
    (λ _, true) (λ _, true) (λ _, None) (λ _, ""%string) (λ _, ""%string) "/tmp" demo_url_join (λ _, ""%string)
    (λ _, ""%string) (λ _, ""%string) demo_request_text (λ _, ""%string) demo_parse_request (λ _, None)
    "http://p:3030" demo_primary_view (λ _ _, eq_refl) (@Some string) (λ _, []) 3030 "p"
    (demo_with_file (Err "gone"%string)) "x.sqlite" "gone" demo_node); try reflexivity.
  split; [discriminate|reflexivity].
Defined.
