(* ===== verification/Forward.v ===== *)
(** * Passing a test on to the primary

    [forward_test_request] of [overload/src/overload/cluster/secondary.rs] with the JSON of
    [Codec]: a test that a client sends to any node is read there, gets its id, is written
    as JSON, and is read again by the primary.

    [json_parse] is the tree of a JSON text, as [serde_json] reads it ([Json.wf_doc]: members
    in the order of the text, with repeated keys), and [json_text] the text of such a tree;
    they are only asked to agree on the one that is passed on. *)
From Stdlib Require Import ZArith Lia Ascii.
From stdpp Require Import base list gmap strings numbers sets.
From S2P Require Import Prelude RateSpec Json Assert DataGen Template HttpTypes Jobs Secondary Upload Api.
From S2P Require Import Warp Routes Service.
From S2P Require Import Serde Codec Accepted.

Local Open Scope Z_scope.

Section Forward.
  Context {F : Type → Type} `{!Warp F, !WarpLaws F}.
  Context {Compiled Hir AST Conn Rng LuaFunction : Type} `{!RandomSource Hir Rng}.
  Context (parse_regex : string → option Hir) (request_file_exists : string → bool).
  Context (eval_function : string → result string LuaFunction).
  Context (valid_uri valid_method : string → bool).
  Context (parse_headers : string → option (gmap string string)) (show_headers : gmap string string → string).
  Context (parse_error : string → string) (data_directory : string).
  Context (url_join : string → string → option string) (json_text : Value → string).
  Context (serde_error : Reply → string) (uri_error : string → string).
  Context (compile_path : string → result string Compiled) (compile : string → result string AST).
  Context (env : string → option string) (json_parse : string → option Value).
  Context (multi_text : MultiRequest Compiled Hir AST Conn → string).
  Context (parse_multi : string → option (MultiRequest Compiled Hir AST Conn)).
  Context (base : string) (cp : ClusterView).

Local Abbreviation Req := (Request Compiled Hir AST Conn).
Local Abbreviation test_codec := (request_codec (Conn := Conn) compile_path parse_regex compile valid_method env).

(** [serde_json::to_string] of a test that can be written. *)
Definition test_text (uuid : nat → string) (r : Req) : string :=
  match ser (test_codec uuid) r with Val v => json_text v | Panic => ""%string end.

(** The body of a test as [warp::body::json] reads it: the derived code reads the text, that
    is its tree, so that a field that is given twice is an error. *)
Definition parse_test (uuid : nat → string) (body : string) : option Req :=
  v ← json_parse body;
  match de (test_codec uuid) v with Decoded r => Some r | _ => None end.

  (** The UUIDs that the node and the primary draw for requests without an id. *)
  Context (uuid_node uuid_primary : nat → string).

Definition json_step : Entry (Node Req Rng) → Call Req (MultiRequest Compiled Hir AST Conn) Z → Node Req Rng →
    outcome (Reply * Node Req Rng) :=
  cluster_step (F := F) parse_regex request_file_exists eval_function valid_uri valid_method parse_headers show_headers
    parse_error data_directory url_join json_text serde_error uri_error (test_text uuid_node) multi_text
    (parse_test uuid_primary) parse_multi base cp.

Definition json_primary : Outside → ClusterCall Req (MultiRequest Compiled Hir AST Conn) → Node Req Rng →
    outcome (Reply * Node Req Rng) :=
  serve_primary parse_regex request_file_exists eval_function valid_uri valid_method parse_headers show_headers
    parse_error data_directory url_join json_text serde_error uri_error (test_text uuid_node) multi_text cp.

  Context (Hcp : view_of_primary cp).
  Context (Huri : ∀ ss, Forall plain_segment ss → valid_uri (base +:+ slashes ss) = true).

(** A test that was read, under its new id, is read by the primary as the same test. *)
Lemma passed_on_same v r id :
  wf_doc v → de (test_codec uuid_node) v = Decoded r → request_printable r →
  (∀ v', ser (test_codec uuid_node) (set_name r id) = Val v' → json_parse (json_text v') = Some v') →
  parse_test uuid_primary (test_text uuid_node (set_name r id)) = Some (set_name r id).
Proof.
  intros Hv Hr HP Ht.
  destruct (request_back compile_path parse_regex compile valid_method env uuid_node v r (Some id) Hv Hr HP uuid_node)
    as (v' & He & Hd). change (rename (Some id) r) with (set_name r id) in *.
  unfold parse_test, test_text. rewrite He, (Ht _ He). cbn [mbind option_bind]. by rewrite Hd.
Qed.

(** A node other than the primary reads a test and passes it on. *)
Lemma json_test_passed_on e c q v (r : Req) p :
  en_node e = Some (c, q) → view_of_other base c → is_uuid (os_uuid (en_here e)) →
  wf_doc v → de (test_codec uuid_node) v = Decoded r → request_printable r →
  let id := job_id (os_uuid (en_here e)) (name r) in
  let r' := set_name r id in
  (∀ v', ser (test_codec uuid_node) r' = Val v' → json_parse (json_text v') = Some v') →
  Z.of_nat (String.length (test_text uuid_node r')) <= 2 * 1024 * 1024 →
  ∃ st p', json_step e (CTest r) p = Val (json_reply 200 (response_to_value (response_new id st)), p') ∧
    nd_jobs p' = nd_jobs p ∧
    nd_spawned p' = nd_spawned p ++ (if decide (st = Starting) then [r'] else []) ∧
    (∀ reply p2, json_primary (en_primary e) (KApp (CTest r')) p = Val (reply, p2) →
       p2 = p' ∧ reply = json_reply 200 (response_to_value (response_new id st))).
Proof.
  intros He Hc Hu Hv Hr HP id r' Ht Hlen. eapply test_passed_on; try done.
  by eapply passed_on_same.
Qed.

(** C23: A test keeps its contents and its id when it is passed on to the primary.  The JSON [v]
    that a client sends to another node is read as the test [r]; what the primary starts is
    [r] with the id the client is told, whatever UUIDs the primary would draw; it is started
    at most once, and exactly if the reply says so; and unless the primary's handler panics
    the reply is the primary's own.  The node is active and knows the primary, the test is
    printable ([request_printable]), and its text is at most 2 MiB. *)
Theorem forwarded_test_keeps_id e c q v (r : Req) p :
  en_node e = Some (c, q) → view_of_other base c → is_uuid (os_uuid (en_here e)) →
  wf_doc v → de (test_codec uuid_node) v = Decoded r → request_printable r →
  let id := job_id (os_uuid (en_here e)) (name r) in
  let r' := set_name r id in
  (∀ v', ser (test_codec uuid_node) r' = Val v' → json_parse (json_text v') = Some v') →
  Z.of_nat (String.length (test_text uuid_node r')) <= 2 * 1024 * 1024 →
  ∃ st p', json_step e (CTest r) p = Val (json_reply 200 (response_to_value (response_new id st)), p') ∧
    nd_jobs p' = nd_jobs p ∧
    nd_spawned p' = nd_spawned p ++ (if decide (st = Starting) then [r'] else []) ∧
    (∀ reply p2, json_primary (en_primary e) (KApp (CTest r')) p = Val (reply, p2) →
       p2 = p' ∧ reply = json_reply 200 (response_to_value (response_new id st))).
Proof. apply json_test_passed_on. Qed.

End Forward.

(** ** Concrete inputs *)

Definition demo_uuid : string := "7e19ae6b-59af-4916-8cc0-a04cc48a739b".

(** The JSON of the test of [Accepted] under its id, the one value whose text is needed. *)
Definition demo_written : Value :=
  match ser (request_codec (λ _, Ok tt) (λ _, Some tt) (λ _, Ok tt) (λ _, true) (λ _, None) (λ _, "u"%string))
          (set_name demo_accepted demo_uuid) with
  | Val v => v
  | Panic => Null
  end.

Definition demo_json_step := json_step (F := demo_filter) (Conn := unit) (λ _, Some tt) (λ _, true)
  (λ _, @Ok string unit tt) (λ _, true) (λ _, true) (λ _, None) (λ _, ""%string) (λ _, ""%string) "/tmp" (λ _ _, None)
  (λ _, "t"%string) (λ _, ""%string) (λ _, ""%string) (λ _, @Ok string unit tt) (λ _, @Ok string unit tt) (λ _, None)
  (λ _, Some demo_written) (λ _, ""%string) (λ _, None) "http://p:3030" demo_primary_view
  (λ _, "u"%string) (λ _, "x"%string).

Lemma forwarded_test_keeps_id_witness :
  let e := mk_entry (Some (demo_other_view, demo_node)) (demo_outside demo_uuid) (demo_outside "b") in
  ∃ st p', demo_json_step e (CTest demo_accepted) demo_node =
    Val (json_reply 200 (response_to_value (response_new demo_uuid st)), p') ∧
    nd_spawned p' = [set_name demo_accepted demo_uuid] ∧ st = Starting.
Proof.
  intros e.
  destruct (forwarded_test_keeps_id (F := demo_filter) (Conn := unit) (λ _, Some tt) (λ _, true)
    (λ _, @Ok string unit tt) (λ _, true) (λ _, true) (λ _, None) (λ _, ""%string) (λ _, ""%string) "/tmp" (λ _ _, None)
    (λ _, "t"%string) (λ _, ""%string) (λ _, ""%string) (λ _, @Ok string unit tt) (λ _, @Ok string unit tt) (λ _, None)
    (λ _, Some demo_written) (λ _, ""%string) (λ _, None) "http://p:3030" demo_primary_view
    (λ _, "u"%string) (λ _, "x"%string) (conj eq_refl eq_refl) (λ _ _, eq_refl)
    e demo_other_view demo_node demo_json demo_accepted demo_node) as (st & p' & H1 & _ & H2 & H3).
  - reflexivity.
  - split_and!; [reflexivity|reflexivity|by exists []].
  - vm_compute. reflexivity.
  - exact demo_json_wf.
  - vm_compute. reflexivity.
  - split_and!; try exact I. repeat constructor.
  - intros v' Hv'. f_equal. unfold demo_written. change demo_uuid with (job_id (os_uuid (en_here e)) (name demo_accepted)).
    by rewrite Hv'.
  - vm_compute. discriminate.
  - exists st, p'. split; [exact H1|].
    destruct (H3 _ _ eq_refl) as [_ H4].
    assert (st = Starting) as -> by (destruct st as [| | | | |[]]; first [reflexivity | discriminate H4]).
    split; [exact H2|reflexivity].
Defined.
