(* ===== verification/EndToEnd.v ===== *)
(** * From a request to the load it makes

    The whole program in one statement: a test comes in at the HTTP interface of a process,
    is read from its JSON ([Codec]), checked and started ([Jobs]), its generator gives the
    rates of its seconds ([RateSpec]), the executor sends them to the secondary
    ([Primary]), and the secondary sends the requests ([Secondary], [Health]). *)
From Stdlib Require Import ZArith Lia Ascii.
From stdpp Require Import base list gmap strings numbers sets relations.
From S2P Require Import Prelude RateSpec Split Json Assert DataGen Template HttpTypes.
From S2P Require Import Pool UrlParams Providers Jobs Primary Cycle Metrics Secondary Job Health.
From S2P Require Import Upload Api Warp Routes Service.
From S2P Require Import Serde Codec Accepted Forward.

Local Open Scope Z_scope.

(** ** The rates of a test *)

(** The loop [while let Some(..) = stream.next().await]: the items a generator gives until it
    ends. *)
Inductive drains : RequestGenerator → list (Z * Z) → Prop :=
| drains_end g : fst (poll_next g) = None → drains g []
| drains_item g x g' l : poll_next g = (Some x, g') → drains g' l → drains g (x :: l).

Lemma drains_poll_n g l n : drains g l → (length l <= n)%nat → fst (poll_n n g) = l.
Proof.
  intros Hd. revert n. induction Hd as [g Hn|g x g' l Hx Hd IH]; intros n Hl.
  - destruct n as [|n]; [done|]. simpl. by destruct (poll_next g) as [[]].
  - destruct n as [|n]; simpl in Hl; [lia|]. simpl. rewrite Hx. specialize (IH n ltac:(lia)).
    by destruct (poll_n n g') as [items g2]; simpl in *; subst.
Qed.

Lemma poll_n_drains g n : fst (poll_next (snd (poll_n n g))) = None → drains g (fst (poll_n n g)).
Proof.
  revert g. induction n as [|n IH]; intros g; simpl; [by apply drains_end|].
  destruct (poll_next g) as [[x|] g'] eqn:E.
  - specialize (IH g'). destruct (poll_n n g') as [items g2]. simpl in *. intros H. by eapply drains_item, IH.
  - intros _. apply drains_end. by rewrite E.
Qed.

(** The generator of a test: one item for each second of its duration. *)
Lemma request_rates {Compiled Hir AST Conn Rng} `{!RequestProvider Rng (RequestSpecEnum Hir AST Conn)}
    (r : Request Compiled Hir AST Conn) l :
  0 <= duration r <= u32_MAX → drains (request_into_generator r) l →
  map fst l = rates_from (box_qps (qps r)) 0 (Z.to_nat (duration r)).
Proof.
  intros Hd Hl. set (n := Nat.max (length l) (Z.to_nat (duration r))).
  rewrite <- (drains_poll_n _ l n Hl) by lia. unfold request_into_generator.
  match goal with |- context [poll_n _ ?g] => set (g0 := g) end.
  assert (E : rg_total g0 = duration r) by (unfold g0; simpl; rewrite Z.mul_1_r; apply wrap_id; lia).
  destruct (poll_n_zip n g0) as [-> _]; [rewrite E; change (rg_current_count g0) with 0; lia|lia|].
  rewrite E. change (rg_current_count g0) with 0. rewrite Z.sub_0_r. replace (Nat.min n (Z.to_nat (duration r)))
    with (Z.to_nat (duration r)) by lia.
  change (map fst) with (fmap (M := list) (@fst Z Z)). by rewrite fst_zip by (rewrite !rates_from_length; lia).
Qed.

(** ** A job on a single process *)

Section Standalone.
  Context {Compiled Hir AST Conn Rng Reg : Type} `{!PromRegistry Reg}.
  Context `{!RequestProvider Rng (RequestSpecEnum Hir AST Conn)}.
  Context (fuel : nat) (env : string → option string).
  Context (create_ok : string → bool) (fetch_ok : string → string → bool) (repoll : outcome unit).
  Context (I : RequestSpecEnum Hir AST Conn → Prop) `{!ProviderServes (Rng := Rng) fuel I} (d : Z) (Hd : 0 <= d).

Local Abbreviation Req := (Request Compiled Hir AST Conn).
Local Abbreviation Msg := (MessageFromPrimary Compiled Hir AST Conn).
Local Abbreviation Log := (list (event Compiled Hir AST Conn)).
Local Abbreviation Results := (list (CycleResult Rng (RequestSpecEnum Hir AST Conn))).

  Context (send_ok : Log → string → Msg → bool) (connect_ok : Log → string → Z → bool).
  Context (iter : Log → gset string → list string).
  Context (get_one : list (event Compiled Hir AST Conn) → SplitRequestFile Conn → result string (list HttpReq) * SplitRequestFile Conn).

(** The rates that the secondary of the process was sent. *)
Definition local_rates (net : Log) : list Z := msg_rates (omap (event_to "localhost") net).

Lemma local_rates_app net net' : local_rates (net ++ net') = local_rates net ++ local_rates net'.
Proof. unfold local_rates, msg_rates. by rewrite !omap_app. Qed.

Definition tick_msg (t : Tick) : Msg :=
  MRates {| rm_qps := fst (t_rates t); rm_connections := snd (t_rates t) |}.

(** A network that delivers everything. *)
Record network_ok : Prop := {
  nw_send : ∀ net id m, send_ok net id m = true;
  nw_connect : ∀ net h p, connect_ok net h p = true;
  nw_iter : ∀ net s, iter net s ≡ₚ elements s
}.

Section Delivered.
  Context (Hnw : network_ok).

Lemma standalone_loop_log ticks counter net :
  Forall (λ t, t_stopped t = false) ticks →
  standalone_loop send_ok ticks counter net = net ++ ((λ t, Delivered "localhost" (tick_msg t)) <$> ticks).
Proof.
  intros Hst. revert counter net. induction Hst as [|t ticks Hs Hst IH]; intros counter net; simpl.
  { by rewrite app_nil_r. }
  rewrite Hs, andb_false_r. unfold send. rewrite (nw_send Hnw), IH, <- app_assoc. done.
Qed.

Lemma tick_rates ticks :
  local_rates ((λ t, Delivered "localhost" (tick_msg t)) <$> ticks) = map (λ t, fst (t_rates t)) ticks.
Proof. unfold local_rates. induction ticks as [|t ticks IH]; [done|]. simpl in *. f_equal. exact IH. Qed.

Lemma silent_rates (s : gset string) l net :
  local_rates net = [] → Forall (λ im, no_rate im.2) l → local_rates (snd (send_each send_ok l net)) = [].
Proof.
  intros Hn Hl. rewrite send_each_all by apply Hnw. simpl. rewrite local_rates_app, Hn. simpl. clear Hn.
  induction Hl as [|[id m] l Hm Hl IH]; [done|]. unfold local_rates in *. simpl in *. case_decide; [|exact IH].
  simpl. by destruct m.
Qed.

(** The executor sends the rates of the seconds, and nothing else that counts. *)
Lemma standalone_rates port r ticks statuses net :
  Forall (λ t, t_stopped t = false) ticks →
  standalone_handle_request send_ok connect_ok iter get_one port r ticks [] = Val (statuses, net) →
  local_rates net = map (λ t, fst (t_rates t)) ticks.
Proof.
  intros Hst. unfold standalone_handle_request. destruct (name r) as [nm|]; simpl; [|done]. rewrite (nw_connect Hnw).
  set (n1 := send_metadata_with_primary _ _ _ _ _ _).
  assert (H1 : local_rates n1 = []).
  { refine (metadata_inv send_ok iter (λ _ net, local_rates net = []) silent_rates (Some "127.0.0.1"%string) ∅
      {[ "localhost"%string ]} ["localhost"%string] [Connected "localhost"] n1 _ _); done. }
  destruct (send_request_to_secondary _ _ _ _ _ _ _) as [[res n2]|] eqn:Er; simpl; [|done]. intros [= _ <-].
  apply (request_inv send_ok iter get_one (λ _ net, local_rates net = []) silent_rates ∅) in Er; [|done].
  rewrite standalone_loop_log by done. unfold send_end_msg, send. rewrite (nw_send Hnw). cbn [snd].
  rewrite !local_rates_app, Er, tick_rates. simpl. by rewrite app_nil_r.
Qed.

Local Abbreviation Run := (SessionRun (Compiled := Compiled) (Hir := Hir) (AST := AST) (Conn := Conn) (Rng := Rng) (Reg := Reg)).

(** The session of the process, when all its seconds are healthy. *)
Lemma standalone_seconds port r ticks statuses net (x : Run) :
  file_readable get_one r → Forall (λ t, t_stopped t = false) ticks →
  standalone_handle_request send_ok connect_ok iter get_one port r ticks [] = Val (statuses, net) →
  Forall2 (session_healthy fuel env create_ok fetch_ok repoll I d) (sessions_of "localhost" net) [x] →
  session_returns fuel env create_ok fetch_ok repoll x ∧
  sent_each (session_results fuel env create_ok fetch_ok repoll x) = map (λ t, fst (t_rates t)) ticks.
Proof.
  intros Hf Hst Hj Hx. pose proof (standalone_rates _ _ _ _ _ Hst Hj) as Hr.
  assert (HU : Z.of_nat (size ({["localhost"%string]} : gset string)) <= u32_MAX) by (by rewrite size_singleton).
  pose proof (standalone_complete send_ok connect_ok iter get_one ""%string (nw_send Hnw) (nw_iter Hnw) (nw_connect Hnw)
    {["localhost"%string]} HU port r ticks statuses net (proj2 (elem_of_singleton _ _) eq_refl) Hf Hst Hj)
    as [Hnd Hin Hph Hdone _].
  destruct (decide ("localhost"%string ∈ connects net)) as [Hc|Hc].
  2: { destruct (not_connected _ net Hc (Hph _)) as [Es _]. rewrite Es in Hx. by apply Forall2_nil_inv_l in Hx. }
  destruct (connected_once _ net PDone Hnd Hc (Hdone _ Hc)) as [Es Eo]. rewrite Es in Hx.
  apply Forall2_cons_1 in Hx as [Hx _]. rewrite <- Hr. unfold local_rates. rewrite Eo.
  by apply (session_sends _ _ _ _ _ I d); [..|apply phase_of_msgs, Hdone|].
Qed.

End Delivered.

(** A run of the job [r] on one process that nothing disturbs: the network delivers, nobody
    stops the job, its seconds get the rates of its generator until that ends, and every
    second of its session is healthy.  [results] are the cycles of the session. *)
Inductive runs_in_health (r : Req) : Results → Prop :=
| runs_in_health_intro port ticks statuses net (x : SessionRun (Reg := Reg)) :
    network_ok → file_readable get_one r → drains (request_into_generator r) (map t_rates ticks) →
    Forall (λ t, t_stopped t = false) ticks →
    standalone_handle_request send_ok connect_ok iter get_one port r ticks [] = Val (statuses, net) →
    Forall2 (session_healthy fuel env create_ok fetch_ok repoll I d) (sessions_of "localhost" net) [x] →
    runs_in_health r (session_results fuel env create_ok fetch_ok repoll x).

(** Second by second, the job sends what its rates say. *)
Lemma healthy_seconds r results :
  0 <= duration r <= u32_MAX → runs_in_health r results →
  sent_each results = rates_from (box_qps (qps r)) 0 (Z.to_nat (duration r)).
Proof.
  intros Hdur [port ticks statuses net x Hnw Hf Hg Hst Hj Hx].
  destruct (standalone_seconds Hnw _ _ _ _ _ _ Hf Hst Hj Hx) as [_ ->].
  rewrite <- (request_rates r _ Hdur Hg). by rewrite map_map.
Qed.

End Standalone.

(** ** From the request *)

Section Service.
  Context {F : Type → Type} `{!Warp F, !WarpLaws F}.
  Context {Compiled Hir AST Conn Rng LuaFunction : Type} `{!RandomSource Hir Rng}.
  Context (parse_regex : string → option Hir) (request_file_exists : string → bool).
  Context (eval_function : string → result string LuaFunction).
  Context (valid_uri valid_method : string → bool).
  Context (parse_headers : string → option (gmap string string)) (show_headers : gmap string string → string).
  Context (parse_error : string → string) (data_directory : string).
  Context (compile_path : string → result string Compiled) (compile : string → result string AST).
  Context (env : string → option string) (json_parse : string → option Value).
  (** The UUIDs drawn for requests without an id. *)
  Context (uuid : nat → string) (uuid_multi : nat → nat → string).

Local Abbreviation Req := (Request Compiled Hir AST Conn).
Local Abbreviation Multi := (MultiRequest Compiled Hir AST Conn).
Local Abbreviation Nd := (Node Req Rng).

Definition read_test : string → option Req :=
  parse_test parse_regex valid_method compile_path compile env json_parse uuid.

Definition read_tests (body : string) : option Multi :=
  v ← json_parse body;
  match de (multi_request_codec compile_path parse_regex compile valid_method env uuid_multi) v with
  | Decoded m => Some m
  | _ => None
  end.

(** The server of a standalone process, [warp::serve(get_routes())]: a request that no route
    takes gets warp's own reply. *)
Definition standalone_service (o : Outside) (h : HttpRequest) (n : Nd) : outcome (Reply * Nd) :=
  match route (F := F) (get_routes read_test read_tests) h with
  | None => Val (reject_reply h, n)
  | Some call => serve_standalone parse_regex request_file_exists eval_function valid_uri valid_method parse_headers
                   show_headers parse_error o call n
  end.

Lemma standalone_route_iff h c :
  route (F := F) (get_routes read_test read_tests) h = Some c ↔
  api read_test read_tests (λ _, Some tt) h (uri_segments (rq_uri h)) c.
Proof.
  unfold route. split.
  - intros ([c' s] & H & ->)%fmap_Some. by eapply get_routes_sound.
  - intros H. destruct (get_routes_complete (F := F) _ _ _ _ _ H) as [[c' s] Hr]. rewrite Hr. simpl.
    f_equal. apply get_routes_sound in Hr. by eapply api_det.
Qed.

Lemma standalone_serves o h (n : Nd) c :
  api read_test read_tests (λ _, Some tt) h (uri_segments (rq_uri h)) c →
  standalone_service o h n =
  serve_standalone parse_regex request_file_exists eval_function valid_uri valid_method parse_headers show_headers
    parse_error o c n.
Proof. intros H%standalone_route_iff. unfold standalone_service. by rewrite H. Qed.

Lemma read_test_ok body r : read_test body = Some r → 0 <= duration r <= u32_MAX.
Proof.
  unfold read_test, parse_test. destruct (json_parse body) as [v|]; cbn [mbind option_bind]; [|done].
  match goal with |- context [de ?c v] => destruct (de c v) as [r0| |] eqn:E end; intros [= ->]. apply accepted_ok in E. apply E.
Qed.

(** A test that passes its checks is started under its id. *)
Lemma execute_starts o (r : Req) (n : Nd) g :
  let r' := set_name r (job_id (os_uuid o) (name r)) in
  pre_check parse_regex request_file_exists eval_function r' (nd_rng n) = Val (Ok tt, g) →
  execute parse_regex request_file_exists eval_function o r n =
  Val (json_reply 200 (response_to_value (response_new (job_id (os_uuid o) (name r)) Starting)), started [r'] g n).
Proof. simpl. intros H. unfold execute, handle_request. by rewrite H. Qed.

  Context {SRng Reg : Type} `{!PromRegistry Reg} `{!RequestProvider SRng (RequestSpecEnum Hir AST Conn)}.
  Context (fuel : nat) (create_ok : string → bool) (fetch_ok : string → string → bool) (repoll : outcome unit).
  Context (I : RequestSpecEnum Hir AST Conn → Prop) `{!ProviderServes (Rng := SRng) fuel I} (d : Z) (Hd : 0 <= d).
  Context (send_ok : list (event Compiled Hir AST Conn) → string → MessageFromPrimary Compiled Hir AST Conn → bool).
  Context (connect_ok : list (event Compiled Hir AST Conn) → string → Z → bool).
  Context (iter : list (event Compiled Hir AST Conn) → gset string → list string).
  Context (get_one : list (event Compiled Hir AST Conn) → SplitRequestFile Conn → result string (list HttpReq) * SplitRequestFile Conn).

Local Abbreviation in_health :=
  (runs_in_health (Reg := Reg) fuel env create_ok fetch_ok repoll I d send_ok connect_ok iter get_one).

(** C5: A test from its HTTP request to its load, on a single process.  A request that posts the
    JSON of a test, of at most 2 MiB, and passes the checks is answered with the id of its
    job, which is started under that id and nothing else changes in the node but the random
    numbers; and when nothing disturbs the job ([runs_in_health]: no send fails, a split file
    is readable, the job is not stopped, every second is healthy in the mode of the job), its
    session has one cycle for each second of the duration, and each of them sends exactly the
    requests that the rate of the test gives for its second. *)
Theorem standalone_test_end_to_end o h (n : Nd) (r : Req) g :
  rq_method h = "POST"%string → uri_segments (rq_uri h) = ["test"%string] → limited h (2 * 1024 * 1024) →
  json_body h = true → read_test (rq_body h) = Some r →
  let id := job_id (os_uuid o) (name r) in
  let r' := set_name r id in
  pre_check parse_regex request_file_exists eval_function r' (nd_rng n) = Val (Ok tt, g) →
  standalone_service o h n = Val (json_reply 200 (response_to_value (response_new id Starting)),
    Build_Node (nd_jobs n) g (nd_spawned n ++ [r'])) ∧
  ∀ results, in_health r' results →
    sent_each results = rates_from (box_qps (qps r)) 0 (Z.to_nat (duration r)).
Proof.
  intros Hm Hs Hl Hj Hr id r' Hc. split.
  - rewrite (standalone_serves o h n (CTest r)); [exact (execute_starts o r n g Hc)|].
    rewrite Hs. by apply api_test.
  - intros results. apply (healthy_seconds fuel env create_ok fetch_ok repoll I d Hd send_ok connect_ok iter get_one r').
    exact (read_test_ok _ _ Hr).
Qed.

End Service.

(** ** On a cluster *)

Section Cluster.
  Context {F : Type → Type} `{!Warp F, !WarpLaws F}.
  Context {Compiled Hir AST Conn Rng LuaFunction : Type} `{!RandomSource Hir Rng}.
  Context (parse_regex : string → option Hir) (request_file_exists : string → bool).
  Context (eval_function : string → result string LuaFunction).
  Context (valid_uri valid_method : string → bool).
  Context (parse_headers : string → option (gmap string string)) (show_headers : gmap string string → string).
  Context (parse_error : string → string) (data_directory : string).
  Context (url_join : string → string → option string) (json_text : Value → string).
  Context (serde_error : Reply → string) (uri_error : string → string).
  Context (compile_path : string → result string Compiled) (compile : string → result string AST).
  Context (env : string → option string) (json_parse : string → option Value).
  Context (multi_text : MultiRequest Compiled Hir AST Conn → string).
  Context (parse_multi : string → option (MultiRequest Compiled Hir AST Conn)).
  Context (base : string) (cp : ClusterView) (uuid_node uuid_primary : nat → string).

Local Abbreviation Req := (Request Compiled Hir AST Conn).
Local Abbreviation Log := (list (event Compiled Hir AST Conn)).
Local Abbreviation test_codec := (request_codec (Conn := Conn) compile_path parse_regex compile valid_method env).
Local Abbreviation node_step :=
  (json_step (F := F) (Conn := Conn) parse_regex request_file_exists eval_function valid_uri valid_method parse_headers
    show_headers parse_error data_directory url_join json_text serde_error uri_error compile_path compile env json_parse
    multi_text parse_multi base cp uuid_node uuid_primary).

  Context (Hcp : view_of_primary cp).
  Context (Huri : ∀ ss, Forall plain_segment ss → valid_uri (base +:+ slashes ss) = true).

(** The primary knows of secondaries, also when it asks again. *)
Definition has_secondaries : Prop := is_Some (secondaries cp) ∧ ∃ x l, secondaries_again cp = Some (x :: l).

Lemma primary_starts o id (r : Req) (p : Node Req Rng) g :
  has_secondaries → uuid_is_match id = true →
  pre_check parse_regex request_file_exists eval_function (set_name r id) (nd_rng p) = Val (Ok tt, g) →
  json_primary parse_regex request_file_exists eval_function valid_uri valid_method parse_headers show_headers parse_error
    data_directory url_join json_text serde_error uri_error compile_path compile env multi_text cp uuid_node o
    (KApp (CTest (set_name r id))) p =
  Val (json_reply 200 (response_to_value (response_new id Starting)), started [set_name r id] g p).
Proof.
  intros ([l Hs] & x & l' & Ha) Hid Hc. destruct Hcp as [H1 H2]. unfold json_primary, serve_primary, serve_node. simpl.
  unfold execute_cluster, handle_request_cluster. rewrite H1, H2, Hs, Ha. cbn [set_name name negb].
  rewrite job_id_match, set_name_idem by done. cbn [unwrap mbind outcome_bind]. by rewrite Hc.
Qed.

  Context {SRng Reg : Type} `{!PromRegistry Reg} `{!RequestProvider SRng (RequestSpecEnum Hir AST Conn)}.
  Context (fuel : nat) (create_ok : string → bool) (fetch_ok : string → string → bool) (repoll : outcome unit).
  Context (I : RequestSpecEnum Hir AST Conn → Prop) `{!ProviderServes (Rng := SRng) fuel I} (d : Z) (Hd : 0 <= d).
  Context (send_ok : Log → string → MessageFromPrimary Compiled Hir AST Conn → bool) (connect_ok : Log → string → Z → bool).
  Context (iter : Log → gset string → list string).
  Context (get_one : list (event Compiled Hir AST Conn) → SplitRequestFile Conn → result string (list HttpReq) * SplitRequestFile Conn).
  Context (port_name : string) (U : gset string).

Local Abbreviation Run := (SessionRun (Compiled := Compiled) (Hir := Hir) (AST := AST) (Conn := Conn) (Rng := SRng) (Reg := Reg)).

(** A run of the job [r] on the secondaries of [U] that nothing disturbs, with all their
    sessions. *)
Record cluster_in_health (r : Req) (runs : string → list Run) : Prop := {
  ch_network : network_ok send_ok connect_ok iter;
  ch_size : Z.of_nat (size U) <= u32_MAX;
  ch_file : file_readable get_one r;
  ch_job : ∃ ticks net, drains (request_into_generator r) (map t_rates ticks) ∧
    Forall (tick_ok U) ticks ∧ Forall (λ t, t_stopped t = false) ticks ∧
    job_in_full send_ok connect_ok iter get_one port_name U r ticks net ∧
    ∀ id, id ∈ U → Forall2 (session_healthy fuel env create_ok fetch_ok repoll I d) (sessions_of id net) (runs id)
}.

Lemma cluster_sends_all r runs :
  0 <= duration r <= u32_MAX → cluster_in_health r runs →
  sumZ (map (λ id, sumZ (map (run_sent fuel env create_ok fetch_ok repoll) (runs id))) (elements U)) =
  sumZ (rates_from (box_qps (qps r)) 0 (Z.to_nat (duration r))).
Proof.
  intros Hdur [[Hs Hc Hi] HU Hf (ticks & net & Hg & Ht & Hst & Hj & Hruns)].
  rewrite <- (request_rates r _ Hdur Hg), map_map.
  apply (complete_sends_all fuel env create_ok fetch_ok repoll I d Hd U _ net runs); [|done].
  by eapply (job_complete send_ok connect_ok iter get_one port_name).
Qed.

(** C6: A test from any node of a cluster to its load.  The JSON of a test that a client sends to
    an active node that is not the primary is passed on to the primary it knows; if the test
    is printable and its text at most 2 MiB, the primary has secondaries and the test passes
    its checks there, the client is told the id under which the primary starts it; and when
    nothing disturbs the job ([cluster_in_health], in the mode of the job), all secondaries
    together send exactly the sum of the rates of its seconds, however the rates are divided
    among them. *)
Theorem cluster_test_end_to_end e c q v (r : Req) p g :
  en_node e = Some (c, q) → view_of_other base c → is_uuid (os_uuid (en_here e)) →
  wf_doc v → de (test_codec uuid_node) v = Decoded r → request_printable r →
  let id := job_id (os_uuid (en_here e)) (name r) in
  let r' := set_name r id in
  let text := test_text parse_regex valid_method json_text compile_path compile env uuid_node r' in
  (∀ v', ser (test_codec uuid_node) r' = Val v' → json_parse (json_text v') = Some v') →
  Z.of_nat (String.length text) <= 2 * 1024 * 1024 → has_secondaries →
  pre_check parse_regex request_file_exists eval_function r' (nd_rng p) = Val (Ok tt, g) →
  (∃ p', node_step e (CTest r) p = Val (json_reply 200 (response_to_value (response_new id Starting)), p') ∧
    nd_jobs p' = nd_jobs p ∧ nd_spawned p' = nd_spawned p ++ [r']) ∧
  ∀ runs, cluster_in_health r' runs →
    sumZ (map (λ id, sumZ (map (run_sent fuel env create_ok fetch_ok repoll) (runs id))) (elements U)) =
    sumZ (rates_from (box_qps (qps r)) 0 (Z.to_nat (duration r))).
Proof.
  intros He Hc Hu Hv Hr HP id r' text Ht Hlen Hs Hck. split.
  - destruct (json_test_passed_on (F := F) parse_regex request_file_exists eval_function valid_uri valid_method parse_headers
      show_headers parse_error data_directory url_join json_text serde_error uri_error compile_path compile env json_parse
      multi_text parse_multi base cp uuid_node uuid_primary Hcp Huri e c q v r p)
      as (st & p' & Hstep & Hjobs & Hsp & Hfrom); [done..|].
    exists p'. pose proof (primary_starts (en_primary e) id r p g Hs) as Hp.
    destruct (Hfrom _ _ (Hp (job_id_is_match _ _ Hu) Hck)) as [<- E]. rewrite E. done.
  - intros runs. apply (cluster_sends_all r' runs). apply accepted_ok in Hr. apply Hr.
Qed.

End Cluster.

(** ** Concrete inputs *)

(** *** A pool whose other tasks keep up *)

(** The connection that was handed out first comes back. *)
Definition give_back (s : PoolSys) : PoolSys :=
  match ps_in_flight s with
  | [] => s
  | c :: l2 =>
      let '(p, m) := return_connection 0 c (ps_pool s) (ps_metrics s) in
      {| ps_pool := p; ps_metrics := m; ps_get := ps_get s; ps_in_flight := [] ++ l2;
         ps_tasks := ps_tasks s; ps_issued := ps_issued s; ps_handed := ps_handed s |}
  end.

(** New handles for all attempts of a task, which all succeed. *)
Definition new_handles (t : PoolTask) (issued : list Z) : list Z :=
  (λ i, foldr Z.max 0 issued + 1 + Z.of_nat i) <$> seq 0 (Z.to_nat (attempts t)).

(** The oldest task makes a step. *)
Definition oldest_task (s : PoolSys) : PoolSys :=
  match ps_tasks s with
  | [] => s
  | t :: l2 =>
      let hs := Some <$> new_handles t (ps_issued s) in
      let '(p, m, ts) := run_pool_task t (open_connection (keep_alive (ps_pool s)) 0 <$> hs) (ps_pool s) (ps_metrics s) in
      if (len hs <=? attempts t) && (len (ps_issued s ++ omap id hs) <=? i64_MAX) then
        {| ps_pool := p; ps_metrics := m; ps_get := ps_get s; ps_in_flight := ps_in_flight s;
           ps_tasks := [] ++ ts ++ l2; ps_issued := ps_issued s ++ omap id hs; ps_handed := ps_handed s |}
      else s
  end.

Definition settle (s : PoolSys) : PoolSys := Nat.iter 4 oldest_task (Nat.iter 3 give_back s).

Lemma give_back_steps s : task_steps s (give_back s).
Proof.
  unfold give_back. destruct (ps_in_flight s) as [|c l2] eqn:E; [apply rtc_refl|].
  destruct (return_connection _ _ _ _) as [p m] eqn:Er. apply rtc_once. by eapply task_return.
Qed.

Lemma new_handles_fresh t issued h : h ∈ new_handles t issued → h ∉ issued.
Proof.
  unfold new_handles. intros (i & -> & _)%list_elem_of_fmap Hin.
  assert (Hmax : ∀ x, x ∈ issued → x <= foldr Z.max 0 issued).
  { clear. induction issued as [|y l IH]; intros x Hx; [by apply elem_of_nil in Hx|].
    apply elem_of_cons in Hx as [->|Hx]; simpl; [lia|]. specialize (IH x Hx). lia. }
  specialize (Hmax _ Hin). lia.
Qed.

Lemma omap_some {A} (l : list A) : omap id (Some <$> l) = l.
Proof. induction l as [|x l IH]; [done|]. simpl. f_equal. exact IH. Qed.

Lemma oldest_task_steps s : task_steps s (oldest_task s).
Proof.
  unfold oldest_task. destruct (ps_tasks s) as [|t l2] eqn:Et; [apply rtc_refl|]. simpl.
  destruct (run_pool_task _ _ _ _) as [[p m] ts] eqn:Er.
  destruct (_ <=? attempts t) eqn:Ea; simpl; [|apply rtc_refl].
  destruct (_ <=? i64_MAX) eqn:El; simpl; [|apply rtc_refl]. apply Z.leb_le in Ea, El.
  apply rtc_once. refine (task_run s t [] l2 0 (Some <$> new_handles t (ps_issued s)) p m ts Et Ea _ _ El Er);
    rewrite omap_some; [|apply new_handles_fresh].
  apply NoDup_fmap_2_strong, NoDup_seq. intros i j _ _ H. lia.
Qed.

Lemma iter_steps (f : PoolSys → PoolSys) n s : (∀ s, task_steps s (f s)) → task_steps s (Nat.iter n f s).
Proof. intros Hf. induction n as [|n IH]; [apply rtc_refl|]. simpl. by etrans. Qed.

Definition settled_turn : Turn :=
  {| tn_env := settle; tn_between1 s := s; tn_between2 s := s; tn_complete := all_ready;
     tn_get := 0; tn_send := 0; tn_over := 0 |}.

Lemma settled_turn_calm : calm 0 settled_turn.
Proof.
  split; [|done|done|apply all_ready_complete|done]. intros s. simpl. unfold settle. etrans.
  - apply (iter_steps give_back 3), give_back_steps.
  - apply (iter_steps oldest_task 4), oldest_task_steps.
Qed.

(** A second that begins on time and has three such iterations. *)
Definition settled_turns : list Turn := [settled_turn; settled_turn; settled_turn].
Definition settled_second (now : Z) : RateEnv := {| re_now := now; re_setup := 0; re_turns := settled_turns |}.

(** The messages of a session as they come in, a second after each other. *)
Fixpoint one_by_one {M} (now : Z) (msgs : list M) : list (recv M) :=
  match msgs with [] => [] | m :: msgs => RMsg m (settled_second now) :: one_by_one (now + 1000000000) msgs end.

(** *** Checking a session by running it *)

Local Abbreviation DemoReq := (Request unit unit unit (list HttpReq)).
Local Abbreviation DemoMsg := (MessageFromPrimary unit unit unit (list HttpReq)).
Local Abbreviation DemoCtx := (ExecutionContext unit (RequestSpecEnum unit unit (list HttpReq))).
Local Abbreviation demo_healthy :=
  (session_healthy (PromRegistry0 := open_registry) (RequestProvider0 := demo_provider) 5 (λ _, None) (λ _, true) (λ _ _, true)
    Panic demo_serving 0).

Lemma one_by_one_msgs now (msgs : list DemoMsg) : inbox_msgs (one_by_one now msgs) = msgs.
Proof. revert now. induction msgs as [|m l IH]; intros now; [done|]. simpl. f_equal. apply IH. Qed.

Definition settled_run (msgs : list DemoMsg) : SessionRun (Compiled := unit) (Rng := unit) (Reg := unit) :=
  {| sr_inbox := one_by_one 0 msgs; sr_meanwhile s := s; sr_others s := s;
     sr_uuid := ""; sr_now := 0; sr_rng := tt; sr_before := fresh_secondary |}.

(** Whether the pool supplies the rate in the iterations of the second. *)
Definition supplied (rate : RateMessage) (now : Z) (ctx : DemoCtx) : bool :=
  rm_qps rate <=? second_supply (RequestProvider0 := demo_provider) 5 (rm_qps rate) now (now + 0) settled_turns
    (apply_connections (prev_connection_count ctx) (rm_connections rate) (now + 0) (ctx_sys ctx)) (request_spec ctx) (ctx_rng ctx).

(** The same for a number of seconds, from one to the next. *)
Fixpoint seconds_ok (rates : list RateMessage) (now : Z) (ctx : DemoCtx) : bool :=
  match rates with
  | [] => true
  | rate :: rates' =>
      (0 <=? rm_qps rate) && (rm_qps rate <=? 5) && (0 <=? rm_connections rate) && (rm_connections rate <=? u32_MAX) &&
      supplied rate now ctx &&
      match rate_handler (RequestProvider0 := demo_provider) 5 (λ _, None) Immediate rate (settled_second now) ctx with
      | Some (Val (ctx', _)) => seconds_ok rates' (now + 1000000000) ctx'
      | _ => false
      end
  end.

Definition session_ok (md : Metadata) (r : DemoReq) (rates : list RateMessage) : bool :=
  match session_begin (PromRegistry0 := open_registry) (λ _, true) (λ _ _, true) Panic (λ s, s) "" 0 tt md r fresh_secondary with
  | Val (Ok se, _) => seconds_ok rates 2000000000 (ss_ctx (se_state se))
  | _ => false
  end.

Lemma settled_rate rate now ctx :
  Cycle.rate_ok rate → rm_qps rate <= 5 → supplied rate now ctx = true →
  rate_healthy (RequestProvider0 := demo_provider) 5 (λ _, None) 0 Immediate rate (settled_second now) ctx.
Proof.
  intros Hr Hf Hs. split; [done|done|..].
  - repeat constructor; apply (calm_turn_ok _ _ settled_turn_calm).
  - simpl. lia.
  - right. exists 3%nat. split.
    + repeat constructor; apply settled_turn_calm.
    + simpl. lia.
    + unfold time_remaining, elapsed_ms. cbn [re_now re_setup settled_second Z.of_N]. rewrite Z.add_0_r, Z.sub_diag.
      vm_compute. discriminate.
    + cbn [re_now re_setup settled_second Z.of_N re_turns take]. change (len _) with 3. lia.
    + by apply Z.leb_le.
Qed.

Lemma seconds_ok_healthy uri rates now st :
  seconds_ok rates now (ss_ctx st) = true →
  healthy_loop (Compiled := unit) (RequestProvider0 := demo_provider) 5 (λ _, None) (λ _, true) (λ _ _, true) demo_serving 0
    Immediate uri (one_by_one now ((MRates <$> rates) ++ [MFinished])) st.
Proof.
  revert now st. induction rates as [|rate rates IH]; intros now st; [done|]. cbn [seconds_ok].
  rewrite !andb_true_iff, !Z.leb_le. intros (((((H1 & H2) & H3) & H4) & Hs) & Hn).
  cbn [fmap list_fmap app one_by_one healthy_loop]. split; [apply settled_rate; [split; lia|done..]|].
  intros ctx res H. rewrite H in Hn. by apply IH.
Qed.

Lemma session_ok_healthy md r rates :
  generation_mode r = Immediate → 1 <= ka_max_request_per_connection (connection_keep_alive r) → demo_serving (req r) →
  session_ok md r rates = true →
  let msgs := MMetadata md :: MRequest r :: (MRates <$> rates) ++ [MFinished] in demo_healthy msgs (settled_run msgs).
Proof.
  intros Hm Hka Hi Hok. cbv zeta. split; [apply one_by_one_msgs|]. split; [by intros j p|]. split; [done|].
  unfold session_ok in Hok. destruct (session_begin _ _ _ _ _ _ _ _ _ _) as [[[se|] s1]|] eqn:Hb; try done.
  exists md, r, (one_by_one 2000000000 ((MRates <$> rates) ++ [MFinished])), se, s1.
  split_and!; try done. rewrite Hm. by apply seconds_ok_healthy.
Qed.

(** *** A job that the process runs without failures *)

Lemma demo_network : network_ok (Compiled := unit) (Hir := unit) (AST := unit) (Conn := list HttpReq)
  (λ _ _ _, true) (λ _ _ _, true) (λ _, elements).
Proof. by split. Qed.

Definition calm_ticks (rates : list (Z * Z)) : list Tick :=
  (λ qc, {| t_rates := qc; t_stopped := false; t_secondaries := None |}) <$> rates.

Lemma calm_ticks_rates rates : map t_rates (calm_ticks rates) = rates.
Proof. induction rates as [|qc rates IH]; [done|]. simpl. by f_equal. Qed.

Lemma calm_ticks_never_stopped rates : Forall (λ t, t_stopped t = false) (calm_ticks rates).
Proof. apply Forall_fmap, Forall_true. done. Qed.

Definition rate_msg (qc : Z * Z) : RateMessage := {| rm_qps := qc.1; rm_connections := qc.2 |}.

(** What the secondary of the process receives. *)
Definition local_msgs (r : DemoReq) (rates : list (Z * Z)) : list DemoMsg :=
  MMetadata {| primary_host := "127.0.0.1" |} :: MRequest r :: (MRates <$> (rate_msg <$> rates)) ++ [MFinished].

Lemma local_job r n rates :
  name r = Some n → (∀ f, req r ≠ RSSplitRequestFile f) →
  ∃ net, standalone_handle_request (λ _ _ _, true) (λ _ _ _, true) (λ _, elements) (λ _ f, (Err ""%string, f)) 3031 r
           (calm_ticks rates) [] = Val ([Starting; InProgress; Completed], net) ∧
    sessions_of "localhost" net = [local_msgs r rates].
Proof.
  intros Hn Hf. unfold standalone_handle_request. rewrite Hn. cbn [unwrap mbind outcome_bind].
  set (n1 := send_metadata_with_primary _ _ _ _ _ _).
  assert (E1 : n1 = [Connected "localhost"; Delivered "localhost" (MMetadata {| primary_host := "127.0.0.1" |})]) by (vm_compute; reflexivity).
  rewrite E1. clear n1 E1.
  assert (E2 : ∀ net, ∃ res, send_request_to_secondary (λ _ _ _, true) (λ _, elements) (λ _ f, (Err ""%string, f)) r
    {["localhost"%string]} ["localhost"%string] net = Val (res, net ++ [Delivered "localhost" (MRequest r)])).
  { intros net. unfold send_request_to_secondary. assert (Hsel : selected (λ _, elements) net {["localhost"%string]} ["localhost"%string]
      = ["localhost"%string]) by (vm_compute; reflexivity).
    destruct (req r) eqn:Er; try (rewrite Hsel; cbn; by eexists). by destruct (Hf r0). }
  edestruct E2 as [res ->]. cbn [mbind outcome_bind]. eexists. split; [done|].
  unfold send_end_msg, send. cbn [snd]. rewrite (standalone_loop_log _ _ _ demo_network) by apply calm_ticks_never_stopped.
  unfold sessions_of. cbn [app sessions_from]. rewrite decide_True by done. cbn [tail app sessions_from]. rewrite !decide_True by done.
  unfold local_msgs.
  enough (H : ∀ cur, sessions_from "localhost" cur (((λ t, Delivered "localhost" (tick_msg t)) <$> calm_ticks rates) ++
    [Delivered "localhost" MFinished]) = [(cur ++ (MRates <$> (rate_msg <$> rates)) ++ [MFinished] : list DemoMsg)]) by apply H.
  induction rates as [|[q c] rates IH]; intros cur; cbn [calm_ticks fmap list_fmap app sessions_from]; rewrite decide_True by done; [done|].
  unfold calm_ticks in IH. rewrite IH, <- app_assoc. done.
Qed.

(** Such a job is healthy if its session is. *)
Lemma local_runs r n rates :
  name r = Some n → (∀ f, req r ≠ RSSplitRequestFile f) → generation_mode r = Immediate →
  1 <= ka_max_request_per_connection (connection_keep_alive r) → demo_serving (req r) →
  fst (poll_n (length rates) (request_into_generator (RequestProvider0 := demo_provider) r)) = rates →
  fst (poll_next (snd (poll_n (length rates) (request_into_generator (RequestProvider0 := demo_provider) r)))) = None →
  session_ok {| primary_host := "127.0.0.1" |} r (rate_msg <$> rates) = true →
  runs_in_health (PromRegistry0 := open_registry) (RequestProvider0 := demo_provider) 5 (λ _, None) (λ _, true) (λ _ _, true)
    Panic demo_serving 0 (λ _ _ _, true) (λ _ _ _, true) (λ _, elements) (λ _ f, (Err ""%string, f)) r
    (session_results (PromRegistry0 := open_registry) (RequestProvider0 := demo_provider) 5 (λ _, None) (λ _, true)
      (λ _ _, true) Panic (settled_run (local_msgs r rates))).
Proof.
  intros Hn Hf Hm Hka Hi Hg Hend Hok. destruct (local_job r n rates Hn Hf) as (net & Hj & Hs).
  eapply (runs_in_health_intro (PromRegistry0 := open_registry) (RequestProvider0 := demo_provider)); [exact demo_network|..|exact Hj|].
  - intros ? f Hr. by apply Hf in Hr.
  - rewrite calm_ticks_rates. pose proof (poll_n_drains _ _ Hend) as Hd. by rewrite Hg in Hd.
  - apply calm_ticks_never_stopped.
  - rewrite Hs. constructor; [|constructor]. by apply session_ok_healthy.
Qed.

(** *** A test of five seconds with three requests each *)

Definition three : Value := Obj [("ConstantRate"%string, Obj [("countPerSec"%string, Num (PosInt 3))])].

Definition three_per_second : Value :=
  Obj [("concurrentConnection"%string, three); ("duration"%string, Num (PosInt 5)); ("qps"%string, three);
       ("req"%string, Obj [("RequestList"%string, Obj [("data"%string, Arr [
          Obj [("method"%string, Str "GET"); ("url"%string, Str "/list/data")]])])]);
       ("target"%string, Obj [("host"%string, Str "127.0.0.1"); ("port"%string, Num (PosInt 2080));
                              ("protocol"%string, Str "HTTP")])].

Lemma three_wf : wf_doc three_per_second.
Proof. apply wf_value_doc. unfold three_per_second, three. repeat constructor; cbn; lia. Qed.

Definition three_request (n : option string) : Request unit unit unit (list HttpReq) :=
  {| name := n; duration := 5; target := {| host := "127.0.0.1"; port := 2080; protocol := HTTP |};
     req := RSRequestList {| data := [mk_http_req "u" "GET" "/list/data" None ∅] |};
     qps := RateConstant {| cr_count_per_sec := 3 |}; concurrent_connection := ConnConstant {| cr_count_per_sec := 3 |};
     connection_keep_alive := keep_alive_default; histogram_buckets := default_histogram_bucket;
     response_assertion := None; generation_mode := Immediate |}.

Definition three_post : HttpRequest :=
  {| rq_method := "POST"; rq_uri := "/test"; rq_headers := {[ "content-length"%string := "2"%string ]}; rq_body := "{}" |}.

(** Every body is read as that test. *)
Definition three_read : string → option (Request unit unit unit (list HttpReq)) :=
  read_test (λ _, Some tt) (λ _, true) (λ _, Ok tt) (λ _, Ok tt) (λ _, None) (λ _, Some three_per_second) (λ _, "u"%string).

Lemma three_is_read : three_read "{}" = Some (three_request None).
Proof. vm_compute. reflexivity. Qed.

Definition three_rates : list (Z * Z) := replicate 5 (3, 3).

Definition three_job : Request unit unit unit (list HttpReq) := three_request (Some demo_uuid).

Lemma three_runs :
  runs_in_health (PromRegistry0 := open_registry) (RequestProvider0 := demo_provider) 5 (λ _, None) (λ _, true) (λ _ _, true)
    Panic demo_serving 0 (λ _ _ _, true) (λ _ _ _, true) (λ _, elements) (λ _ f, (Err ""%string, f)) three_job
    (session_results (PromRegistry0 := open_registry) (RequestProvider0 := demo_provider) 5 (λ _, None) (λ _, true)
      (λ _ _, true) Panic (settled_run (local_msgs three_job three_rates))).
Proof.
  apply (local_runs three_job demo_uuid three_rates); try done; vm_compute; reflexivity.
Qed.

(** Three requests in each of the five seconds. *)
Lemma standalone_test_end_to_end_witness :
  let node : Node (Request unit unit unit (list HttpReq)) unit := Build_Node [] tt [] in
  standalone_service (F := demo_filter) (λ _, Some tt) (λ _, true) (λ _, @Ok string unit tt) (λ _, true) (λ _, true)
    (λ _, None) (λ _, ""%string) (λ _, ""%string) (λ _, Ok tt) (λ _, Ok tt) (λ _, None) (λ _, Some three_per_second)
    (λ _, "u"%string) (λ _ _, "u"%string) (demo_outside demo_uuid) three_post node =
  Val (json_reply 200 (response_to_value (response_new demo_uuid Starting)), Build_Node [] tt [three_job]) ∧
  sent_each (session_results (PromRegistry0 := open_registry) (RequestProvider0 := demo_provider) 5 (λ _, None) (λ _, true)
    (λ _ _, true) Panic (settled_run (local_msgs three_job three_rates))) = [3; 3; 3; 3; 3].
Proof.
  destruct (standalone_test_end_to_end (F := demo_filter) (λ _, Some tt) (λ _, true) (λ _, @Ok string unit tt) (λ _, true)
    (λ _, true) (λ _, None) (λ _, ""%string) (λ _, ""%string) (λ _, Ok tt) (λ _, Ok tt) (λ _, None)
    (λ _, Some three_per_second) (λ _, "u"%string) (λ _ _, "u"%string)
    (PromRegistry0 := open_registry) (RequestProvider0 := demo_provider) 5 (λ _, true) (λ _ _, true) Panic demo_serving 0
    (Z.le_refl 0) (λ _ _ _, true) (λ _ _ _, true) (λ _, elements) (λ _ f, (Err ""%string, f))
    (demo_outside demo_uuid) three_post (Build_Node [] tt []) (three_request None) tt) as [H1 H2].
  - reflexivity.
  - vm_compute. reflexivity.
  - exists 2. split; [vm_compute; reflexivity|lia].
  - vm_compute. reflexivity.
  - exact three_is_read.
  - reflexivity.
  - split; [exact H1|]. exact (H2 _ three_runs).
Defined.

(** *** The same test on two secondaries *)

Definition two_nodes : list Primary.Node := [Primary.demo_node "a"; Primary.demo_node "b"].

Definition two_log : list (event unit unit unit (list HttpReq)) :=
  match primary_handle_request (λ _ _ _, true) (λ _ _ _, true) (λ _, elements) (λ _ f, (Err ""%string, f)) "tcp-remoc"
          (Some "p"%string) (Some two_nodes) three_job (calm_ticks three_rates) [] with
  | Val (_, net) => net
  | Panic => []
  end.

Definition share_msgs (q : Z) : list (MessageFromPrimary unit unit unit (list HttpReq)) :=
  MMetadata {| primary_host := "p" |} :: MRequest three_job :: (MRates <$> replicate 5 (rate_msg (q, q))) ++ [MFinished].

Definition share_of (id : string) : Z := if String.eqb id "a" then 2 else 1.

Lemma two_sessions id : id ∈ ({["a"%string; "b"%string]} : gset string) → sessions_of id two_log = [share_msgs (share_of id)].
Proof. intros [->%elem_of_singleton| ->%elem_of_singleton]%elem_of_union; vm_compute; reflexivity. Qed.

Lemma share_healthy q : q = 1 ∨ q = 2 → demo_healthy (share_msgs q) (settled_run (share_msgs q)).
Proof.
  intros Hq. apply session_ok_healthy; [done..|]. destruct Hq as [-> | ->]; vm_compute; reflexivity.
Qed.

Lemma two_nodes_in : nodes_in {["a"%string; "b"%string]} (Some two_nodes).
Proof.
  intros l n id [= <-] Hn. unfold two_nodes in Hn.
  repeat (apply elem_of_cons in Hn as [->|Hn]; [intros [= <-]; set_solver|]). by apply elem_of_nil in Hn.
Qed.

Definition two_runs (id : string) : list (SessionRun (Compiled := unit) (Rng := unit) (Reg := unit)) :=
  [settled_run (share_msgs (share_of id))].

Lemma two_in_health :
  cluster_in_health (PromRegistry0 := open_registry) (RequestProvider0 := demo_provider) (λ _, None) 5 (λ _, true) (λ _ _, true)
    Panic demo_serving 0 (λ _ _ _, true) (λ _ _ _, true) (λ _, elements) (λ _ f, (Err ""%string, f)) "tcp-remoc"
    {["a"%string; "b"%string]} three_job two_runs.
Proof.
  split; [exact demo_network|vm_compute; discriminate|by intros ? f [=]|].
  exists (calm_ticks three_rates), two_log.
  split; [by apply (poll_n_drains (request_into_generator (RequestProvider0 := demo_provider) three_job) 5)|].
  split; [|split; [apply calm_ticks_never_stopped|split]].
  - apply Forall_fmap, Forall_replicate. split; [simpl; lia|]. split; [simpl; lia|]. intros l n id [=].
  - apply (cluster_in_full _ _ _ _ _ _ _ _ _ (Some "p"%string) two_nodes [Starting; InProgress; Completed] two_nodes_in).
    + exists (Primary.demo_node "a"). split; [left|by eexists].
    + vm_compute. reflexivity.
  - intros id Hid. rewrite two_sessions by done. constructor; [|constructor]. apply share_healthy.
    unfold share_of. destruct (String.eqb id "a"); [by right|by left].
Qed.

(** The JSON of the job as the node writes it. *)
Definition three_written : Value :=
  match ser (request_codec (λ _, Ok tt) (λ _, Some tt) (λ _, Ok tt) (λ _, true) (λ _, None) (λ _, "u"%string)) three_job with
  | Val v => v
  | Panic => Null
  end.

(** Fifteen requests, ten of them from [a]. *)
Lemma cluster_test_end_to_end_witness :
  let e := mk_entry (Some (demo_other_view, Build_Node [] tt [])) (demo_outside demo_uuid) (demo_outside "b") in
  let primary : Node (Request unit unit unit (list HttpReq)) unit := Build_Node [] tt [] in
  (∃ p', json_step (F := demo_filter) (Conn := list HttpReq) (λ _, Some tt) (λ _, true) (λ _, @Ok string unit tt) (λ _, true)
    (λ _, true) (λ _, None) (λ _, ""%string) (λ _, ""%string) "/tmp" (λ _ _, None) (λ _, "t"%string) (λ _, ""%string)
    (λ _, ""%string) (λ _, @Ok string unit tt) (λ _, @Ok string unit tt) (λ _, None) (λ _, Some three_written) (λ _, ""%string)
    (λ _, None) "http://p:3030" demo_primary_view (λ _, "u"%string) (λ _, "x"%string) e (CTest (three_request None)) primary =
    Val (json_reply 200 (response_to_value (response_new demo_uuid Starting)), p') ∧ nd_spawned p' = [three_job]) ∧
  sumZ (map (λ id, sumZ (map (run_sent (PromRegistry0 := open_registry) (RequestProvider0 := demo_provider) 5 (λ _, None)
    (λ _, true) (λ _ _, true) Panic) (two_runs id))) (elements ({["a"%string; "b"%string]} : gset string))) = 15.
Proof.
  intros e primary.
  destruct (cluster_test_end_to_end (F := demo_filter) (Conn := list HttpReq) (λ _, Some tt) (λ _, true) (λ _, @Ok string unit tt) (λ _, true)
    (λ _, true) (λ _, None) (λ _, ""%string) (λ _, ""%string) "/tmp" (λ _ _, None) (λ _, "t"%string) (λ _, ""%string)
    (λ _, ""%string) (λ _, @Ok string unit tt) (λ _, @Ok string unit tt) (λ _, None) (λ _, Some three_written) (λ _, ""%string)
    (λ _, None) "http://p:3030" demo_primary_view (λ _, "u"%string) (λ _, "x"%string) (conj eq_refl eq_refl) (λ _ _, eq_refl)
    (PromRegistry0 := open_registry) (RequestProvider0 := demo_provider) 5 (λ _, true) (λ _ _, true) Panic demo_serving 0
    (Z.le_refl 0) (λ _ _ _, true) (λ _ _ _, true) (λ _, elements) (λ _ f, (Err ""%string, f)) "tcp-remoc"
    {["a"%string; "b"%string]} e demo_other_view (Build_Node [] tt []) three_per_second (three_request None) primary tt)
    as [(p' & H1 & _ & H2) H3].
  - reflexivity.
  - split_and!; [reflexivity|reflexivity|by exists []].
  - vm_compute. reflexivity.
  - exact three_wf.
  - vm_compute. reflexivity.
  - split_and!; try exact Logic.I. repeat constructor.
  - intros v' Hv'. f_equal. unfold three_written.
    change three_job with (set_name (three_request None) (job_id (os_uuid (en_here e)) (name (three_request None)))).
    by rewrite Hv'.
  - vm_compute. discriminate.
  - split; [by eexists|]. by do 2 eexists.
  - reflexivity.
  - split; [by exists p'|]. exact (H3 _ two_in_health).
Defined.
