(* ===== verification/TestsRoutes.v ===== *)
(** * The integration tests of the HTTP interface

    The tests of [overload/src/filters.rs], with what they share in
    [overload/src/filters_common.rs], as programs on the model of a standalone process
    ([EndToEnd]): a test posts JSON to the process, looks at the reply, and counts what the
    server it made up (a mock) was sent.  The mock answers all requests of the job, so what
    it has counted after [i] seconds is what the first [i] cycles of the session sent; JSON
    is given as the value of its text. *)
From Stdlib Require Import ZArith Lia Ascii.
From stdpp Require Import base list gmap strings numbers sets.
From S2P Require Import Prelude RateSpec Split Json Assert DataGen Template TestsData HttpTypes.
From S2P Require Import Pool UrlParams Providers Jobs Primary Cycle Metrics RequestFuture Secondary Job Health.
From S2P Require Import Upload Api Warp Routes Service.
From S2P Require Import Serde Codec Accepted TestsRequests Forward EndToEnd.

Local Open Scope string_scope.
Local Open Scope Z_scope.

(** A test that does not panic. *)
Definition passes {A} (t : outcome A) : Prop := ∃ a, t = Val a.

(** ** The bodies *)

(** A port is a [u16], which JSON has as a positive integer. *)
Definition mock_target (host : string) (port : Z) : Value :=
  obj [("host", Str host); ("port", Num (PosInt port)); ("protocol", Str "HTTP")].

Definition count_per_sec (n : Z) : Value := obj [("ConstantRate", obj [("countPerSec", Num (PosInt n))])].

Definition one_get (url : string) : Value :=
  obj [("RequestList", obj [("data", Arr [obj [("method", Str "GET"); ("url", Str url)]])])].

(** What the bodies have in common, without the assertions of one of them. *)
Definition five_seconds (req : Value) (host : string) (port connection_count : Z) (more : list (string * Value)) : Value :=
  obj ([("duration", int 5); ("req", req); ("target", mock_target host port); ("qps", count_per_sec 3);
        ("concurrentConnection", count_per_sec connection_count)] ++ more)%list.

Definition json_request_list_constant (host : string) (port connection_count : Z) (url : string) : Value :=
  five_seconds (one_get url) host port connection_count [].

Definition two_assertions : Value :=
  obj [("assertions", Arr [
    obj [("id", int 1); ("expectation", obj [("Constant", Str "world")]);
         ("actual", obj [("FromJsonResponse", obj [("path", Str "$.hello")])])];
    obj [("id", int 2); ("expectation", obj [("Constant", obj [("hello", Str "list")])]);
         ("actual", obj [("FromJsonResponse", obj [("path", Str "$")])])]])].

Definition json_request_list_constant_with_assertion (host : string) (port connection_count : Z) (url : string) : Value :=
  five_seconds (one_get url) host port connection_count [("responseAssertion", two_assertions)].

Definition random_params : Value :=
  obj [("type", Str "object"); ("properties", obj [
    ("param1", obj [("type", Str "string"); ("description", Str "The person's first name.");
                    ("minLength", int 6); ("maxLength", int 15)]);
    ("param2", obj [("description", Str "Age in years which must be equal to or greater than zero.");
                    ("type", Str "integer"); ("minimum", int 1000000); ("maximum", int 1100000)])])].

Definition random_get : Value :=
  obj [("RandomDataRequest", obj [
    ("url", Str "/anything/{param1}/{param2}"); ("method", Str "GET"); ("uriParamSchema", random_params);
    ("headers", obj [("Connection", Str "keep-alive")])])].

Definition json_request_random_constant (host : string) (port : Z) : Value :=
  five_seconds random_get host port 3 [].

Definition json_multi_request (host : string) (port connection_count : Z) (url : string) : Value :=
  obj [("name", Str "multi-test-request");
       ("requests", Arr [json_request_random_constant host port;
                         json_request_list_constant host port connection_count url])].

(** ** Reading them *)

Section Read.
  Context {Compiled Hir AST Conn : Type}.
  Context (compile_path : string → result string Compiled) (parse_regex : string → option Hir).
  Context (compile : string → result string AST) (valid_method : string → bool) (env : string → option string).
  Context (Hget : valid_method "GET" = true).

Local Abbreviation Req := (Request Compiled Hir AST Conn).
Local Abbreviation request_c := (request_codec (Conn := Conn) compile_path parse_regex compile valid_method env).
Local Abbreviation spec_c := (request_spec_codec (Conn := Conn) parse_regex compile valid_method env).

(** The job of five seconds that a body stands for. *)
Definition five_second_job (n : option string) (s : RequestSpecEnum Hir AST Conn) (host : string) (port connection_count : Z)
    (a : option (ResponseAssertion Compiled)) : Req :=
  {| name := n; duration := 5; target := {| host := host; port := port; protocol := HTTP |}; req := s;
     qps := RateConstant {| cr_count_per_sec := 3 |};
     concurrent_connection := ConnConstant {| cr_count_per_sec := connection_count |};
     connection_keep_alive := keep_alive_default; histogram_buckets := default_histogram_bucket;
     response_assertion := a; generation_mode := Immediate |}.

Definition listed (id url : string) : RequestSpecEnum Hir AST Conn :=
  RSRequestList {| data := [mk_http_req id "GET" url None ∅] |}.

Lemma one_get_read uuid u : de (spec_c uuid) (one_get u) = Decoded (listed (uuid 0%nat) u).
Proof.
  pose proof (listed_request_read valid_method (uuid 0%nat) u Hget) as Hr. revert Hr. unfold one_get. eval_objs. intros Hr.
  cbn -[http_req_codec]. by rewrite Hr.
Qed.

Lemma mock_target_read host port :
  0 <= port <= u16_MAX → de target_codec (mock_target host port) = Decoded {| host := host; port := port; protocol := HTTP |}.
Proof.
  intros Hp. unfold mock_target. eval_objs. cbn.
  destruct (Z.leb_spec 0 port); [|lia]. destruct (Z.leb_spec port u16_MAX); [done|lia].
Qed.

Lemma count_per_sec_read c :
  0 <= c <= u32_MAX →
  de rate_spec_codec (count_per_sec c) = Decoded (RateConstant {| cr_count_per_sec := c |}) ∧
  de connection_spec_codec (count_per_sec c) = Decoded (ConnConstant {| cr_count_per_sec := c |}).
Proof.
  intros Hc. unfold count_per_sec. eval_objs. split; cbn; (destruct (Z.leb_spec 0 c); [|lia]);
    (destruct (Z.leb_spec c u32_MAX); [done|lia]).
Qed.

(** A body is read as its job; of assertions only those under their own name are read. *)
Lemma five_seconds_read uuid v s host port c more a :
  de (spec_c uuid) v = Decoded s → 0 <= port <= u16_MAX → 0 <= c <= u32_MAX →
  (more, a) ∈ [([], None); ([("responseAssertion", two_assertions)], Some (mk_response_assertion None None))] →
  de (request_c uuid) (five_seconds v host port c more) =
  Decoded (five_second_job None (with_host {| host := host; port := port; protocol := HTTP |} s) host port c a).
Proof.
  intros Hs Hp Hc Hm. pose proof (mock_target_read host port Hp) as Ht. destruct (count_per_sec_read c Hc) as [_ Hcc].
  destruct (count_per_sec_read 3) as [Hq _]; [lia|]. revert Hs Ht Hq Hcc.
  unfold five_seconds. generalize (mock_target host port), (count_per_sec 3), (count_per_sec c). intros t q cc Hs Ht Hq Hcc.
  unfold request_codec. cbn [de]. unfold request_shadow_dec.
  apply elem_of_cons in Hm as [[= -> ->]|[[= -> ->]|[]%elem_of_nil]%elem_of_cons];
    [|unfold two_assertions]; eval_objs;
    cbn -[request_spec_codec target_codec rate_spec_codec connection_spec_codec request_from_shadow];
    rewrite Ht; cbn -[request_spec_codec target_codec rate_spec_codec connection_spec_codec request_from_shadow];
    rewrite Hs; cbn -[request_spec_codec target_codec rate_spec_codec connection_spec_codec request_from_shadow];
    rewrite Hq; cbn -[request_spec_codec target_codec rate_spec_codec connection_spec_codec request_from_shadow];
    rewrite Hcc; cbn -[request_spec_codec target_codec rate_spec_codec connection_spec_codec request_from_shadow];
    by rewrite request_from_shadow_host.
Qed.

End Read.

(** ** Reading metrics *)

(** [rsplit_once(' ')] *)
Fixpoint rsplit_once (c : ascii) (s : string) : option (string * string) :=
  match s with
  | EmptyString => None
  | String a s' =>
      match rsplit_once c s' with
      | Some (l, r) => Some (String a l, r)
      | None => if Ascii.eqb a c then Some ("", s') else None
      end
  end.

Definition parse_i32 (s : string) : option Z :=
  n ← parse_i64 s; if (-2147483648 <=? n) && (n <=? 2147483647) then Some n else None.

(** The number at the end of the first line that begins with the name; [-1] if there is none. *)
Fixpoint first_value (metrics_name : string) (lines : list string) : outcome Z :=
  match lines with
  | [] => Val (-1)
  | metric :: lines' =>
      if starts_with metrics_name metric then
        match rsplit_once " " metric with Some (_, count) => unwrap (parse_i32 count) | None => Val (-1) end
      else first_value metrics_name lines'
  end.

Definition get_value_for_metrics (metrics_name metrics : string) : outcome Z :=
  first_value metrics_name (split_char "010" metrics).

(** ** The tests *)

Section Tests.
  Context {F : Type → Type} `{!Warp F, !WarpLaws F}.
  Context {Compiled Hir AST Conn Rng LuaFunction : Type} `{!RandomSource Hir Rng}.
  Context (parse_regex : string → option Hir) (request_file_exists : string → bool).
  Context (eval_function : string → result string LuaFunction).
  Context (valid_uri valid_method : string → bool).
  Context (parse_headers : string → option (gmap string string)) (show_headers : gmap string string → string).
  Context (parse_error : string → string).
  Context (compile_path : string → result string Compiled) (compile : string → result string AST).
  Context (env : string → option string) (json_parse : string → option Value) (json_text : Value → string).
  Context (uuid : nat → string) (uuid_multi : nat → nat → string).
  Context {SRng : Type}.

Local Abbreviation Req := (Request Compiled Hir AST Conn).
Local Abbreviation Nd := (Node Req Rng).
Local Abbreviation Results := (list (CycleResult SRng (RequestSpecEnum Hir AST Conn))).
Local Abbreviation service :=
  (standalone_service (F := F) parse_regex request_file_exists eval_function valid_uri valid_method parse_headers show_headers
    parse_error compile_path compile env json_parse uuid uuid_multi).

(** [hyper] gives the length of the body; there is no content type. *)
Definition send_request (body : Value) (path : string) : HttpRequest :=
  {| rq_method := "POST"; rq_uri := slashes [path];
     rq_headers := {[ "content-length" := show_unsigned (Z.of_nat (String.length (json_text body))) ]};
     rq_body := json_text body |}.

(** What the mock has counted when the cycles of [i] seconds are over. *)
Definition hits (seconds : Results) (i : nat) : Z := sumZ (take i (sent_each seconds)).

(** Sending a test and asserting the status, which all tests begin with. *)
Definition post_test (body : Value) (path : string) (o : Outside) (n : Nd) : outcome (Reply * Nd) :=
  '(response, n) ← service o (send_request body path) n;
  _ ← assert_that (rp_status response =? 200);
  Val (response, n).

(** [for i in 1..6] *)
Definition three_hits_each (seconds : Results) : outcome unit :=
  for_each (λ i, assert_that (Z.of_nat i * 3 =? hits seconds i)) [1; 2; 3; 4; 5]%nat.

Definition test_request_random_constant (host : string) (port : Z) (seconds : Results) (o : Outside) (n : Nd) : outcome Nd :=
  '(_, n) ← post_test (json_request_random_constant host port) "test" o n;
  _ ← three_hits_each seconds;
  _ ← assert_that (15 =? hits seconds 5);
  Val n.

Definition test_request_list_constant (host : string) (port : Z) (seconds : Results) (o : Outside) (n : Nd) : outcome Nd :=
  '(_, n) ← post_test (json_request_list_constant host port 3 "/list/data") "test" o n;
  _ ← three_hits_each seconds;
  Val n.

(** [assert_ge!(i * 3, ..)]: at most three in each second. *)
Definition test_request_list_constant_with_connection_lt_qps (host : string) (port : Z) (seconds : Results) (o : Outside)
    (n : Nd) : outcome Nd :=
  '(_, n) ← post_test (json_request_list_constant host port 1 "/list/data2") "test" o n;
  _ ← for_each (λ i, assert_that (hits seconds i <=? Z.of_nat i * 3)) [1; 2; 3; 4; 5]%nat;
  Val n.

(** Two mocks, one for each of the two jobs. *)
Definition test_multi_request (host : string) (port : Z) (seconds1 seconds2 : Results) (o : Outside) (n : Nd) : outcome Nd :=
  '(_, n) ← post_test (json_multi_request host port 3 "/list/data") "tests" o n;
  _ ← for_each (λ i, _ ← assert_that (Z.of_nat i * 3 =? hits seconds1 i);
                     assert_that (Z.of_nat i * 3 =? hits seconds2 i)) [1; 2; 3; 4; 5]%nat;
  _ ← assert_that (15 =? hits seconds1 5);
  Val n.

Definition get_request (uri : string) : HttpRequest :=
  {| rq_method := "GET"; rq_uri := uri; rq_headers := ∅; rq_body := "" |}.

(** [serde_json::from_slice::<GenericResponse<String>>(..).unwrap()] *)
Definition generic_response (r : Reply) : outcome (gmap string string) :=
  unwrap (body_json (rp_body r) ≫= generic_response_from_value as_str).

Definition test_get_status_all (o : Outside) (n : Nd) : outcome (gmap string string * Nd) :=
  '(response, n) ← service o (get_request (slashes ["test"; "status"])) n;
  data ← generic_response response;
  Val (data, n).

(** While the test sleeps the job sets its status: [Starting], then [InProgress]. *)
Definition job_running (id : string) (n : Nd) : Nd :=
  with_jobs (foldl (λ m st, set_status id st m) (nd_jobs n) [Starting; InProgress]) n.

Definition test_stop_req (host : string) (port : Z) (seconds : Results) (o : Outside) (n : Nd) : outcome Nd :=
  '(response, n) ← post_test (json_request_list_constant host port 1 "/list/data2") "test" o n;
  data ← generic_response response;
  job_id ← unwrap (data !! "job_id");
  let n := job_running job_id n in
  _ ← for_each (λ i, assert_that (hits seconds i <=? Z.of_nat i * 3)) [1; 2]%nat;
  '(data, n) ← test_get_status_all o n;
  _ ← assert_that (bool_decide (data !! job_id = Some "InProgress"));
  '(_, n) ← service o (get_request (slashes ["test"; "stop"; job_id])) n;
  '(data, n) ← test_get_status_all o n;
  _ ← assert_that (bool_decide (data !! job_id = Some "Stopped"));
  _ ← assert_that (9 <=? hits seconds 3);
  _ ← assert_that (hits seconds 3 <=? 12);
  Val n.

  Context (select : Compiled → Value → result string (list Value)).
  Context (from_json : string → result string Value) (from_utf8 : string → option string).

(** The answers to requests of the job [r]: each of them polls its future with what it finds. *)
Fixpoint answered (ra : ResponseAssertion Compiled) (uri : Uri) (request : HttpReq) (polls : list (list PollEnv)) (m : Metrics) :
    outcome Metrics :=
  match polls with
  | [] => Val m
  | envs :: polls' =>
      let lua := bool_decide (is_Some (lua_assertion ra)) in
      match run_future select from_json from_utf8 envs (new_request_future ra uri request lua) m with
      | Some Panic => Panic
      | Some (Val (m, _)) => answered ra uri request polls' m
      | None => answered ra uri request polls' m
      end
  end.

(** [encode] is the text of the metrics. *)
Definition test_request_with_assertion_failure (host : string) (port : Z) (encode : Metrics → string) (uri : Uri)
    (request : HttpReq) (polls : list (list PollEnv)) (o : Outside) (n : Nd) : outcome Nd :=
  '(_, n) ← post_test (json_request_list_constant_with_assertion host port 1 "/list/data2") "test" o n;
  job ← unwrap (last (nd_spawned n));
  m ← answered (default (mk_response_assertion None None) (response_assertion job)) uri request polls metrics_empty;
  v ← get_value_for_metrics "assertion_failure" (encode m);
  _ ← assert_that (1 <? v);
  Val n.

End Tests.

(** ** They pass *)

Section Pass.
  Context {F : Type → Type} `{!Warp F, !WarpLaws F}.
  Context {Compiled Hir AST Conn Rng LuaFunction : Type} `{!RandomSource Hir Rng, !RandomSourceLaws Hir Rng}.
  Context (parse_regex : string → option Hir) (request_file_exists : string → bool).
  Context (eval_function : string → result string LuaFunction).
  Context (valid_uri valid_method : string → bool).
  Context (parse_headers : string → option (gmap string string)) (show_headers : gmap string string → string).
  Context (parse_error : string → string).
  Context (compile_path : string → result string Compiled) (compile : string → result string AST).
  Context (env : string → option string) (json_parse : string → option Value) (json_text : Value → string).
  Context (uuid : nat → string) (uuid_multi : nat → nat → string).
  Context {SRng Reg : Type} `{!PromRegistry Reg} `{!RequestProvider SRng (RequestSpecEnum Hir AST Conn)}.
  Context (fuel : nat) (create_ok : string → bool) (fetch_ok : string → string → bool) (repoll : outcome unit).
  Context (I : RequestSpecEnum Hir AST Conn → Prop) `{!ProviderServes (Rng := SRng) fuel I} (d : Z) (Hd : 0 <= d).
  Context (send_ok : list (event Compiled Hir AST Conn) → string → MessageFromPrimary Compiled Hir AST Conn → bool).
  Context (connect_ok : list (event Compiled Hir AST Conn) → string → Z → bool).
  Context (iter : list (event Compiled Hir AST Conn) → gset string → list string).
  Context (get_one : list (event Compiled Hir AST Conn) → SplitRequestFile Conn → result string (list HttpReq) * SplitRequestFile Conn).

Local Abbreviation Req := (Request Compiled Hir AST Conn).
Local Abbreviation Nd := (Node Req Rng).
Local Abbreviation Results := (list (CycleResult SRng (RequestSpecEnum Hir AST Conn))).
Local Abbreviation in_health :=
  (runs_in_health (Reg := Reg) fuel env create_ok fetch_ok repoll I d send_ok connect_ok iter get_one).
Local Abbreviation service :=
  (standalone_service (F := F) parse_regex request_file_exists eval_function valid_uri valid_method parse_headers show_headers
    parse_error compile_path compile env json_parse uuid uuid_multi).
Local Abbreviation post :=
  (post_test (F := F) parse_regex request_file_exists eval_function valid_uri valid_method parse_headers show_headers
    parse_error compile_path compile env json_parse json_text uuid uuid_multi).

(** The text of a body is JSON for it and within the limits. *)
Definition readable (v : Value) : Prop :=
  json_parse (json_text v) = Some v ∧ Z.of_nat (String.length (json_text v)) <= 2 * 1024 * 1024.

Lemma five_seconds_hits r (seconds : Results) :
  in_health r seconds → qps r = RateConstant {| cr_count_per_sec := 3 |} → duration r = 5 → sent_each seconds = [3; 3; 3; 3; 3].
Proof. intros Hr Hq Hdur. apply healthy_seconds in Hr; [by rewrite Hq, Hdur in Hr|done || lia..]. Qed.

(** A test that is read and passes its checks. *)
Lemma post_starts v r o (n : Nd) g :
  readable v → de (request_codec (Conn := Conn) compile_path parse_regex compile valid_method env uuid) v = Decoded r →
  let id := job_id (os_uuid o) (name r) in
  pre_check parse_regex request_file_exists eval_function (set_name r id) (nd_rng n) = Val (Ok tt, g) →
  post v "test" o n = Val (json_reply 200 (response_to_value (response_new id Starting)), started [set_name r id] g n).
Proof.
  intros [Hv Hl] Hr id Hc. unfold post_test.
  rewrite (standalone_serves (F := F) _ _ _ _ _ _ _ _ _ _ _ _ _ _ o _ n (CTest r)).
  - cbn [serve_standalone]. by rewrite (execute_starts _ _ _ _ _ _ g).
  - cbn [rq_uri send_request]. rewrite uri_plain by (by repeat constructor). apply api_test; [done| | |].
    + by apply limited_body.
    + by apply json_body_default.
    + unfold read_test, parse_test. cbn [rq_body send_request]. rewrite Hv. cbn [mbind option_bind]. by rewrite Hr.
Qed.

(** The checks of the jobs of the tests. *)
Lemma listed_checked n id u host port c a (g : Rng) :
  (a ≫= lua_assertion) = None →
  pre_check (Compiled := Compiled) (AST := AST) (Conn := Conn) parse_regex request_file_exists eval_function
    (five_second_job n (listed id u) host port c a) g = Val (Ok tt, g).
Proof. intros Ha. unfold pre_check, check_lua. simpl. by rewrite Ha. Qed.

Definition random_spec (s : DataSchema Hir) (hs : gmap string string) : RequestSpecEnum Hir AST Conn :=
  RSRandomDataRequest {| rd_init := false; rd_method := "GET"; rd_url := "/anything/{param1}/{param2}"; rd_url_param_pos := None;
    rd_headers := hs; rd_body_schema := None; rd_uri_param_schema := Some s |}.

Lemma random_params_wf : wf_value random_params.
Proof. unfold random_params. eval_objs. repeat constructor; cbn; lia. Qed.

Lemma random_params_read :
  ∃ s, data_schema_from_value parse_regex random_params = Ok s ∧ supported s = true ∧ strings_sized s = true.
Proof. unfold random_params. eval_objs. eexists. split; [reflexivity|]. by split. Qed.

Lemma random_checked n s hs host port c (g : Rng) :
  data_schema_from_value parse_regex random_params = Ok s →
  ∃ g', pre_check (Compiled := Compiled) parse_regex request_file_exists eval_function
    (five_second_job n (random_spec s hs) host port c None) g = Val (Ok tt, g').
Proof.
  intros Hs. destruct random_params_read as (s' & Hs' & Hsup & Hsz). rewrite Hs in Hs'. injection Hs' as <-.
  destruct (generate_data_some parse_regex random_params s g random_params_wf Hs Hsup Hsz) as (v & g' & Hv).
  destruct (data_schema_from_value_ok parse_regex _ _ random_params_wf Hs) as (fields & -> & _).
  exists g'. unfold pre_check, check_schema. cbn -[generate_data]. rewrite Hv. cbn -[generate_data].
  unfold generate_data in Hv. destruct (generate_object_data parse_regex fields g) as [[m g2]|]; [|done].
  cbn in Hv. injection Hv as <- <-. done.
Qed.

Lemma random_get_read u s :
  valid_method "GET" = true → data_schema_from_value parse_regex random_params = Ok s →
  de (request_spec_codec (Conn := Conn) parse_regex compile valid_method env u) random_get =
  Decoded (random_spec s {["Connection" := "keep-alive"]}).
Proof.
  intros Hm Hs. pose proof (method_known valid_method "GET" Hm) as Hg.
  rewrite <- (normalise_id random_params) in Hs by apply random_params_wf. revert Hs. unfold random_get.
  generalize random_params. intros v Hs. eval_objs.
  cbn -[method_codec data_schema_codec]. rewrite Hg. cbn -[method_codec data_schema_from_value normalise].
  destruct v; [done|by rewrite Hs..].
Qed.

(** The job table while the only job is in progress, and what a query for all gives. *)
Lemma one_job id (n : Nd) :
  nd_jobs n = [] → nd_jobs (job_running id n) = [(id, InProgress)].
Proof.
  intros Hn. unfold job_running, with_jobs. cbn [nd_jobs]. rewrite Hn. simpl. unfold set_status. simpl.
  by rewrite string_compare_refl.
Qed.

Lemma one_entry {T} (to : T → Value) id x : generic_response_to_value to {[id := x]} = Obj [(id, to x)].
Proof. unfold generic_response_to_value. by rewrite map_fold_singleton. Qed.

Lemma status_of_one id st s o (n : Nd) :
  nd_jobs n = [(id, st)] → job_status_to_value st = Str s →
  test_get_status_all (F := F) parse_regex request_file_exists eval_function valid_uri valid_method parse_headers show_headers
    parse_error compile_path compile env json_parse uuid uuid_multi o n = Val ({[id := s]}, n).
Proof.
  intros Hn Hs. unfold test_get_status_all.
  rewrite (standalone_serves (F := F) _ _ _ _ _ _ _ _ _ _ _ _ _ _ o _ n (CStatus ∅)).
  - cbn [serve_standalone]. unfold status_handler. cbn -[generic_result_to_reply_with_status handle_get_status].
    assert (query_try_from parse_error ∅ = Ok (PagerOptions 0 20)) as -> by (vm_compute; reflexivity).
    rewrite Hn. change (handle_get_status _ [(id, st)]) with ({[id := st]} : gmap string JobStatus).
    cbn [generic_result_to_reply_with_status mbind outcome_bind]. unfold generic_response. cbn [body_json rp_body json_reply].
    by rewrite one_entry, Hs.
  - cbn [rq_uri get_request]. rewrite uri_plain by (by repeat constructor). apply api_status.
    cbn [rq_uri get_request]. rewrite uri_no_query by (by repeat constructor). exact (urlencoded_pairs [] (NoDup_nil_2) (Forall_nil_2 _)).
Qed.

  (** The mock, which listens on some port. *)
  Context (Hget : valid_method "GET" = true) (mh : string) (mp : Z) (Hport : 0 <= mp <= u16_MAX).

(** The jobs that the tests start. *)
Definition list_job (id request_id : string) (connection_count : Z) (url : string) : Req :=
  five_second_job (Some id) (listed request_id url) mh mp connection_count None.

Definition random_job (id : string) (s : DataSchema Hir) : Req :=
  five_second_job (Some id)
    (random_spec s (validate_and_update_host_header {["Connection" := "keep-alive"]} {| host := mh; port := mp; protocol := HTTP |}))
    mh mp 3 None.

Lemma list_read u c url :
  0 <= c <= u32_MAX →
  de (request_codec (Conn := Conn) compile_path parse_regex compile valid_method env u) (json_request_list_constant mh mp c url) =
  Decoded (five_second_job None (listed (u 0%nat) url) mh mp c None).
Proof.
  intros Hc. unfold json_request_list_constant.
  rewrite (five_seconds_read compile_path parse_regex compile valid_method env u (one_get url) (listed (u 0%nat) url) mh mp c [] None);
    [done|by apply one_get_read|done|done|left].
Qed.

Lemma random_read u s :
  data_schema_from_value parse_regex random_params = Ok s →
  de (request_codec (Conn := Conn) compile_path parse_regex compile valid_method env u) (json_request_random_constant mh mp) =
  Decoded (rename None (random_job "" s)).
Proof.
  intros Hs. unfold json_request_random_constant.
  rewrite (five_seconds_read compile_path parse_regex compile valid_method env u random_get
    (random_spec s {["Connection" := "keep-alive"]}) mh mp 3 [] None); [done|by apply random_get_read|done|lia|left].
Qed.

Lemma list_posted c url o (n : Nd) :
  readable (json_request_list_constant mh mp c url) → 0 <= c <= u32_MAX →
  post (json_request_list_constant mh mp c url) "test" o n =
  Val (json_reply 200 (response_to_value (response_new (os_uuid o) Starting)),
       started [list_job (os_uuid o) (uuid 0%nat) c url] (nd_rng n) n).
Proof.
  intros Hv Hc. rewrite (post_starts _ _ o n (nd_rng n) Hv (list_read uuid c url Hc)); [done|]. by apply listed_checked.
Qed.

Lemma three_hits (seconds : Results) :
  sent_each seconds = [3; 3; 3; 3; 3] →
  three_hits_each seconds = Val tt ∧ ∀ i, (i <= 5)%nat → hits seconds i = Z.of_nat i * 3.
Proof.
  intros H. unfold three_hits_each, hits. rewrite H. split; [done|].
  intros i Hi. do 6 (destruct i as [|i]; [done|]). lia.
Qed.

Local Abbreviation list_test :=
  (test_request_list_constant (F := F) parse_regex request_file_exists eval_function valid_uri valid_method parse_headers
    show_headers parse_error compile_path compile env json_parse json_text uuid uuid_multi mh mp).
Local Abbreviation few_connections_test :=
  (test_request_list_constant_with_connection_lt_qps (F := F) parse_regex request_file_exists eval_function valid_uri
    valid_method parse_headers show_headers parse_error compile_path compile env json_parse json_text uuid uuid_multi mh mp).
Local Abbreviation random_test :=
  (test_request_random_constant (F := F) parse_regex request_file_exists eval_function valid_uri valid_method parse_headers
    show_headers parse_error compile_path compile env json_parse json_text uuid uuid_multi mh mp).
Local Abbreviation multi_test :=
  (test_multi_request (F := F) parse_regex request_file_exists eval_function valid_uri valid_method parse_headers
    show_headers parse_error compile_path compile env json_parse json_text uuid uuid_multi mh mp).
Local Abbreviation stop_test :=
  (test_stop_req (F := F) parse_regex request_file_exists eval_function valid_uri valid_method parse_headers
    show_headers parse_error compile_path compile env json_parse json_text uuid uuid_multi mh mp).

(** The jobs of the tests run undisturbed. *)
Record jobs_in_health (o : Outside) (s : DataSchema Hir) (random list few multi1 multi2 : Results) : Prop := {
  jh_schema : data_schema_from_value parse_regex random_params = Ok s;
  jh_random : in_health (random_job (os_uuid o) s) random;
  jh_list : in_health (list_job (os_uuid o) (uuid 0%nat) 3 "/list/data") list;
  jh_few : in_health (list_job (os_uuid o) (uuid 0%nat) 1 "/list/data2") few;
  jh_multi1 : in_health (random_job (job_id (os_uuid o) (Some "multi-test-request") +:+ "_0") s) multi1;
  jh_multi2 : in_health (list_job (job_id (os_uuid o) (Some "multi-test-request") +:+ "_1") (uuid_multi 1 0) 3 "/list/data") multi2
}.

Definition bodies : list Value :=
  [json_request_random_constant mh mp; json_request_list_constant mh mp 3 "/list/data";
   json_request_list_constant mh mp 1 "/list/data2"; json_multi_request mh mp 3 "/list/data"].

Lemma random_passes o s seconds (n : Nd) :
  readable (json_request_random_constant mh mp) → data_schema_from_value parse_regex random_params = Ok s →
  in_health (random_job (os_uuid o) s) seconds → passes (random_test seconds o n).
Proof.
  intros Hv Hs Hr. destruct (three_hits seconds) as [H1 H2]; [by apply (five_seconds_hits _ _ Hr)|].
  edestruct (random_checked (Some (os_uuid o)) s) as [g Hg]; [done|].
  unfold test_request_random_constant. rewrite (post_starts _ _ o n g Hv (random_read uuid s Hs)) by exact Hg.
  cbn [mbind outcome_bind]. rewrite H1, H2 by lia. by eexists.
Qed.

Lemma lists_pass o (n : Nd) list few :
  readable (json_request_list_constant mh mp 3 "/list/data") → readable (json_request_list_constant mh mp 1 "/list/data2") →
  in_health (list_job (os_uuid o) (uuid 0%nat) 3 "/list/data") list →
  in_health (list_job (os_uuid o) (uuid 0%nat) 1 "/list/data2") few →
  passes (list_test list o n) ∧ passes (few_connections_test few o n).
Proof.
  intros Hv3 Hv1 Hl Hf. destruct (three_hits list) as [H1 _]; [by apply (five_seconds_hits _ _ Hl)|].
  destruct (three_hits few) as [_ H2]; [by apply (five_seconds_hits _ _ Hf)|]. split.
  - unfold test_request_list_constant. rewrite list_posted by done. cbn [mbind outcome_bind]. rewrite H1. by eexists.
  - unfold test_request_list_constant_with_connection_lt_qps. rewrite list_posted by done. cbn [mbind outcome_bind for_each].
    rewrite !H2 by lia. by eexists.
Qed.

Lemma multi_passes o s multi1 multi2 (n : Nd) :
  readable (json_multi_request mh mp 3 "/list/data") → data_schema_from_value parse_regex random_params = Ok s →
  in_health (random_job (job_id (os_uuid o) (Some "multi-test-request") +:+ "_0") s) multi1 →
  in_health (list_job (job_id (os_uuid o) (Some "multi-test-request") +:+ "_1") (uuid_multi 1 0) 3 "/list/data") multi2 →
  passes (multi_test multi1 multi2 o n).
Proof.
  intros [Hv Hl] Hs Hr1 Hr2. destruct (three_hits multi1) as [_ H1]; [by apply (five_seconds_hits _ _ Hr1)|].
  destruct (three_hits multi2) as [_ H2]; [by apply (five_seconds_hits _ _ Hr2)|].
  set (id := job_id (os_uuid o) (Some "multi-test-request")) in *.
  pose proof (random_read (uuid_multi 0) s Hs) as Hread1.
  pose proof (list_read (uuid_multi 1) 3 "/list/data" ltac:(lia)) as Hread2.
  destruct (random_checked (Some (id +:+ "_0")) s (validate_and_update_host_header {["Connection" := "keep-alive"]}
    {| host := mh; port := mp; protocol := HTTP |}) mh mp 3 (nd_rng n) Hs) as [g Hg].
  unfold test_multi_request, post_test.
  rewrite (standalone_serves (F := F) _ _ _ _ _ _ _ _ _ _ _ _ _ _ o _ n
    (CTests {| mr_name := Some "multi-test-request"; requests := [rename None (random_job "" s); rename None (list_job "" (uuid_multi 1 0) 3 "/list/data")] |})).
  - cbn [serve_standalone]. unfold execute_multiple, handle_multi_request. cbn [mr_name requests]. fold id. cbn [multi_loop].
    change (set_name (rename None (random_job "" s)) (id +:+ String "_" (show_unsigned 0))) with (random_job (id +:+ "_0") s).
    unfold random_job. rewrite Hg. cbn [mbind outcome_bind].
    change (set_name (rename None (list_job "" (uuid_multi 1 0) 3 "/list/data")) (id +:+ String "_" (show_unsigned (0 + 1))))
      with (list_job (id +:+ "_1") (uuid_multi 1 0) 3 "/list/data").
    unfold list_job. rewrite listed_checked by done. cbn [mbind outcome_bind for_each rp_status json_reply assert_that Z.eqb Pos.eqb].
    rewrite !H1, !H2 by lia. by eexists.
  - cbn [rq_uri send_request]. rewrite uri_plain by (by repeat constructor). apply api_tests; [done| | |].
    + apply limited_body; lia.
    + by apply json_body_default.
    + unfold read_tests. cbn [rq_body send_request]. rewrite Hv. cbn [mbind option_bind].
      revert Hread1 Hread2. unfold json_multi_request.
      generalize (json_request_random_constant mh mp), (json_request_list_constant mh mp 3 "/list/data"). intros v1 v2 Hr Hr'.
      eval_objs. cbn -[request_codec]. rewrite Hr. cbn -[request_codec]. rewrite Hr'. done.
Qed.

Lemma stop_one id o (n : Nd) :
  plain_segment id → nd_jobs n = [(id, InProgress)] →
  ∃ reply n', service o (get_request (slashes ["test"; "stop"; id])) n = Val (reply, n') ∧ nd_jobs n' = [(id, Stopped)].
Proof.
  intros Hid Hn. rewrite (standalone_serves (F := F) _ _ _ _ _ _ _ _ _ _ _ _ _ _ o _ n (CStop id)).
  - cbn [serve_standalone]. unfold stop_handler. rewrite Hn. unfold stop_job, stop_request_by_job_id.
    cbn [map fst snd]. unfold starts_with.
    pose proof (prefix_append id "") as Hp. rewrite append_empty_r in Hp. rewrite Hp. by eexists _, _.
  - cbn [rq_uri get_request]. rewrite uri_plain; [apply api_stop, Hid|]. repeat constructor; try done; apply Hid.
Qed.

Lemma stop_passes o few (n : Nd) :
  nd_jobs n = [] → plain_segment (os_uuid o) → readable (json_request_list_constant mh mp 1 "/list/data2") →
  in_health (list_job (os_uuid o) (uuid 0%nat) 1 "/list/data2") few → passes (stop_test few o n).
Proof.
  intros Hn Hid Hv Hf. destruct (three_hits few) as [_ H]; [by apply (five_seconds_hits _ _ Hf)|].
  unfold test_stop_req. rewrite list_posted by done. cbn [mbind outcome_bind].
  change (generic_response _) with (Val (A := gmap string string) (<["status" := "Starting"]> {["job_id" := os_uuid o]})).
  cbn [mbind outcome_bind]. rewrite lookup_insert_ne, lookup_singleton_eq by done. cbn [unwrap mbind outcome_bind for_each].
  rewrite !H by lia. cbn -[test_get_status_all standalone_service job_running hits get_request slashes].
  set (n1 := started _ _ _). pose proof (one_job (os_uuid o) n1 Hn) as H1.
  rewrite (status_of_one (os_uuid o) InProgress "InProgress") by done. cbn [mbind outcome_bind].
  rewrite bool_decide_true by apply lookup_singleton_eq. cbn [assert_that mbind outcome_bind].
  destruct (stop_one (os_uuid o) o _ Hid H1) as (reply & n2 & -> & H2). cbn [mbind outcome_bind].
  rewrite (status_of_one (os_uuid o) Stopped "Stopped") by done. cbn [mbind outcome_bind].
  rewrite bool_decide_true by apply lookup_singleton_eq. cbn [assert_that mbind outcome_bind].
  by eexists.
Qed.

(** The integration tests of a standalone process pass, whatever port the mock has and
    whatever ids are drawn, when the jobs they start are not disturbed and the UUID can
    stand in a URL. *)
Theorem standalone_tests_pass o (n : Nd) s random list few multi1 multi2 :
  Forall readable bodies → jobs_in_health o s random list few multi1 multi2 → nd_jobs n = [] → plain_segment (os_uuid o) →
  passes (random_test random o n) ∧ passes (list_test list o n) ∧ passes (few_connections_test few o n) ∧
  passes (multi_test multi1 multi2 o n) ∧ passes (stop_test few o n).
Proof.
  intros Hv [Hs H1 H2 H3 H4 H5] Hn Hid. repeat (apply Forall_cons_1 in Hv as [? Hv]).
  destruct (lists_pass o n list few) as [? ?]; [done..|].
  split_and!; [by eapply random_passes|done|done|by eapply multi_passes|by apply stop_passes].
Qed.

(** *** The test of assertions does not *)

Section NoAssertions.
  Context (select : Compiled → Value → result string (list Value)).
  Context (from_json : string → result string Value) (from_utf8 : string → option string).

(** A future without assertions of either kind. *)
Definition unasserted (self : HttpRequestFuture Compiled) : Prop :=
  simple_assertions (hf_assertion self) = None ∧ hf_lua_executor_sender self = false ∧ hf_lua_future self = false.

Lemma unasserted_poll e self m p self' m' msgs :
  unasserted self → poll_future select from_json from_utf8 e self m = Val (p, self', m', msgs) →
  unasserted self' ∧ mt_assertion_failure m' = mt_assertion_failure m.
Proof.
  intros (Hs & Hl & Hf). unfold poll_future.
  assert (Hb : ∃ s1 m1, begin_request (pe_now e) self m = (s1, m1) ∧ unasserted s1 ∧ mt_assertion_failure m1 = mt_assertion_failure m).
  { unfold begin_request. destruct (hf_state self); do 2 eexists; (split; [reflexivity|]); by split. }
  destruct Hb as (s1 & m1 & -> & (Hs1 & Hl1 & Hf1) & <-). rewrite Hf1.
  assert (Hu : unasserted s1) by (by split). destruct (hf_body s1).
  - destruct (pe_body e) as [b|]; [|by intros [= <- <- <- <-]]. unfold body_ready.
    destruct (hf_timer s1); cbn [unwrap mbind outcome_bind]; [|done]. destruct b; [|by intros [= <- <- <- <-]].
    rewrite Hs1, Hl1. by intros [= <- <- <- <-].
  - assert (Hp : poll_response e s1 m1 = Val (p, self', m', msgs) →
      unasserted self' ∧ mt_assertion_failure m' = mt_assertion_failure m1).
    { unfold poll_response. destruct (pe_request e) as [[st|er]|]; [|by intros [= <- <- <- <-]..].
      destruct (hf_timer s1); cbn [unwrap mbind outcome_bind]; [|done]. by intros [= <- <- <- <-]. }
    destruct (hf_state s1); try done. by intros [= <- <- <- <-].
Qed.

Lemma unasserted_run envs self m m' msgs :
  unasserted self → run_future select from_json from_utf8 envs self m = Some (Val (m', msgs)) →
  mt_assertion_failure m' = mt_assertion_failure m.
Proof.
  revert self m msgs. induction envs as [|e envs IH]; intros self m msgs Hu; [done|]. cbn [run_future].
  destruct (poll_future _ _ _ e self m) as [[[[p s1] m1] msgs1]|] eqn:E; [|done].
  apply unasserted_poll in E as [Hu1 <-]; [|done]. destruct p; [by intros [= <- _]|].
  destruct (run_future _ _ _ envs s1 m1) as [[[m2 msgs2]|]|] eqn:E2; [|done..]. intros [= <- _]. by eapply IH.
Qed.

Lemma unasserted_answers uri request polls m m' :
  answered select from_json from_utf8 (mk_response_assertion None None) uri request polls m = Val m' →
  mt_assertion_failure m' = mt_assertion_failure m.
Proof.
  revert m. induction polls as [|envs polls IH]; intros m; cbn [answered]; [by intros [= <-]|].
  destruct (run_future _ _ _ envs _ m) as [[[m1 msgs]|]|] eqn:E; [|done|by apply IH].
  intros Hm. apply IH in Hm as ->. eapply unasserted_run; [|exact E]. by split.
Qed.

(** The test of assertions sends them under a name that is not read, so that the job has none:
    no failure is ever counted, and the test fails, whatever the answers are. *)
Theorem assertion_test_fails encode uri request polls o (n : Nd) :
  readable (json_request_list_constant_with_assertion mh mp 1 "/list/data2") →
  (∀ m, mt_assertion_failure m = ∅ →
     Forall (λ l, starts_with "assertion_failure" l = false) (split_char "010" (encode m))) →
  test_request_with_assertion_failure (F := F) parse_regex request_file_exists eval_function valid_uri valid_method parse_headers
    show_headers parse_error compile_path compile env json_parse json_text uuid uuid_multi select from_json from_utf8 mh mp
    encode uri request polls o n = Panic.
Proof.
  intros Hv He. unfold test_request_with_assertion_failure.
  pose proof (five_seconds_read (Conn := Conn) compile_path parse_regex compile valid_method env uuid (one_get "/list/data2")
    (listed (uuid 0%nat) "/list/data2") mh mp 1 [("responseAssertion", two_assertions)] (Some (mk_response_assertion None None))
    (one_get_read _ _ _ _ Hget _ _) Hport ltac:(lia) ltac:(right; left)) as Hr.
  rewrite (post_starts _ _ o n (nd_rng n) Hv Hr) by (by apply listed_checked).
  cbn [mbind outcome_bind]. unfold started. cbn [nd_spawned]. rewrite last_snoc. cbn [unwrap mbind outcome_bind].
  change (default _ _) with (mk_response_assertion (Compiled := Compiled) None None).
  destruct (answered _ _ _ _ _ _ _ _) as [m|] eqn:Ea; cbn [mbind outcome_bind]; [|done].
  apply unasserted_answers in Ea. specialize (He m Ea). unfold get_value_for_metrics.
  assert (first_value "assertion_failure" (split_char "010" (encode m)) = Val (-1)) as ->; [|done].
  clear -He. induction He as [|l ls Hl Hls IH]; [done|]. cbn [first_value]. by rewrite Hl.
Qed.

End NoAssertions.

End Pass.

(** ** Concrete inputs *)

Local Abbreviation DemoReq := (Request unit unit unit (list HttpReq)).

(** The cycles of a job with [c] connections on an undisturbed process. *)
Definition demo_seconds (c : Z) (r : DemoReq) : list (CycleResult unit (RequestSpecEnum unit unit (list HttpReq))) :=
  session_results (PromRegistry0 := open_registry) (RequestProvider0 := demo_provider) 5 (λ _, None) (λ _, true) (λ _ _, true)
    Panic (settled_run (local_msgs r (replicate 5 (3, c)))).

Definition demo_params : DataSchema unit :=
  match data_schema_from_value (λ _, None) random_params with Ok s => s | Err _ => SObject None [] end.

Definition demo_random_job (n : string) : DemoReq := random_job "127.0.0.1" 2080 n demo_params.
Definition demo_list_job (n : string) (c : Z) (url : string) : DemoReq := list_job "127.0.0.1" 2080 n "u" c url.
Definition demo_multi_id : string := job_id demo_uuid (Some "multi-test-request").

Lemma demo_params_fine : schema_fine (λ _ : string, None) demo_params.
Proof. exists random_params. split; [apply random_params_wf|]. vm_compute. split_and!; reflexivity. Qed.

Lemma demo_random_serving n : demo_serving (req (demo_random_job n)).
Proof.
  split; [by intros s [=]|]. intros s [= <-]. split; [apply demo_params_fine|].
  split; [vm_compute; lia|]. by intros [=].
Qed.

Lemma demo_jobs_in_health :
  jobs_in_health (Compiled := unit) (PromRegistry0 := open_registry) (RequestProvider0 := demo_provider) (λ _, None) (λ _, None) (λ _, "u") (λ _ _, "u")
    5 (λ _, true) (λ _ _, true) Panic demo_serving 0 (λ _ _ _, true) (λ _ _ _, true) (λ _, elements) (λ _ f, (Err "", f))
    "127.0.0.1" 2080 (demo_outside demo_uuid) demo_params (demo_seconds 3 (demo_random_job demo_uuid))
    (demo_seconds 3 (demo_list_job demo_uuid 3 "/list/data")) (demo_seconds 1 (demo_list_job demo_uuid 1 "/list/data2"))
    (demo_seconds 3 (demo_random_job (demo_multi_id +:+ "_0"))) (demo_seconds 3 (demo_list_job (demo_multi_id +:+ "_1") 3 "/list/data")).
Proof.
  split; [vm_compute; reflexivity|..].
  - eapply (local_runs (demo_random_job demo_uuid)); try apply demo_random_serving; done.
  - eapply (local_runs (demo_list_job demo_uuid 3 "/list/data")); done.
  - eapply (local_runs (demo_list_job demo_uuid 1 "/list/data2")); done.
  - eapply (local_runs (demo_random_job (demo_multi_id +:+ "_0"))); try apply demo_random_serving; done.
  - eapply (local_runs (demo_list_job (demo_multi_id +:+ "_1") 3 "/list/data")); done.
Qed.

(** A text for each of the bodies. *)
Definition demo_bodies : list Value :=
  bodies "127.0.0.1" 2080 ++ [json_request_list_constant_with_assertion "127.0.0.1" 2080 1 "/list/data2"].

Definition demo_text (v : Value) : string :=
  match list_find (λ x, value_eqb x v = true) demo_bodies with Some (i, _) => String (ascii_of_nat i) "" | None => "" end.

Definition demo_parse (s : string) : option Value :=
  match s with String a "" => demo_bodies !! nat_of_ascii a | _ => None end.

Lemma demo_bodies_readable : Forall (readable demo_parse demo_text) demo_bodies.
Proof. repeat (constructor; [vm_compute; split; [reflexivity|discriminate]|]). constructor. Qed.

Lemma standalone_tests_pass_witness :
  let node : Node DemoReq unit := Build_Node [] tt [] in
  passes (test_request_list_constant (F := demo_filter) (λ _, None) (λ _, true) (λ _, @Ok string unit tt) (λ _, true) (λ _, true)
    (λ _, None) (λ _, "") (λ _, "") (λ _, Ok tt) (λ _, Ok tt) (λ _, None) demo_parse demo_text (λ _, "u") (λ _ _, "u")
    "127.0.0.1" 2080 (demo_seconds 3 (demo_list_job demo_uuid 3 "/list/data")) (demo_outside demo_uuid) node).
Proof.
  intros node. pose proof demo_bodies_readable as Hb. apply Forall_app in Hb as [Hb _].
  assert (plain_segment demo_uuid) as Hid by (split; [discriminate|vm_compute; reflexivity]).
  assert (0 <= 2080 <= u16_MAX) as Hport by lia.
  destruct (standalone_tests_pass (F := demo_filter) (RequestProvider0 := demo_provider) (PromRegistry0 := open_registry)
    (λ _, None) (λ _, true) (λ _, @Ok string unit tt) (λ _, true) (λ _, true) (λ _, None) (λ _, "") (λ _, "") (λ _, Ok tt)
    (λ _, Ok tt) (λ _, None) demo_parse demo_text (λ _, "u") (λ _ _, "u") 5 (λ _, true) (λ _ _, true) Panic demo_serving 0
    (Z.le_refl 0) (λ _ _ _, true) (λ _ _ _, true) (λ _, elements) (λ _ f, (Err "", f)) eq_refl "127.0.0.1" 2080 Hport
    (demo_outside demo_uuid) node _ _ _ _ _ _ Hb demo_jobs_in_health eq_refl Hid) as (_ & H & _).
  exact H.
Defined.
