(* ===== verification/Startup.v ===== *)
(** * Start up

    [overload/src/main.rs]: the configuration of the cluster from environment variables,
    and what the process starts, in order.  The environment, kubernetes and the default
    configuration of the crate [cluster-mode] are arguments. *)
From Stdlib Require Import ZArith Lia.
From stdpp Require Import base list gmap strings numbers.
From S2P Require Import Prelude Json HttpTypes Primary.

Local Open Scope Z_scope.

(** [ClusterConfig] of [cluster-mode]; times are in milliseconds. *)
Record ClusterConfig := {
  connection_timeout : Z;
  election_timeout : Z;
  update_interval : Z;
  max_node : Z;
  min_node : Z
}.

(** [get_env]: a variable that is there, can be read and passes the filter. *)
Definition get_env {T} (env : string → option string) (from_str : string → option T) (env_var : string)
    (filter : T → bool) : option T :=
  s ← env env_var; v ← from_str s; if filter v then Some v else None.

(** [NonZeroUsize::from_str] *)
Definition parse_nonzero (s : string) : option Z :=
  n ← parse_unsigned usize_MAX s; if n =? 0 then None else Some n.

Definition cluster_config (default_config : ClusterConfig) (env : string → option string) : ClusterConfig :=
  let config := default_config in
  let config :=
    match get_env env (parse_unsigned u64_MAX) "CLUSTER_UPDATE_INTERVAL" (λ v, 10 <? v) with
    | Some value => {| connection_timeout := connection_timeout config; election_timeout := election_timeout config;
                       update_interval := wrap 64 (value * 1000); max_node := max_node config; min_node := min_node config |}
    | None => config
    end in
  let config :=
    match get_env env (parse_unsigned u64_MAX) "CLUSTER_ELECTION_TIMEOUT" (λ v, 10 <? v) with
    | Some value => {| connection_timeout := connection_timeout config; election_timeout := wrap 64 (value * 1000);
                       update_interval := update_interval config; max_node := max_node config; min_node := min_node config |}
    | None => config
    end in
  let config :=
    match get_env env parse_nonzero "CLUSTER_MAX_NODE" (λ v, 4 <? v) with
    | Some value => {| connection_timeout := connection_timeout config; election_timeout := election_timeout config;
                       update_interval := update_interval config; max_node := value; min_node := min_node config |}
    | None => config
    end in
  match get_env env parse_nonzero "CLUSTER_MIN_NODE" (λ v, 4 <? v) with
  | Some value => {| connection_timeout := connection_timeout config; election_timeout := election_timeout config;
                     update_interval := update_interval config; max_node := max_node config; min_node := value |}
  | None => config
  end.

(** What the process starts: the membership of the cluster, the clean up of jobs, the
    listener of the secondary and the HTTP server. *)
Inductive StartEvent :=
| StartCluster (config : ClusterConfig)
| SpawnInit
| SpawnPrimaryListener (port : Z)
| Serve (port : Z).

(** [main]; [cluster] is the feature, [k8s service namespace] tells whether kubernetes can be
    reached. *)
Definition main (cluster : bool) (k8s : string → string → bool) (default_config : ClusterConfig)
    (env : string → option string) : list StartEvent :=
  (if cluster then
     let service := default "overload"%string (env "K8S_ENDPOINT_NAME"%string) in
     let namespace := default "default"%string (env "K8S_NAMESPACE_NAME"%string) in
     if k8s service namespace then [StartCluster (cluster_config default_config env)] else []
   else []) ++ [SpawnInit; SpawnPrimaryListener (remoc_port env); Serve 3030].

(** ** Properties *)

Lemma get_env_some {T} env (from_str : string → option T) x f v :
  get_env env from_str x f = Some v → f v = true ∧ ∃ s, env x = Some s ∧ from_str s = Some v.
Proof.
  unfold get_env. destruct (env x) as [s|]; simpl; [|done]. destruct (from_str s) as [w|] eqn:E; simpl; [|done].
  destruct (f w) eqn:Ef; [|done]. intros [= <-]. eauto.
Qed.

(** A time in milliseconds: the default, or more than ten seconds, unless the number of
    seconds is so large that the product wraps. *)
Definition time_ok (default_time time : Z) : Prop :=
  time = default_time ∨ ∃ seconds, 10 < seconds ∧
    (seconds * 1000 <= u64_MAX → time = seconds * 1000) ∧ 0 <= time <= u64_MAX.

Definition nodes_ok (default_nodes nodes : Z) : Prop := nodes = default_nodes ∨ 4 < nodes.

Lemma time_ok_env env x d :
  time_ok d (match get_env env (parse_unsigned u64_MAX) x (λ v, 10 <? v) with
             | Some v => wrap 64 (v * 1000) | None => d end).
Proof.
  destruct (get_env _ _ _ _) as [v|] eqn:E; [|by left].
  apply get_env_some in E as [Hv _]. apply Z.ltb_lt in Hv. right. exists v. split; [done|].
  pose proof (wrap_range 64 (v * 1000) ltac:(lia)). split; [|lia].
  intros Hm. apply wrap_id. lia.
Qed.

Lemma nodes_ok_env env x d :
  nodes_ok d (match get_env env parse_nonzero x (λ v, 4 <? v) with Some v => v | None => d end).
Proof.
  destruct (get_env _ _ _ _) as [v|] eqn:E; [|by left].
  apply get_env_some in E as [Hv _]. apply Z.ltb_lt in Hv. by right.
Qed.

(** Whatever the environment says, the configuration of the cluster is within its bounds:
    each time is the default or more than ten seconds, converted to milliseconds (as long as
    that fits in 64 bits), each number of nodes is the default or at least five, and the
    connection timeout is the default. *)
Theorem cluster_config_bounds d env :
  let c := cluster_config d env in
  time_ok (update_interval d) (update_interval c) ∧ time_ok (election_timeout d) (election_timeout c) ∧
  nodes_ok (max_node d) (max_node c) ∧ nodes_ok (min_node d) (min_node c) ∧
  connection_timeout c = connection_timeout d.
Proof.
  pose proof (time_ok_env env "CLUSTER_UPDATE_INTERVAL" (update_interval d)) as H1.
  pose proof (time_ok_env env "CLUSTER_ELECTION_TIMEOUT" (election_timeout d)) as H2.
  pose proof (nodes_ok_env env "CLUSTER_MAX_NODE" (max_node d)) as H3.
  pose proof (nodes_ok_env env "CLUSTER_MIN_NODE" (min_node d)) as H4.
  simpl. unfold cluster_config.
  destruct (get_env env (parse_unsigned u64_MAX) "CLUSTER_UPDATE_INTERVAL" _);
  destruct (get_env env (parse_unsigned u64_MAX) "CLUSTER_ELECTION_TIMEOUT" _);
  destruct (get_env env parse_nonzero "CLUSTER_MAX_NODE" _);
  destruct (get_env env parse_nonzero "CLUSTER_MIN_NODE" _); by split_and!.
Qed.

(** An interval of 2^61 seconds wraps to no interval at all, and the largest number of
    nodes may be below the smallest. *)
Theorem cluster_config_surprises d :
  let env v := if String.eqb v "CLUSTER_UPDATE_INTERVAL" then Some "2305843009213693952"%string
               else if String.eqb v "CLUSTER_MAX_NODE" then Some "5"%string
               else if String.eqb v "CLUSTER_MIN_NODE" then Some "9"%string else None in
  update_interval (cluster_config d env) = 0 ∧ max_node (cluster_config d env) < min_node (cluster_config d env).
Proof. vm_compute. split; [done|reflexivity]. Qed.

(** The server's port is fixed, but the secondaries download from the configured port. *)
Theorem http_port_not_served cluster k8s d :
  let env v := if String.eqb v "HTTP_ENDPOINT_PORT" then Some "8080"%string else None in
  http_port env = 8080 ∧ Serve 8080 ∉ main cluster k8s d env.
Proof.
  intros env. split; [reflexivity|]. unfold main.
  destruct cluster; simpl; [destruct (k8s _ _)|]; simpl; set_solver.
Qed.
